(* ===== verification/_CoqProject ===== *)
-Q . S2P
Prelude.v
PyFloat.v
PyText.v
PyStr.v
Sandbox.v
Schemas.v
ResultMapper.v
Scoring.v
Checker.v
JudgeConfig.v
FileCache.v
FileCacheProofs.v
FileCacheSpec.v
FileCachePolicy.v
FileCacheWitness.v
CacheLocks.v
LanguageConfig.v
DataLoader.v
Runtime.v
SandboxConfig.v
CaseBuilder.v
ModeBase.v
StandardMode.v
SpjMode.v
InteractiveMode.v
Orchestrator.v
JudgeWitness.v
PyList.v
ModuleSpecs.v
ModuleProofs.v
ModuleLoader.v
ModuleWitness.v
Events.v
SessionStore.v
SessionProofs.v
SessionIndex.v
SessionRefinement.v
SessionWitness.v
Permissions.v
AccessControl.v
RateLimit.v
Encoding.v
Settings.v
Drawing.v
Png.v
Captcha.v
CaptchaProofs.v
CaptchaTheorems.v
AuditQueue.v
Metrics.v
Middleware.v
MiddlewareProofs.v
MiddlewareWitness.v
StorageUrl.v
LocalStore.v
RemoteStore.v
ConfigValues.v
StorageManager.v
LogFile.v
LogFileProofs.v
LogFileTheorems.v
Passwords.v
ProcessGroup.v
AsyncRunner.v
ConfigSync.v
Pagination.v
ErrorHandlers.v
Lifespan.v
WorkerTasks.v
OpenApi.v
Datetime.v
DatetimeProofs.v
ConfigThread.v
Mail.v
Json.v
LogFormat.v
Tracing.v
AppFactory.v
WorkerProcess.v
OpsScripts.v
