(* ===== verification/Prelude.v ===== *)
(** * acoj-worker: a verified model of the judge worker

    The worker takes judge tasks from a Celery queue, compiles and runs the
    submitted program in a sandbox, compares or checks its output and answers
    with a result record (src/app/modules/judge). Around it stands a platform
    layer: a plug-in module system, an event bus, login sessions and permissions
    kept in Redis, and HTTP middleware (src/app/platform, src/app/core,
    src/app/deps, src/app/middleware). This library translates both from the
    Python source and proves what they promise.

    ** How code is represented

    Code that reads and writes state and raises is a function of the monad
    [io W A := W → outcome A * W] (below): changes made before an exception stay,
    [try_except], [try_finally] and [foreach] are Python's statements, and
    [try_finally_locals] gives a [finally] clause the local variables as they are
    when the body is left. Exceptions are the type [exn]. [float] is binary64
    computed by the Standard Library's SpecFloat (PyFloat); a [str] is its UTF-8
    encoding where it is a key, path or message (PyStr) and the list of its code
    points where the code slices or strips it (PyText); dicts are [gmap]s, or
    association lists where the order of insertion is observable (PyList).

    ** The files, and what they model

    Judging (src/app/modules/judge):
    - Sandbox, Schemas, JudgeConfig: the objects of the sandbox package as far as
      the worker reads them, schemas.py, config.py;
    - ResultMapper (result_mapper.py, metrics.py), Scoring (scoring.py), Checker
      (checker.py), LanguageConfig (language_config.py and [shlex.split]);
    - FileCache (file_cache.py) over a world of files, directories, clock, busy keys
      and calls that fail, where a path with [..] leads to the file the system
      resolves it to, with
      FileCacheProofs (content integrity over any sequence of operations),
      FileCacheSpec (a resolution branch by branch), FileCachePolicy (LRU and TTL)
      and FileCacheWitness; CacheLocks (the key locks and the initialisation lock
      of file_cache.py) as interleaved steps of threads;
    - DataLoader (data_loader.py), Runtime (the world of a run: the external
      state, and a ledger of the resources opened and closed), SandboxConfig
      (sandbox_config.py), CaseBuilder (case_builder.py);
    - ModeBase (modes/base.py), StandardMode, SpjMode, InteractiveMode (the modes),
      Orchestrator (modes/__init__.py, orchestrator.py, tasks.py), JudgeWitness.

    Modules, sessions, permissions:
    - ModuleSpecs (module/spec.py, discovery.py) and ModuleProofs, ModuleLoader
      (loader.py, hooks.py, router.py, services.py, interfaces/__init__.py),
      ModuleWitness; Events (events.py);
    - SessionStore (core/security/session.py, cache/keys.py), SessionProofs,
      SessionIndex (with pruning), SessionRefinement (the store against a map of
      sessions), SessionWitness;
    - Permissions (permission_registry.py), AccessControl (permission.py,
      account_type.py, data_scope.py, network/client_ip.py, deps/auth.py),
      RateLimit (middleware/rate_limit.py).

    Transport security (core/security/transport.py, password.py, and the policies):
    - Encoding (base64, big-endian numbers, CRC-32, strict UTF-8), Settings
      (core/config/settings.py), Drawing (the pixels of the captcha), Png (its file
      format), Captcha (the captcha and the one-time password keys), CaptchaProofs,
      CaptchaTheorems;
    - Passwords (password_policy.py, masking.py).

    HTTP and observability:
    - AuditQueue (platform/audit/queue.py) as interleaved steps of callers and
      writer; Metrics (platform/observability/metrics.py and
      modules/judge/pool_metrics.py);
    - Middleware (src/app/middleware, deps/context.py and the stack of factory.py),
      MiddlewareProofs, MiddlewareWitness;
    - ErrorHandlers and OpenApi (core/exceptions: the handlers, and the error
      responses of the OpenAPI document), Pagination (core/response/pagination.py);
    - Datetime (core/schema/datetime.py and base.py, with the calendar of Python's
      [datetime]), DatetimeProofs;
    - LogFile (core/logger/file_handler.py) on a file system of inodes whose calls
      may fail, LogFileProofs, LogFileTheorems; Json ([json.dumps] of a flat dict)
      and LogFormat (observability/context.py, logging.py, core/logger/formatter.py
      and setup.py); Tracing (observability/tracing.py);
    - Mail (platform/email/sender.py) as a dialogue with the server.

    Configuration, storage, life of a process:
    - StorageUrl (platform/storage/url.py), LocalStore (local.py, on a tree with
      symbolic links), RemoteStore (s3.py, oss.py), ConfigValues (platform/config:
      coercion, encryption, the reader, overrides, module settings),
      StorageManager (manager.py);
    - ConfigSync (platform/config/sync.py): the listener as a machine that stands at
      the await it waits in, and ConfigThread, its threads beside their caller;
      ProcessGroup (platform/runtime/process_group.py);
      AsyncRunner (platform/tasks/async_runner.py); WorkerTasks (platform/tasks,
      modules/judge/celery_setup.py);
    - Lifespan (lifespan.py with cache/redis.py and http/client.py), composed from
      AuditQueue, ConfigSync, ModuleLoader and Permissions; WorkerProcess (the hooks
      of platform/tasks/celery_app.py), composed from Lifespan, AsyncRunner and
      WorkerTasks; AppFactory (factory.py), composed from LogFormat, ModuleSpecs,
      ModuleLoader, Tracing and Middleware;
    - OpsScripts (main.py, gunicorn.conf.py, the scripts under scripts/ops and what they
      call of tests/judge_helper.py).

    The orchestrator calls one of the three modes; a mode loads its test data
    (DataLoader, through FileCache when it is remote), builds sandbox cases
    (CaseBuilder, SandboxConfig), runs them through the interface classes of
    Runtime, and turns the answers into entries and a verdict (Checker,
    ResultMapper, Scoring). AccessControl calls the session store's [get] and the
    address resolution; the module system feeds the loader, the router and the
    service registry.

    ** Interfaces to code that is not in the repository

    Each is a class of operations, and where a theorem relies on documented
    behaviour, a second class of laws with a concrete instance in a witness:
    the sandbox and the host ([SandboxApi], [InteractApi], [JudgeEnv] with
    [SandboxLaws]), the storage client and the meta codec of the cache, the task
    models ([Pydantic]), the import system ([Importlib], [ModuleApi]), Redis
    ([RedisApi] with [RedisLaws], [RegistryRedis] with [RegistryLaws], [RateEnv]
    with [RateLaws]), RSA, bcrypt and the random generator ([TransportApi] with
    [TransportLaws]), compression ([Zlib] with [ZlibLaws]), the metrics registry
    ([HasMetrics] with [MetricsLaws]), Starlette's requests ([HttpEnv]), URLs
    ([UrlLib]), the object stores ([S3Api], [OssApi]), numbers and JSON
    ([PyValues], [JsonDumps] with [JsonLaws]), [Fernet] with [FernetLaws], the
    configuration reader as its listener sees it ([ReaderApi] with [ReaderLaws],
    discharged for the reader in Lifespan), client connections ([ClientApi]),
    address parsing ([IpAddress]), the texts of floats ([FloatRepr] with
    [FloatReprLaws]), the mail server (its answers), pydantic's validation of
    fields ([copies_datetimes]), the clocks.

    ** What the theorems show

    - Every judge task is answered: a result for its submission, COMPLETED with a
      verdict or FAILED with an error (Orchestrator); only interrupts that are not
      an [Exception] escape.
    - Verdicts: ACM stops at the first failure and pads with SKIPPED; an AC means
      a successful compilation and full points or no failing case; the shape and
      score of special-judge and interactive results (the modes); batch scoring
      refines a declarative specification and is all or nothing per batch
      (Scoring); the chunked comparison of files is the comparison of the stripped
      texts (Checker).
    - Resources: clients, programs, batch results, descriptors and directories are
      closed exactly once on every path after they are registered, where closing does
      not raise; those opened before the [try] of the interactive mode are lost when
      one of the calls there raises (InteractiveMode, JudgeWitness).
    - File cache: entries stored under a digest keep it whatever operations run and
      whatever calls fail, as long as the objects resolved by name have no [..]
      component (with one they do not: FileCacheWitness); what a resolution does on
      each branch; LRU eviction removes the oldest entries and no more than needed,
      for entries whose names have no directory part (those with one are counted and
      not removed); what a failed write or removal leaves (FileCachePolicy).
    - Modules: the load order is a dependency-first permutation, a cycle is
      reported exactly when there is one, a load has distinct enabled modules.
    - Cache locks: threads exclude each other per key, cannot deadlock and finish.
    - Sessions: every run of the store is a run of a map from tokens to sessions
      (SessionRefinement: set, get, touch, delete, prune, refresh, log out); set/get round
      trip, exact deletion, logging accounts out, pruning to the newest sessions; idle sessions are refused but not deleted.
    - Permissions: the scan, its round trip through Redis, the checks made with
      it, data scopes, and what a request must have to pass [require_permission];
      the rate limit holds in every sliding window for requests counted in the order
      of the times they read, no two the same; without either it does not (RateLimit).
    - Transport: the image of a captcha shows exactly its characters, a captcha and
      a password key are good for one use, keys round-trip; masking hides what it
      masks; the password policy.
    - Requests: what the middleware stack audits, which headers answers carry, and
      that every exception is answered once and leaks nothing; the error
      responses of the OpenAPI document.
    - Times: a printed time denotes the instant, in every zone and year; serialised
      values hold no datetime; the fields of a schema hold UTC.
    - Audit queue: order and bound in every interleaving, and that the writer drains
      its queue whatever exceptions the subscribers raise. Log files:
      nothing is lost or overwritten whatever fails; one line per record when
      nothing does; a file that could not be opened silences its day. A JSON log
      line is one line and can be read back.
    - Mail: the commands sent and how a delivery ends; TLS comes before the password
      and the message; no header has a second line.
    - Storage: no name leaves the storage directory; what is uploaded is downloaded;
      addresses lead back to their objects; one client per configuration.
    - Configuration: coerced values are of the declared type, but for the elements of
      lists and dicts and for texts a class refuses, and so are overridden settings; secrets
      are encrypted where the code does it; a change published by one process
      reloads every other one once, and the listener survives its connection, closing
      each before it makes the next; its
      thread is stopped in three steps once it runs, and there is one at a time as
      long as stops wait for it.
    - Construction: the routes and the services come from one load of the modules.
    - Processes: what startup leaves, what shutdown releases and what it leaves when
      one of its calls raises, what the hooks of a worker process leave, the
      termination of children, one event loop per worker for callers that neither come
      while a loop starts nor close the runner inside a [run], and the two races that
      break it, one count per task, pages of results.

    ** Bounds and fuel

    [visit] of the topological sort takes fuel one more than the number of
    modules: every nested call lengthens the path, which never repeats
    ([visit_spec]). [emit] takes fuel above the number of handlers; a handler that
    subscribes to the event being emitted can make the source loop for ever, so
    [emit_runs_all] assumes it does not. [_draw_line] needs max(|dx|, |dy|) + 1
    rounds ([draw_line_terminates]); [next_counter] of a rotation tries one more
    number than there are names ([next_counter_total]); [drain] of a loop takes a step
    for each task handed over and one to start ([drain_queue]); [walk] of LocalStore follows at most
    [max_links] symbolic links, as the kernel does; [wait_loop] of the burst script needs
    a round for every 50 ms of its timeout and one more ([wait_result_ends]). Recursion elsewhere is
    structural. The scores and times are floats with rounding; counters are
    Python's unbounded integers. Python's own recursion limit is not modelled.

    ** What is not modelled

    Coroutines and worker threads run one operation at a time here, except where a
    file says that it models their steps (AuditQueue, ConfigSync, ConfigThread,
    AsyncRunner, CacheLocks), that file-cache keys may be held by others and that other
    processes may change files and sets between operations. The calls of the file
    cache that only read the file system do not fail, and no directory stands where it
    expects a file. Left out, because they
    only hand values to a library or declare data: reading environment variables
    into settings, the pydantic models of core/schema other than the base schema,
    what FastAPI does with the application it is given, the resource and exporter
    classes of OpenTelemetry, the generation of tokens and snowflake identifiers. The
    tests are left out, but for the helper the burst script imports. *)
From Stdlib Require Export ZArith.
From stdpp Require Export base tactics list option strings gmap sorting.

(** ** Notation scope of the development *)
Declare Scope py_scope.
Delimit Scope py_scope with py.

(** ** Python exceptions

    One constructor per exception class the modelled code raises or catches by
    name; [OtherError] stands for any other subclass of [Exception] (a library's
    own errors) and [BaseExc] for the classes that [except Exception] does not
    catch ([KeyboardInterrupt], [SystemExit], [asyncio.CancelledError]). *)
Inductive exn :=
| ValueError (msg : string)
| TypeError (msg : string)
| KeyError (msg : string)
| AttributeError (msg : string)
| RuntimeError (msg : string)
| OSError (msg : string)
| FileNotFoundError (msg : string)
| JSONDecodeError (msg : string)
| BusinessError (msg : string)
| AuthenticationError (msg : string)
| AuthorizationError (msg : string)
| OtherError (cls msg : string)
| BaseExc (cls : string).

#[export] Instance exn_eq_dec : EqDecision exn.
Proof. solve_decision. Defined.

(** [isinstance(e, Exception)]. *)
Definition is_exception (e : exn) : bool :=
  match e with BaseExc _ => false | _ => true end.

(** [isinstance(e, OSError)]; [FileNotFoundError] is a subclass. *)
Definition is_os_error (e : exn) : bool :=
  match e with OSError _ | FileNotFoundError _ => true | _ => false end.

(** [str(exc)]: the message of the exception. *)
Definition exn_str (e : exn) : string :=
  match e with
  | ValueError m | TypeError m | KeyError m | AttributeError m | RuntimeError m
  | OSError m | FileNotFoundError m | JSONDecodeError m | BusinessError m
  | AuthenticationError m | AuthorizationError m | OtherError _ m => m
  | BaseExc _ => ""
  end.

(** [exc.__class__.__name__] *)
Definition exn_class (e : exn) : string :=
  match e with
  | ValueError _ => "ValueError" | TypeError _ => "TypeError" | KeyError _ => "KeyError"
  | AttributeError _ => "AttributeError" | RuntimeError _ => "RuntimeError" | OSError _ => "OSError"
  | FileNotFoundError _ => "FileNotFoundError" | JSONDecodeError _ => "JSONDecodeError"
  | BusinessError _ => "BusinessError" | AuthenticationError _ => "AuthenticationError"
  | AuthorizationError _ => "AuthorizationError" | OtherError cls _ => cls | BaseExc cls => cls
  end.

(** ** Outcomes and the state-and-exception monad

    A piece of Python code that reads and writes a world [W] is a function from
    the world to an outcome and the world it leaves: state changes made before
    an exception stay. *)
Inductive outcome (A : Type) :=
| Ret (a : A)
| Raise (e : exn).
Arguments Ret {A} a.
Arguments Raise {A} e.

#[export] Instance outcome_eq_dec `{EqDecision A} : EqDecision (outcome A).
Proof. solve_decision. Defined.

#[export] Instance outcome_ret : MRet outcome := @Ret.
#[export] Instance outcome_bind : MBind outcome := λ A B f o,
  match o with Ret a => f a | Raise e => Raise e end.

Definition io (W A : Type) : Type := W → outcome A * W.

#[export] Instance io_ret W : MRet (io W) := λ A a w, (Ret a, w).
#[export] Instance io_bind W : MBind (io W) := λ A B f m w,
  match m w with
  | (Ret a, w') => f a w'
  | (Raise e, w') => (Raise e, w')
  end.

(** Running a bind whose first part is known. *)
Lemma run_ret {W A B} (m : io W A) (f : A → io W B) w a w' :
  m w = (Ret a, w') → (m ≫= f) w = f a w'.
Proof. intros Hm. unfold mbind, io_bind. by rewrite Hm. Qed.
Lemma run_raise {W A B} (m : io W A) (f : A → io W B) w e w' :
  m w = (Raise e, w') → (m ≫= f) w = (Raise e, w').
Proof. intros Hm. unfold mbind, io_bind. by rewrite Hm. Qed.

Definition raise {W A} (e : exn) : io W A := λ w, (Raise e, w).
Definition get {W} : io W W := λ w, (Ret w, w).
Definition gets {W A} (f : W → A) : io W A := λ w, (Ret (f w), w).
Definition modify {W} (f : W → W) : io W () := λ w, (Ret (), f w).
Definition lift {W A} (o : outcome A) : io W A := λ w, (o, w).

(** [try: m except <handled classes>: h e]; the test says which classes the
    clause names. *)
Definition try_except {W A} (m : io W A) (handles : exn → bool) (h : exn → io W A) : io W A :=
  λ w, match m w with
       | (Ret a, w') => (Ret a, w')
       | (Raise e, w') => if handles e then h e w' else (Raise e, w')
       end.

(** [try: m finally: fin]; an exception of [fin] replaces the outcome of [m]. *)
Definition try_finally {W A} (m : io W A) (fin : io W ()) : io W A :=
  λ w, let '(o, w1) := m w in
       match fin w1 with
       | (Ret _, w2) => (o, w2)
       | (Raise e, w2) => (Raise e, w2)
       end.

(** Local variables that a [finally] clause reads: the body runs with the locals
    [S] beside the world, the clause sees the values they have when the body is
    left. *)
Definition up {S W A} (m : io W A) : io (S * W) A :=
  λ sw, let '(o, w') := m sw.2 in (o, (sw.1, w')).
Definition get_locals {S W} : io (S * W) S := gets fst.
Definition set_locals {S W} (f : S → S) : io (S * W) () := modify (λ sw, (f sw.1, sw.2)).
Definition try_finally_locals {S W A} (init : S) (m : io (S * W) A) (fin : S → io W ()) : io W A :=
  λ w, let '(o, (s, w1)) := m (init, w) in
       match fin s w1 with
       | (Ret _, w2) => (o, w2)
       | (Raise e, w2) => (Raise e, w2)
       end.

(** [for x in l: acc = body(acc, x)]: [continue] is returning early from the
    body, an exception leaves the loop. *)
Fixpoint foreach {W A B} (l : list A) (acc : B) (body : B → A → io W B) : io W B :=
  match l with
  | [] => mret acc
  | x :: l' => acc' ← body acc x; foreach l' acc' body
  end.

(** Inverting a run that returns. *)
Lemma bind_Ret_inv {W A B} (m : io W A) (f : A → io W B) w b w' :
  (m ≫= f) w = (Ret b, w') → ∃ a w1, m w = (Ret a, w1) ∧ f a w1 = (Ret b, w').
Proof. unfold mbind, io_bind. destruct (m w) as [[a|e] w1]; [eauto|done]. Qed.

Lemma up_Ret_inv {S W A} (m : io W A) (sw sw' : S * W) a :
  up m sw = (Ret a, sw') → m sw.2 = (Ret a, sw'.2) ∧ sw'.1 = sw.1.
Proof. unfold up. destruct (m sw.2) as [o w1]. by intros [= -> <-]. Qed.

Lemma finally_locals_Ret_inv {S W A} (init : S) (m : io (S * W) A) fin w a w' :
  try_finally_locals init m fin w = (Ret a, w') →
  ∃ s w1, m (init, w) = (Ret a, (s, w1)) ∧ fin s w1 = (Ret (), w').
Proof.
  unfold try_finally_locals. destruct (m (init, w)) as [o [s w1]].
  destruct (fin s w1) as [[[]|e] w2] eqn:Hf; intros [= -> ->]; eauto.
Qed.

(** Take apart the runs that returned. *)
Ltac inv_runs :=
  repeat match goal with
  | H : (_ ≫= _) _ = (Ret _, _) |- _ =>
      let a := fresh "a" in let w := fresh "w" in let H1 := fresh "Hm" in
      apply bind_Ret_inv in H as (a & w & H1 & H)
  end.

(** What every returning run of a loop establishes. *)
Lemma foreach_Ret_inv {W A B} (I : list A → B → Prop) (l : list A) (acc : B) (body : B → A → io W B) w acc' w' :
  I [] acc →
  (∀ pre x acc w acc' w', I pre acc → body acc x w = (Ret acc', w') → I (pre ++ [x]) acc') →
  foreach l acc body w = (Ret acc', w') → I l acc'.
Proof.
  intros H0 Hbody. enough (∀ pre acc w, I pre acc → foreach l acc body w = (Ret acc', w') → I (pre ++ l) acc')
    as Hgen by (intros Hr; by eapply (Hgen [])).
  clear H0. revert acc. induction l as [|x l IH]; intros acc0 pre acc1 w1 HI; simpl.
  - intros [= -> ->]. by rewrite app_nil_r.
  - intros (acc2 & w2 & Hb & Hr)%bind_Ret_inv.
    rewrite (assoc_L (++) pre [x] l : pre ++ x :: l = (pre ++ [x]) ++ l). eapply (IH acc2); [|exact Hr].
    by eapply Hbody.
Qed.

(** [if b: m] *)
Definition when {W} (b : bool) (m : io W ()) : io W () :=
  if b then m else mret ().

(** ** Weakest preconditions: the rules the components' proofs use *)
Definition wp {W A} (m : io W A) (Q : outcome A → W → Prop) (w : W) : Prop :=
  Q (m w).1 (m w).2.
#[global] Arguments wp : simpl never.

Section wp_rules.
Context {W A B : Type}.
Implicit Types (w : W).

Lemma wp_ret (a : A) (Q : outcome A → W → Prop) w : Q (Ret a) w → wp (mret a) Q w.
Proof. done. Qed.

Lemma wp_raise e (Q : outcome A → W → Prop) w : Q (Raise e) w → wp (raise (A:=A) e) Q w.
Proof. done. Qed.

Lemma wp_gets (f : W → A) (Q : outcome A → W → Prop) w :
  Q (Ret (f w)) w → wp (gets f) Q w.
Proof. done. Qed.

Lemma wp_modify (f : W → W) (Q : outcome () → W → Prop) w :
  Q (Ret ()) (f w) → wp (modify f) Q w.
Proof. done. Qed.

Lemma wp_bind (m : io W A) (f : A → io W B) (Q : outcome B → W → Prop) w :
  wp m (λ o w', match o with Ret a => wp (f a) Q w' | Raise e => Q (Raise e) w' end) w →
  wp (m ≫= f) Q w.
Proof.
  unfold wp, mbind, io_bind. by destruct (m w) as [[a|e] w'].
Qed.

Lemma wp_mono (m : io W A) (P Q : outcome A → W → Prop) w :
  wp m P w → (∀ o w', P o w' → Q o w') → wp m Q w.
Proof. unfold wp. eauto. Qed.

Lemma wp_try_except (m : io W A) (handles : exn → bool) h (Q : outcome A → W → Prop) w :
  wp m (λ o w', match o with
                | Ret a => Q (Ret a) w'
                | Raise e => if handles e then wp (h e) Q w' else Q (Raise e) w'
                end) w →
  wp (try_except m handles h) Q w.
Proof.
  unfold wp, try_except. destruct (m w) as [[a|e] w1]; simpl; [auto|].
  destruct (handles e); auto.
Qed.

Lemma wp_try_finally (m : io W A) fin (Q : outcome A → W → Prop) w :
  wp m (λ o w1, wp fin (λ o2 w2, Q (match o2 with Ret _ => o | Raise e => Raise e end) w2) w1) w →
  wp (try_finally m fin) Q w.
Proof.
  unfold wp, try_finally. destruct (m w) as [o w1]; simpl.
  destruct (fin w1) as [[[]|e] w2]; auto.
Qed.

Lemma wp_when b (m : io W ()) (Q : outcome () → W → Prop) w :
  (b = true → wp m Q w) → (b = false → Q (Ret ()) w) → wp (when b m) Q w.
Proof. destruct b; naive_solver. Qed.

End wp_rules.

(** The loop rule: an invariant indexed by the elements already processed. *)
Lemma wp_foreach {W A B} (I : list A → B → W → Prop) (R : exn → W → Prop)
    (l done_ : list A) (acc : B) (body : B → A → io W B) w :
  I done_ acc w →
  (∀ pre x post acc' w', done_ ++ l = pre ++ x :: post → I pre acc' w' →
     wp (body acc' x)
        (λ o w'', match o with Ret b => I (pre ++ [x]) b w'' | Raise e => R e w'' end) w') →
  wp (foreach l acc body)
     (λ o w', match o with Ret b => I (done_ ++ l) b w' | Raise e => R e w' end) w.
Proof.
  revert done_ acc w. induction l as [|x l IH]; intros d acc w HI Hbody.
  - by rewrite app_nil_r.
  - simpl. apply wp_bind. eapply wp_mono; [by apply (Hbody d x l)|].
    intros [b|e] w' H; [|done].
    assert (d ++ x :: l = (d ++ [x]) ++ l) as Heq by by rewrite <-app_assoc.
    rewrite Heq. apply IH; [done|]. intros pre y post acc' w'' Hs. apply (Hbody pre y post).
    by rewrite Heq.
Qed.

Create HintDb wp_db.
#[export] Hint Resolve wp_ret wp_raise wp_gets wp_modify : wp_db.

(** Step through a monadic program: binds first, then the handlers. *)
Ltac wp_step :=
  first
    [ apply wp_bind | apply wp_try_finally | apply wp_try_except
    | apply wp_ret | apply wp_raise | apply wp_gets | apply wp_modify ].
Ltac wp_steps := repeat (wp_step; simpl).

(** ** Python truthiness: [x or y] on optional values *)
Definition z_or (o : option Z) (d : Z) : Z :=
  match o with Some z => if (z =? 0)%Z then d else z | None => d end.

Definition str_truthy (s : string) : bool :=
  match s with EmptyString => false | _ => true end.

Definition opt_str_or (o : option string) (d : string) : string :=
  match o with Some s => if str_truthy s then s else d | None => d end.

(** [o.truthy()] of an optional string ([if x:]). *)
Definition opt_str_truthy (o : option string) : bool :=
  match o with Some s => str_truthy s | None => false end.

Definition list_or {A} (o : option (list A)) (d : list A) : list A :=
  match o with Some (x :: l) => x :: l | _ => d end.

(** [dict.fromkeys(l)] as a list: the first occurrence of every element, in
    order. *)
Definition fromkeys_step {A} `{EqDecision A} (seen : list A) (x : A) : list A :=
  if decide (x ∈ seen) then seen else seen ++ [x].
Definition fromkeys {A} `{EqDecision A} (l : list A) : list A :=
  foldl fromkeys_step [] l.

Section fromkeys.
Context {A : Type} `{EqDecision A}.
Implicit Types (l seen : list A) (x y : A).

Lemma fromkeys_step_NoDup seen x : NoDup seen → NoDup (fromkeys_step seen x).
Proof.
  intros Hs. unfold fromkeys_step. case_decide; [done|].
  apply NoDup_app. split_and!; [done| |apply NoDup_singleton].
  intros y Hy. rewrite list_elem_of_singleton. by intros ->.
Qed.

Lemma elem_of_fromkeys_step seen x y : y ∈ fromkeys_step seen x ↔ y ∈ seen ∨ y = x.
Proof. unfold fromkeys_step. case_decide; set_solver. Qed.

Lemma foldl_fromkeys_NoDup l seen : NoDup seen → NoDup (foldl fromkeys_step seen l).
Proof.
  revert seen. induction l as [|x l IH]; intros seen Hs; simpl; [done|].
  apply IH. by apply fromkeys_step_NoDup.
Qed.

Lemma elem_of_foldl_fromkeys l seen y :
  y ∈ foldl fromkeys_step seen l ↔ y ∈ seen ∨ y ∈ l.
Proof.
  revert seen. induction l as [|x l IH]; intros seen; simpl; [set_solver|].
  rewrite IH, elem_of_fromkeys_step. set_solver.
Qed.

Lemma fromkeys_NoDup l : NoDup (fromkeys l).
Proof. apply foldl_fromkeys_NoDup. constructor. Qed.

Lemma elem_of_fromkeys l y : y ∈ fromkeys l ↔ y ∈ l.
Proof. unfold fromkeys. rewrite elem_of_foldl_fromkeys. set_solver. Qed.

Lemma fromkeys_snoc l x :
  fromkeys (l ++ [x]) = if decide (x ∈ l) then fromkeys l else fromkeys l ++ [x].
Proof.
  unfold fromkeys at 1. rewrite foldl_app. simpl. fold (fromkeys l).
  unfold fromkeys_step. apply decide_ext, elem_of_fromkeys.
Qed.
End fromkeys.

#[export] Hint Resolve fromkeys_NoDup : core.

(** ** Generic list facts *)
Lemma concat_singletons {A B} (f : A → B) (l : list A) :
  concat (map (λ x, [f x]) l) = map f l.
Proof. induction l as [|x l IH]; simpl; [done|]. by rewrite IH. Qed.

Lemma foldl_fmap_comp {A B C} (f : A → C → A) (g : B → C) (a : A) (l : list B) :
  foldl f a (map g l) = foldl (λ x y, f x (g y)) a l.
Proof. revert a. induction l as [|x l IH]; intros a; simpl; [done|]. apply IH. Qed.

Lemma Forall_filter_sub {A} (P Q : A → Prop) `{∀ x, Decision (Q x)} (l : list A) :
  Forall P l → Forall P (filter Q l).
Proof.
  intros HP. apply Forall_forall. intros x [_ Hx]%list_elem_of_filter. by eapply Forall_forall in HP.
Qed.

Lemma Forall_sublist {A} (P : A → Prop) (l k : list A) : l `sublist_of` k → Forall P k → Forall P l.
Proof. induction 1; rewrite ?Forall_cons; naive_solver. Qed.

(** Discharge a decidable hypothesis at a concrete input by evaluation. *)
Ltac decide_eval := apply (bool_decide_unpack _); vm_compute; exact I.

(** ** Invariants of effectful code

    [preserves I m]: [m] keeps [I], whether it returns or raises.  The rules
    follow the structure of the code, so that [auto with preserves] carries an
    invariant through an operation once the primitive writes are covered. *)
Definition preserves {W A} (I : W → Prop) (m : io W A) : Prop :=
  ∀ w, I w → I (m w).2.

Section preserves_rules.
Context {W : Type} (I : W → Prop).

Lemma preserves_ret {A} (a : A) : preserves I (mret a : io W A).
Proof. by intros w Hw. Qed.
Lemma preserves_raise {A} e : preserves I (raise e : io W A).
Proof. by intros w Hw. Qed.
Lemma preserves_gets {A} (f : W → A) : preserves I (gets f).
Proof. by intros w Hw. Qed.
Lemma preserves_get : preserves I get.
Proof. by intros w Hw. Qed.
Lemma preserves_lift {A} (o : outcome A) : preserves I (lift o : io W A).
Proof. by intros w Hw. Qed.
Lemma preserves_modify (f : W → W) : (∀ w, I w → I (f w)) → preserves I (modify f).
Proof. intros Hf w Hw. by apply Hf. Qed.

Lemma preserves_bind {A B} (m : io W A) (f : A → io W B) :
  preserves I m → (∀ a, preserves I (f a)) → preserves I (m ≫= f).
Proof.
  intros Hm Hf w Hw. specialize (Hm w Hw). unfold mbind, io_bind.
  destruct (m w) as [[a|e] w']; [by apply Hf|done].
Qed.
Lemma preserves_when b (m : io W ()) : preserves I m → preserves I (when b m).
Proof. destruct b; [done|]. intros _. apply preserves_ret. Qed.
Lemma preserves_if {A} (b : bool) (m1 m2 : io W A) :
  preserves I m1 → preserves I m2 → preserves I (if b then m1 else m2).
Proof. by destruct b. Qed.
Lemma preserves_try_except {A} (m : io W A) handles h :
  preserves I m → (∀ e, preserves I (h e)) → preserves I (try_except m handles h).
Proof.
  intros Hm Hh w Hw. specialize (Hm w Hw). unfold try_except.
  destruct (m w) as [[a|e] w']; [done|]. destruct (handles e); [by apply Hh|done].
Qed.
Lemma preserves_try_finally {A} (m : io W A) fin :
  preserves I m → preserves I fin → preserves I (try_finally m fin).
Proof.
  intros Hm Hf w Hw. specialize (Hm w Hw). unfold try_finally.
  destruct (m w) as [o w1]. specialize (Hf w1 Hm). by destruct (fin w1) as [[[]|e] w2].
Qed.
Lemma preserves_foreach {A B} (l : list A) (acc : B) (body : B → A → io W B) :
  (∀ acc x, preserves I (body acc x)) → preserves I (foreach l acc body).
Proof.
  intros Hb. revert acc. induction l as [|x l IH]; intros acc; simpl; [apply preserves_ret|].
  by apply preserves_bind.
Qed.
End preserves_rules.

Create HintDb preserves.
#[export] Hint Resolve preserves_ret preserves_raise preserves_gets preserves_get preserves_lift
  preserves_bind preserves_when preserves_if preserves_try_except preserves_try_finally
  preserves_foreach : preserves.

(** Carry an invariant through a translated operation. *)
Ltac preserve :=
  repeat first
    [ match goal with
      | |- ∀ _, _ => intro
      | |- preserves _ (match ?x with _ => _ end) => destruct x
      | |- preserves _ (let '_ := ?x in _) => destruct x
      end
    | solve [eauto with preserves]
    | apply preserves_bind | apply preserves_when | apply preserves_if
    | apply preserves_try_except | apply preserves_try_finally | apply preserves_foreach ].
