(* ===== verification/PyFloat.v ===== *)
(** Python floats: IEEE-754 binary64, computed by the Standard Library's
    executable specification [SpecFloat] (53 bits of precision, exponent bound
    1024), with the comparison operators and [sum] of Python.  A number that
    Python keeps as an [int] in a float position (the literal [0] of a default,
    an integral JSON number) is its conversion [f_of_Z]: the two agree on every
    integer below 2^53. *)
From Stdlib Require Export SpecFloat.
From S2P Require Import Prelude.

Notation f64 := spec_float.

#[export] Instance f64_eq_dec : EqDecision spec_float.
Proof. solve_decision. Defined.

Definition fprec : Z := 53.
Definition femax : Z := 1024.

Definition fzero : f64 := S754_zero false.
Definition f_of_Z (z : Z) : f64 := binary_normalize fprec femax z 0 false.
(** [m * 2^e], correctly rounded: decimal literals are given as quotients. *)
Definition fadd (a b : f64) : f64 := SFadd fprec femax a b.
Definition fsub (a b : f64) : f64 := SFsub fprec femax a b.
Definition fmul (a b : f64) : f64 := SFmul fprec femax a b.
Definition fdiv (a b : f64) : f64 := SFdiv fprec femax a b.

(** [a < b], [a <= b], [a >= b], [a == b]: all false on a NaN. *)
Definition flt (a b : f64) : bool :=
  match SFcompare a b with Some Lt => true | _ => false end.
Definition fle (a b : f64) : bool :=
  match SFcompare a b with Some Lt | Some Eq => true | _ => false end.
Definition fge (a b : f64) : bool := fle b a.
Definition feq (a b : f64) : bool :=
  match SFcompare a b with Some Eq => true | _ => false end.

(** [max(a, b)]: the first argument unless the second one is greater. *)
Definition fmax (a b : f64) : f64 := if flt a b then b else a.

(** [bool(x)]: only the zeros are falsy. *)
Definition f_truthy (a : f64) : bool :=
  match a with S754_zero _ => false | _ => true end.

(** [sum(xs)]: a left fold from the integer 0. *)
Definition fsum (l : list f64) : f64 := foldl fadd fzero l.

(** ** Non-negative numbers are closed under addition *)
Definition nonneg (a : f64) : bool :=
  match a with
  | S754_zero _ | S754_infinity false | S754_finite false _ _ => true
  | _ => false
  end.

Lemma shr_1_nonneg r : (0 ≤ shr_m r)%Z → (0 ≤ shr_m (shr_1 r))%Z.
Proof. destruct r as [m ? ?]. destruct m as [|[]|]; simpl; lia. Qed.

Lemma iter_pos_shr_nonneg p r :
  (0 ≤ shr_m r)%Z → (0 ≤ shr_m (SpecFloat.iter_pos shr_1 p r))%Z.
Proof.
  revert r. induction p as [p IH|p IH|]; simpl; intros r Hr; auto using shr_1_nonneg.
Qed.

Lemma shr_nonneg r e n : (0 ≤ shr_m r)%Z → (0 ≤ shr_m (shr r e n).1)%Z.
Proof. intros. unfold shr. destruct n; simpl; auto using iter_pos_shr_nonneg. Qed.

Lemma shr_record_of_loc_m m l : shr_m (shr_record_of_loc m l) = m.
Proof. by destruct l as [|[]]. Qed.

Lemma shr_fexp_nonneg p em m e l : (0 ≤ m)%Z → (0 ≤ shr_m (shr_fexp p em m e l).1)%Z.
Proof. intros. unfold shr_fexp. apply shr_nonneg. by rewrite shr_record_of_loc_m. Qed.

Lemma round_nearest_even_nonneg m l : (0 ≤ m)%Z → (0 ≤ round_nearest_even m l)%Z.
Proof. intros. destruct l as [|[]]; simpl; [lia| |lia|lia]. destruct (Z.even m); lia. Qed.

Lemma binary_round_aux_nonneg p em m e l :
  (0 ≤ m)%Z → nonneg (binary_round_aux p em false m e l) = true.
Proof.
  intros Hm. unfold binary_round_aux.
  pose proof (shr_fexp_nonneg p em m e l Hm) as H1.
  destruct (shr_fexp p em m e l) as [r e1]. simpl in H1.
  pose proof (shr_fexp_nonneg p em (round_nearest_even (shr_m r) (loc_of_shr_record r)) e1
    loc_Exact (round_nearest_even_nonneg _ _ H1)) as H2.
  destruct (shr_fexp _ _ _ _ loc_Exact) as [r2 e2]. simpl in H2.
  destruct (shr_m r2); [done| |lia]. by destruct (_ <=? _)%Z.
Qed.

Lemma binary_normalize_nonneg p em m e :
  (0 ≤ m)%Z → nonneg (binary_normalize p em m e false) = true.
Proof.
  intros Hm. destruct m as [|m|m]; simpl; [done| |lia].
  unfold binary_round. destruct (shl_align _ _ _) as [mz ez]. by apply binary_round_aux_nonneg.
Qed.

Lemma f_of_Z_nonneg z : (0 ≤ z)%Z → nonneg (f_of_Z z) = true.
Proof. apply binary_normalize_nonneg. Qed.

Lemma fadd_nonneg a b : nonneg a = true → nonneg b = true → nonneg (fadd a b) = true.
Proof.
  unfold fadd. destruct a as [[]|[]| |[]], b as [[]|[]| |[]]; try done.
  intros _ _. unfold SFadd. apply binary_normalize_nonneg. simpl. lia.
Qed.

Lemma fzero_nonneg : nonneg fzero = true.
Proof. done. Qed.

Create HintDb pyfloat.
#[export] Hint Resolve fadd_nonneg fzero_nonneg f_of_Z_nonneg : pyfloat.

Lemma foldl_fadd_nonneg l a :
  nonneg a = true → Forall (λ x, nonneg x = true) l → nonneg (foldl fadd a l) = true.
Proof.
  intros Ha Hl. revert a Ha. induction Hl as [|x l Hx _ IH]; simpl; auto with pyfloat.
Qed.

Lemma fsum_nonneg l : Forall (λ x, nonneg x = true) l → nonneg (fsum l) = true.
Proof. by apply foldl_fadd_nonneg. Qed.
#[export] Hint Resolve fsum_nonneg : pyfloat.

Lemma fsum_snoc l x : fsum (l ++ [x]) = fadd (fsum l) x.
Proof. unfold fsum. by rewrite foldl_app. Qed.

(** A sum of zeros is zero: a failed batch contributes nothing. *)
Lemma fsum_replicate_zero n : fsum (replicate n fzero) = fzero.
Proof. unfold fsum. induction n as [|n IH]; simpl; auto. Qed.

Lemma fle_zero_nonneg a : nonneg a = true → fle fzero a = true.
Proof. by destruct a as [[]|[]| |[]]. Qed.

(** ** [round(x, 2)]

    The exact value times one hundred, rounded half to even, then the nearest
    float of that number of hundredths. A float without fraction bits is
    itself. *)
Section rounding.
Open Scope Z_scope.

Definition round_half_even (num den : Z) : Z :=
  let q := num / den in
  let r := num mod den in
  if (2 * r <? den) || ((2 * r =? den) && Z.even q) then q else q + 1.

Definition round2 (x : f64) : f64 :=
  match x with
  | S754_finite s m e =>
      if 0 <=? e then x
      else match round_half_even (Z.pos m * 100) (2 ^ (- e)) with
           | Z.pos k => SFdiv fprec femax (S754_finite s k 0) (S754_finite false 100 0)
           | _ => S754_zero s
           end
  | _ => x
  end.

End rounding.

Example round2_ties :
  round2 (fdiv (f_of_Z 1) (f_of_Z 8)) = fdiv (f_of_Z 12) (f_of_Z 100) ∧
  round2 (fdiv (f_of_Z 3) (f_of_Z 8)) = fdiv (f_of_Z 38) (f_of_Z 100) ∧
  round2 (fdiv (f_of_Z 2675) (f_of_Z 1000)) = fdiv (f_of_Z 267) (f_of_Z 100).
Proof. by vm_compute. Qed.
