(* ===== verification/PyText.v ===== *)
(** Python text: a [str] as the list of its code points, with [strip], slices,
    and the UTF-8 codec the checker relies on ([bytes.decode] with
    [errors=replace], [str.encode]).  Bytes are integers of [0, 256). *)
From S2P Require Import Prelude.
Open Scope Z_scope.

Notation text := (list Z) (only parsing).
Notation byte_list := (list Z) (only parsing).

(** ** Whitespace and [str.strip] *)
Definition is_space (c : Z) : bool :=
  ((9 <=? c) && (c <=? 13)) || ((28 <=? c) && (c <=? 32)) || (c =? 133) || (c =? 160)
  || (c =? 5760) || ((8192 <=? c) && (c <=? 8202)) || (c =? 8232) || (c =? 8233)
  || (c =? 8239) || (c =? 8287) || (c =? 12288).

Fixpoint lstrip (s : text) : text :=
  match s with
  | c :: s' => if is_space c then lstrip s' else s
  | [] => []
  end.
Definition rstrip (s : text) : text := reverse (lstrip (reverse s)).
Definition strip (s : text) : text := rstrip (lstrip s).

(** ** UTF-8 *)
Definition REPLACEMENT : Z := 65533.

Definition in_range (lo hi c : Z) : bool := (lo <=? c) && (c <=? hi).
Definition is_cont (c : Z) : bool := in_range 128 191 c.

(** The range of the second byte of a three-byte and a four-byte sequence. *)
Definition second3 (b c : Z) : bool :=
  if b =? 224 then in_range 160 191 c
  else if b =? 237 then in_range 128 159 c
  else is_cont c.
Definition second4 (b c : Z) : bool :=
  if b =? 240 then in_range 144 191 c
  else if b =? 244 then in_range 128 143 c
  else is_cont c.

(** [bs.decode("utf-8", errors="replace")]: an ill-formed sequence gives one
    replacement character for its longest well-formed prefix. *)
Fixpoint utf8_decode (bs : byte_list) : text :=
  match bs with
  | [] => []
  | b :: r =>
    if in_range 0 127 b then b :: utf8_decode r
    else if in_range 194 223 b then
      match r with
      | c1 :: r1 =>
        if is_cont c1 then ((b - 192) * 64 + (c1 - 128)) :: utf8_decode r1
        else REPLACEMENT :: utf8_decode r
      | [] => [REPLACEMENT]
      end
    else if in_range 224 239 b then
      match r with
      | c1 :: r1 =>
        if second3 b c1 then
          match r1 with
          | c2 :: r2 =>
            if is_cont c2
            then ((b - 224) * 4096 + (c1 - 128) * 64 + (c2 - 128)) :: utf8_decode r2
            else REPLACEMENT :: utf8_decode r1
          | [] => [REPLACEMENT]
          end
        else REPLACEMENT :: utf8_decode r
      | [] => [REPLACEMENT]
      end
    else if in_range 240 244 b then
      match r with
      | c1 :: r1 =>
        if second4 b c1 then
          match r1 with
          | c2 :: r2 =>
            if is_cont c2 then
              match r2 with
              | c3 :: r3 =>
                if is_cont c3
                then ((b - 240) * 262144 + (c1 - 128) * 4096 + (c2 - 128) * 64 + (c3 - 128))
                       :: utf8_decode r3
                else REPLACEMENT :: utf8_decode r2
              | [] => [REPLACEMENT]
              end
            else REPLACEMENT :: utf8_decode r1
          | [] => [REPLACEMENT]
          end
        else REPLACEMENT :: utf8_decode r
      | [] => [REPLACEMENT]
      end
    else REPLACEMENT :: utf8_decode r
  end.

Definition utf8_encode_char (c : Z) : byte_list :=
  if c <? 128 then [c]
  else if c <? 2048 then [192 + c / 64; 128 + c mod 64]
  else if c <? 65536 then [224 + c / 4096; 128 + (c / 64) mod 64; 128 + c mod 64]
  else [240 + c / 262144; 128 + (c / 4096) mod 64; 128 + (c / 64) mod 64; 128 + c mod 64].

(** [s.encode("utf-8")] of a string without surrogates. *)
Definition utf8_encode (s : text) : byte_list := s ≫= utf8_encode_char.

(** The code points that are characters: no surrogates. *)
Definition scalar (c : Z) : Prop := 0 ≤ c < 55296 ∨ 57344 ≤ c < 1114112.

(** ** Slices: [s[i : j]] for [0 <= i] *)
Definition slice {A} (i j : Z) (s : list A) : list A :=
  take (Z.to_nat (j - i)) (drop (Z.to_nat i) s).

(** [range(0, n, step)] *)
Definition range_step (n step : Z) : list Z :=
  map (λ k, Z.of_nat k * step) (seq 0 (Z.to_nat ((n + step - 1) / step))).

(** ** The codec round trip *)
Lemma in_range_true lo hi c : in_range lo hi c = true ↔ lo ≤ c ≤ hi.
Proof. unfold in_range. rewrite andb_true_iff, !Z.leb_le. done. Qed.
Lemma in_range_false lo hi c : in_range lo hi c = false ↔ c < lo ∨ hi < c.
Proof. unfold in_range. rewrite andb_false_iff, !Z.leb_gt. done. Qed.

(** Decide every range test of the goal, by linear arithmetic. *)
Ltac range_solve :=
  repeat match goal with
  | |- context [in_range ?lo ?hi ?c] =>
      first
        [ rewrite (proj2 (in_range_true lo hi c)) by (Z.div_mod_to_equations; lia)
        | rewrite (proj2 (in_range_false lo hi c)) by (Z.div_mod_to_equations; lia) ]
  end.

Lemma decode_encode_char c r :
  scalar c → utf8_decode (utf8_encode_char c ++ r) = c :: utf8_decode r.
Proof.
  unfold scalar, utf8_encode_char. intros Hc.
  destruct (Z.ltb_spec c 128); [|destruct (Z.ltb_spec c 2048); [|destruct (Z.ltb_spec c 65536)]];
    cbn [app utf8_decode]; unfold second3, second4, is_cont; range_solve.
  - done.
  - f_equal. Z.div_mod_to_equations; lia.
  - destruct (Z.eqb_spec (224 + c / 4096) 224); [|destruct (Z.eqb_spec (224 + c / 4096) 237)];
      range_solve; f_equal; Z.div_mod_to_equations; lia.
  - destruct (Z.eqb_spec (240 + c / 262144) 240); [|destruct (Z.eqb_spec (240 + c / 262144) 244)];
      range_solve; f_equal; Z.div_mod_to_equations; lia.
Qed.

Lemma utf8_decode_encode s : Forall scalar s → utf8_decode (utf8_encode s) = s.
Proof.
  induction 1 as [|c s Hc _ IH]; [done|].
  change (utf8_decode (utf8_encode_char c ++ utf8_encode s) = c :: s).
  rewrite decode_encode_char by done. by rewrite IH.
Qed.

Lemma utf8_encode_inj s1 s2 :
  Forall scalar s1 → Forall scalar s2 → utf8_encode s1 = utf8_encode s2 → s1 = s2.
Proof.
  intros H1 H2 Heq. by rewrite <-(utf8_decode_encode s1), <-(utf8_decode_encode s2), Heq.
Qed.

Lemma REPLACEMENT_scalar : scalar REPLACEMENT.
Proof. unfold scalar, REPLACEMENT. lia. Qed.

(** Destruct the tests of the decoder that the hypotheses or the goal meet. *)
Ltac range_cases :=
  repeat match goal with
  | H : in_range _ _ _ = true |- _ => apply in_range_true in H
  | H : in_range _ _ _ = false |- _ => apply in_range_false in H
  | H : context [if ?b =? ?n then _ else _] |- _ => destruct (Z.eqb_spec b n)
  end.

Lemma utf8_decode_scalar bs : Forall scalar (utf8_decode bs).
Proof.
  assert (∀ n bs, (length bs ≤ n)%nat → Forall scalar (utf8_decode bs)) as Hn;
    [|by apply (Hn (length bs))].
  clear bs. intros n. induction n as [|n IH]; intros [|b r] Hlen; simpl in Hlen;
    [constructor|lia|constructor|].
  pose proof REPLACEMENT_scalar as HR.
  simpl. unfold second3, second4, is_cont.
  repeat case_match; subst; simpl in Hlen;
    (apply Forall_cons; split; [|solve [apply IH; simpl; lia | by apply Forall_nil]]); try done;
    range_cases; unfold scalar; lia.
Qed.

(** ** [strip] *)
Lemma lstrip_scalar P s : Forall P s → Forall P (lstrip s).
Proof. induction 1 as [|c s ? ? IH]; simpl; [constructor|]. destruct (is_space c); auto. Qed.

Lemma strip_scalar P s : Forall P s → Forall P (strip s).
Proof. intros. unfold strip, rstrip. by apply Forall_reverse, lstrip_scalar, Forall_reverse, lstrip_scalar. Qed.

(** ** Comparing two lists chunk by chunk *)
Lemma slice_all_eq {A} (step : Z) (a b : list A) (n : nat) :
  0 < step →
  (∀ k, (k < n)%nat →
     slice (Z.of_nat k * step) (Z.of_nat k * step + step) a =
     slice (Z.of_nat k * step) (Z.of_nat k * step + step) b) →
  take (Z.to_nat (Z.of_nat n * step)) a = take (Z.to_nat (Z.of_nat n * step)) b.
Proof.
  intros Hs. induction n as [|n IH]; intros Hk; [done|].
  replace (Z.to_nat (Z.of_nat (S n) * step))
    with (Z.to_nat (Z.of_nat n * step) + Z.to_nat step)%nat by lia.
  rewrite <-!take_take_drop. f_equal.
  - apply IH. intros k Hkn. apply Hk. lia.
  - specialize (Hk n ltac:(lia)). unfold slice in Hk.
    by replace (Z.of_nat n * step + step - Z.of_nat n * step) with step in Hk by lia.
Qed.

Lemma chunks_equal {A} (eqb : list A → list A → bool) (step : Z) (a b : list A) :
  (∀ x y, eqb x y = true ↔ x = y) → 0 < step → length a = length b →
  forallb (λ i, eqb (slice i (i + step) a) (slice i (i + step) b))
    (range_step (Z.of_nat (length a)) step) = true ↔ a = b.
Proof.
  intros Heqb Hs Hlen. split.
  - intros Hall. rewrite forallb_forall in Hall.
    set (n := Z.to_nat ((Z.of_nat (length a) + step - 1) / step)).
    assert (Z.of_nat (length a) ≤ Z.of_nat n * step) as Hn.
    { subst n. rewrite Z2Nat.id by (apply Z.div_pos; lia).
      pose proof (Z.mul_succ_div_gt (Z.of_nat (length a) + step - 1) step Hs). nia. }
    rewrite <-(take_ge a (Z.to_nat (Z.of_nat n * step))) by lia.
    rewrite <-(take_ge b (Z.to_nat (Z.of_nat n * step))) by lia.
    apply slice_all_eq; [done|]. intros k Hk. apply Heqb, Hall.
    unfold range_step. apply in_map_iff. exists k. split; [done|]. apply in_seq. lia.
  - intros ->. apply forallb_forall. intros i _. by apply Heqb.
Qed.
