(* ===== verification/PyStr.v ===== *)
(** Python strings used as identifiers, keys, paths and messages: a
    [String.string] holding the UTF-8 encoding of the text.  The operations
    below work on ASCII characters, which UTF-8 never mixes with others. *)
From Stdlib Require Export Ascii.
From S2P Require Import Prelude PyText.
Open Scope string_scope.
Open Scope list_scope.

(** [s.split(c)] for a one-character separator. *)
Fixpoint split_on (c : ascii) (s : string) : list string :=
  match s with
  | EmptyString => [""]
  | String a s' =>
    if Ascii.eqb a c then "" :: split_on c s'
    else match split_on c s' with
         | h :: t => String a h :: t
         | [] => [String a ""]
         end
  end.

(** [sep.join(parts)] *)
Definition join (sep : string) (parts : list string) : string := String.concat sep parts.

Definition str_chars (s : string) : list ascii := String.list_ascii_of_string s.
Definition of_chars (l : list ascii) : string := String.string_of_list_ascii l.

(** [s[:n]] and [s[n:]] *)
Definition str_take (n : nat) (s : string) : string := of_chars (take n (str_chars s)).
Definition str_drop (n : nat) (s : string) : string := of_chars (drop n (str_chars s)).

Definition startswith (pre s : string) : bool := String.prefix pre s.
Definition endswith (suf s : string) : bool :=
  (String.length suf <=? String.length s)%nat &&
  String.eqb (str_drop (String.length s - String.length suf) s) suf.
(** [s[: -n]] for [n > 0] *)
Definition str_chop (n : nat) (s : string) : string := str_take (String.length s - n) s.

(** [c in s] *)
Definition str_in (c : ascii) (s : string) : bool := existsb (Ascii.eqb c) (str_chars s).

Fixpoint str_map (f : ascii → ascii) (s : string) : string :=
  match s with EmptyString => "" | String a s' => String (f a) (str_map f s') end.
(** [s.replace(a, b)] for single characters *)
Definition replace_char (a b : ascii) (s : string) : string :=
  str_map (λ c, if Ascii.eqb c a then b else c) s.

Definition ascii_in (lo hi : N) (c : ascii) : bool :=
  (lo <=? N_of_ascii c)%N && (N_of_ascii c <=? hi)%N.
Definition is_upper (c : ascii) : bool := ascii_in 65 90 c.
Definition is_lower (c : ascii) : bool := ascii_in 97 122 c.
Definition is_digit (c : ascii) : bool := ascii_in 48 57 c.
(** [s.lower()] on ASCII letters *)
Definition lower (s : string) : string :=
  str_map (λ c, if is_upper c then ascii_of_N (N_of_ascii c + 32) else c) s.

Fixpoint drop_while (f : ascii → bool) (l : list ascii) : list ascii :=
  match l with c :: l' => if f c then drop_while f l' else l | [] => [] end.
Definition strip_where (f : ascii → bool) (s : string) : string :=
  of_chars (reverse (drop_while f (reverse (drop_while f (str_chars s))))).

(** The code points of a string, and back; [s.strip()] works on them. *)
Definition to_text (s : string) : text := utf8_decode (map (λ c, Z.of_N (N_of_ascii c)) (str_chars s)).
Definition of_text (t : text) : string := of_chars (map (λ z, ascii_of_N (Z.to_N z)) (utf8_encode t)).
Definition str_strip (s : string) : string := of_text (strip (to_text s)).
Definition strip_char (c : ascii) (s : string) : string := strip_where (Ascii.eqb c) s.
Definition rstrip_char (c : ascii) (s : string) : string :=
  of_chars (reverse (drop_while (Ascii.eqb c) (reverse (str_chars s)))).
Definition lstrip_char (c : ascii) (s : string) : string :=
  of_chars (drop_while (Ascii.eqb c) (str_chars s)).

(** [str(z)] *)
Fixpoint pos_digits (fuel : nat) (z : Z) (acc : string) : string :=
  match fuel with
  | O => acc
  | S n =>
    let acc' := String (ascii_of_N (Z.to_N (48 + z mod 10))) acc in
    if (z <? 10)%Z then acc' else pos_digits n (z / 10) acc'
  end.
Definition str_of_Z (z : Z) : string :=
  if (z <? 0)%Z then String "-" (pos_digits (S (Z.to_nat (Z.log2 (- z)))) (- z) "")
  else pos_digits (S (Z.to_nat (Z.log2 z))) z "".

(** Python's order on [str], on the code points: byte order for UTF-8. *)
Fixpoint str_leb (a b : string) : bool :=
  match a, b with
  | EmptyString, _ => true
  | String _ _, EmptyString => false
  | String x a', String y b' =>
    if (N_of_ascii x <? N_of_ascii y)%N then true
    else if (N_of_ascii y <? N_of_ascii x)%N then false else str_leb a' b'
  end.

(** [sorted(xs)] on strings: insertion into a sorted list, stable. *)
Fixpoint insert_sorted (x : string) (l : list string) : list string :=
  match l with
  | [] => [x]
  | y :: l' => if str_leb x y then x :: l else y :: insert_sorted x l'
  end.
Definition sorted (l : list string) : list string := foldr insert_sorted [] l.

(** ** Characters and appends *)
Lemma str_chars_app a b : str_chars (a +:+ b) = str_chars a ++ str_chars b.
Proof. induction a as [|c a IH]; simpl; [done|]. by f_equal. Qed.

Lemma of_chars_app l k : of_chars (l ++ k) = of_chars l +:+ of_chars k.
Proof. induction l as [|c l IH]; [done|]. change (String c (of_chars (l ++ k)) = String c (of_chars l +:+ of_chars k)). by rewrite IH. Qed.

Lemma of_str_chars s : of_chars (str_chars s) = s.
Proof. apply String.string_of_list_ascii_of_string. Qed.
Lemma str_of_chars l : str_chars (of_chars l) = l.
Proof. apply String.list_ascii_of_string_of_list_ascii. Qed.
Lemma length_str_chars s : length (str_chars s) = String.length s.
Proof. induction s; simpl; auto. Qed.

Lemma str_length_app a b : String.length (a +:+ b) = (String.length a + String.length b)%nat.
Proof. by rewrite <-!length_str_chars, str_chars_app, length_app. Qed.

Lemma str_app_cons c a b : String c a +:+ b = String c (a +:+ b).
Proof. done. Qed.

Lemma str_app_nil a : a +:+ "" = a.
Proof. induction a as [|c a IH]; [done|]. by rewrite str_app_cons, IH. Qed.

Lemma str_app_assoc a b c : (a +:+ b) +:+ c = a +:+ (b +:+ c).
Proof. induction a as [|x a IH]; [done|]. by rewrite !str_app_cons, IH. Qed.

Lemma join_cons sep x y l : join sep (x :: y :: l) = x +:+ sep +:+ join sep (y :: l).
Proof. done. Qed.

Lemma str_drop_app a b : str_drop (String.length a) (a +:+ b) = b.
Proof.
  unfold str_drop. rewrite str_chars_app, <-length_str_chars, drop_app_length. apply of_str_chars.
Qed.
Lemma str_take_app a b : str_take (String.length a) (a +:+ b) = a.
Proof.
  unfold str_take. rewrite str_chars_app, <-length_str_chars, take_app_length. apply of_str_chars.
Qed.

Lemma endswith_app a b : endswith b (a +:+ b) = true.
Proof.
  unfold endswith. rewrite str_length_app. apply andb_true_iff. split.
  - apply Nat.leb_le. lia.
  - replace (String.length a + String.length b - String.length b)%nat with (String.length a) by lia.
    rewrite str_drop_app. apply String.eqb_refl.
Qed.
Lemma endswith_spec suf s : endswith suf s = true ↔ ∃ a, s = a +:+ suf.
Proof.
  split; [|intros [a ->]; apply endswith_app].
  unfold endswith. rewrite andb_true_iff, Nat.leb_le, String.eqb_eq. intros [Hl Hd].
  exists (str_take (String.length s - String.length suf) s). rewrite <-Hd at 2.
  rewrite <-(of_str_chars s) at 1. unfold str_take, str_drop.
  rewrite <-(take_drop (String.length s - String.length suf) (str_chars s)) at 1.
  generalize (take (String.length s - String.length suf) (str_chars s)). intros l.
  apply of_chars_app.
Qed.
Lemma str_chop_app a b : str_chop (String.length b) (a +:+ b) = a.
Proof.
  unfold str_chop. rewrite str_length_app.
  replace (String.length a + String.length b - String.length b)%nat with (String.length a) by lia.
  apply str_take_app.
Qed.

Lemma str_in_app c a b : str_in c (a +:+ b) = str_in c a || str_in c b.
Proof. unfold str_in. rewrite str_chars_app. apply existsb_app. Qed.

(** ** Splitting *)
Lemma split_on_nonempty c s : split_on c s ≠ [].
Proof. destruct s as [|a s]; simpl; [done|]. destruct (Ascii.eqb a c); [done|]. by destruct (split_on c s). Qed.

Lemma split_on_none c s : str_in c s = false → split_on c s = [s].
Proof.
  induction s as [|a s IH]; simpl; [done|]. unfold str_in. simpl.
  rewrite orb_false_iff, Ascii.eqb_sym. intros [-> Hs]. by rewrite IH.
Qed.

(** A component of a split has no separator. *)
Lemma split_on_Forall c s : Forall (λ p, str_in c p = false) (split_on c s).
Proof.
  induction s as [|a s IH]; simpl; [by repeat constructor|].
  destruct (Ascii.eqb a c) eqn:Ha; [by constructor|].
  pose proof (split_on_nonempty c s) as Hne. destruct (split_on c s) as [|h t]; [done|].
  apply Forall_cons in IH as [Hh Ht].
  constructor; [|done]. unfold str_in in *. simpl. by rewrite Ascii.eqb_sym, Ha.
Qed.

(** Appending text without separator extends the last component. *)
Lemma split_on_app_last c s t :
  str_in c t = false →
  ∃ init l, split_on c s = init ++ [l] ∧ split_on c (s +:+ t) = init ++ [l +:+ t].
Proof.
  intros Ht. induction s as [|a s (init & l & H1 & H2)]; rewrite ?str_app_cons; simpl.
  - exists [], "". split; [done|]. by rewrite split_on_none.
  - rewrite H1, H2. destruct (Ascii.eqb a c).
    + by exists ("" :: init), l.
    + destruct init as [|i init]; simpl; [by exists [], (String a l)|by exists (String a i :: init), l].
Qed.

(** ** The order *)
Lemma str_leb_total a b : str_leb a b = true ∨ str_leb b a = true.
Proof.
  revert b. induction a as [|x a IH]; intros [|y b]; simpl; auto.
  destruct (N.ltb_spec (N_of_ascii x) (N_of_ascii y)), (N.ltb_spec (N_of_ascii y) (N_of_ascii x)); auto.
Qed.
Lemma str_leb_refl a : str_leb a a = true.
Proof. by destruct (str_leb_total a a). Qed.
Lemma str_leb_trans a b c : str_leb a b = true → str_leb b c = true → str_leb a c = true.
Proof.
  revert b c. induction a as [|x a IH]; intros [|y b] [|z c]; simpl; try done.
  repeat match goal with |- context [(?a <? ?b)%N] => destruct (N.ltb_spec a b) end;
    try done; try lia; eauto.
Qed.
Lemma str_leb_antisym a b : str_leb a b = true → str_leb b a = true → a = b.
Proof.
  revert b. induction a as [|x a IH]; intros [|y b]; simpl; try done.
  repeat match goal with |- context [(?a <? ?b)%N] => destruct (N.ltb_spec a b) end; try done; try lia.
  intros H1 H2. f_equal; [|by apply IH].
  rewrite <-(ascii_N_embedding x), <-(ascii_N_embedding y). f_equal. lia.
Qed.

Definition str_le (a b : string) : Prop := str_leb a b = true.

Lemma elem_of_insert_sorted x y l : y ∈ insert_sorted x l ↔ y = x ∨ y ∈ l.
Proof.
  induction l as [|z l IH]; simpl; [set_solver|].
  destruct (str_leb x z); rewrite !elem_of_cons, ?IH; naive_solver.
Qed.
Lemma insert_sorted_perm x l : insert_sorted x l ≡ₚ x :: l.
Proof.
  induction l as [|y l IH]; simpl; [done|].
  destruct (str_leb x y); [done|]. by rewrite IH, Permutation_swap.
Qed.
Lemma sorted_perm l : sorted l ≡ₚ l.
Proof. induction l as [|x l IH]; simpl; [done|]. by rewrite insert_sorted_perm, IH. Qed.

Lemma insert_sorted_sorted x l : StronglySorted str_le l → StronglySorted str_le (insert_sorted x l).
Proof.
  induction 1 as [|y l Hl IH Hy]; simpl; [by repeat constructor|].
  destruct (str_leb x y) eqn:Hxy.
  - constructor; [by constructor|]. constructor; [done|].
    eapply Forall_impl; [exact Hy|]. intros z. by apply str_leb_trans.
  - constructor; [done|]. apply Forall_forall. intros z Hz%elem_of_insert_sorted.
    destruct Hz as [->|Hz]; [by destruct (str_leb_total x y); [congruence|]|].
    by eapply Forall_forall in Hy.
Qed.
Lemma sorted_sorted l : StronglySorted str_le (sorted l).
Proof. induction l as [|x l IH]; simpl; [constructor|]. by apply insert_sorted_sorted. Qed.

(** [str(z)] of natural numbers is injective: the digits denote the number. *)
Definition digits_value (acc : Z) (s : string) : Z :=
  foldl (λ a c, (a * 10 + (Z.of_N (N_of_ascii c) - 48))%Z) acc (str_chars s).

Lemma digits_value_cons acc c s :
  digits_value acc (String c s) = digits_value (acc * 10 + (Z.of_N (N_of_ascii c) - 48))%Z s.
Proof. done. Qed.

Lemma pos_digits_value fuel z acc :
  (0 ≤ z < 10 ^ Z.of_nat fuel)%Z → digits_value 0 (pos_digits fuel z acc) = digits_value z acc.
Proof.
  revert z acc. induction fuel as [|fuel IH]; intros z acc Hz.
  - change (10 ^ Z.of_nat 0)%Z with 1%Z in Hz. simpl. by replace z with 0%Z by lia.
  - rewrite Nat2Z.inj_succ, Z.pow_succ_r in Hz by lia. cbn [pos_digits].
    assert (0 ≤ z mod 10 < 10)%Z as Hm by (by apply Z.mod_pos_bound).
    assert (Z.of_N (N_of_ascii (ascii_of_N (Z.to_N (48 + z mod 10)))) - 48 = z mod 10)%Z as Hd.
    { rewrite N_ascii_embedding by lia. lia. }
    pose proof (Z.div_mod z 10 ltac:(done)) as Hdm. destruct (Z.ltb_spec z 10) as [Hlt|Hge].
    + rewrite digits_value_cons, Hd. f_equal. rewrite Z.mod_small by lia. lia.
    + rewrite IH, digits_value_cons, Hd; [f_equal; lia|]. split; [apply Z.div_pos; lia|].
      apply Z.div_lt_upper_bound; lia.
Qed.

Lemma str_of_Z_value z : (0 ≤ z)%Z → digits_value 0 (str_of_Z z) = z.
Proof.
  intros Hz. unfold str_of_Z. destruct (Z.ltb_spec z 0) as [Hlt|_]; [lia|]. rewrite pos_digits_value; [done|].
  split; [done|]. destruct (decide (z = 0)) as [->|Hne]; [done|].
  destruct (Z.log2_spec z ltac:(lia)) as [_ Hs].
  rewrite Nat2Z.inj_succ, Z2Nat.id by apply Z.log2_nonneg. eapply Z.lt_le_trans; [exact Hs|].
  apply Z.pow_le_mono_l. split; [lia|done].
Qed.

Lemma str_of_Z_inj z z' : (0 ≤ z)%Z → (0 ≤ z')%Z → str_of_Z z = str_of_Z z' → z = z'.
Proof. intros H H' He. by rewrite <-(str_of_Z_value z H), He, str_of_Z_value. Qed.

(** ** Readers: functions that take what they read off the front of a string, and the
    printers they undo *)
Open Scope Z_scope.

(** A test of every number of an interval. *)
Fixpoint all_from (f : Z → bool) (fuel : nat) (z : Z) : bool :=
  match fuel with O => true | S n => f z && all_from f n (z + 1) end.
Lemma all_from_true f fuel z k : all_from f fuel z = true → z ≤ k < z + Z.of_nat fuel → f k = true.
Proof.
  revert z. induction fuel as [|n IH]; simpl; intros z; [lia|]. intros [Hz Hn]%andb_true_iff Hk.
  destruct (decide (z = k)) as [->|]; [done|]. apply (IH (z + 1)); [done|lia].
Qed.


(** A reader takes what it reads off the front of a text. *)
Definition reader (A : Type) : Type := string → option (A * string).
#[export] Instance reader_ret : MRet reader := λ A a s, Some (a, s).
#[export] Instance reader_bind : MBind reader := λ A B f r s,
  match r s with Some (a, rest) => f a rest | None => None end.

Fixpoint take_num (width : nat) (acc : Z) : reader Z := λ s,
  match width, s with
  | O, _ => Some (acc, s)
  | S w, String c r => if is_digit c then take_num w (acc * 10 + (Z.of_N (N_of_ascii c) - 48)) r else None
  | S _, EmptyString => None
  end.
Definition eat (c : ascii) : reader () := λ s,
  match s with String c' r => if decide (c = c') then Some ((), r) else None | EmptyString => None end.
Definition number (width : nat) (sep : ascii) : reader Z := n ← take_num width 0; eat sep;; mret n.

(** A reader undoes a printer: whatever follows is left. *)
Definition undoes {A} (r : reader A) (s : string) (a : A) : Prop := ∀ rest, r (s +:+ rest) = Some (a, rest).
Lemma undoes_bind {A B} (r : reader A) (f : A → reader B) s1 s2 a b :
  undoes r s1 a → undoes (f a) s2 b → undoes (r ≫= f) (s1 +:+ s2) b.
Proof. intros H1 H2 rest. unfold mbind, reader_bind. rewrite str_app_assoc, H1. apply H2. Qed.
Lemma undoes_ret {A} (a b : A) : a = b → undoes (mret a) "" b.
Proof. by intros ->. Qed.
Lemma undoes_eat c : undoes (eat c) (String c "") ().
Proof. intros rest. simpl. by rewrite decide_True. Qed.
Lemma undoes_number w c s n : undoes (take_num w 0) s n → undoes (number w c) (s +:+ String c "") n.
Proof.
  intros Hs. unfold number. apply undoes_bind with n; [done|].
  change (String c "") with (String c "" +:+ ""). apply undoes_bind with (); [apply undoes_eat|by apply undoes_ret].
Qed.

Lemma take_num_app w acc s z rest : take_num w acc s = Some (z, "") → take_num w acc (s +:+ rest) = Some (z, rest).
Proof.
  revert acc s. induction w as [|w IH]; intros acc s; simpl.
  - by intros [= -> ->].
  - destruct s as [|c s]; [done|]. simpl. destruct (is_digit c); [|done]. apply IH.
Qed.
