(* ===== verification/Sandbox.v ===== *)
(** What the worker reads of the objects of [acoj_sandbox]: the status
    enumeration it maps, and the attributes it accesses on data references,
    process results, prepared programs and batch results.  The sandbox itself is
    not part of the repository: its operations are the class [SandboxApi] of the
    file Runtime, an argument of the definitions that call it. *)
From S2P Require Import Prelude PyText.

(** The members of [acoj_sandbox.Status] that [SANDBOX_TO_OJ_RESULT] names;
    [StatusOther] is any other value. *)
Inductive Status :=
| StAC | StCE | StRE | StTLE | StMLE | StOLE | StSE | StIE
| StatusOther (name : string).

#[export] Instance Status_eq_dec : EqDecision Status.
Proof. solve_decision. Defined.

Definition status_eqb (a b : Status) : bool := bool_decide (a = b).

(** The [data] attribute of a [DataRef]: bytes, a string, or neither. *)
Inductive RefData :=
| DBytes (bs : byte_list)
| DStr (s : text)
| DNone.

(** A [DataRef]: [path] is [None] when the attribute is absent or no path. *)
Record DataRef := mkDataRef {
  dr_path : option string;
  dr_data : RefData;
  dr_sha256 : option string;
  dr_preview_text : text;
}.

(** A process result ([compile], [run]): a numeric attribute is [None] when it
    is missing or [None]. *)
Record ProcessResult := mkProcess {
  pr_status : Status;
  pr_cpu_time_ms : option Z;
  pr_real_time_ms : option Z;
  pr_memory_bytes : option Z;
  pr_exit_code : Z;
  pr_message : option string;
}.

(** One case of a batch ([CaseResult] of the sandbox). *)
Record SandboxCase := mkSandboxCase {
  sc_status : Status;
  sc_actual_output : DataRef;
  sc_expected_output : option DataRef;
  sc_run : ProcessResult;
  sc_stderr : DataRef;
}.

(** The result of [SandboxClient.run_cases]. *)
Record BatchResult := mkBatch {
  br_compile : ProcessResult;
  br_cases : list SandboxCase;
  br_message : option string;
}.

(** [compile_result] of a prepared program, when it has one. *)
Record CompileResult := mkCompileResult {
  cr_compiler_output : option string;
  cr_message : option string;
}.

(** A prepared program ([SandboxClient.prepare_source]). *)
Record Program := mkProgram {
  pg_compiled : bool;
  pg_compile : ProcessResult;
  pg_compile_result : option CompileResult;
}.

(** The result of [Program.run] and [Program.run_with_paths]. *)
Record RunResult := mkRun {
  rr_status : Status;
  rr_run : ProcessResult;
  rr_stdout_path : string;
  rr_stderr_path : string;
  rr_stdout : option text;
}.

(** The limits of one run ([JudgeLimits]); [None]: the argument is not passed. *)
Record JudgeLimits := mkLimits {
  jl_cpu_time_ms : Z;
  jl_real_time_ms : Z;
  jl_memory_bytes : Z;
  jl_processes : Z;
  jl_output_bytes : option Z;
}.

#[export] Instance JudgeLimits_eq_dec : EqDecision JudgeLimits.
Proof. solve_decision. Defined.
