(* ===== verification/Schemas.v ===== *)
(** The judge protocol (app/modules/judge/schemas.py).

    The payload records describe the dictionary the task receives {e after} it
    has passed [JudgePayload.model_validate]: the task then works on the raw
    dictionary, not on the validated model, so a key that the schema gives a
    default may still be missing there.  A field is [None] when [d.get(key)] is
    [None] (missing, or present with the value [None], which the code cannot
    tell apart with [get]); the three keys the code reads with [d[key]] and the
    schema lets out ([language], [source], [test_cases], [points]) use one
    [option] more: the outer one says whether the key is present. *)
From S2P Require Import Prelude PyText PyFloat.

(** [problem] of the payload. *)
Record ProblemConfig := mkProblem {
  pb_code : string;
  pb_time_limit_ms : Z;
  pb_memory_limit_kb : Z;
  pb_points : option f64;
  pb_partial : option bool;
  pb_output_limit_bytes : option Z;
}.

(** [language] of the payload. *)
Record LanguageConfigIn := mkLanguage {
  lg_key : string;
  lg_compile_command : option string;
  lg_run_command : option string;
  lg_source_filename : option string;
}.

(** One element of [test_cases]. *)
Record TestCaseData := mkTestCase {
  tc_case_no : Z;
  tc_points : option f64;
  tc_time_limit_ms : option Z;
  tc_memory_limit_kb : option Z;
  tc_output_limit_bytes : option Z;
  tc_input_inline : option text;
  tc_output_inline : option text;
  tc_input_file : option string;
  tc_output_file : option string;
  tc_input_sha256 : option string;
  tc_output_sha256 : option string;
  tc_batch_no : option Z;
  tc_batch_depends : option (list Z);
  tc_batch_dependencies : option (list Z);
}.

(** [spj]: the schema types it as a plain dictionary. *)
Record SpjConfig := mkSpj { spj_source : option string }.

(** [interactor]: a plain dictionary too. *)
Record InteractorConfig := mkInteractor {
  it_source : option string;
  it_language : option LanguageConfigIn;
  it_time_limit_ms : option Z;
  it_memory_limit_kb : option Z;
}.

Record JudgePayload := mkPayload {
  pl_submission_id : string;
  pl_judge_mode : option string;
  pl_problem : ProblemConfig;
  pl_language : option (option LanguageConfigIn);
  pl_source : option string;
  pl_test_cases : option (list TestCaseData);
  pl_spj : option (option SpjConfig);
  pl_interactor : option (option InteractorConfig);
}.

(** The result of one test case. *)
Record CaseResult := mkCase {
  c_case_no : Z;
  c_result : string;
  c_time_ms : Z;
  c_memory_kb : Z;
  c_points : f64;
  c_stdout_preview : text;
  c_stderr_preview : text;
}.

#[export] Instance CaseResult_eq_dec : EqDecision CaseResult.
Proof. solve_decision. Defined.

(** The result of a task. *)
Record JudgeResultOut := mkResult {
  r_submission_id : string;
  r_status : string;
  r_result : option string;
  r_score : f64;
  r_time_ms : Z;
  r_memory_kb : Z;
  r_compile_time_ms : Z;
  r_compile_memory_kb : Z;
  r_compile_output : option string;
  r_compile_error : bool;
  r_cases : list CaseResult;
  r_error : option string;
  r_wall_time_ms : Z;
}.

(** [dict(c, points=p)] and [c["result"] = r]. *)
Definition set_points (p : f64) (c : CaseResult) : CaseResult :=
  mkCase (c_case_no c) (c_result c) (c_time_ms c) (c_memory_kb c) p
    (c_stdout_preview c) (c_stderr_preview c).
Definition set_result (r : string) (c : CaseResult) : CaseResult :=
  mkCase (c_case_no c) r (c_time_ms c) (c_memory_kb c) (c_points c)
    (c_stdout_preview c) (c_stderr_preview c).

(** [JudgeResultOut(submission_id=..., status=..., error=...)]: every other
    field has its default. *)
Definition result_defaults (submission_id status : string) (error : option string) : JudgeResultOut :=
  mkResult submission_id status None fzero 0 0 0 0 None false [] error 0.
