(* ===== verification/ResultMapper.v ===== *)
(** Verdicts and resource totals: app/modules/judge/result_mapper.py and
    app/modules/judge/metrics.py. *)
From S2P Require Import Prelude PyText PyFloat Sandbox Schemas.

(** ** result_mapper.py *)
Definition SANDBOX_TO_OJ_RESULT (s : Status) : option string :=
  match s with
  | StAC => Some "AC" | StCE => Some "CE" | StRE => Some "RE" | StTLE => Some "TLE"
  | StMLE => Some "MLE" | StOLE => Some "OLE" | StSE => Some "SE" | StIE => Some "IE"
  | StatusOther _ => None
  end.

Definition to_oj_result (s : Status) : string := default "IE" (SANDBOX_TO_OJ_RESULT s).

(** [r not in ("AC", "SKIPPED")] *)
Definition is_failure (r : string) : bool :=
  negb (String.eqb r "AC" || String.eqb r "SKIPPED").

Fixpoint first_failure (cases : list CaseResult) : option string :=
  match cases with
  | [] => None
  | c :: cs => if is_failure (c_result c) then Some (c_result c) else first_failure cs
  end.

Definition compute_overall_result (has_compile_error : bool) (case_results : list CaseResult) : string :=
  if has_compile_error then "CE" else default "AC" (first_failure case_results).

Definition compute_score (has_compile_error : bool) (case_results : list CaseResult) : f64 :=
  if has_compile_error then fzero
  else foldl (λ total c, if String.eqb (c_result c) "AC" then fadd total (c_points c) else total)
         fzero case_results.

(** ** metrics.py *)
Definition run_metrics_from_cases (cases : list CaseResult) : Z * Z :=
  (foldl (λ s c, s + c_time_ms c)%Z 0%Z cases,
   match map c_memory_kb cases with
   | [] => 0%Z
   | m :: ms => foldl Z.max m ms
   end).

Definition compile_metrics_from_process (compile_result : option ProcessResult) : Z * Z :=
  match compile_result with
  | None => (0, 0)%Z
  | Some p => (z_or (pr_cpu_time_ms p) 0, z_or (pr_memory_bytes p) 0 / 1024)%Z
  end.

Definition reported_run_time_ms (run : option ProcessResult) : Z :=
  match run with
  | None => 0%Z
  | Some p =>
    let cpu := z_or (pr_cpu_time_ms p) 0%Z in
    let real := z_or (pr_real_time_ms p) 0%Z in
    if status_eqb (pr_status p) StTLE
       || bool_decide (pr_message p = Some "time limit exceeded")
    then Z.max cpu real else cpu
  end.

(** [run.memory_bytes // 1024]: the attribute is read directly. *)
Definition memory_kb (run : ProcessResult) : outcome Z :=
  match pr_memory_bytes run with
  | Some b => Ret (b / 1024)%Z
  | None => Raise (TypeError "unsupported operand type(s) for //")
  end.

(** ** Facts *)
Lemma is_failure_spec r : is_failure r = false ↔ r = "AC" ∨ r = "SKIPPED".
Proof.
  unfold is_failure. rewrite negb_false_iff, orb_true_iff, !String.eqb_eq. done.
Qed.

Lemma first_failure_None cases :
  first_failure cases = None ↔ Forall (λ c, is_failure (c_result c) = false) cases.
Proof.
  induction cases as [|c cs IH]; simpl; [by split|].
  rewrite Forall_cons, <-IH. destruct (is_failure (c_result c)); naive_solver.
Qed.

Lemma first_failure_Some cases r :
  first_failure cases = Some r ↔
  ∃ pre c post, cases = pre ++ c :: post ∧ c_result c = r ∧ is_failure r = true ∧
    Forall (λ c, is_failure (c_result c) = false) pre.
Proof.
  induction cases as [|c cs IH]; simpl.
  - split; [done|]. intros (pre & c & post & Heq & _). by destruct pre.
  - destruct (is_failure (c_result c)) eqn:Hf.
    + split.
      * intros [= <-]. by exists [], c, cs.
      * intros (pre & d & post & Heq & Hr & Hfr & Hpre). destruct pre as [|e pre]; simplify_eq/=.
        -- done.
        -- apply Forall_cons in Hpre as [He _]. congruence.
    + rewrite IH. split.
      * intros (pre & d & post & -> & Hr & Hfr & Hpre). exists (c :: pre), d, post. auto.
      * intros (pre & d & post & Heq & Hr & Hfr & Hpre). destruct pre as [|e pre]; simplify_eq/=.
        -- congruence.
        -- apply Forall_cons in Hpre as [_ Hpre]. eauto 10.
Qed.

Lemma to_oj_result_AC s : to_oj_result s = "AC" ↔ s = StAC.
Proof. by destruct s. Qed.

Lemma foldl_add_acc (cases : list CaseResult) (a : Z) :
  (foldl (λ s c, s + c_time_ms c) a cases = a + foldl (λ s c, s + c_time_ms c) 0 cases)%Z.
Proof.
  revert a. induction cases as [|c cs IH]; intros a; simpl; [lia|].
  rewrite IH, (IH (0 + _)%Z). lia.
Qed.

Lemma foldl_max_le (l : list Z) (a b : Z) : (foldl Z.max a l ≤ b ↔ a ≤ b ∧ Forall (λ x, x ≤ b) l)%Z.
Proof.
  revert a. induction l as [|x l IH]; intros a; simpl.
  - rewrite Forall_nil. naive_solver.
  - rewrite IH, Forall_cons. rewrite Z.max_lub_iff. naive_solver.
Qed.

Lemma compute_score_nonneg ce cases :
  Forall (λ c, nonneg (c_points c) = true) cases → nonneg (compute_score ce cases) = true.
Proof.
  intros H. unfold compute_score. destruct ce; [done|].
  assert (∀ a, nonneg a = true → nonneg (foldl (λ total c,
    if String.eqb (c_result c) "AC" then fadd total (c_points c) else total) a cases) = true) as Hg;
    [|by apply Hg].
  induction H as [|c cs Hc _ IH]; simpl; intros a Ha; [done|].
  apply IH. destruct (String.eqb _ _); auto with pyfloat.
Qed.
