(* ===== verification/Scoring.v ===== *)
(** IOI batch scoring: app/modules/judge/scoring.py.

    [aggregate_batches] is translated phase by phase; a declarative
    specification ([spec_cases], [spec_score]) says what it computes and the
    refinement theorem at the end relates the two.  The dictionaries of
    [raw_case_results] are distinct objects (every caller builds each of them
    afresh), so the in-place marking of phase 2 is the list it leaves. *)
From S2P Require Import Prelude PyText PyFloat Sandbox Schemas ResultMapper.

Implicit Types (cr c : CaseResult) (tc : TestCaseData) (ac : gmap Z bool).

Definition is_AC (c : CaseResult) : bool := String.eqb (c_result c) "AC".

(** ** Phase 1 and 3: the AC status of every batch *)
Definition batch_ac_step (batch_ac : gmap Z bool) (p : TestCaseData * CaseResult) : gmap Z bool :=
  match tc_batch_no p.1 with
  | None => batch_ac
  | Some bn =>
    let prev := default true (batch_ac !! bn) in
    <[bn := prev && is_AC p.2]> batch_ac
  end.

Definition _compute_batch_ac_status (raw_case_results : list CaseResult)
    (test_cases_data : list TestCaseData) : gmap Z bool :=
  foldl batch_ac_step ∅ (zip test_cases_data raw_case_results).

(** ** Phase 2: dependencies *)
Definition tc_deps (tc : TestCaseData) : list Z :=
  list_or (tc_batch_depends tc) (list_or (tc_batch_dependencies tc) []).

Definition dep_step (batch_ac : gmap Z bool) (cr : CaseResult) (dep : Z) : CaseResult :=
  match batch_ac !! dep with
  | Some false => set_points fzero (set_result "SKIPPED" cr)
  | _ => cr
  end.

Definition mark_case (batch_ac : gmap Z bool) (tc : TestCaseData) (cr : CaseResult) : CaseResult :=
  match tc_batch_no tc with
  | None => cr
  | Some _ => foldl (dep_step batch_ac) cr (tc_deps tc)
  end.

(** [zip] stops at the shorter list: the elements past it stay as they are. *)
Fixpoint _apply_batch_dependencies (raw_case_results : list CaseResult)
    (test_cases_data : list TestCaseData) (batch_ac : gmap Z bool) : list CaseResult :=
  match raw_case_results, test_cases_data with
  | cr :: crs, tc :: tcs => mark_case batch_ac tc cr :: _apply_batch_dependencies crs tcs batch_ac
  | _, _ => raw_case_results
  end.

(** ** Phase 4: grouping *)
Record Groups := mkGroups {
  g_batches : gmap (option Z) (list CaseResult);
  g_order : list (option Z);
  g_seen : gset (option Z);
}.

Definition group_step (g : Groups) (p : CaseResult * TestCaseData) : Groups :=
  let bn := tc_batch_no p.2 in
  let g' := if decide (bn ∈ g_seen g) then g
            else mkGroups (g_batches g) (g_order g ++ [bn]) ({[bn]} ∪ g_seen g) in
  mkGroups (<[bn := default [] (g_batches g' !! bn) ++ [p.1]]> (g_batches g'))
    (g_order g') (g_seen g').

Definition group_cases (l : list (CaseResult * TestCaseData)) : Groups :=
  foldl group_step (mkGroups ∅ [] ∅) l.

(** The loop over [batch_order]: the case results and the score so far. *)
Definition score_step (batches : gmap (option Z) (list CaseResult)) (batch_ac : gmap Z bool)
    (acc : list CaseResult * f64) (bn : option Z) : list CaseResult * f64 :=
  let batch_cases := default [] (batches !! bn) in
  match bn with
  | None =>
    foldl (λ a c, (a.1 ++ [c], if is_AC c then fadd a.2 (c_points c) else a.2)) acc batch_cases
  | Some b =>
    if default true (batch_ac !! b)
    then (acc.1 ++ batch_cases, fadd acc.2 (fsum (map c_points batch_cases)))
    else (acc.1 ++ map (set_points fzero) batch_cases, acc.2)
  end.

Definition aggregate_batches (raw_case_results : list CaseResult)
    (test_cases_data : list TestCaseData) : list CaseResult * f64 :=
  let batch_ac := _compute_batch_ac_status raw_case_results test_cases_data in
  let raw := _apply_batch_dependencies raw_case_results test_cases_data batch_ac in
  let batch_ac := _compute_batch_ac_status raw test_cases_data in
  let g := group_cases (zip raw test_cases_data) in
  foldl (score_step (g_batches g) batch_ac) ([], fzero) (g_order g).

(** ** [error_verdict]; it has no [wall_time_ms], which the orchestrator adds. *)
Definition error_verdict (submission_id msg : string) : JudgeResultOut :=
  mkResult submission_id "FAILED" None fzero 0 0 0 0 (Some msg) false [] (Some msg) 0.

(** ** Specification *)

(** The results of the cases of a batch, in order. *)
Definition group (l : list (CaseResult * TestCaseData)) (bn : option Z) : list CaseResult :=
  map fst (filter (λ p, tc_batch_no p.2 = bn) l).

(** The batch numbers in order of first appearance. *)
Definition batches_of (l : list (CaseResult * TestCaseData)) : list (option Z) :=
  fromkeys (map (λ p, tc_batch_no p.2) l).

(** Whether every case of a batch is accepted. *)
Definition all_AC (cs : list CaseResult) : bool := forallb is_AC cs.

(** A case is blocked when it lies in a batch one of whose declared
    dependencies is a batch of the submission with a case that is not AC. *)
Definition dep_failed (l : list (CaseResult * TestCaseData)) (dep : Z) : bool :=
  bool_decide (Some dep ∈ map (λ p, tc_batch_no p.2) l) && negb (all_AC (group l (Some dep))).
Definition blocked (l : list (CaseResult * TestCaseData)) (tc : TestCaseData) : bool :=
  match tc_batch_no tc with
  | None => false
  | Some _ => existsb (dep_failed l) (tc_deps tc)
  end.
Definition skip (c : CaseResult) : CaseResult := set_points fzero (set_result "SKIPPED" c).
Definition after_deps (l : list (CaseResult * TestCaseData)) : list (CaseResult * TestCaseData) :=
  map (λ p, (if blocked l p.2 then skip p.1 else p.1, p.2)) l.

(** What a batch puts into the result and what it adds to the score. *)
Definition batch_results (l : list (CaseResult * TestCaseData)) (bn : option Z) : list CaseResult :=
  let cs := group l bn in
  match bn with
  | None => cs
  | Some _ => if all_AC cs then cs else map (set_points fzero) cs
  end.
Definition batch_scores (l : list (CaseResult * TestCaseData)) (bn : option Z) : list f64 :=
  let cs := group l bn in
  match bn with
  | None => map c_points (filter (λ c, is_AC c = true) cs)
  | Some _ => if all_AC cs then [fsum (map c_points cs)] else []
  end.
Definition spec_cases (l : list (CaseResult * TestCaseData)) : list CaseResult :=
  concat (map (batch_results l) (batches_of l)).
Definition spec_score (l : list (CaseResult * TestCaseData)) : f64 :=
  fsum (concat (map (batch_scores l) (batches_of l))).

(** ** Lemmas: phases 1 and 3 *)
Section phases.
Implicit Types (l : list (CaseResult * TestCaseData)) (bn : option Z) (b : Z).

Lemma zip_swap {A B} (xs : list A) (ys : list B) :
  zip ys xs = map (λ p, (p.2, p.1)) (zip xs ys).
Proof. revert ys. induction xs as [|x xs IH]; intros [|y ys]; simpl; [done..|]. by rewrite <-IH. Qed.

Lemma group_snoc l p bn :
  group (l ++ [p]) bn = group l bn ++ (if decide (tc_batch_no p.2 = bn) then [p.1] else []).
Proof.
  unfold group. rewrite filter_app, map_app, filter_cons. by case_decide.
Qed.

Lemma all_AC_app cs cs' : all_AC (cs ++ cs') = all_AC cs && all_AC cs'.
Proof. apply forallb_app. Qed.

Lemma group_nil l bn : bn ∉ map (λ p, tc_batch_no p.2) l → group l bn = [].
Proof.
  induction l as [|p l IH]; [done|]. simpl. rewrite not_elem_of_cons. intros [Hne Hni].
  unfold group. rewrite filter_cons, decide_False by done. by apply IH.
Qed.

Lemma batch_ac_lookup l b :
  foldl (λ m p, batch_ac_step m (p.2, p.1)) ∅ l !! b =
  if decide (Some b ∈ map (λ p, tc_batch_no p.2) l) then Some (all_AC (group l (Some b))) else None.
Proof.
  induction l as [|p l IH] using rev_ind; [done|].
  rewrite foldl_app. simpl. rewrite map_app, group_snoc. simpl.
  set (m := foldl _ _ _) in *.
  unfold batch_ac_step. simpl. destruct (tc_batch_no p.2) as [b'|] eqn:Hp; simpl.
  - rewrite lookup_insert. destruct (decide (b' = b)) as [->|Hne].
    + rewrite decide_True by set_solver. rewrite decide_True by done. f_equal.
      rewrite all_AC_app. simpl. rewrite andb_true_r, IH. case_decide as Hin; simpl; [done|].
      by rewrite group_nil by done.
    + rewrite (decide_False (P := Some b' = Some b)) by congruence. rewrite app_nil_r, IH.
      apply decide_ext. set_solver.
  - rewrite app_nil_r, IH. apply decide_ext. set_solver.
Qed.

Lemma compute_batch_ac_lookup raw tcs b :
  _compute_batch_ac_status raw tcs !! b =
  if decide (Some b ∈ map (λ p, tc_batch_no p.2) (zip raw tcs))
  then Some (all_AC (group (zip raw tcs) (Some b))) else None.
Proof.
  unfold _compute_batch_ac_status. rewrite zip_swap, foldl_fmap_comp. apply batch_ac_lookup.
Qed.

(** ** Lemmas: phase 2 *)
Lemma foldl_dep_step ac deps cr :
  foldl (dep_step ac) cr deps =
  if existsb (λ d, bool_decide (ac !! d = Some false)) deps then skip cr else cr.
Proof.
  assert (∀ c deps, foldl (dep_step ac) (skip c) deps = skip c) as Hskip.
  { intros c ds. induction ds as [|d ds IHs]; simpl; [done|].
    unfold dep_step at 2. by destruct (ac !! d) as [[]|]. }
  induction deps as [|d deps IH]; simpl; [done|].
  unfold dep_step at 2. destruct (ac !! d) as [[]|] eqn:Hd; simpl; [done| |done].
  apply Hskip.
Qed.

Lemma mark_case_blocked raw tcs tc cr :
  mark_case (_compute_batch_ac_status raw tcs) tc cr =
  if blocked (zip raw tcs) tc then skip cr else cr.
Proof.
  unfold mark_case, blocked. destruct (tc_batch_no tc) as [b|]; [|done].
  rewrite foldl_dep_step.
  enough (∀ ds, existsb (λ d, bool_decide (_compute_batch_ac_status raw tcs !! d = Some false)) ds =
    existsb (dep_failed (zip raw tcs)) ds) as -> by done.
  intros ds. induction ds as [|d ds IH]; simpl; [done|]. rewrite IH. f_equal.
  rewrite compute_batch_ac_lookup. unfold dep_failed.
  case_decide as Hin; simpl.
  - rewrite (bool_decide_true (Some d ∈ _)) by done. by destruct (all_AC _).
  - by rewrite (bool_decide_false (Some d ∈ _)) by done.
Qed.

Lemma zip_apply_deps raw tcs ac :
  zip (_apply_batch_dependencies raw tcs ac) tcs =
  map (λ p, (mark_case ac p.2 p.1, p.2)) (zip raw tcs).
Proof. revert tcs. induction raw as [|c raw IH]; intros [|t tcs]; simpl; [done..|]. by rewrite IH. Qed.

Lemma zip_after_deps raw tcs :
  zip (_apply_batch_dependencies raw tcs (_compute_batch_ac_status raw tcs)) tcs =
  after_deps (zip raw tcs).
Proof. rewrite zip_apply_deps. apply map_ext. intros p. by rewrite mark_case_blocked. Qed.

(** ** Lemmas: phase 4 *)
Lemma group_cases_spec l :
  g_order (group_cases l) = batches_of l ∧
  (∀ bn, bn ∈ g_seen (group_cases l) ↔ bn ∈ map (λ p, tc_batch_no p.2) l) ∧
  (∀ bn, default [] (g_batches (group_cases l) !! bn) = group l bn).
Proof.
  induction l as [|p l (IHo & IHs & IHb)] using rev_ind; [set_solver|].
  assert (group_cases (l ++ [p]) = group_step (group_cases l) p) as ->.
  { unfold group_cases. by rewrite foldl_app. }
  set (g := group_cases l) in *. split_and!.
  - unfold batches_of in *. rewrite map_app. simpl. rewrite fromkeys_snoc, <-IHo.
    unfold group_step. simpl. destruct (decide (tc_batch_no p.2 ∈ g_seen g)) as [H|H];
      rewrite IHs in H; [by rewrite decide_True|by rewrite decide_False].
  - intros bn. rewrite map_app, elem_of_app, <-IHs. unfold group_step. simpl.
    case_decide; set_solver.
  - intros bn. rewrite group_snoc, <-IHb. unfold group_step. simpl.
    assert (∀ g', g' = g ∨ g' = mkGroups (g_batches g) (g_order g ++ [tc_batch_no p.2])
        ({[tc_batch_no p.2]} ∪ g_seen g) → g_batches g' = g_batches g) as Hg by naive_solver.
    rewrite Hg by (case_decide; auto). rewrite lookup_insert.
    case_decide as Heq; simpl; [by rewrite Heq|by rewrite app_nil_r].
Qed.

(** ** Lemmas: the scoring loop *)
Lemma score_None cs acc :
  foldl (λ a c, (a.1 ++ [c], if is_AC c then fadd a.2 (c_points c) else a.2)) acc cs =
  (acc.1 ++ cs, foldl fadd acc.2 (map c_points (filter (λ c, is_AC c = true) cs))).
Proof.
  revert acc. induction cs as [|c cs IH]; intros [a s]; simpl; [by rewrite app_nil_r|].
  rewrite IH. simpl. rewrite <-app_assoc, filter_cons. simpl. f_equal.
  destruct (is_AC c); [by rewrite decide_True|by rewrite decide_False].
Qed.

Lemma score_loop l batch_ac batches order acc :
  (∀ bn, default [] (batches !! bn) = group l bn) →
  (∀ b, Some b ∈ order → default true (batch_ac !! b) = all_AC (group l (Some b))) →
  foldl (score_step batches batch_ac) acc order =
  (acc.1 ++ concat (map (batch_results l) order),
   foldl fadd acc.2 (concat (map (batch_scores l) order))).
Proof.
  intros Hb. revert acc. induction order as [|bn order IH]; intros [cs s] Hac; simpl.
  { by rewrite app_nil_r. }
  rewrite IH by (intros; apply Hac; set_solver).
  rewrite foldl_app, app_assoc. unfold score_step. rewrite Hb.
  destruct bn as [b|]; simpl.
  - rewrite Hac by set_solver. by destruct (all_AC _).
  - by rewrite score_None.
Qed.

Lemma batches_of_elem l bn : bn ∈ batches_of l ↔ bn ∈ map (λ p, tc_batch_no p.2) l.
Proof. apply elem_of_fromkeys. Qed.

(** ** The refinement, as the lemma the properties use *)
Lemma aggregate_batches_eq raw tcs :
  aggregate_batches raw tcs =
  (spec_cases (after_deps (zip raw tcs)), spec_score (after_deps (zip raw tcs))).
Proof.
  unfold aggregate_batches. rewrite zip_after_deps.
  set (l := after_deps (zip raw tcs)).
  destruct (group_cases_spec l) as (Ho & _ & Hb). rewrite Ho.
  rewrite (score_loop l); [done|done|].
  intros b Hin%batches_of_elem.
  rewrite compute_batch_ac_lookup, zip_after_deps. by rewrite decide_True.
Qed.

(** ** Grouping loses no case *)
Lemma concat_map_insert {A} (f g : option Z → list A) (bn : option Z) (x : list A) bs :
  NoDup bs → bn ∈ bs → f bn = g bn ++ x → (∀ k, k ≠ bn → f k = g k) →
  concat (map f bs) ≡ₚ concat (map g bs) ++ x.
Proof.
  intros Hnd Hin Hbn Hne. induction Hnd as [|k bs Hni Hnd IH]; [set_solver|]. simpl.
  destruct (decide (k = bn)) as [->|Hb].
  - rewrite Hbn. rewrite (map_ext_in f g); [by solve_Permutation|].
    intros k Hk. apply Hne. apply list_elem_of_In in Hk. set_solver.
  - rewrite Hne by done. rewrite <-app_assoc. f_equiv. apply IH. set_solver.
Qed.

Lemma group_partition l : concat (map (group l) (batches_of l)) ≡ₚ map fst l.
Proof.
  induction l as [|p l IH] using rev_ind; [done|].
  unfold batches_of in *. rewrite !map_app. simpl. rewrite fromkeys_snoc.
  set (bs := fromkeys _) in *.
  set (bn := tc_batch_no p.2).
  assert (∀ k, group (l ++ [p]) k = group l k ++ (if decide (bn = k) then [p.1] else [])) as Hg
    by (intros; apply group_snoc).
  case_decide as Hin.
  - rewrite (concat_map_insert _ (group l) bn [p.1]); [by f_equiv|by subst bs| | |].
    + subst bs. by rewrite elem_of_fromkeys.
    + rewrite Hg. by rewrite decide_True.
    + intros k Hk. rewrite Hg, decide_False by done. by rewrite app_nil_r.
  - rewrite map_app, concat_app. simpl. rewrite app_nil_r, Hg, decide_True by done.
    rewrite group_nil by done. simpl. rewrite <-IH. f_equiv.
    enough (map (group (l ++ [p])) bs = map (group l) bs) as -> by done.
    apply map_ext_in. intros k Hb%list_elem_of_In.
    rewrite Hg, decide_False; [by rewrite app_nil_r|].
    intros ->. apply Hin. subst bs. by rewrite elem_of_fromkeys in Hb.
Qed.

Lemma batch_results_case_nos l bn :
  map c_case_no (batch_results l bn) = map c_case_no (group l bn).
Proof.
  unfold batch_results. destruct bn as [b|]; [|done]. destruct (all_AC _); [done|].
  by rewrite map_map.
Qed.

Lemma spec_cases_case_nos l : map c_case_no (spec_cases l) ≡ₚ map (λ p, c_case_no p.1) l.
Proof.
  unfold spec_cases. rewrite concat_map, map_map.
  rewrite (map_ext _ _ (batch_results_case_nos l)).
  rewrite <-(map_map (group l) (map c_case_no)), <-concat_map, group_partition.
  by rewrite map_map.
Qed.

Lemma after_deps_case_nos l : map (λ p, c_case_no p.1) (after_deps l) = map (λ p, c_case_no p.1) l.
Proof. unfold after_deps. rewrite map_map. apply map_ext. intros p. simpl. by destruct (blocked _ _). Qed.

Lemma after_deps_batch_nos l :
  map (λ p, tc_batch_no p.2) (after_deps l) = map (λ p, tc_batch_no p.2) l.
Proof. unfold after_deps. by rewrite map_map. Qed.

Lemma after_deps_group_case_nos l bn :
  map c_case_no (group (after_deps l) bn) = map c_case_no (group l bn).
Proof.
  unfold group, after_deps. generalize (blocked l). intros blk.
  induction l as [|p l IH]; [done|]. simpl. rewrite !filter_cons. simpl.
  case_decide; simpl; [|exact IH]. f_equal; [by destruct (blk _)|]. exact IH.
Qed.

Lemma map_snd_zip_take {A B} (xs : list A) (ys : list B) :
  map snd (zip xs ys) = take (length xs) ys.
Proof. revert ys. induction xs as [|x xs IH]; intros [|y ys]; simpl; [done..|]. by rewrite IH. Qed.

(** ** Membership in a group *)
Lemma elem_of_group l bn c : c ∈ group l bn ↔ ∃ tc, (c, tc) ∈ l ∧ tc_batch_no tc = bn.
Proof.
  unfold group. rewrite list_elem_of_fmap. setoid_rewrite list_elem_of_filter. split.
  - intros ([c' tc] & -> & Hbn & Hin). eauto.
  - intros (tc & Hin & Hbn). by exists (c, tc).
Qed.

Lemma all_AC_false cs : all_AC cs = false ↔ ∃ c, c ∈ cs ∧ is_AC c = false.
Proof.
  induction cs as [|c cs IH]; simpl; [set_solver|].
  rewrite andb_false_iff, IH. setoid_rewrite elem_of_cons. naive_solver.
Qed.

Lemma spec_cases_batch l bn :
  bn ∈ map (λ p, tc_batch_no p.2) l →
  ∃ pre post, spec_cases l = pre ++ batch_results l bn ++ post.
Proof.
  intros Hin. apply batches_of_elem in Hin. apply list_elem_of_split in Hin as (b1 & b2 & Heq).
  unfold spec_cases. rewrite Heq, map_app, concat_app. simpl. eauto.
Qed.

Lemma blocked_true l tc dep :
  tc_batch_no tc ≠ None → dep ∈ tc_deps tc →
  (∃ c tc', (c, tc') ∈ l ∧ tc_batch_no tc' = Some dep ∧ is_AC c = false) →
  blocked l tc = true.
Proof.
  intros Hbn Hdep (c & tc' & Hin & Hb & Hac). unfold blocked.
  destruct (tc_batch_no tc) as [b|]; [|done]. apply existsb_exists. exists dep.
  split; [by apply list_elem_of_In|]. unfold dep_failed. apply andb_true_iff. split.
  - apply bool_decide_true. apply list_elem_of_fmap. by exists (c, tc').
  - apply negb_true_iff, all_AC_false. exists c. split; [|done]. apply elem_of_group. eauto.
Qed.

Lemma after_deps_nonneg l :
  Forall (λ p, nonneg (c_points p.1) = true) l →
  Forall (λ p, nonneg (c_points p.1) = true) (after_deps l).
Proof. intros H. unfold after_deps. apply Forall_fmap. eapply Forall_impl; [done|]. intros p Hp. simpl. by destruct (blocked _ _). Qed.

Lemma group_nonneg l bn :
  Forall (λ p, nonneg (c_points p.1) = true) l →
  Forall (λ x, nonneg x = true) (map c_points (group l bn)).
Proof.
  intros H. apply Forall_fmap, Forall_fmap, Forall_filter_sub. by eapply Forall_impl.
Qed.

Lemma spec_score_nonneg l :
  Forall (λ p, nonneg (c_points p.1) = true) l → nonneg (spec_score l) = true.
Proof.
  intros H. apply fsum_nonneg, Forall_concat, Forall_fmap, Forall_true. intros bn. simpl.
  pose proof (group_nonneg l bn H) as Hg. unfold batch_scores. destruct bn as [b|].
  - destruct (all_AC _); auto with pyfloat.
  - apply Forall_fmap, Forall_filter_sub. by apply Forall_fmap in Hg.
Qed.
End phases.

(** ** Properties *)

(** C3. [aggregate_batches] computes its specification: the batches in order of
    first appearance, a batch contributing its cases unchanged and the sum of
    their points when all of them are AC after the dependency marking, its cases
    with zero points and nothing to the score otherwise, a case without batch
    number counting on its own; the score is the left-to-right float sum of the
    contributions. *)
Theorem aggregate_batches_refines raw tcs :
  aggregate_batches raw tcs =
  (spec_cases (after_deps (zip raw tcs)), spec_score (after_deps (zip raw tcs))).
Proof. apply aggregate_batches_eq. Qed.

(** All or nothing: the cases of a batch stand together in the result;
    either they are all AC and keep their points, or one of them is not AC and
    every one of them has zero points. *)
Theorem aggregate_batches_all_or_nothing raw tcs b
  (Hb : Some b ∈ map tc_batch_no (take (length raw) tcs)) :
  let marked := after_deps (zip raw tcs) in
  ∃ pre out post,
    (aggregate_batches raw tcs).1 = pre ++ out ++ post ∧
    map c_case_no out = map c_case_no (group marked (Some b)) ∧
    ((out = group marked (Some b) ∧ Forall (λ c, c_result c = "AC") out) ∨
     (Forall (λ c, c_points c = fzero) out ∧ Exists (λ c, c_result c ≠ "AC") out)).
Proof.
  intros marked. rewrite aggregate_batches_eq. fold marked. simpl.
  destruct (spec_cases_batch marked (Some b)) as (pre & post & Heq).
  { unfold marked. rewrite after_deps_batch_nos.
    rewrite <-(map_map snd tc_batch_no), map_snd_zip_take. done. }
  exists pre, (batch_results marked (Some b)), post. split; [done|].
  split; [apply batch_results_case_nos|]. unfold batch_results.
  destruct (all_AC (group marked (Some b))) eqn:Hall; [left|right].
  - split; [done|]. unfold all_AC in Hall. rewrite forallb_forall in Hall.
    apply Forall_forall. intros c Hc. apply String.eqb_eq, Hall. by apply list_elem_of_In.
  - apply all_AC_false in Hall as (c & Hc & Hac). split.
    + by apply Forall_fmap, Forall_true.
    + apply Exists_exists. exists (set_points fzero c). split; [by apply list_elem_of_fmap_2|].
      by apply String.eqb_neq in Hac.
Qed.

(** No case is lost or duplicated: the case numbers of the result are those
    of the raw results, regrouped. *)
Theorem aggregate_batches_perm raw tcs (Hlen : length raw = length tcs) :
  map c_case_no (aggregate_batches raw tcs).1 ≡ₚ map c_case_no raw.
Proof.
  rewrite aggregate_batches_eq. simpl.
  rewrite spec_cases_case_nos, after_deps_case_nos.
  rewrite <-(map_map fst c_case_no). change (map fst (zip raw tcs)) with (zip raw tcs).*1.
  by rewrite fst_zip by lia.
Qed.

(** Failed dependency: when a batch declares a dependency on a batch of the
    submission that has a case which is not AC, every case that declares it is
    SKIPPED with zero points, and its whole batch scores nothing. *)
Theorem aggregate_batches_dependency raw tcs c tc b dep
  (Hin : (c, tc) ∈ zip raw tcs) (Hb : tc_batch_no tc = Some b) (Hdep : dep ∈ tc_deps tc)
  (Hfail : ∃ c' tc', (c', tc') ∈ zip raw tcs ∧ tc_batch_no tc' = Some dep ∧ is_AC c' = false) :
  skip c ∈ (aggregate_batches raw tcs).1 ∧
  batch_scores (after_deps (zip raw tcs)) (Some b) = [] ∧
  ∃ pre out post, (aggregate_batches raw tcs).1 = pre ++ out ++ post ∧
    map c_case_no out = map c_case_no (group (zip raw tcs) (Some b)) ∧
    Forall (λ d, c_points d = fzero) out.
Proof.
  rewrite aggregate_batches_eq. simpl. set (l := after_deps (zip raw tcs)).
  assert (Hsk : (skip c, tc) ∈ l).
  { apply list_elem_of_fmap. exists (c, tc). simpl.
    by rewrite (blocked_true _ _ dep) by (rewrite ?Hb; done). }
  assert (Hall : all_AC (group l (Some b)) = false).
  { apply all_AC_false. exists (skip c). split; [|done]. apply elem_of_group. eauto. }
  destruct (spec_cases_batch l (Some b)) as (pre & post & Heq).
  { apply list_elem_of_fmap. by exists (skip c, tc). }
  assert (Hres : batch_results l (Some b) = map (set_points fzero) (group l (Some b)))
    by (unfold batch_results; by rewrite Hall).
  split_and!.
  - rewrite Heq, Hres, !elem_of_app. right; left.
    change (skip c) with (set_points fzero (skip c)). apply list_elem_of_fmap_2, elem_of_group. eauto.
  - unfold batch_scores. by rewrite Hall.
  - exists pre, (batch_results l (Some b)), post. split; [done|]. split.
    + rewrite batch_results_case_nos. apply after_deps_group_case_nos.
    + rewrite Hres. by apply Forall_fmap, Forall_true.
Qed.

Lemma aggregate_nonneg raw tcs :
  Forall (λ c, nonneg (c_points c) = true) raw → nonneg (aggregate_batches raw tcs).2 = true.
Proof.
  intros Hpts. rewrite aggregate_batches_eq. simpl. apply spec_score_nonneg, after_deps_nonneg.
  apply Forall_forall. intros [c tc] Hin%elem_of_zip_l. by eapply Forall_forall in Hpts.
Qed.

(** The score is never negative (and never a NaN) when no case is worth a
    negative number of points. *)
Theorem aggregate_score_nonneg raw tcs
  (Hpts : Forall (λ c, nonneg (c_points c) = true) raw) :
  nonneg (aggregate_batches raw tcs).2 = true.
Proof. by apply aggregate_nonneg. Qed.

Definition sample_tc (no : Z) (batch : option Z) (deps : list Z) : TestCaseData :=
  mkTestCase no (Some (f_of_Z 20)) None None None (Some []) (Some []) None None None None
    batch (Some deps) None.
Definition sample_cr (no : Z) (r : string) : CaseResult :=
  mkCase no r 10 1024 (f_of_Z 20) [] [].
Definition chain_raw : list CaseResult := [sample_cr 1 "WA"; sample_cr 2 "AC"; sample_cr 3 "AC"].
Definition chain_tcs : list TestCaseData :=
  [sample_tc 1 (Some 1%Z) []; sample_tc 2 (Some 2%Z) [1%Z]; sample_tc 3 (Some 3%Z) [2%Z]].

(** Dependencies are not transitive: batch 1 fails, batch 2 depends on it and
    is skipped, batch 3 depends on batch 2 only and still scores in full, because
    the marking of phase 2 reads the statuses computed before any marking. *)
Theorem batch_dependency_not_transitive :
  map (λ c, (c_case_no c, c_result c, c_points c)) (aggregate_batches chain_raw chain_tcs).1 =
    [(1%Z, "WA", fzero); (2%Z, "SKIPPED", fzero); (3%Z, "AC", f_of_Z 20)] ∧
  (aggregate_batches chain_raw chain_tcs).2 = f_of_Z 20.
Proof. split; vm_compute; reflexivity. Qed.

(** ** Witnesses *)
Definition mixed_raw : list CaseResult :=
  [sample_cr 1 "AC"; sample_cr 2 "AC"; sample_cr 3 "WA"; sample_cr 4 "AC"].
Definition mixed_tcs : list TestCaseData :=
  [sample_tc 1 (Some 1%Z) []; sample_tc 2 None []; sample_tc 3 (Some 1%Z) []; sample_tc 4 (Some 2%Z) [1%Z]].

Example aggregate_batches_all_or_nothing_witness :
  Some 1%Z ∈ map tc_batch_no (take (length mixed_raw) mixed_tcs) ∧
  let marked := after_deps (zip mixed_raw mixed_tcs) in
  ∃ pre out post,
    (aggregate_batches mixed_raw mixed_tcs).1 = pre ++ out ++ post ∧
    map c_case_no out = map c_case_no (group marked (Some 1%Z)) ∧
    ((out = group marked (Some 1%Z) ∧ Forall (λ c, c_result c = "AC") out) ∨
     (Forall (λ c, c_points c = fzero) out ∧ Exists (λ c, c_result c ≠ "AC") out)).
Proof.
  assert (Some 1%Z ∈ map tc_batch_no (take (length mixed_raw) mixed_tcs)) as H by decide_eval.
  split; [exact H|]. exact (aggregate_batches_all_or_nothing mixed_raw mixed_tcs 1%Z H).
Defined.

Example aggregate_batches_perm_witness :
  length mixed_raw = length mixed_tcs ∧
  map c_case_no (aggregate_batches mixed_raw mixed_tcs).1 ≡ₚ map c_case_no mixed_raw.
Proof.
  split; [reflexivity|]. exact (aggregate_batches_perm mixed_raw mixed_tcs eq_refl).
Defined.

Example aggregate_batches_dependency_witness :
  skip (sample_cr 4 "AC") ∈ (aggregate_batches mixed_raw mixed_tcs).1.
Proof.
  refine (proj1 (aggregate_batches_dependency mixed_raw mixed_tcs (sample_cr 4 "AC")
    (sample_tc 4 (Some 2%Z) [1%Z]) 2%Z 1%Z _ eq_refl _ _)).
  - right; right; right; left.
  - left.
  - exists (sample_cr 3 "WA"), (sample_tc 3 (Some 1%Z) []). split_and!; [|reflexivity..].
    right; right; left.
Defined.

Example aggregate_score_nonneg_witness :
  nonneg (aggregate_batches mixed_raw mixed_tcs).2 = true.
Proof. apply aggregate_score_nonneg. repeat constructor. Defined.
