(* ===== verification/Checker.v ===== *)
(** Output comparison: app/modules/judge/checker.py.

    The file system the checker reads is a map from the path of a regular file
    to its bytes.  [Path.read_text] opens the file in text mode, so it also
    translates newlines; [read_bytes().decode] does not. *)
From S2P Require Import Prelude PyText Sandbox.
Open Scope Z_scope.

(** Universal newlines of text mode: CR LF and CR become LF. *)
Fixpoint universal_newlines (s : text) : text :=
  match s with
  | [] => []
  | c :: s' =>
    if c =? 13 then
      match s' with
      | d :: s'' => if d =? 10 then 10 :: universal_newlines s'' else 10 :: universal_newlines s'
      | [] => [10]
      end
    else c :: universal_newlines s'
  end.

Section checker.
Variable fs : gmap string byte_list.

Definition check_output (actual_preview : text) (expected_text : option text) : bool :=
  match expected_text with
  | None => true
  | Some e => bool_decide (strip actual_preview = strip e)
  end.

(** The bytes of the regular file at the path, when there is one. *)
Definition _existing_file (path_value : option string) : option byte_list :=
  match path_value with
  | None => None
  | Some p => fs !! p
  end.

Definition _ref_full_text (ref : option DataRef) : option text :=
  match ref with
  | None => None
  | Some r =>
    match _existing_file (dr_path r) with
    | Some bs => Some (universal_newlines (utf8_decode bs))
    | None =>
      match dr_data r with
      | DBytes bs => Some (utf8_decode bs)
      | DStr s => Some s
      | DNone => None
      end
    end
  end.

Definition CHUNK_SIZE : Z := 1024 * 1024.

(** [a != b] of two byte slices *)
Definition bytes_eqb (a b : byte_list) : bool := bool_decide (a = b).

Definition _paths_match_stripped (data_a data_b : byte_list) (chunk_size : Z) : bool :=
  let text_a := strip (utf8_decode data_a) in
  let text_b := strip (utf8_decode data_b) in
  if negb (Nat.eqb (length text_a) (length text_b)) then false
  else
    let ba := utf8_encode text_a in
    let bb := utf8_encode text_b in
    if negb (Nat.eqb (length ba) (length bb)) then false
    else forallb (λ i, bytes_eqb (slice i (i + chunk_size) ba) (slice i (i + chunk_size) bb))
           (range_step (Z.of_nat (length ba)) chunk_size).

Definition outputs_match (actual_ref : DataRef) (expected_ref : option DataRef) : bool :=
  match expected_ref with
  | None => true
  | Some e =>
    match _existing_file (dr_path actual_ref), _existing_file (dr_path e) with
    | Some a, Some b => _paths_match_stripped a b CHUNK_SIZE
    | _, _ =>
      match _ref_full_text (Some e) with
      | None => true
      | Some expected_text =>
        check_output (default [] (_ref_full_text (Some actual_ref))) (Some expected_text)
      end
    end
  end.

(** ** The chunked comparison is the comparison of the stripped texts *)
Lemma paths_match_spec (a b : byte_list) (chunk : Z) :
  0 < chunk →
  _paths_match_stripped a b chunk = bool_decide (strip (utf8_decode a) = strip (utf8_decode b)).
Proof.
  intros Hchunk. unfold _paths_match_stripped.
  set (ta := strip (utf8_decode a)). set (tb := strip (utf8_decode b)).
  assert (Forall scalar ta) as Ha by apply strip_scalar, utf8_decode_scalar.
  assert (Forall scalar tb) as Hb by apply strip_scalar, utf8_decode_scalar.
  destruct (Nat.eqb_spec (length ta) (length tb)) as [Hl|Hl]; simpl;
    [|by rewrite bool_decide_false by congruence].
  destruct (Nat.eqb_spec (length (utf8_encode ta)) (length (utf8_encode tb))) as [Hle|Hle]; simpl;
    [|by rewrite bool_decide_false by congruence].
  apply eq_true_iff_eq. rewrite bool_decide_eq_true.
  rewrite (chunks_equal bytes_eqb chunk); [|intros; apply bool_decide_eq_true|done|done].
  split; [by apply utf8_encode_inj|by intros ->].
Qed.

(** The text an expectation or an output stands for. *)
Definition full_text (r : DataRef) : text := default [] (_ref_full_text (Some r)).

(** C36. Two files match exactly when their decoded contents agree after
    stripping: the length tests and the chunk loop neither accept nor reject
    anything else. *)
Theorem outputs_match_files actual expected a b
  (Ha : _existing_file (dr_path actual) = Some a)
  (Hb : _existing_file (dr_path expected) = Some b) :
  outputs_match actual (Some expected) = true ↔ strip (utf8_decode a) = strip (utf8_decode b).
Proof.
  unfold outputs_match. rewrite Ha, Hb, paths_match_spec by done. apply bool_decide_eq_true.
Qed.

(** As soon as one side is not a file the verdict is the stripped comparison
    of the full texts; it never depends on the preview. *)
Theorem outputs_match_texts actual expected t
  (Hf : _existing_file (dr_path actual) = None ∨ _existing_file (dr_path expected) = None)
  (Ht : _ref_full_text (Some expected) = Some t) :
  outputs_match actual (Some expected) = true ↔ strip (full_text actual) = strip t.
Proof.
  unfold outputs_match. rewrite Ht.
  assert (check_output (full_text actual) (Some t) = true ↔ strip (full_text actual) = strip t) as Hc
    by apply bool_decide_eq_true.
  unfold full_text in Hc.
  destruct Hf as [-> | ->]; [|destruct (_existing_file (dr_path actual))]; done.
Qed.
End checker.

Definition crlf : byte_list := [97; 13; 10; 98].
Definition file_ref (p : string) : DataRef := mkDataRef (Some p) DNone None [].
Definition inline_ref (s : text) : DataRef := mkDataRef None (DStr s) None [].
Definition crlf_fs : gmap string byte_list := {[ "a" := crlf; "e" := crlf ]}.

(** The route matters: the same bytes, a line ending in CR LF, match as two
    files but not when the expectation is inline, because only the file is read
    with newline translation. *)
Theorem outputs_match_crlf_divergence :
  outputs_match crlf_fs (file_ref "a") (Some (file_ref "e")) = true ∧
  outputs_match crlf_fs (file_ref "a") (Some (inline_ref crlf)) = false.
Proof. split; vm_compute; reflexivity. Qed.

(** ** Witnesses *)
Example outputs_match_files_witness :
  outputs_match crlf_fs (file_ref "a") (Some (file_ref "e")) = true.
Proof. by apply (outputs_match_files crlf_fs (file_ref "a") (file_ref "e") crlf crlf). Defined.

Example outputs_match_texts_witness :
  outputs_match crlf_fs (file_ref "a") (Some (inline_ref [97; 10; 98; 32])) = true.
Proof.
  apply (outputs_match_texts crlf_fs (file_ref "a") (inline_ref [97; 10; 98; 32]) [97; 10; 98; 32]).
  - by right.
  - reflexivity.
  - vm_compute. reflexivity.
Defined.
