(* ===== verification/JudgeConfig.v ===== *)
(** The judge module's settings: app/modules/judge/config.py.

    [JudgeSettings] is a pydantic-settings class: the values come from the
    environment, so a record of them is an argument of the definitions that use
    the configuration; [default_judge_settings] is the record with the declared
    defaults.  Durations that Python keeps as float seconds are [f64]. *)
From S2P Require Import Prelude PyFloat.

Record JudgeSettings := mkJudgeSettings {
  task_default_queue : string;
  task_default_routing_key : string;
  task_soft_time_limit : Z;
  task_time_limit : Z;
  task_acks_late : bool;
  task_reject_on_worker_lost : bool;
  worker_prefetch_multiplier : Z;
  sandbox_worker_pool_size : Z;
  sandbox_borrow_timeout_seconds : f64;
  sandbox_max_queue_wait_seconds : f64;
  sandbox_request_timeout_seconds : f64;
  sandbox_queue_wait_warn_seconds : f64;
  sandbox_health_check_timeout_seconds : f64;
  sandbox_standard_parallelism : Z;
  sandbox_allow_emergency_worker : bool;
  sandbox_compilation_cache_enabled : bool;
  sandbox_compilation_cache_dir : string;
  sandbox_compilation_cache_max_mb : Z;
  sandbox_compilation_cache_ttl_seconds : Z;
  sandbox_enable_namespaces : bool;
  sandbox_rootfs_path : string;
  sandbox_bind_system_paths : bool;
  sandbox_isolate_network : bool;
  sandbox_isolate_ipc : bool;
  sandbox_isolate_uts : bool;
  sandbox_private_mounts : bool;
  sandbox_use_pivot_root : bool;
  sandbox_bind_workspace : bool;
  sandbox_enable_cgroup : bool;
  sandbox_cgroup_version : string;
  sandbox_cgroup_base_path : string;
  sandbox_cgroup_v1_memory_base_path : string;
  sandbox_cgroup_v1_pids_base_path : string;
  cache_enabled : bool;
  cache_dir : string;
  cache_max_mb : Z;
  cache_ttl_seconds : Z;
}.

Definition default_judge_settings : JudgeSettings := {|
  task_default_queue := "judge";
  task_default_routing_key := "judge.default";
  task_soft_time_limit := 300;
  task_time_limit := 600;
  task_acks_late := true;
  task_reject_on_worker_lost := true;
  worker_prefetch_multiplier := 1;
  sandbox_worker_pool_size := 32;
  sandbox_borrow_timeout_seconds := fdiv (f_of_Z 5) (f_of_Z 100);
  sandbox_max_queue_wait_seconds := fzero;
  sandbox_request_timeout_seconds := f_of_Z 120;
  sandbox_queue_wait_warn_seconds := fdiv (f_of_Z 5) (f_of_Z 10);
  sandbox_health_check_timeout_seconds := f_of_Z 1;
  sandbox_standard_parallelism := 4;
  sandbox_allow_emergency_worker := false;
  sandbox_compilation_cache_enabled := true;
  sandbox_compilation_cache_dir := "/tmp/acoj-ccache";
  sandbox_compilation_cache_max_mb := 512;
  sandbox_compilation_cache_ttl_seconds := 3600;
  sandbox_enable_namespaces := false;
  sandbox_rootfs_path := "";
  sandbox_bind_system_paths := true;
  sandbox_isolate_network := true;
  sandbox_isolate_ipc := true;
  sandbox_isolate_uts := true;
  sandbox_private_mounts := true;
  sandbox_use_pivot_root := true;
  sandbox_bind_workspace := true;
  sandbox_enable_cgroup := false;
  sandbox_cgroup_version := "auto";
  sandbox_cgroup_base_path := "/sys/fs/cgroup/acoj-sandbox";
  sandbox_cgroup_v1_memory_base_path := "";
  sandbox_cgroup_v1_pids_base_path := "";
  cache_enabled := true;
  cache_dir := "storage/judge-cache";
  cache_max_mb := 512;
  cache_ttl_seconds := 86400 * 7;
|}.

(** A value of [settings.module_configs]: a [JudgeSettings] or an instance of
    another class. *)
Inductive ModuleConfig :=
| CfgJudge (s : JudgeSettings)
| CfgOther (cls : string).

(** [fallback] is what [_fallback_judge_settings()] builds from the environment;
    its [lru_cache] makes every later call return the same record. *)
Definition get_judge_settings (module_configs : gmap string ModuleConfig)
    (fallback : JudgeSettings) : JudgeSettings :=
  match module_configs !! "judge" with
  | Some (CfgJudge cfg) => cfg
  | _ => fallback
  end.
