(* ===== verification/FileCache.v ===== *)
(** The judge file cache: app/modules/judge/file_cache.py.

    The world of the cache is the file system (a map from paths to bytes, and the
    directories made so far), the clock with the delays its next readings will
    show, what the next calls that change the file system do (succeed, or fail as
    on a full disk, a write leaving some of its bytes behind), the module's lazily
    filled configuration, the registry of key locks with the set of keys another
    thread holds, and the remote store.  Times are
    integers, [SECOND] of them to a second (the code keeps float seconds).

    The class [CacheEnv] and the class [Storage] are the arguments that stand for
    code outside the repository.  A path is the list of
    components pathlib splits it into, [..] included: pathlib keeps it, and the
    call that uses the path resolves it ([place_of]), which fails when the directory
    to leave does not exist.  The keys of the map of files are resolved paths.  A
    path without [..] needs no directory: the code makes the one it writes to, and no
    directory stands where the code expects a file.  There are no symbolic links
    below the resolved root, and calls that only read do not fail otherwise. *)
From S2P Require Import Prelude PyFloat PyText PyStr JudgeConfig.
Open Scope Z_scope.

Notation path := (list string) (only parsing).

Definition SECOND : Z := 1000000.
Definition REVALIDATE_INTERVAL : Z := 60 * SECOND.
Definition TOUCH_COOLDOWN : Z := 60 * SECOND.
Definition LRU_GRACE_PERIOD : Z := 60 * SECOND.
Definition EVICT_TARGET_RATIO : f64 := fdiv (f_of_Z 8) (f_of_Z 10).

(** The object of a meta file; a field is [None] when the key is missing. *)
Record Meta := mkMeta {
  m_etag : option string;
  m_sha256 : option string;
  m_size_bytes : option Z;
  m_object_name : option string;
  m_cached_at : option Z;
  m_last_accessed_at : option Z;
  m_last_validated_at : option Z;
}.

Definition set_accessed (t : Z) (m : Meta) : Meta :=
  mkMeta (m_etag m) (m_sha256 m) (m_size_bytes m) (m_object_name m) (m_cached_at m)
    (Some t) (m_last_validated_at m).
Definition set_validated (t : Z) (m : Meta) : Meta :=
  mkMeta (m_etag m) (m_sha256 m) (m_size_bytes m) (m_object_name m) (m_cached_at m)
    (m_last_accessed_at m) (Some t).

(** [int(x)] of a float: truncation toward zero. *)
Definition f_trunc (a : f64) : Z :=
  match a with
  | S754_finite s m e =>
    let v := if 0 <=? e then Z.pos m * 2 ^ e else Z.pos m / 2 ^ (- e) in
    if s then - v else v
  | _ => 0
  end.

(** ** Paths *)
Definition parts (s : string) : path :=
  filter (λ p, p ≠ "" ∧ p ≠ ".") (split_on "/" s).
(** [path / s] for a relative [s] *)
Definition path_div (p : path) (s : string) : path := p ++ parts s.
Definition path_name (p : path) : string := default "" (last p).
(** [path.with_name(n)] *)
Definition with_name (p : path) (n : string) : path := removelast p ++ [n].

(** No component is [..]. *)
Definition straight (p : path) : bool := forallb (λ c, negb (String.eqb c "..")) p.

(** [Path.resolve] leaves no [..] in the root. *)
Record CacheCfg := mkCacheCfg {
  CACHE_ROOT : path;
  CACHE_ROOT_straight : straight CACHE_ROOT = true;
  CACHE_ENABLED : bool;
  CACHE_MAX_BYTES : Z;
  CACHE_TTL_SECONDS : Z;
}.

Definition META_SUFFIX : string := ".meta.json".

Definition _cache_key (sha256 object_name : string) : string :=
  if str_truthy sha256 then "sha256:" +:+ sha256 else "name:" +:+ object_name.

Definition _data_path (root : path) (key : string) : path :=
  path_div (path_div root (str_take 2 key)) key.
Definition _meta_path (root : path) (key : string) : path :=
  path_div (path_div root (str_take 2 key)) (key +:+ META_SUFFIX).

Definition _key_from_meta_path (meta_file : path) : option string :=
  let name := path_name meta_file in
  if endswith META_SUFFIX name then Some (str_chop (String.length META_SUFFIX) name) else None.

(** *** Where a path leads *)

(** The path after its [..] are resolved. *)
Definition norm (p : path) : path :=
  foldl (λ q c, if String.eqb c ".." then removelast q else q ++ [c]) [] p.

(** The directories made, with all above them. *)
Definition is_dir (dirs : list path) (q : path) : bool :=
  match q with [] => true | _ => existsb (λ d, bool_decide (q `prefix_of` d)) dirs end.

(** The system follows a path component by component; [..] leaves a directory,
    which must exist. *)
Fixpoint walk (dirs : list path) (q p : path) : option path :=
  match p with
  | [] => Some q
  | c :: p =>
    if String.eqb c ".." then if is_dir dirs q then walk dirs (removelast q) p else None
    else walk dirs (q ++ [c]) p
  end.

Inductive Place := Missing | Dir | File (q : path).

Definition place_of (dirs : list path) (p : path) : Place :=
  match walk dirs [] p with
  | None => Missing
  | Some q => if negb (straight p) && is_dir dirs q then Dir else File q
  end.

(** The directories that [p.mkdir(parents=True, exist_ok=True)] makes. *)
Definition made (p : path) : list path := map (λ n, norm (take n p)) (seq 0 (S (length p))).

(** ** The world *)

(** What a call that changes the file system does: it works, or it fails; a
    failing write has created its file with that many bytes, or not at all. *)
Inductive fault := Works | Fails (written : option nat).

Record CW (R : Type) := mkCW {
  w_fs : gmap path byte_list;
  w_clock : Z;
  w_delays : list Z;
  w_faults : list fault;
  w_cfg : option CacheCfg;
  w_initialized : bool;
  w_locks : gmap string nat;
  w_busy : gset string;
  w_uuid : nat;
  w_remote : R;
  w_dirs : list path;
}.
Arguments mkCW {R}.
Arguments w_fs {R}.
Arguments w_clock {R}.
Arguments w_delays {R}.
Arguments w_faults {R}.
Arguments w_cfg {R}.
Arguments w_initialized {R}.
Arguments w_locks {R}.
Arguments w_busy {R}.
Arguments w_uuid {R}.
Arguments w_remote {R}.
Arguments w_dirs {R}.

Section world.
Context {R : Type}.
Implicit Types w : CW R.

Definition set_fs (f : gmap path byte_list → gmap path byte_list) w : CW R :=
  mkCW (f (w_fs w)) (w_clock w) (w_delays w) (w_faults w) (w_cfg w) (w_initialized w) (w_locks w) (w_busy w)
    (w_uuid w) (w_remote w) (w_dirs w).
Definition set_cfg (c : CacheCfg) w : CW R :=
  mkCW (w_fs w) (w_clock w) (w_delays w) (w_faults w) (Some c) (w_initialized w) (w_locks w) (w_busy w)
    (w_uuid w) (w_remote w) (w_dirs w).
Definition set_initialized w : CW R :=
  mkCW (w_fs w) (w_clock w) (w_delays w) (w_faults w) (w_cfg w) true (w_locks w) (w_busy w)
    (w_uuid w) (w_remote w) (w_dirs w).
Definition set_locks (l : gmap string nat) w : CW R :=
  mkCW (w_fs w) (w_clock w) (w_delays w) (w_faults w) (w_cfg w) (w_initialized w) l (w_busy w)
    (w_uuid w) (w_remote w) (w_dirs w).
Definition set_remote (r : R) w : CW R :=
  mkCW (w_fs w) (w_clock w) (w_delays w) (w_faults w) (w_cfg w) (w_initialized w) (w_locks w) (w_busy w)
    (w_uuid w) r (w_dirs w).
Definition set_dirs (f : list path → list path) w : CW R :=
  mkCW (w_fs w) (w_clock w) (w_delays w) (w_faults w) (w_cfg w) (w_initialized w) (w_locks w) (w_busy w)
    (w_uuid w) (w_remote w) (f (w_dirs w)).
Definition bump_uuid w : CW R :=
  mkCW (w_fs w) (w_clock w) (w_delays w) (w_faults w) (w_cfg w) (w_initialized w) (w_locks w) (w_busy w)
    (S (w_uuid w)) (w_remote w) (w_dirs w).
(** One reading of the clock: the next delay has passed. *)
Definition tick w : CW R :=
  mkCW (w_fs w) (w_clock w + default 0 (head (w_delays w))) (tail (w_delays w)) (w_faults w) (w_cfg w)
    (w_initialized w) (w_locks w) (w_busy w) (w_uuid w) (w_remote w) (w_dirs w).

(** A call has met its fault. *)
Definition next_fault w : CW R :=
  mkCW (w_fs w) (w_clock w) (w_delays w) (tail (w_faults w)) (w_cfg w) (w_initialized w) (w_locks w)
    (w_busy w) (w_uuid w) (w_remote w) (w_dirs w).

Definition time_time : io (CW R) Z := _ ← modify tick; gets w_clock.

(** *** File system calls *)
Definition os_error : exn := OSError "I/O error".

Definition meet_fault : io (CW R) fault :=
  f ← gets (λ w, default Works (head (w_faults w)));
  _ ← modify next_fault;
  mret f.

Definition place_now (p : path) : io (CW R) Place := gets (λ w, place_of (w_dirs w) p).

Definition path_exists (p : path) : io (CW R) bool :=
  pl ← place_now p;
  match pl with
  | Missing => mret false
  | Dir => mret true
  | File q => gets (λ w, bool_decide (is_Some (w_fs w !! q)))
  end.
(** [p.mkdir(parents=True, exist_ok=True)] *)
Definition mkdir (p : path) : io (CW R) () :=
  f ← meet_fault;
  match f with Works => modify (set_dirs (app (made p))) | Fails _ => raise os_error end.

(** The calls on the file that a path leads to. *)
Definition write_at (q : path) (bs : byte_list) : io (CW R) () :=
  f ← meet_fault;
  match f with
  | Works => modify (set_fs (insert q bs))
  | Fails (Some n) => _ ← modify (set_fs (insert q (take n bs))); raise os_error
  | Fails None => raise os_error
  end.
Definition replace_at (src dst : path) (bs : byte_list) : io (CW R) () :=
  f ← meet_fault;
  match f with
  | Works => modify (set_fs (λ fs, <[dst := bs]> (delete src fs)))
  | Fails _ => raise os_error
  end.
Definition unlink_at (q : path) : io (CW R) () :=
  f ← meet_fault;
  match f with Works => modify (set_fs (delete q)) | Fails _ => raise os_error end.

Definition write_bytes (p : path) (bs : byte_list) : io (CW R) () :=
  pl ← place_now p;
  match pl with
  | Missing => raise (FileNotFoundError "open")
  | Dir => raise os_error
  | File q => write_at q bs
  end.
(** [os.replace] of a file *)
Definition os_replace (src dst : path) : io (CW R) () :=
  from ← place_now src;
  match from with
  | File q =>
    o ← gets (λ w, w_fs w !! q);
    match o with
    | None => raise (FileNotFoundError "replace")
    | Some bs =>
      to ← place_now dst;
      match to with
      | Missing => raise (FileNotFoundError "replace")
      | Dir => raise os_error
      | File q' => replace_at q q' bs
      end
    end
  | _ => raise (FileNotFoundError "replace")
  end.
(** [p.unlink()] of what exists *)
Definition path_unlink (p : path) : io (CW R) () :=
  pl ← place_now p;
  match pl with File q => unlink_at q | _ => raise os_error end.
Definition _unlink (p : path) : io (CW R) () :=
  try_except (ex ← path_exists p; when ex (path_unlink p)) is_os_error (λ _, mret ()).
End world.

(** The storage client: an absent method ([hasattr] is false) is [None].
    [head_object] returns the ["etag"] entry of the head it finds. *)
Class Storage (R : Type) := {
  download_bytes : option (string → R → outcome byte_list * R);
  head_object : option (string → R → outcome (option (option string)) * R);
}.

(** What the cache takes from outside the repository: the JSON codec of the meta
    files, the hexadecimal SHA-256 digest, the listing order of [rglob], the
    resolution of symbolic links and [..] (which leaves none), the process constants and the settings. *)
Class CacheEnv := {
  meta_dumps : Meta → byte_list;
  meta_loads : byte_list → option Meta;
  sha256_hex : byte_list → string;
  rglob_order : list path → list path;
  resolve_path : path → path;
  resolve_path_straight p : straight (resolve_path p) = true;
  PROJECT_ROOT : path;
  pid_tid : string;
  settings : JudgeSettings;
  gettempdir : path;
}.

Section FileCache.
Context {R : Type} `{!Storage R, !CacheEnv}.

Implicit Types w : CW R.

(** ** Configuration *)
Definition cache_cfg_of (cfg : JudgeSettings) : CacheCfg :=
  let root := if startswith "/" (cache_dir cfg) then parts (cache_dir cfg)
              else path_div PROJECT_ROOT (cache_dir cfg) in
  mkCacheCfg (resolve_path root) (resolve_path_straight root) (cache_enabled cfg) (cache_max_mb cfg * 1024 * 1024)
    (cache_ttl_seconds cfg).

(** The module variables after [_cache_cfg()]. *)
Definition _cache_cfg : io (CW R) CacheCfg :=
  o ← gets w_cfg;
  match o with
  | Some c => mret c
  | None => let c := cache_cfg_of settings in _ ← modify (set_cfg c); mret c
  end.

Definition _ensure_cache_root : io (CW R) () :=
  cfg ← _cache_cfg;
  i ← gets w_initialized;
  when (negb i) (_ ← mkdir (CACHE_ROOT cfg); modify set_initialized).

(** ** Locks *)
Definition _key_lock (key : string) : io (CW R) nat :=
  locks ← gets w_locks;
  match locks !! key with
  | Some lock => mret lock
  | None => let lock := size locks in _ ← modify (set_locks (<[key := lock]> locks)); mret lock
  end.

(** [with _try_key_lock(key) as acquired: body(acquired)] *)
Definition _try_key_lock {A} (key : string) (body : bool → io (CW R) A) : io (CW R) A :=
  _ ← _key_lock key;
  busy ← gets w_busy;
  body (bool_decide (key ∉ busy)).

(** [with _key_lock(key): body]: the body runs once the lock is held. *)
Definition with_key_lock {A} (key : string) (body : io (CW R) A) : io (CW R) A :=
  _ ← _key_lock key; body.

Definition _temp_sibling (p : path) : io (CW R) path :=
  n ← gets w_uuid;
  _ ← modify bump_uuid;
  mret (with_name p (path_name p +:+ ".tmp." +:+ pid_tid +:+ "." +:+ str_of_Z (Z.of_nat n))).

(** ** Meta files *)
Definition _read_meta (mpath : path) : io (CW R) (option Meta) :=
  pl ← place_now mpath;
  match pl with
  | Missing => mret None
  | Dir => raise os_error
  | File q => gets (λ w, w_fs w !! q ≫= meta_loads)
  end.

Definition _write_meta (mpath : path) (meta : Meta) : io (CW R) () :=
  tmp ← _temp_sibling mpath;
  try_except
    (_ ← mkdir (removelast mpath); _ ← write_bytes tmp (meta_dumps meta); os_replace tmp mpath)
    is_os_error
    (λ _, _unlink tmp).

Definition _update_meta (mpath : path) (updates : Meta → Meta) : io (CW R) () :=
  meta ← _read_meta mpath;
  match meta with
  | None => mret ()
  | Some m => _write_meta mpath (updates m)
  end.

Definition _touch_meta (mpath : path) : io (CW R) () :=
  meta ← _read_meta mpath;
  match meta with
  | None => mret ()
  | Some m =>
    now ← time_time;
    if now - default 0 (m_last_accessed_at m) <? TOUCH_COOLDOWN then mret ()
    else _write_meta mpath (set_accessed now m)
  end.

(** [_remove_entry(key, acquire_lock=False)] and [..., acquire_lock=True)]. *)
Definition _remove_entry (key : string) : io (CW R) () :=
  cfg ← _cache_cfg;
  _ ← _unlink (_data_path (CACHE_ROOT cfg) key);
  _unlink (_meta_path (CACHE_ROOT cfg) key).
Definition _remove_entry_locked (key : string) : io (CW R) () :=
  with_key_lock key (_remove_entry key).

(** ** Scanning *)

(** [CACHE_ROOT.rglob("*.meta.json")] *)
Definition rglob_meta (root : path) (fs : gmap path byte_list) : list path :=
  rglob_order (map fst (filter (λ kv, take (length root) kv.1 = root ∧
    (length root < length kv.1)%nat ∧ endswith META_SUFFIX (path_name kv.1) = true)
    (map_to_list fs))).

Record Stat := mkStat { st_key : string; st_size : Z; st_last_accessed_at : Z }.

Definition stat_of (fs : gmap path byte_list) (meta_file : path) : option Stat :=
  meta ← fs !! meta_file ≫= meta_loads;
  key ← _key_from_meta_path meta_file;
  if str_truthy key
  then Some (mkStat key (default 0 (m_size_bytes meta)) (default 0 (m_last_accessed_at meta)))
  else None.

Definition _collect_stats : io (CW R) (list Stat) :=
  cfg ← _cache_cfg;
  gets (λ w, omap (stat_of (w_fs w)) (rglob_meta (CACHE_ROOT cfg) (w_fs w))).

Definition total_size (root : path) (fs : gmap path byte_list) : Z :=
  foldl (λ total meta_file,
    match fs !! meta_file ≫= meta_loads with
    | Some meta => total + default 0 (m_size_bytes meta)
    | None => total
    end) 0 (rglob_meta root fs).

Definition _calculate_total_size : io (CW R) Z :=
  cfg ← _cache_cfg;
  gets (λ w, total_size (CACHE_ROOT cfg) (w_fs w)).

(** ** LRU eviction *)
Definition stat_le (a b : Stat) : Prop := st_last_accessed_at a ≤ st_last_accessed_at b.
#[local] Instance stat_le_dec a b : Decision (stat_le a b).
Proof. unfold stat_le. apply _. Defined.

Definition lru_candidates (now : Z) (entries : list Stat) : list Stat :=
  merge_sort stat_le (filter (λ e, LRU_GRACE_PERIOD < now - st_last_accessed_at e) entries).

(** One round of the loop: [freed] grows only when the entry's lock is taken;
    [break] is the state staying as it is from then on. *)
Definition evict_step (need_bytes freed : Z) (entry : Stat) : io (CW R) Z :=
  if need_bytes <=? freed then mret freed
  else _try_key_lock (st_key entry) (λ acquired : bool,
    if acquired then _ ← _remove_entry (st_key entry); mret (freed + st_size entry)
    else mret freed).

Definition _evict_lru (need_bytes : Z) : io (CW R) () :=
  entries ← _collect_stats;
  now ← time_time;
  _ ← foreach (lru_candidates now entries) 0 (evict_step need_bytes);
  mret ().

Definition _evict_lru_if_needed (new_size : Z) : io (CW R) () :=
  cfg ← _cache_cfg;
  total ← _calculate_total_size;
  if total + new_size <=? CACHE_MAX_BYTES cfg then mret ()
  else _evict_lru (f_trunc (fsub (f_of_Z (total + new_size))
                                 (fmul (f_of_Z (CACHE_MAX_BYTES cfg)) EVICT_TARGET_RATIO))).

(** ** Storing *)
Definition store_meta (content : byte_list) (sha256 etag object_name : string) (now : Z) : Meta :=
  mkMeta (Some etag) (Some sha256) (Some (Z.of_nat (length content))) (Some object_name)
    (Some now) (Some now) (Some now).

(** The part of [_store] under the key's lock. *)
Definition store_files (key : string) (content : byte_list) (sha256 etag object_name : string) : io (CW R) () :=
  with_key_lock key (
    cfg ← _cache_cfg;
    let dpath := _data_path (CACHE_ROOT cfg) key in
    let mpath := _meta_path (CACHE_ROOT cfg) key in
    _ ← mkdir (removelast dpath);
    tmp_data ← _temp_sibling dpath;
    tmp_meta ← _temp_sibling mpath;
    now ← time_time;
    _ ← write_bytes tmp_data content;
    _ ← os_replace tmp_data dpath;
    _ ← write_bytes tmp_meta (meta_dumps (store_meta content sha256 etag object_name now));
    os_replace tmp_meta mpath).

Definition _store (key : string) (content : byte_list) (sha256 etag object_name : string) : io (CW R) () :=
  _ ← store_files key content sha256 etag object_name;
  _evict_lru_if_needed 0.

(** ** Remote access *)
Definition remote_call {A} (f : R → outcome A * R) : io (CW R) A :=
  λ w, let '(o, r) := f (w_remote w) in (o, set_remote r w).

Definition _download (object_name : string) : io (CW R) byte_list :=
  match download_bytes with
  | None => raise (RuntimeError "Storage does not support download_bytes")
  | Some f => remote_call (f object_name)
  end.

(** The head as [head.get("etag")], [None] for no head. *)
Definition _head_or_none (object_name : string) : io (CW R) (option (option string)) :=
  match head_object with
  | None => mret None
  | Some f => try_except (remote_call (f object_name)) is_exception (λ _, mret None)
  end.

(** ** The main operation *)

(** Step 2: a name-addressed entry validated less than 60 seconds ago. *)
Definition name_fresh (sha256 : string) (dpath mpath : path) : io (CW R) bool :=
  ex ← path_exists dpath;
  if negb (str_truthy sha256) && ex then
    meta ← _read_meta mpath;
    match meta with
    | Some m => now ← time_time; mret (now - default 0 (m_last_validated_at m) <? REVALIDATE_INTERVAL)
    | None => mret false
    end
  else mret false.

(** Step 3a: the remote object does not exist (or its head cannot be read). *)
Definition remote_gone (sha256 key : string) (dpath mpath : path) : io (CW R) (option path) :=
  ex ← path_exists dpath;
  if str_truthy sha256 && ex then _ ← _touch_meta mpath; mret (Some dpath)
  else
    _ ← when ex (_remove_entry key);
    mret None.

(** Step 3b: an existing entry with the etag of the remote object is revalidated
    and returned; any other existing entry is removed. *)
Definition etag_hit (remote_etag key : string) (dpath mpath : path) : io (CW R) bool :=
  ex ← path_exists dpath;
  if (ex : bool) then
    meta ← _read_meta mpath;
    if bool_decide (m_etag <$> meta = Some (Some remote_etag)) then
      t1 ← time_time;
      t2 ← time_time;
      _ ← _update_meta mpath (λ m, set_accessed t2 (set_validated t1 m));
      mret true
    else _ ← _remove_entry key; mret false
  else mret false.

(** Step 3c: download, check the digest, store. *)
Definition fetch_and_store (object_name sha256 key remote_etag : string) : io (CW R) () :=
  content ← _download object_name;
  let actual := sha256_hex content in
  if str_truthy sha256 then
    if String.eqb actual sha256 then _store key content sha256 remote_etag object_name
    else raise (RuntimeError ("SHA256 mismatch for " +:+ object_name +:+ ": expected=" +:+ sha256
                              +:+ ", actual=" +:+ actual))
  else _store key content actual remote_etag object_name.

Definition _resolve_or_download_locked (object_name sha256 key : string) : io (CW R) (option path) :=
  cfg ← _cache_cfg;
  let dpath := _data_path (CACHE_ROOT cfg) key in
  let mpath := _meta_path (CACHE_ROOT cfg) key in
  ex ← path_exists dpath;
  if str_truthy sha256 && ex then _ ← _touch_meta mpath; mret (Some dpath)
  else
    fresh ← name_fresh sha256 dpath mpath;
    if (fresh : bool) then _ ← _touch_meta mpath; mret (Some dpath)
    else
      head ← _head_or_none object_name;
      match head with
      | None => remote_gone sha256 key dpath mpath
      | Some etag =>
        let remote_etag := default "" etag in
        hit ← etag_hit remote_etag key dpath mpath;
        if (hit : bool) then mret (Some dpath)
        else
          _ ← fetch_and_store object_name sha256 key remote_etag;
          cfg' ← _cache_cfg;
          mret (Some (_data_path (CACHE_ROOT cfg') key))
      end.

(** The degraded path when the cache is off. *)
Definition _download_direct (object_name : string) : io (CW R) (option path) :=
  match download_bytes with
  | None => mret None
  | Some f =>
    content ← remote_call (f object_name);
    let tmp_dir := path_div gettempdir "acoj-worker-direct" in
    _ ← mkdir tmp_dir;
    let local := path_div tmp_dir (replace_char "/" "_" object_name) in
    tmp ← _temp_sibling local;
    _ ← write_bytes tmp content;
    _ ← os_replace tmp local;
    mret (Some local)
  end.

Definition resolve_or_download (object_name sha256 : string) : io (CW R) (option path) :=
  cfg ← _cache_cfg;
  if negb (CACHE_ENABLED cfg) then _download_direct object_name
  else
    _ ← _ensure_cache_root;
    let key := _cache_key sha256 object_name in
    with_key_lock key (_resolve_or_download_locked object_name sha256 key).

(** ** Management *)
Definition invalidate (object_name sha256 : string) : io (CW R) () :=
  cfg ← _cache_cfg;
  if negb (CACHE_ENABLED cfg) then mret ()
  else _remove_entry_locked (_cache_key sha256 object_name).

(** One meta file of the TTL scan; the count of removed entries. *)
Definition purge_step (cfg : CacheCfg) (now : Z) (removed : Z) (meta_file : path) : io (CW R) Z :=
  fs ← gets w_fs;
  match fs !! meta_file ≫= meta_loads with
  | None => mret removed
  | Some meta =>
    if CACHE_TTL_SECONDS cfg * SECOND <? now - default 0 (m_last_accessed_at meta) then
      match _key_from_meta_path meta_file with
      | Some key =>
        if str_truthy key then
          _try_key_lock key (λ acquired : bool,
            if acquired then _ ← _remove_entry key; mret (removed + 1) else mret removed)
        else mret removed
      | None => mret removed
      end
    else mret removed
  end.

Definition purge_expired : io (CW R) Z :=
  cfg ← _cache_cfg;
  if negb (CACHE_ENABLED cfg) then mret 0
  else
    _ ← _ensure_cache_root;
    now ← time_time;
    fs ← gets w_fs;
    foreach (rglob_meta (CACHE_ROOT cfg) fs) 0 (purge_step cfg now).
End FileCache.
