(* ===== verification/FileCacheProofs.v ===== *)
(** Where a path leads, the paths of cache keys, the keys that the scans recover from meta file
    names, and the content integrity of the SHA-256 entries under every operation,
    whatever calls of the file system fail. *)
From S2P Require Import Prelude PyFloat PyText PyStr JudgeConfig FileCache.
Open Scope Z_scope.

Definition hex_char (c : ascii) : bool := is_digit c || ascii_in 97 102 c.
Definition is_hex (s : string) : bool := forallb hex_char (str_chars s).

(** Documented behaviour of the outside code: JSON round-trips the flat object,
    [hexdigest] is hexadecimal, [rglob] lists every match once. *)
Class CacheEnvLaws `{!CacheEnv} : Prop := {
  meta_loads_dumps m : meta_loads (meta_dumps m) = Some m;
  sha256_hex_is_hex bs : is_hex (sha256_hex bs) = true;
  rglob_order_perm l : rglob_order l ≡ₚ l;
}.

(** ** Components of key paths *)
Lemma hex_char_not c d : hex_char c = true → hex_char d = false → Ascii.eqb d c = false.
Proof. intros Hc Hd. apply Ascii.eqb_neq. congruence. Qed.

Lemma is_hex_not_in c s : is_hex s = true → hex_char c = false → str_in c s = false.
Proof.
  unfold is_hex, str_in. intros Hs Hc. induction (str_chars s) as [|d l IH]; simpl in *; [done|].
  apply andb_true_iff in Hs as [Hd Hl]. rewrite (hex_char_not d c) by done. auto.
Qed.

Lemma parts_noslash s : str_in "/" s = false → s ≠ "" → s ≠ "." → parts s = [s].
Proof.
  intros Hs H1 H2. unfold parts. rewrite split_on_none by done.
  by rewrite filter_cons, decide_True, filter_nil by done.
Qed.

Lemma parts_noslash_cases s : str_in "/" s = false → parts s = [s] ∨ parts s = [].
Proof.
  intros Hs. unfold parts. rewrite split_on_none by done.
  rewrite filter_cons, filter_nil. case_decide; auto.
Qed.

Lemma replace_slash_noslash s : str_in "/" (replace_char "/" "_" s) = false.
Proof.
  unfold replace_char, str_in. induction s as [|c s IH]; [done|]. cbn [str_map str_chars].
  change (existsb (Ascii.eqb "/") ((if Ascii.eqb c "/" then "_"%char else c)
    :: str_chars (str_map (λ c, if Ascii.eqb c "/" then "_"%char else c) s)) = false).
  cbn [existsb]. rewrite IH, orb_false_r. destruct (Ascii.eqb c "/") eqn:Hc; [done|].
  by rewrite Ascii.eqb_sym.
Qed.

(** Appending a suffix of at least two characters to a key. *)
Lemma parts_app key suf :
  str_in "/" suf = false → (2 ≤ String.length suf)%nat →
  ∃ init l, parts key = init ++ filter (λ p, p ≠ "" ∧ p ≠ ".") [l] ∧
            parts (key +:+ suf) = init ++ [l +:+ suf].
Proof.
  intros Hs Hl. destruct (split_on_app_last "/" key suf Hs) as (init & l & H1 & H2).
  exists (filter (λ p, p ≠ "" ∧ p ≠ ".") init), l. unfold parts. rewrite H1, H2, !filter_app.
  split; [done|]. f_equal. rewrite filter_cons, decide_True; [done|].
  pose proof (str_length_app l suf) as Hlen. split; intros Heq; rewrite Heq in Hlen; simpl in Hlen; lia.
Qed.

Lemma data_path_sha root h :
  is_hex h = true → _data_path root ("sha256:" +:+ h) = root ++ ["sh"; "sha256:" +:+ h].
Proof.
  intros Hh. unfold _data_path, path_div. rewrite (parts_noslash ("sha256:" +:+ h)); [|..|done|done].
  - change (str_take 2 ("sha256:" +:+ h)) with "sh". by rewrite <-app_assoc.
  - rewrite str_in_app. by rewrite (is_hex_not_in "/" h).
Qed.

(** ** Where a path leads *)
Definition norm_from (q p : list string) : list string :=
  foldl (λ q c, if String.eqb c ".." then removelast q else q ++ [c]) q p.

Lemma walk_app dirs q a b : walk dirs q (a ++ b) = walk dirs q a ≫= λ r, walk dirs r b.
Proof.
  revert q. induction a as [|x a IH]; intros q; simpl; [done|].
  destruct (String.eqb x ".."); [|apply IH]. destruct (is_dir dirs q); [apply IH|done].
Qed.
Lemma walk_norm dirs q p r : walk dirs q p = Some r → r = norm_from q p.
Proof.
  revert q. induction p as [|x p IH]; intros q; simpl; [by intros [= <-]|].
  destruct (String.eqb x ".."); [|apply IH]. destruct (is_dir dirs q); [apply IH|done].
Qed.

Lemma is_dir_above dirs q : is_dir dirs q = true → is_dir dirs (removelast q) = true.
Proof.
  destruct q as [|x q _] using rev_ind; [done|]. rewrite removelast_last.
  assert (is_dir dirs (q ++ [x]) = existsb (λ d, bool_decide (q ++ [x] `prefix_of` d)) dirs) as -> by by destruct q.
  intros (d & Hd & Hp%bool_decide_eq_true)%existsb_exists. unfold is_dir. destruct q as [|y q]; [done|].
  apply existsb_exists. exists d. split; [done|]. apply bool_decide_eq_true.
  etrans; [|exact Hp]. by exists [x].
Qed.

Lemma path_name_snoc p n : path_name (p ++ [n]) = n.
Proof. unfold path_name. by rewrite last_snoc. Qed.

Lemma straight_app a b : straight (a ++ b) = straight a && straight b.
Proof. apply forallb_app. Qed.

(** A path that leads to a file leads to the resolved path, and does not go back
    up at the end. *)
Lemma place_file dirs p q : place_of dirs p = File q → q = norm p ∧ path_name p ≠ "..".
Proof.
  unfold place_of. destruct (walk dirs [] p) as [r|] eqn:Hw; [|done].
  destruct (negb (straight p) && is_dir dirs r) eqn:Hd; [done|]. intros [= <-].
  split; [by eapply walk_norm|]. intros Hn. destruct p as [|n p _] using rev_ind; [done|].
  rewrite path_name_snoc in Hn. subst n. rewrite walk_app in Hw. rewrite straight_app, andb_false_r in Hd. simpl in Hd.
  destruct (walk dirs [] p) as [r0|]; [|done]. simpl in Hw. destruct (is_dir dirs r0) eqn:Hr; [|done].
  injection Hw as <-. by rewrite is_dir_above in Hd.
Qed.

Lemma norm_straight_app a b : straight b = true → norm (a ++ b) = norm a ++ b.
Proof.
  unfold norm. rewrite foldl_app. generalize (foldl (λ q c, if String.eqb c ".." then removelast q else q ++ [c]) [] a) as q.
  induction b as [|x b IH]; intros q; simpl; [by rewrite app_nil_r|]. intros [Hx Hb]%andb_true_iff.
  destruct (String.eqb x ".."); [done|]. rewrite IH by done. by rewrite <-app_assoc.
Qed.
Lemma norm_straight p : straight p = true → norm p = p.
Proof. exact (norm_straight_app [] p). Qed.

Lemma walk_straight dirs q p : straight p = true → walk dirs q p = Some (q ++ p).
Proof.
  revert q. induction p as [|x p IH]; intros q; simpl; [by rewrite app_nil_r|]. intros [Hx Hp]%andb_true_iff.
  destruct (String.eqb x ".."); [done|]. rewrite IH by done. by rewrite <-app_assoc.
Qed.
Lemma place_straight dirs p : straight p = true → place_of dirs p = File p.
Proof. intros Hp. unfold place_of. by rewrite walk_straight, Hp. Qed.

Lemma norm_snoc p n : n ≠ ".." → norm (p ++ [n]) = norm p ++ [n].
Proof. intros Hn. apply norm_straight_app. simpl. by apply String.eqb_neq in Hn as ->. Qed.
Lemma norm_name p : path_name p ≠ ".." → path_name (norm p) = path_name p.
Proof.
  intros Hp. destruct p as [|n p _] using rev_ind; [done|]. rewrite path_name_snoc in *.
  by rewrite norm_snoc, path_name_snoc.
Qed.

Lemma neq_dotdot n : (2 < String.length n)%nat → n ≠ "..".
Proof. intros Hn ->. simpl in Hn. lia. Qed.

(** The keys whose paths have no [..]: all but those of object names with such a
    component. *)
Definition plain_key (key : string) : bool := straight (parts (str_take 2 key)) && straight (parts key).

Lemma plain_paths root key :
  straight root = true → plain_key key = true →
  straight (_data_path root key) = true ∧ straight (_meta_path root key) = true.
Proof.
  intros Hr [H1 H2]%andb_true_iff. unfold _data_path, _meta_path, path_div. rewrite !straight_app, Hr, H1, H2.
  split; [done|]. simpl. destruct (parts_app key META_SUFFIX) as (init & l & E1 & E2); [done|simpl; lia|].
  rewrite E1, straight_app in H2. apply andb_true_iff in H2 as [H2 _]. rewrite E2, straight_app, H2. simpl.
  destruct (String.eqb_spec (l +:+ META_SUFFIX) ".."); [|done].
  by apply neq_dotdot in e; [|rewrite str_length_app; simpl; lia].
Qed.

Lemma plain_sha h : is_hex h = true → plain_key ("sha256:" +:+ h) = true.
Proof.
  intros Hh. unfold plain_key. change (str_take 2 ("sha256:" +:+ h)) with "sh".
  rewrite (parts_noslash ("sha256:" +:+ h)); [|..|done|done]; [done|]. rewrite str_in_app. by rewrite (is_hex_not_in "/" h).
Qed.

(** A path whose last component has a dot is no data path of a digest. *)
Definition dotted (p : list string) : Prop := str_in "." (path_name p) = true.

Lemma dotted_snoc p n : str_in "." n = true → dotted (p ++ [n]).
Proof. intros Hn. unfold dotted, path_name. by rewrite last_snoc. Qed.

Lemma dotted_norm p : dotted p → path_name p ≠ ".." → dotted (norm p).
Proof. unfold dotted. intros Hd Hn. by rewrite norm_name. Qed.

Lemma sha_path_not_dotted root h : is_hex h = true → ¬ dotted (root ++ ["sh"; "sha256:" +:+ h]).
Proof.
  intros Hh. unfold dotted, path_name.
  change (root ++ ["sh"; "sha256:" +:+ h]) with (root ++ ["sh"] ++ ["sha256:" +:+ h]).
  rewrite app_assoc, last_snoc. simpl. rewrite str_in_app, (is_hex_not_in "." h) by done. done.
Qed.

Lemma meta_path_snoc root key :
  ∃ p l, _meta_path root key = p ++ [l +:+ META_SUFFIX].
Proof.
  unfold _meta_path, path_div.
  destruct (parts_app key META_SUFFIX) as (init & l & _ & ->); [done|simpl; lia|].
  rewrite app_assoc. eauto.
Qed.

Lemma meta_path_dotted root key : dotted (_meta_path root key).
Proof.
  destruct (meta_path_snoc root key) as (p & l & ->). apply dotted_snoc.
  by rewrite str_in_app, orb_true_r.
Qed.

Lemma with_name_dotted p n : str_in "." n = true → dotted (with_name p n).
Proof. apply dotted_snoc. Qed.

Lemma meta_path_ne_data_path root key : _meta_path root key ≠ _data_path root key.
Proof.
  unfold _meta_path, _data_path, path_div.
  destruct (parts_app key META_SUFFIX) as (init & l & -> & ->); [done|simpl; lia|].
  intros Heq. apply app_inv_head in Heq. apply app_inv_head in Heq.
  rewrite filter_cons in Heq. case_decide; [|done].
  injection Heq as Heq. apply (f_equal String.length) in Heq. rewrite str_length_app in Heq.
  simpl in Heq. lia.
Qed.

Lemma last_longer {A} (p q : list A) x y : p ++ [x] = q ++ [y] → x = y.
Proof. intros Heq. apply (f_equal last) in Heq. rewrite !last_snoc in Heq. by injection Heq. Qed.

(** The temporary file of a meta file is not the data file. *)
Lemma temp_meta_ne_data_path root key suf :
  with_name (_meta_path root key) (path_name (_meta_path root key) +:+ ".tmp." +:+ suf)
    ≠ _data_path root key.
Proof.
  unfold _meta_path, _data_path, path_div.
  destruct (parts_app key META_SUFFIX) as (init & l & -> & ->); [done|simpl; lia|].
  rewrite app_assoc. unfold with_name, path_name. rewrite removelast_last, last_snoc. simpl.
  intros Heq. rewrite <-!app_assoc in Heq. apply app_inv_head in Heq. apply app_inv_head in Heq.
  apply app_inv_head in Heq. rewrite filter_cons in Heq. case_decide; [|done].
  injection Heq as Heq. apply (f_equal String.length) in Heq. rewrite !str_length_app in Heq.
  simpl in Heq. lia.
Qed.

(** ** Keys recovered from meta file names *)
Lemma key_from_meta_snoc p l : _key_from_meta_path (p ++ [l +:+ META_SUFFIX]) = Some l.
Proof.
  unfold _key_from_meta_path, path_name. rewrite last_snoc.
  cbv beta iota zeta delta [from_option id]. by rewrite endswith_app, str_chop_app.
Qed.

Lemma key_from_meta_nested root key k :
  _key_from_meta_path (_meta_path root key) = Some k → str_in "/" k = false.
Proof.
  unfold _meta_path, path_div.
  destruct (split_on_app_last "/" key META_SUFFIX) as (init & l & H1 & H2); [done|].
  unfold parts. rewrite H2, filter_app, filter_cons, decide_True.
  2:{ pose proof (str_length_app l META_SUFFIX) as Hl.
      split; intros Heq; rewrite Heq in Hl; simpl in Hl; lia. }
  rewrite !app_assoc, filter_nil. rewrite key_from_meta_snoc. intros [= <-].
  pose proof (split_on_Forall "/" key) as Hall. rewrite H1 in Hall.
  by apply Forall_app in Hall as [_ [Hl _]%Forall_cons].
Qed.

(** ** Content integrity *)
Section integrity.
Context {R : Type} `{!Storage R, !CacheEnv, !CacheEnvLaws}.
Implicit Types (w : CW R) (fs : gmap (list string) (list Z)).

(** Every file stored under a digest has that digest. *)
Definition content_ok (root : list string) fs : Prop :=
  ∀ h bs, is_hex h = true → fs !! (root ++ ["sh"; "sha256:" +:+ h]) = Some bs → sha256_hex bs = h.

(** The configuration the next [_cache_cfg()] returns. *)
Definition cfg_now w : CacheCfg := default (cache_cfg_of settings) (w_cfg w).

Definition cache_inv (c : CacheCfg) w : Prop :=
  cfg_now w = c ∧ content_ok (CACHE_ROOT c) (w_fs w).

Lemma content_ok_insert_dotted root p bs fs :
  dotted p → content_ok root fs → content_ok root (<[p := bs]> fs).
Proof.
  intros Hp Hok h b Hh. rewrite lookup_insert_ne; [by apply Hok|].
  intros ->. by eapply sha_path_not_dotted.
Qed.

Lemma content_ok_delete root p fs : content_ok root fs → content_ok root (delete p fs).
Proof. intros Hok h b Hh [_ Hl]%lookup_delete_Some. by eapply Hok. Qed.

(** The only undotted files the cache writes: a data file, whose digest was
    checked when its key is a digest, and whose name has no [..] otherwise. *)
Definition key_content_ok (key : string) (bs : list Z) : Prop :=
  key = "sha256:" +:+ sha256_hex bs ∨ plain_key key = true ∧ ∃ n, key = "name:" +:+ n.

Lemma key_content_plain key bs : key_content_ok key bs → plain_key key = true.
Proof. intros [->|[Hp _]]; [apply plain_sha, sha256_hex_is_hex|done]. Qed.

Lemma content_ok_insert_data root key bs fs :
  key_content_ok key bs → content_ok root fs →
  content_ok root (<[_data_path root key := bs]> fs).
Proof.
  intros Hkey Hok h b Hh. destruct Hkey as [->|[_ [n ->]]].
  - rewrite data_path_sha by apply sha256_hex_is_hex. rewrite lookup_insert. case_decide as Heq.
    + intros [= <-]. apply app_inv_head in Heq. by injection Heq as Heq.
    + by apply Hok.
  - rewrite lookup_insert_ne; [by apply Hok|].
    unfold _data_path, path_div. rewrite <-app_assoc. intros Heq%app_inv_head.
    change (parts (str_take 2 ("name:" +:+ n))) with ["na"] in Heq. done.
Qed.

Lemma content_ok_insert_direct root obj bs fs :
  let local := path_div (path_div gettempdir "acoj-worker-direct") (replace_char "/" "_" obj) in
  path_name local ≠ ".." → content_ok root fs → content_ok root (<[norm local := bs]> fs).
Proof.
  intros local Hn Hok h b Hh. rewrite lookup_insert_ne; [by apply Hok|]. revert Hn. unfold local, path_div.
  change (parts "acoj-worker-direct") with ["acoj-worker-direct"].
  change (root ++ ["sh"; "sha256:" +:+ h]) with (root ++ ["sh"] ++ ["sha256:" +:+ h]).
  rewrite (app_assoc root).
  destruct (parts_noslash_cases _ (replace_slash_noslash obj)) as [-> | ->].
  - rewrite path_name_snoc. intros Hn. rewrite norm_snoc by done. rewrite norm_snoc by done. intros Heq.
    apply app_inj_tail in Heq as [Heq _]. by apply last_longer in Heq.
  - intros _. rewrite app_nil_r, norm_snoc by done. intros Heq. by apply last_longer in Heq.
Qed.

Lemma preserves_cache_cfg {A} c (f : CacheCfg → io (CW R) A) :
  preserves (cache_inv c) (f c) → preserves (cache_inv c) (_cache_cfg ≫= f).
Proof.
  intros Hf w [Hc Hok]. unfold _cache_cfg, mbind, io_bind. simpl. unfold cfg_now in Hc.
  destruct (w_cfg w) as [c'|] eqn:Hw; simpl in *.
  - subst c'. apply Hf. split; [|done]. unfold cfg_now. by rewrite Hw.
  - rewrite Hc. apply Hf. by split.
Qed.

Lemma preserves_time c : preserves (cache_inv c) time_time.
Proof. intros w [Hc Hok]. by split. Qed.

Lemma preserves_cache_key_lock c key : preserves (cache_inv c) (_key_lock key).
Proof. intros w [Hc Hok]. unfold _key_lock, mbind, io_bind. simpl. by destruct (w_locks w !! key). Qed.

Lemma preserves_try_key_lock {A} c key (body : bool → io (CW R) A) :
  (∀ b, preserves (cache_inv c) (body b)) → preserves (cache_inv c) (_try_key_lock key body).
Proof. intros Hb. unfold _try_key_lock. preserve. Qed.

Lemma preserves_with_key_lock {A} c key (body : io (CW R) A) :
  preserves (cache_inv c) body → preserves (cache_inv c) (with_key_lock key body).
Proof. intros Hb. unfold with_key_lock. preserve. Qed.

Lemma preserves_fault c : preserves (cache_inv c) meet_fault.
Proof. intros w [Hc Hok]. by split. Qed.

Lemma preserves_set_fs c f :
  (∀ fs, content_ok (CACHE_ROOT c) fs → content_ok (CACHE_ROOT c) (f fs)) →
  preserves (cache_inv c) (modify (set_fs f)).
Proof. intros Hf. apply preserves_modify. intros w [Hc Hok]. split; [done|]. by apply Hf. Qed.
Hint Resolve preserves_fault : preserves.

Lemma preserves_mkdir c p : preserves (cache_inv c) (mkdir p).
Proof. unfold mkdir. preserve. Qed.

Lemma preserves_place {A} c p (k : Place → io (CW R) A) :
  preserves (cache_inv c) (k Missing) → preserves (cache_inv c) (k Dir) →
  (path_name p ≠ ".." → preserves (cache_inv c) (k (File (norm p)))) →
  preserves (cache_inv c) (place_now p ≫= k).
Proof.
  intros Hm Hd Hf w Hw. change ((place_now p ≫= k) w) with (k (place_of (w_dirs w) p) w).
  destruct (place_of (w_dirs w) p) as [| |q] eqn:Hp; [by apply Hm|by apply Hd|].
  apply place_file in Hp as [-> Hn]. by apply Hf.
Qed.
Lemma preserves_exists c p : preserves (cache_inv c) (path_exists p).
Proof. apply preserves_place; preserve. Qed.
Lemma preserves_read_meta c p : preserves (cache_inv c) (_read_meta p).
Proof. apply preserves_place; preserve. Qed.
Hint Resolve preserves_exists preserves_read_meta : preserves.

Lemma preserves_path_unlink c p : preserves (cache_inv c) (path_unlink p).
Proof.
  apply preserves_place; [preserve..|]. intros _. unfold unlink_at. preserve.
  apply preserves_set_fs. intros fs. by apply content_ok_delete.
Qed.
Hint Resolve preserves_path_unlink : preserves.
Lemma preserves_unlink c p : preserves (cache_inv c) (_unlink p).
Proof. unfold _unlink. preserve. Qed.

Lemma preserves_write_dotted c p bs : dotted p → preserves (cache_inv c) (write_bytes p bs).
Proof.
  intros Hp. apply preserves_place; [preserve..|]. intros Hn.
  assert (∀ bs', preserves (cache_inv c) (modify (set_fs (insert (norm p) bs')))) as Hw.
  { intros bs'. apply preserves_set_fs. intros fs. by apply content_ok_insert_dotted, dotted_norm. }
  unfold write_at. preserve.
Qed.

Lemma preserves_replace c src dst :
  (∀ bs fs, path_name dst ≠ ".." → content_ok (CACHE_ROOT c) fs → content_ok (CACHE_ROOT c) (<[norm dst := bs]> fs)) →
  preserves (cache_inv c) (os_replace src dst).
Proof.
  intros Hd. apply preserves_place; [preserve..|]. intros _. apply preserves_bind; [preserve|]. intros [bs|]; [|preserve].
  apply preserves_place; [preserve..|]. intros Hn. unfold replace_at. preserve.
  apply preserves_set_fs. intros fs Hok. by apply Hd, content_ok_delete.
Qed.

Lemma preserves_replace_dotted c src dst : dotted dst → preserves (cache_inv c) (os_replace src dst).
Proof. intros Hd. apply preserves_replace. intros bs fs Hn. by apply content_ok_insert_dotted, dotted_norm. Qed.

Lemma preserves_temp_sibling {A} c p (f : list string → io (CW R) A) :
  (∀ q, dotted q → preserves (cache_inv c) (f q)) →
  preserves (cache_inv c) (_temp_sibling p ≫= f).
Proof.
  intros Hf w Hw. unfold _temp_sibling, mbind, io_bind. simpl. apply Hf; [|done].
  apply with_name_dotted. by rewrite !str_in_app, !orb_true_r.
Qed.

Hint Resolve preserves_time preserves_mkdir preserves_cache_key_lock preserves_with_key_lock preserves_unlink
  preserves_try_key_lock preserves_write_dotted preserves_replace_dotted meta_path_dotted : preserves.

Lemma preserves_write_meta c mpath m : dotted mpath → preserves (cache_inv c) (_write_meta mpath m).
Proof. intros Hd. unfold _write_meta. apply preserves_temp_sibling. preserve. Qed.
Hint Resolve preserves_write_meta : preserves.

Lemma preserves_update_meta c mpath f : dotted mpath → preserves (cache_inv c) (_update_meta mpath f).
Proof. intros Hd. unfold _update_meta. preserve. Qed.

Lemma preserves_touch_meta c mpath : dotted mpath → preserves (cache_inv c) (_touch_meta mpath).
Proof. intros Hd. unfold _touch_meta. preserve. Qed.

Lemma preserves_remove_entry c key : preserves (cache_inv c) (_remove_entry key).
Proof. unfold _remove_entry. apply preserves_cache_cfg. preserve. Qed.
Hint Resolve preserves_update_meta preserves_touch_meta preserves_remove_entry : preserves.

Lemma preserves_evict c n : preserves (cache_inv c) (_evict_lru_if_needed n).
Proof.
  unfold _evict_lru_if_needed. apply preserves_cache_cfg, preserves_bind.
  { unfold _calculate_total_size. apply preserves_cache_cfg. preserve. }
  intros total. apply preserves_if; [apply preserves_ret|]. unfold _evict_lru. apply preserves_bind.
  { unfold _collect_stats. apply preserves_cache_cfg. preserve. }
  preserve.
Qed.

(** Write a temporary file and rename it onto the data file. *)
Lemma preserves_write_data {A} c tmp key bs (f : () → io (CW R) A) :
  dotted tmp → key_content_ok key bs → (∀ u, preserves (cache_inv c) (f u)) →
  preserves (cache_inv c)
    (_ ← write_bytes tmp bs; os_replace tmp (_data_path (CACHE_ROOT c) key) ≫= f).
Proof.
  intros Hd Hkey Hf w [Hc Hok].
  destruct (plain_paths _ key (CACHE_ROOT_straight c) (key_content_plain _ _ Hkey)) as [Hp _].
  unfold write_bytes, place_now, mbind, io_bind. simpl.
  destruct (place_of (w_dirs w) tmp) as [| |q] eqn:Ht; [by split..|].
  pose proof (place_file _ _ _ Ht) as [-> Hn].
  assert (∀ bs', content_ok (CACHE_ROOT c) (<[norm tmp:=bs']> (w_fs w))) as Htmp
    by (intros; by apply content_ok_insert_dotted, Hok; apply dotted_norm).
  unfold write_at, meet_fault, mbind, io_bind. simpl.
  destruct (default Works (head (w_faults w))) as [|[n|]]; simpl;
    [|split; [done|apply Htmp]|by split].
  unfold os_replace, place_now, mbind, io_bind. simpl. rewrite Ht. simpl. rewrite lookup_insert, decide_True by done. simpl.
  rewrite place_straight by done. unfold replace_at, meet_fault, mbind, io_bind. simpl.
  destruct (default Works (head (tail (w_faults w)))); simpl; [|split; [done|apply Htmp]].
  apply Hf. split; [done|]. simpl. by apply content_ok_insert_data, content_ok_delete.
Qed.

Lemma preserves_with_cfg {A} c (f : CacheCfg → io (CW R) A) :
  preserves (cache_inv c) (f c) → preserves (cache_inv c) (_cache_cfg ≫= f).
Proof. apply preserves_cache_cfg. Qed.

Lemma preserves_store c key content sha etag obj :
  key_content_ok key content → preserves (cache_inv c) (_store key content sha etag obj).
Proof.
  intros Hkey. unfold _store, store_files. apply preserves_bind; [|intros _; apply preserves_evict].
  apply preserves_with_key_lock, preserves_cache_cfg. apply preserves_bind; [apply preserves_mkdir|]. intros _.
  apply preserves_temp_sibling; intros tmp_data Hd. apply preserves_temp_sibling; intros tmp_meta Hm.
  apply preserves_bind; [apply preserves_time|]. intros now.
  apply preserves_write_data; [done..|]. preserve.
Qed.

Lemma preserves_remote c {A} (f : R → outcome A * R) : preserves (cache_inv c) (remote_call f).
Proof. intros w [Hc Hok]. unfold remote_call. by destruct (f (w_remote w)). Qed.
Hint Resolve preserves_store preserves_remote : preserves.

Lemma preserves_fetch c obj sha key etag :
  key = _cache_key sha obj → (sha = "" → plain_key ("name:" +:+ obj) = true) →
  preserves (cache_inv c) (fetch_and_store obj sha key etag).
Proof.
  intros -> Hpl. unfold fetch_and_store. apply preserves_bind.
  { unfold _download. preserve. }
  intros content. unfold _cache_key. destruct (str_truthy sha) eqn:Hs.
  - destruct (String.eqb_spec (sha256_hex content) sha) as [Heq|]; [|preserve].
    apply preserves_store. left. by rewrite Heq.
  - apply preserves_store. right. split; [apply Hpl; by destruct sha|eauto].
Qed.

Lemma preserves_locked c obj sha :
  (sha = "" → plain_key ("name:" +:+ obj) = true) →
  preserves (cache_inv c) (_resolve_or_download_locked obj sha (_cache_key sha obj)).
Proof.
  intros Hpl. unfold _resolve_or_download_locked. apply preserves_cache_cfg.
  pose proof (meta_path_dotted (CACHE_ROOT c) (_cache_key sha obj)) as Hm.
  apply preserves_bind; [preserve|]. intros ex.
  apply preserves_if; [preserve|]. apply preserves_bind.
  { unfold name_fresh. preserve. }
  intros fresh. apply preserves_if; [preserve|]. apply preserves_bind.
  { unfold _head_or_none. preserve. }
  intros [etag|]; [|unfold remote_gone; preserve].
  apply preserves_bind; [unfold etag_hit; preserve|].
  intros hit. apply preserves_if; [preserve|]. apply preserves_bind; [by apply preserves_fetch|].
  intros _. apply preserves_cache_cfg. preserve.
Qed.

Lemma preserves_resolve c obj sha :
  (sha = "" → plain_key ("name:" +:+ obj) = true) → preserves (cache_inv c) (resolve_or_download obj sha).
Proof.
  intros Hpl. unfold resolve_or_download. apply preserves_cache_cfg.
  destruct (CACHE_ENABLED c) eqn:He; simpl.
  - apply preserves_bind.
    { unfold _ensure_cache_root. apply preserves_cache_cfg. preserve. }
    intros _. by apply preserves_with_key_lock, preserves_locked.
  - unfold _download_direct. destruct download_bytes as [f|]; [|preserve].
    apply preserves_bind; [apply preserves_remote|]. intros content.
    apply preserves_bind; [apply preserves_mkdir|]. intros _.
    apply preserves_temp_sibling. intros q Hq. apply preserves_bind; [preserve|]. intros _.
    apply preserves_bind; [|preserve]. apply preserves_replace. intros bs fs. apply content_ok_insert_direct.
Qed.

(** A file operation of the module, or a step of the surroundings (time passing,
    the disk filling up or having room again, another thread taking or releasing
    locks, the remote store changing). *)
Inductive CacheOp :=
| OpResolve (object_name sha256 : string)
| OpInvalidate (object_name sha256 : string)
| OpPurge
| OpEvict (new_size : Z)
| OpOther (clock : Z) (delays : list Z) (faults : list fault) (busy : gset string) (remote : R).

Definition run_op (op : CacheOp) w : CW R :=
  match op with
  | OpResolve o s => (resolve_or_download o s w).2
  | OpInvalidate o s => (invalidate o s w).2
  | OpPurge => (purge_expired w).2
  | OpEvict n => (_evict_lru_if_needed n w).2
  | OpOther t d f b r => mkCW (w_fs w) t d f (w_cfg w) (w_initialized w) (w_locks w) b (w_uuid w) r (w_dirs w)
  end.

(** The name-addressed resolutions of the step name objects without a [..]
    component; a key such as [name:x/../../sh/sha256:<h>] leads to the file of a
    digest. *)
Definition plain_op (op : CacheOp) : Prop :=
  match op with OpResolve o "" => plain_key ("name:" +:+ o) = true | _ => True end.

Lemma preserves_invalidate c obj sha : preserves (cache_inv c) (invalidate obj sha).
Proof.
  unfold invalidate. apply preserves_cache_cfg. apply preserves_if; [preserve|].
  unfold _remove_entry_locked. by apply preserves_with_key_lock, preserves_remove_entry.
Qed.

Lemma preserves_purge c : preserves (cache_inv c) purge_expired.
Proof.
  unfold purge_expired. apply preserves_cache_cfg. apply preserves_if; [preserve|].
  apply preserves_bind.
  { unfold _ensure_cache_root. apply preserves_cache_cfg. preserve. }
  intros _. apply preserves_bind; [preserve|]. intros now. apply preserves_bind; [preserve|].
  intros fs. apply preserves_foreach. intros n f. unfold purge_step. preserve.
Qed.

Lemma run_op_inv c op w : plain_op op → cache_inv c w → cache_inv c (run_op op w).
Proof.
  intros Hpl Hw. destruct op; simpl; [apply preserves_resolve; [by intros ->|done]|by apply preserves_invalidate
    |by apply preserves_purge|by apply preserves_evict|done].
Qed.

(** C4. Integrity of the judge file cache: start from a cache directory in which
    every file stored under a digest key has that digest (an empty one, for
    instance) and run any sequence of resolutions, invalidations, TTL purges and
    LRU evictions, with the clock, the locks held by other threads and the remote
    store changing arbitrarily in between (also serving wrong bytes), and with any
    of the calls that write, rename or remove files failing, a failed write leaving
    part of its bytes behind: every file stored under [sha256:<h>] still has the
    digest [h].  The resolutions without a digest are of object names that have no
    [..] component ([plain_op]); with one the theorem fails. *)
Theorem cache_integrity (ops : list CacheOp) w :
  Forall plain_op ops →
  content_ok (CACHE_ROOT (cfg_now w)) (w_fs w) →
  content_ok (CACHE_ROOT (cfg_now w)) (w_fs (foldl (λ w op, run_op op w) w ops)).
Proof.
  intros Hops Hok. assert (cache_inv (cfg_now w) w) as Hinv by done. revert Hinv.
  generalize (cfg_now w). clear Hok. intros c. revert w.
  induction Hops as [|op ops Hop Hops IH]; intros w Hinv; simpl; [by destruct Hinv|].
  by apply IH, run_op_inv.
Qed.
End integrity.
