(* ===== verification/FileCacheSpec.v ===== *)
(** What a resolution, the LRU eviction and the TTL purge of the file cache do,
    branch by branch: soundness of a successful SHA-256 resolution, offline hits,
    rejected downloads, the name-addressed protocol and the grace period of the
    eviction. [total_in] are the operations that return whatever calls fail, and
    [within] those that raise only when a call did; both bound what changes.  The
    name-addressed statements are about object names without a [..] component. *)
From S2P Require Import Prelude PyFloat PyText PyStr JudgeConfig FileCache FileCacheProofs.
Open Scope Z_scope.

Section spec.
Context {R : Type} `{!Storage R, !CacheEnv, !CacheEnvLaws}.
Implicit Types (w : CW R) (fs : gmap (list string) (list Z)) (c : CacheCfg).

(** ** Running the primitives *)
Lemma set_cfg_id c w : w_cfg w = Some c → set_cfg c w = w.
Proof. destruct w; simpl. by intros ->. Qed.

Lemma run_cfg {A} (f : CacheCfg → io (CW R) A) w :
  (_cache_cfg ≫= f) w = f (cfg_now w) (set_cfg (cfg_now w) w).
Proof.
  unfold _cache_cfg, cfg_now, mbind, io_bind. simpl.
  destruct (w_cfg w) as [c|] eqn:Hw; simpl; [by rewrite set_cfg_id|done].
Qed.

Lemma run_cfg_Some {A} (f : CacheCfg → io (CW R) A) c w :
  w_cfg w = Some c → (_cache_cfg ≫= f) w = f c w.
Proof. intros Hw. rewrite run_cfg. unfold cfg_now. rewrite Hw. simpl. by rewrite set_cfg_id. Qed.

(** *** Calls on a path, once it is known where it leads *)
Lemma run_place {A} p (k : Place → io (CW R) A) pl w :
  place_of (w_dirs w) p = pl → (place_now p ≫= k) w = k pl w.
Proof. by intros <-. Qed.
Lemma run_place_exists {A} p (f : bool → io (CW R) A) pl w :
  place_of (w_dirs w) p = pl →
  (path_exists p ≫= f) w =
    f (match pl with Missing => false | Dir => true | File q => bool_decide (is_Some (w_fs w !! q)) end) w.
Proof. unfold path_exists, mbind, io_bind. simpl. intros ->. by destruct pl. Qed.

Lemma run_exists {A} p (f : bool → io (CW R) A) w :
  straight p = true → (path_exists p ≫= f) w = f (bool_decide (is_Some (w_fs w !! p))) w.
Proof. intros Hp. by rewrite (run_place_exists p f _ w (place_straight _ _ Hp)). Qed.
Lemma run_read {A} p (f : option Meta → io (CW R) A) w :
  straight p = true → (_read_meta p ≫= f) w = f (w_fs w !! p ≫= meta_loads) w.
Proof. intros Hp. unfold _read_meta, place_now, mbind at 1 2, io_bind. simpl. by rewrite place_straight. Qed.
Lemma write_straight p bs w : straight p = true → write_bytes p bs w = write_at p bs w.
Proof. intros Hp. unfold write_bytes. by rewrite (run_place p _ _ w (place_straight _ _ Hp)). Qed.
Lemma unlink_straight p w : straight p = true → path_unlink p w = unlink_at p w.
Proof. intros Hp. unfold path_unlink. by rewrite (run_place p _ _ w (place_straight _ _ Hp)). Qed.
Lemma replace_straight src dst w :
  straight src = true → straight dst = true →
  os_replace src dst w =
    match w_fs w !! src with None => raise (FileNotFoundError "replace") w | Some bs => replace_at src dst bs w end.
Proof.
  intros Hs Hd. unfold os_replace. rewrite (run_place src _ _ w (place_straight _ _ Hs)).
  unfold mbind at 1, io_bind. simpl. destruct (w_fs w !! src); [|done].
  by rewrite (run_place dst _ _ w (place_straight _ _ Hd)).
Qed.

(** ** A frame: what an operation may change

    [frame fp w w']: the configuration and the remote store are the same, the
    files for which [fp] does not hold are the same, the clock has taken some of
    the pending delays and the calls some of the pending faults. *)
Definition frame (fp : list string → Prop) w w' : Prop :=
  w_cfg w' = w_cfg w ∧ w_remote w' = w_remote w ∧ w_busy w' = w_busy w ∧
  (∀ p, ¬ fp p → w_fs w' !! p = w_fs w !! p) ∧
  (∃ n, w_delays w' = drop n (w_delays w)) ∧ (∃ n, w_faults w' = drop n (w_faults w)).

Lemma frame_refl fp w : frame fp w w.
Proof. repeat split; by exists 0%nat. Qed.

Lemma frame_trans fp w1 w2 w3 : frame fp w1 w2 → frame fp w2 w3 → frame fp w1 w3.
Proof.
  intros (H1 & H2 & H3 & H4 & (n & H5) & m & H6) (K1 & K2 & K3 & K4 & (k & K5) & l & K6).
  repeat split; try congruence.
  - intros p Hp. by rewrite K4, H4.
  - exists (n + k)%nat. by rewrite K5, H5, drop_drop.
  - exists (m + l)%nat. by rewrite K6, H6, drop_drop.
Qed.

Lemma frame_mono (fp fp' : list string → Prop) w w' : (∀ p, fp p → fp' p) → frame fp w w' → frame fp' w w'.
Proof. intros Hi (H1 & H2 & H3 & H4 & H5 & H6). repeat split; auto. Qed.

Lemma frame_tick fp w : frame fp w (tick w).
Proof. repeat split; [exists 1%nat|by exists 0%nat]. by destruct w as [? ? [] ?]. Qed.
Lemma frame_fault fp w : frame fp w (next_fault w).
Proof. repeat split; [by exists 0%nat|exists 1%nat]. by destruct w as [? ? ? [] ?]. Qed.
Lemma frame_fs (fp : list string → Prop) f w :
  (∀ p, ¬ fp p → f (w_fs w) !! p = w_fs w !! p) → frame fp w (set_fs f w).
Proof. intros Hf. repeat split; [exact Hf|by exists 0%nat..]. Qed.
Lemma frame_faults fp w w' : frame fp w w' → w_faults w = [] → w_faults w' = [].
Proof. intros (_ & _ & _ & _ & _ & n & ->) ->. apply drop_nil. Qed.

(** An operation that always returns and stays inside a footprint, under the
    configuration [c]. *)
Definition total_in {A} c (fp : list string → Prop) (m : io (CW R) A) : Prop :=
  ∀ w, w_cfg w = Some c → ∃ a w', m w = (Ret a, w') ∧ frame fp w w'.

Lemma frame_cfg fp w w' c : frame fp w w' → w_cfg w = Some c → w_cfg w' = Some c.
Proof. intros [-> _]. done. Qed.

Section total.
Context (c : CacheCfg) (fp : list string → Prop).

Lemma total_ret {A} (a : A) : total_in c fp (mret a : io (CW R) A).
Proof. intros w _. exists a, w. split; [done|apply frame_refl]. Qed.
Lemma total_gets {A} (f : CW R → A) : total_in c fp (gets f).
Proof. intros w _. eexists _, w. split; [done|apply frame_refl]. Qed.
Lemma total_bind {A B} (m : io (CW R) A) (f : A → io (CW R) B) :
  total_in c fp m → (∀ a, total_in c fp (f a)) → total_in c fp (m ≫= f).
Proof.
  intros Hm Hf w Hc. destruct (Hm w Hc) as (a & w1 & H1 & F1).
  destruct (Hf a w1 (frame_cfg _ _ _ _ F1 Hc)) as (b & w2 & H2 & F2).
  exists b, w2. split; [by rewrite (run_ret _ _ _ _ _ H1)|by eapply frame_trans].
Qed.
Lemma total_if {A} (b : bool) (m1 m2 : io (CW R) A) :
  total_in c fp m1 → total_in c fp m2 → total_in c fp (if b then m1 else m2).
Proof. by destruct b. Qed.
Lemma total_when b (m : io (CW R) ()) : total_in c fp m → total_in c fp (when b m).
Proof. intros Hm. apply total_if; [done|apply total_ret]. Qed.
Lemma total_foreach {A B} (l : list A) (acc : B) (body : B → A → io (CW R) B) :
  (∀ acc x, x ∈ l → total_in c fp (body acc x)) → total_in c fp (foreach l acc body).
Proof.
  revert acc. induction l as [|x l IH]; intros acc Hb; simpl; [apply total_ret|].
  apply total_bind; [apply Hb; set_solver|]. intros a. apply IH. intros. apply Hb. set_solver.
Qed.
Lemma total_time : total_in c fp time_time.
Proof. intros w _. eexists _, _. split; [done|apply frame_tick]. Qed.
Lemma total_key_lock key : total_in c fp (_key_lock key).
Proof.
  intros w _. unfold _key_lock, mbind, io_bind. simpl.
  destruct (w_locks w !! key); eexists _, _; (split; [done|]); repeat split; by exists 0%nat.
Qed.
Lemma total_with_key_lock {A} key (m : io (CW R) A) :
  total_in c fp m → total_in c fp (with_key_lock key m).
Proof. intros Hm. apply total_bind; [apply total_key_lock|done]. Qed.
Lemma total_try_key_lock {A} key (f : bool → io (CW R) A) :
  (∀ b, total_in c fp (f b)) → total_in c fp (_try_key_lock key f).
Proof.
  intros Hf. apply total_bind; [apply total_key_lock|]. intros _.
  apply total_bind; [apply total_gets|]. intros busy. apply Hf.
Qed.
Lemma total_cfg {A} (f : CacheCfg → io (CW R) A) : total_in c fp (f c) → total_in c fp (_cache_cfg ≫= f).
Proof. intros Hf w Hc. rewrite (run_cfg_Some _ c) by done. by apply Hf. Qed.

(** A run that stays inside a footprint and raises only when a call of the file
    system failed. *)
Definition run_within {A} w (ow : outcome A * CW R) : Prop :=
  frame fp w ow.2 ∧ ∀ e, ow.1 = Raise e → is_os_error e = true ∧ w_faults w ≠ [].
Definition within {A} (m : io (CW R) A) : Prop := ∀ w, w_cfg w = Some c → run_within w (m w).

Lemma run_within_trans {A} w w1 (ow : outcome A * CW R) :
  frame fp w w1 → run_within w1 ow → run_within w ow.
Proof.
  intros F1 [F2 E]. split; [by eapply frame_trans|]. intros e [Hos Hne]%E. split; [done|].
  intros Hnil. by apply Hne, (frame_faults _ _ _ F1).
Qed.
Lemma run_within_bind {A B} w (m : io (CW R) A) (f : A → io (CW R) B) :
  run_within w (m w) →
  (∀ a w1, m w = (Ret a, w1) → frame fp w w1 → run_within w1 (f a w1)) → run_within w ((m ≫= f) w).
Proof.
  intros [F1 E1] Hf. unfold mbind, io_bind. destruct (m w) as [[a|e] w1]; simpl in *.
  - by eapply run_within_trans, Hf.
  - split; [done|]. intros e' [= <-]. by apply E1.
Qed.
Lemma within_total {A} (m : io (CW R) A) : total_in c fp m → within m.
Proof. intros Hm w Hc. by destruct (Hm w Hc) as (a & w' & -> & Hf). Qed.
Lemma within_ext {A} (m m' : io (CW R) A) : (∀ w, m w = m' w) → within m → within m'.
Proof. intros Heq Hm w Hc. rewrite <-Heq. by apply Hm. Qed.
Lemma within_bind {A B} (m : io (CW R) A) (f : A → io (CW R) B) :
  within m → (∀ a, within (f a)) → within (m ≫= f).
Proof.
  intros Hm Hf w Hc. apply run_within_bind; [by apply Hm|]. intros a w1 _ F1.
  by eapply Hf, frame_cfg.
Qed.
Lemma within_cfg {A} (f : CacheCfg → io (CW R) A) : within (f c) → within (_cache_cfg ≫= f).
Proof. intros Hf w Hc. rewrite (run_cfg_Some _ c) by done. by apply Hf. Qed.
Lemma run_within_fault {A} w (k : fault → io (CW R) A) :
  run_within (next_fault w) (k Works (next_fault w)) →
  (∀ n, frame fp (next_fault w) (k (Fails n) (next_fault w)).2 ∧
        ∀ e, (k (Fails n) (next_fault w)).1 = Raise e → is_os_error e = true) →
  run_within w ((meet_fault ≫= k) w).
Proof.
  intros Hw Hf. change ((meet_fault ≫= k) w) with (k (default Works (head (w_faults w))) (next_fault w)).
  destruct (default Works (head (w_faults w))) as [|n] eqn:Hfl.
  - eapply run_within_trans; [apply frame_fault|exact Hw].
  - destruct (Hf n) as [F E]. split; [by eapply frame_trans; [apply frame_fault|]|].
    intros e He. split; [by apply E|]. intros Hnil. by rewrite Hnil in Hfl.
Qed.
Lemma run_within_fs f w : (∀ p, ¬ fp p → f (w_fs w) !! p = w_fs w !! p) → run_within w (modify (set_fs f) w).
Proof. intros Hf. split; [by apply frame_fs|done]. Qed.
Lemma within_mkdir p : within (mkdir p).
Proof.
  intros w Hc. apply run_within_fault; [split; [repeat split; by exists 0%nat|done]|].
  intros n. split; [apply frame_refl|]. by intros e [= <-].
Qed.
Lemma insert_outside (p q : list string) (bs : list Z) (fs : gmap (list string) (list Z)) : fp p → ¬ fp q → <[p:=bs]> fs !! q = fs !! q.
Proof. intros Hp Hq. rewrite lookup_insert_ne; [done|]. by intros ->. Qed.
Lemma delete_outside (p q : list string) (fs : gmap (list string) (list Z)) : fp p → ¬ fp q → delete p fs !! q = fs !! q.
Proof. intros Hp Hq. rewrite lookup_delete_ne; [done|]. by intros ->. Qed.
Lemma within_write p bs : straight p = true → fp p → within (write_bytes p bs).
Proof.
  intros Hs Hp w Hc. rewrite write_straight by done.
  apply run_within_fault; [apply run_within_fs; intros q; by apply insert_outside|].
  intros [n|]; (split; [|by intros e [= <-]]); [|apply frame_refl].
  apply frame_fs. intros q. by apply insert_outside.
Qed.
Lemma within_unlink_at p : fp p → within (unlink_at p).
Proof.
  intros Hp w Hc. apply run_within_fault; [apply run_within_fs; intros q; by apply delete_outside|].
  intros n. split; [apply frame_refl|]. by intros e [= <-].
Qed.
Lemma write_Ret_inv p bs w u w' :
  straight p = true → write_bytes p bs w = (Ret u, w') → w' = set_fs (insert p bs) (next_fault w).
Proof.
  intros Hs. rewrite write_straight by done. unfold write_at, meet_fault, mbind, io_bind. simpl.
  destruct (default Works _) as [|[n|]]; by intros [= <- <-].
Qed.
(** A file just written is there to be renamed. *)
Lemma within_write_replace {A} tmp dst bs (k : () → io (CW R) A) :
  straight tmp = true → straight dst = true → fp tmp → fp dst → (∀ u, within (k u)) →
  within (_ ← write_bytes tmp bs; os_replace tmp dst ≫= k).
Proof.
  intros Hst Hsd Ht Hd Hk w Hc. apply run_within_bind; [by apply within_write|].
  intros u w1 Hw F1. apply write_Ret_inv in Hw as ->; [|done].
  set (w1 := set_fs _ _) in *. apply run_within_bind.
  - rewrite replace_straight by done. unfold w1 at 2. simpl. rewrite lookup_insert_eq.
    apply run_within_fault.
    + apply run_within_fs. intros q Hq. rewrite insert_outside by done. by apply delete_outside.
    + intros n. split; [apply frame_refl|]. by intros e [= <-].
  - intros u' w2 _ F2. by eapply Hk, frame_cfg, (frame_cfg _ _ _ _ F1).
Qed.
Lemma within_write_replace_last tmp dst bs :
  straight tmp = true → straight dst = true → fp tmp → fp dst →
  within (_ ← write_bytes tmp bs; os_replace tmp dst).
Proof.
  intros Hst Hsd Ht Hd. apply (within_ext (_ ← write_bytes tmp bs; os_replace tmp dst ≫= mret)).
  - intros w. unfold mbind, io_bind. destruct (write_bytes _ _ _) as [[u|e] w1]; [|done].
    by destruct (os_replace _ _ w1) as [[]].
  - apply within_write_replace; [done..|]. intros. apply within_total, total_ret.
Qed.
Lemma total_try {A} (m : io (CW R) A) h :
  within m → (∀ e, total_in c fp (h e)) → total_in c fp (try_except m is_os_error h).
Proof.
  intros Hm Hh w Hc. destruct (Hm w Hc) as [F1 E1]. unfold try_except.
  destruct (m w) as [[a|e] w1]; simpl in *; [by eexists _, _|].
  destruct (E1 e eq_refl) as [-> _]. destruct (Hh e w1 (frame_cfg _ _ _ _ F1 Hc)) as (a & w2 & -> & F2).
  eexists _, _. split; [done|]. by eapply frame_trans.
Qed.
Lemma total_unlink p : fp (norm p) → total_in c fp (_unlink p).
Proof.
  intros Hp w Hc. unfold _unlink, try_except. destruct (place_of (w_dirs w) p) as [| |q] eqn:Hpl.
  - rewrite (run_place_exists p _ _ w Hpl). by apply total_ret.
  - rewrite (run_place_exists p _ _ w Hpl). simpl. unfold path_unlink. rewrite (run_place p _ _ w Hpl). by apply total_ret.
  - pose proof (place_file _ _ _ Hpl) as [-> _]. rewrite (run_place_exists p _ _ w Hpl).
    destruct (bool_decide _); simpl; [|by apply total_ret].
    unfold path_unlink. rewrite (run_place p _ _ w Hpl).
    by apply (total_try (unlink_at (norm p)) (λ _, mret ())); [apply within_unlink_at|intros; apply total_ret|].
Qed.
End total.
End spec.

Create HintDb total.
#[export] Hint Resolve total_ret total_gets total_time total_unlink total_key_lock total_when total_if
  total_bind total_with_key_lock : total.
#[export] Hint Resolve within_total within_mkdir within_bind within_write within_write_replace : total.

Section operations.
Context {R : Type} `{!Storage R, !CacheEnv, !CacheEnvLaws}.
Implicit Types (w : CW R) (fs : gmap (list string) (list Z)).
Context (c : CacheCfg).
Local Notation total := (total_in (R:=R) c).

(** A file and its temporary siblings. *)
Definition temp_of (p : list string) (n : nat) : list string :=
  with_name p (path_name p +:+ ".tmp." +:+ pid_tid +:+ "." +:+ str_of_Z (Z.of_nat n)).
Lemma temp_straight p n : straight p = true → straight (temp_of p n) = true.
Proof.
  intros Hp. unfold temp_of, with_name. rewrite straight_app. apply andb_true_iff. split.
  - destruct p as [|x p _] using rev_ind; [done|]. rewrite removelast_last. rewrite straight_app in Hp.
    by apply andb_true_iff in Hp as [].
  - simpl. rewrite andb_true_r. apply negb_true_iff, String.eqb_neq, neq_dotdot. rewrite str_length_app. simpl. lia.
Qed.
Definition near (p q : list string) : Prop := q = p ∨ ∃ n, q = temp_of p n.

Lemma total_temp_sibling {A} fp p (f : list string → io (CW R) A) :
  (∀ n, total fp (f (temp_of p n))) → total fp (_temp_sibling p ≫= f).
Proof.
  intros Hf w Hc. destruct (Hf (w_uuid w) (bump_uuid w) Hc) as (a & w1 & H1 & F1).
  exists a, w1. split; [exact H1|]. done.
Qed.

Lemma total_write_meta mpath m : straight mpath = true → total (near mpath) (_write_meta mpath m).
Proof.
  intros Hs. unfold _write_meta. apply total_temp_sibling. intros n.
  assert (near mpath (temp_of mpath n)) as Hn by (right; eauto).
  pose proof (temp_straight mpath n Hs) as Hst.
  apply total_try; [|intros; apply total_unlink; by rewrite norm_straight].
  apply within_bind; [apply within_mkdir|]. intros _.
  apply within_write_replace_last; [done|done|done|by left].
Qed.

Lemma total_read {A} fp p (f : option Meta → io (CW R) A) :
  straight p = true → (∀ m, total fp (f m)) → total fp (_read_meta p ≫= f).
Proof. intros Hs Hf w Hc. rewrite run_read by done. by apply Hf. Qed.

Lemma total_update_meta mpath f : straight mpath = true → total (near mpath) (_update_meta mpath f).
Proof.
  intros Hs. unfold _update_meta. apply total_read; [done|]. intros [m|]; [|apply total_ret].
  by apply total_write_meta.
Qed.

Lemma total_touch_meta mpath : straight mpath = true → total (near mpath) (_touch_meta mpath).
Proof.
  intros Hs. unfold _touch_meta. apply total_read; [done|]. intros [m|]; [|apply total_ret].
  apply total_bind; [apply total_time|]. intros now. apply total_if; [apply total_ret|].
  by apply total_write_meta.
Qed.

(** The files that the paths of an entry lead to. *)
Definition entry_files (key : string) (p : list string) : Prop :=
  p = norm (_data_path (CACHE_ROOT c) key) ∨ p = norm (_meta_path (CACHE_ROOT c) key).

Lemma entry_plain key : plain_key key = true →
  straight (_data_path (CACHE_ROOT c) key) = true ∧ straight (_meta_path (CACHE_ROOT c) key) = true.
Proof. apply plain_paths, CACHE_ROOT_straight. Qed.

Lemma total_remove_entry key : total (entry_files key) (_remove_entry key).
Proof.
  unfold _remove_entry. apply total_cfg, total_bind; [apply total_unlink; by left|].
  intros _. apply total_unlink. by right.
Qed.

(** *** Eviction *)
Lemma total_evict_step need freed e : total (entry_files (st_key e)) (evict_step need freed e).
Proof.
  unfold evict_step. apply total_if; [apply total_ret|]. apply total_try_key_lock. intros b.
  apply total_if; [|apply total_ret]. apply total_bind; [apply total_remove_entry|].
  intros _. apply total_ret.
Qed.

Lemma total_mono {A} (fp fp' : list string → Prop) (m : io (CW R) A) :
  (∀ p, fp p → fp' p) → total fp m → total fp' m.
Proof.
  intros Hi Hm w Hc. destruct (Hm w Hc) as (a & w' & Hr & Hf). exists a, w'.
  split; [done|]. by eapply frame_mono.
Qed.

(** The files of the entries that an eviction at [now] may touch. *)
Definition evictable (root : list string) fs (now : Z) (p : list string) : Prop :=
  ∃ e, e ∈ omap (stat_of fs) (rglob_meta root fs) ∧
       LRU_GRACE_PERIOD < now - st_last_accessed_at e ∧ entry_files (st_key e) p.

Lemma elem_of_lru_candidates now es e :
  e ∈ lru_candidates now es ↔ e ∈ es ∧ LRU_GRACE_PERIOD < now - st_last_accessed_at e.
Proof.
  unfold lru_candidates. rewrite merge_sort_Permutation, list_elem_of_filter. naive_solver.
Qed.

Lemma evict_lru_run need w :
  w_cfg w = Some c →
  ∃ w', _evict_lru need w = (Ret (), w') ∧
    frame (evictable (CACHE_ROOT c) (w_fs w) (w_clock w + default 0 (head (w_delays w)))) w w'.
Proof.
  intros Hc. unfold _evict_lru, _collect_stats.
  set (es := omap (stat_of (w_fs w)) (rglob_meta (CACHE_ROOT c) (w_fs w))).
  set (now := w_clock w + default 0 (head (w_delays w))).
  assert (total (evictable (CACHE_ROOT c) (w_fs w) now)
            (foreach (lru_candidates now es) 0 (evict_step need))) as Hloop.
  { apply total_foreach. intros freed e [He Hg]%elem_of_lru_candidates.
    eapply total_mono; [|apply total_evict_step]. intros p Hp. exists e. done. }
  destruct (Hloop (tick w) Hc) as (n & w' & Hr & Hf). exists w'. split.
  - erewrite run_ret; [|rewrite (run_cfg_Some _ c) by done; reflexivity].
    erewrite run_ret; [|reflexivity]. erewrite run_ret; [reflexivity|exact Hr].
  - eapply frame_trans; [apply frame_tick|exact Hf].
Qed.

Lemma evict_run n w :
  w_cfg w = Some c →
  ∃ w', _evict_lru_if_needed n w = (Ret (), w') ∧
    frame (evictable (CACHE_ROOT c) (w_fs w) (w_clock w + default 0 (head (w_delays w)))) w w'.
Proof.
  intros Hc. unfold _evict_lru_if_needed, _calculate_total_size.
  rewrite (run_cfg_Some _ c) by done.
  erewrite run_ret; [|rewrite (run_cfg_Some _ c) by done; reflexivity].
  case_match; [|by apply evict_lru_run]. exists w. split; [done|apply frame_refl].
Qed.

(** *** Storing *)
(** The files of an entry and their temporary siblings. *)
Definition own_files (key : string) (p : list string) : Prop :=
  near (_data_path (CACHE_ROOT c) key) p ∨ near (_meta_path (CACHE_ROOT c) key) p.

(** The world in which a store evicts: the entry is complete, its times are
    [now], nothing else was added. *)
Definition stored (key : string) (content : list Z) (m : Meta) w w1 : Prop :=
  let dp := _data_path (CACHE_ROOT c) key in
  let mp := _meta_path (CACHE_ROOT c) key in
  frame (own_files key) w w1 ∧
  w_clock w1 = w_clock w + default 0 (head (w_delays w)) ∧
  w_delays w1 = tail (w_delays w) ∧
  w_fs w1 !! dp = Some content ∧ w_fs w1 !! mp = Some (meta_dumps m) ∧
  ∀ p b, p ≠ dp → p ≠ mp → w_fs w1 !! p = Some b → w_fs w !! p = Some b.

Lemma key_lock_run key w : ∃ i l, _key_lock key w = (Ret i, set_locks l w).
Proof.
  unfold _key_lock, mbind, io_bind. simpl. destruct (w_locks w !! key) as [i|] eqn:Hk.
  - exists i, (w_locks w). by destruct w.
  - by eexists _, _.
Qed.

Lemma replace_Ret_inv src dst w u w' :
  straight src = true → straight dst = true → os_replace src dst w = (Ret u, w') →
  ∃ bs, w_fs w !! src = Some bs ∧ w' = set_fs (λ fs, <[dst := bs]> (delete src fs)) (next_fault w).
Proof.
  intros Hs Hd. rewrite replace_straight by done. destruct (w_fs w !! src) as [bs|]; [|done].
  unfold replace_at, meet_fault, mbind, io_bind. simpl. destruct (default Works _); intros [= <- <-]. by exists bs.
Qed.
Lemma mkdir_Ret_inv p w u w' : mkdir p w = (Ret u, w') → w' = set_dirs (app (made p)) (next_fault w).
Proof. unfold mkdir, meet_fault, mbind, io_bind. simpl. by destruct (default Works _); intros [= <- <-]. Qed.

(** Under the key's lock: either both files are written, or a call failed and the
    entry's files and their temporary siblings are all that can have changed. *)
Lemma within_temp_sibling {A} fp p (f : list string → io (CW R) A) :
  (∀ n, within c fp (f (temp_of p n))) → within c fp (_temp_sibling p ≫= f).
Proof. intros Hf w Hc. by apply (Hf (w_uuid w) (bump_uuid w)). Qed.

Lemma within_store_files key content sha etag obj :
  plain_key key = true → within (R:=R) c (own_files key) (store_files key content sha etag obj).
Proof.
  intros [Hsd Hsm]%entry_plain. unfold store_files, with_key_lock. apply within_bind; [apply within_total, total_key_lock|]. intros _.
  apply within_cfg. cbv zeta.
  set (dp := _data_path (CACHE_ROOT c) key). set (mp := _meta_path (CACHE_ROOT c) key).
  assert (∀ n, own_files key (temp_of dp n) ∧ own_files key (temp_of mp n)) as Ht.
  { intros n. split; [left|right]; right; eauto. }
  assert (own_files key dp ∧ own_files key mp) as [Hdp Hmp] by (split; [left|right]; by left).
  apply within_bind; [apply within_mkdir|]. intros _.
  apply within_temp_sibling; intros n. apply within_temp_sibling; intros m.
  apply within_bind; [apply within_total, total_time|]. intros now.
  apply within_write_replace; [by apply temp_straight|done|by apply Ht|done|]. intros _.
  apply within_write_replace_last; [by apply temp_straight|done|by apply Ht|done].
Qed.

Lemma store_files_Ret key content sha etag obj w u w1 :
  plain_key key = true → w_cfg w = Some c → store_files key content sha etag obj w = (Ret u, w1) →
  stored key content (store_meta content sha etag obj (w_clock w + default 0 (head (w_delays w)))) w w1.
Proof.
  intros Hpl Hc Hr. set (dp := _data_path (CACHE_ROOT c) key). set (mp := _meta_path (CACHE_ROOT c) key).
  destruct (entry_plain key Hpl) as [Hsd Hsm]. fold dp in Hsd. fold mp in Hsm.
  destruct (within_store_files key content sha etag obj Hpl w Hc) as [Hf _]. rewrite Hr in Hf. simpl in Hf.
  revert Hr. unfold store_files, with_key_lock. destruct (key_lock_run key w) as (i & l & Hl).
  rewrite (run_ret _ _ _ _ _ Hl), (run_cfg_Some _ c) by done. fold dp mp. intros Hr. inv_runs.
  apply mkdir_Ret_inv in Hm as ->. revert Hm0 Hm1 Hm2. intros [= <- <-] [= <- <-] [= <- <-].
  pose proof (λ n, temp_straight dp n Hsd) as Hstd. pose proof (λ n, temp_straight mp n Hsm) as Hstm.
  apply write_Ret_inv in Hm3 as ->; [|apply Hstd]. apply replace_Ret_inv in Hm4 as (b1 & Hb1 & ->); [|apply Hstd|done].
  apply write_Ret_inv in Hm5 as ->; [|apply Hstm]. apply replace_Ret_inv in Hr as (b2 & Hb2 & ->); [|apply Hstm|done].
  simpl in *. rewrite lookup_insert_eq in Hb1, Hb2. injection Hb1 as <-. injection Hb2 as <-.
  pose proof (meta_path_ne_data_path (CACHE_ROOT c) key : mp ≠ dp) as Hmd.
  set (td := with_name dp _) in *.
  assert (with_name mp (path_name mp +:+ ".tmp." +:+ pid_tid +:+ "." +:+ str_of_Z (Z.of_nat (S (w_uuid w)))) ≠ dp)
    as Htd by apply temp_meta_ne_data_path.
  set (tm := with_name mp _) in *.
  split_and!; [exact Hf|done|done|..]; cbn -[_data_path _meta_path]; fold dp mp.
  - by rewrite lookup_insert_ne, lookup_delete_ne, lookup_insert_ne, lookup_insert_eq by done.
  - by rewrite lookup_insert_eq.
  - intros p b H1 H2. rewrite lookup_insert_ne by done.
    intros [H3 Hl1]%lookup_delete_Some. revert Hl1. rewrite !lookup_insert_ne by done.
    intros [H4 Hl1]%lookup_delete_Some. revert Hl1. by rewrite lookup_insert_ne by done.
Qed.

(** A store either completes, in a world where it evicts, or a call failed and
    only the files of the entry and their temporary siblings can differ. *)
Lemma store_run key content sha etag obj w :
  plain_key key = true → w_cfg w = Some c →
  ∃ w', (∃ w1, _store key content sha etag obj w = (Ret (), w') ∧
    stored key content (store_meta content sha etag obj (w_clock w + default 0 (head (w_delays w)))) w w1 ∧
    frame (evictable (CACHE_ROOT c) (w_fs w1) (w_clock w1 + default 0 (head (w_delays w1)))) w1 w') ∨
  (∃ e, _store key content sha etag obj w = (Raise e, w') ∧ is_os_error e = true ∧ w_faults w ≠ [] ∧
    frame (own_files key) w w').
Proof.
  intros Hpl Hc. unfold _store.
  destruct (within_store_files key content sha etag obj Hpl w Hc) as [Hf He].
  destruct (store_files key content sha etag obj w) as [[u|e] w1] eqn:Hr; simpl in *.
  - destruct (evict_run 0 w1) as (w' & Hev & Hf'); [by eapply frame_cfg|]. exists w'. left. exists w1.
    rewrite (run_ret _ _ _ _ _ Hr). split_and!; [done|by eapply store_files_Ret|done].
  - exists w1. right. exists e. rewrite (run_raise _ _ _ _ _ Hr). by destruct (He e eq_refl).
Qed.
End operations.

Section resolve.
Context {R : Type} `{!Storage R, !CacheEnv, !CacheEnvLaws}.
Implicit Types (w : CW R) (fs : gmap (list string) (list Z)) (c : CacheCfg).

(** The same files, clock and remote store; the configuration is loaded. *)
Definition ready c w w0 : Prop :=
  w_cfg w0 = Some c ∧ w_fs w0 = w_fs w ∧ w_clock w0 = w_clock w ∧ w_delays w0 = w_delays w ∧
  w_remote w0 = w_remote w ∧ w_busy w0 = w_busy w ∧ (w_faults w = [] → w_faults w0 = []).

(** The cache directory is there, or a call that creates it works. *)
Definition root_ready w : Prop := w_initialized w = true ∨ w_faults w = [].

Lemma ensure_root_run c w :
  w_cfg w = Some c →
  ∃ o w0, _ensure_cache_root w = (o, w0) ∧ ready c w w0 ∧
    match o with Ret _ => True | Raise e => e = os_error ∧ ¬ root_ready w end.
Proof.
  intros Hc. unfold _ensure_cache_root. rewrite (run_cfg_Some _ c) by done.
  erewrite run_ret by reflexivity. unfold root_ready. destruct (w_initialized w) eqn:Hi; simpl.
  { eexists _, _. split; [done|]. by repeat split. }
  unfold mkdir, meet_fault, mbind, io_bind. simpl.
  destruct (w_faults w) as [|[|n] l] eqn:Hf; simpl; eexists _, _; (split; [done|]);
    (split; [repeat split; simpl; rewrite ?Hf; naive_solver|naive_solver]).
Qed.

Lemma resolve_cases obj sha w :
  CACHE_ENABLED (cfg_now w) = true →
  ∃ w0, ready (cfg_now w) w w0 ∧
    (resolve_or_download obj sha w = _resolve_or_download_locked obj sha (_cache_key sha obj) w0 ∨
     resolve_or_download obj sha w = (Raise os_error, w0) ∧ ¬ root_ready w).
Proof.
  intros He. unfold resolve_or_download. rewrite run_cfg, He. simpl.
  set (c := cfg_now w). destruct (ensure_root_run c (set_cfg c w) eq_refl) as ([u|e] & w1 & H1 & Hr1 & Ho).
  - rewrite (run_ret _ _ _ _ _ H1). unfold with_key_lock.
    destruct (key_lock_run (_cache_key sha obj) w1) as (i & l & Hl). rewrite (run_ret _ _ _ _ _ Hl).
    exists (set_locks l w1). by split; [|left].
  - rewrite (run_raise _ _ _ _ _ H1). destruct Ho as [-> Hn]. exists w1. by split; [|right].
Qed.

Lemma resolve_run obj sha w :
  CACHE_ENABLED (cfg_now w) = true → root_ready w →
  ∃ w0, resolve_or_download obj sha w =
          _resolve_or_download_locked obj sha (_cache_key sha obj) w0 ∧ ready (cfg_now w) w w0.
Proof.
  intros He Hrt. destruct (resolve_cases obj sha w He) as (w0 & Hr & [Heq|[_ []]]); [|done]. by exists w0.
Qed.

Context (obj sha : string).
Context (Hhex : is_hex sha = true) (Hne : sha ≠ "").

Let key : string := "sha256:" +:+ sha.

Lemma sha_straight c :
  straight (_data_path (CACHE_ROOT c) key) = true ∧ straight (_meta_path (CACHE_ROOT c) key) = true.
Proof. apply entry_plain, plain_sha, Hhex. Qed.
Lemma sha_norm c : norm (_data_path (CACHE_ROOT c) key) = _data_path (CACHE_ROOT c) key.
Proof. apply norm_straight, sha_straight. Qed.

Lemma sha_key : _cache_key sha obj = key.
Proof. clear Hhex. unfold _cache_key. by destruct sha. Qed.
Lemma sha_truthy : str_truthy sha = true.
Proof. clear Hhex. by destruct sha. Qed.

(** A hit on a digest: no configuration, clock or remote access beyond touching
    the times of the meta file. *)
Lemma locked_sha_hit c w :
  w_cfg w = Some c → is_Some (w_fs w !! _data_path (CACHE_ROOT c) key) →
  ∃ w', _resolve_or_download_locked obj sha key w = (Ret (Some (_data_path (CACHE_ROOT c) key)), w')
        ∧ frame (near (_meta_path (CACHE_ROOT c) key)) w w'.
Proof.
  intros Hc Hex. destruct (sha_straight c) as [Hsd Hsm].
  unfold _resolve_or_download_locked. rewrite (run_cfg_Some _ c), run_exists by done.
  rewrite sha_truthy, bool_decide_true by done. simpl.
  destruct (total_touch_meta c (_meta_path (CACHE_ROOT c) key) Hsm w Hc) as ([] & w' & Hr & Hf).
  exists w'. by rewrite (run_ret _ _ _ _ _ Hr).
Qed.

(** A miss on a digest: what the remote store answers decides. *)
Lemma head_run w : ∃ o r, _head_or_none obj w = (o, set_remote r w).
Proof.
  unfold _head_or_none. destruct head_object as [f|].
  - unfold try_except, remote_call. destruct (f obj (w_remote w)) as [[h|e] r]; [by eauto|].
    destruct (is_exception e); by eauto.
  - exists (Ret None), (w_remote w). by destruct w.
Qed.

Lemma locked_sha_miss c w :
  w_cfg w = Some c → w_fs w !! _data_path (CACHE_ROOT c) key = None →
  _resolve_or_download_locked obj sha key w =
    (h ← _head_or_none obj;
     match h with
     | None => mret None
     | Some etag => _ ← fetch_and_store obj sha key (default "" etag);
                    cfg' ← _cache_cfg; mret (Some (_data_path (CACHE_ROOT cfg') key))
     end) w.
Proof.
  intros Hc Hex. destruct (sha_straight c) as [Hsd Hsm]. unfold _resolve_or_download_locked.
  rewrite (run_cfg_Some _ c), run_exists by done. rewrite sha_truthy.
  rewrite bool_decide_false by (rewrite Hex; by intros []). simpl.
  erewrite run_ret; [|unfold name_fresh; rewrite run_exists, sha_truthy by done; reflexivity].
  cbn beta iota. destruct (head_run w) as (o & r & Hh). destruct o as [h|e].
  2: by rewrite !(run_raise _ _ _ _ _ Hh).
  rewrite !(run_ret _ _ _ _ _ Hh). set (w1 := set_remote r w).
  assert (w_fs w1 !! _data_path (CACHE_ROOT c) key = None) as Hex1 by done.
  destruct h as [etag|].
  - erewrite run_ret; [|unfold etag_hit; rewrite run_exists, bool_decide_false
      by (done || rewrite Hex1; by intros []); reflexivity]. done.
  - unfold remote_gone. rewrite run_exists, bool_decide_false by (done || rewrite Hex1; by intros []).
    by rewrite andb_false_r.
Qed.

Lemma download_run w : ∃ o r, _download obj w = (o, set_remote r w).
Proof.
  unfold _download. destruct download_bytes as [f|].
  - unfold remote_call. destruct (f obj (w_remote w)) as [o r]. eauto.
  - eexists _, (w_remote w). by destruct w.
Qed.

Definition mismatch (actual : string) : exn :=
  RuntimeError ("SHA256 mismatch for " +:+ obj +:+ ": expected=" +:+ sha +:+ ", actual=" +:+ actual).

Lemma fetch_sha_run etag o r w :
  _download obj w = (o, set_remote r w) →
  fetch_and_store obj sha key etag w =
    match o with
    | Raise e => (Raise e, set_remote r w)
    | Ret content =>
      if String.eqb (sha256_hex content) sha
      then _store key content sha etag obj (set_remote r w)
      else (Raise (mismatch (sha256_hex content)), set_remote r w)
    end.
Proof.
  intros Hd. unfold fetch_and_store. destruct o as [content|e].
  - rewrite (run_ret _ _ _ _ _ Hd), sha_truthy. by destruct (String.eqb _ _).
  - by rewrite (run_raise _ _ _ _ _ Hd).
Qed.

(** No other meta file names the data file of the entry. *)
Definition sole_entry c (k : string) fs : Prop :=
  ∀ p k', is_Some (fs !! p) → _key_from_meta_path p = Some k' →
    entry_files c k' (_data_path (CACHE_ROOT c) k) → p = _meta_path (CACHE_ROOT c) k.

Lemma sha_data_no_meta c : _key_from_meta_path (_data_path (CACHE_ROOT c) key) = None.
Proof.
  unfold key. rewrite data_path_sha by done. unfold _key_from_meta_path.
  destruct (endswith _ _) eqn:He; [|done]. apply endswith_spec in He as [a Ha].
  destruct (sha_path_not_dotted (CACHE_ROOT c) sha Hhex). unfold dotted. rewrite Ha.
  by rewrite str_in_app, orb_true_r.
Qed.

(** The entry just stored is inside the grace period of the eviction that
    follows the store. *)
Lemma stored_not_evictable c content etag now w w1 now2 :
  stored c key content (store_meta content sha etag obj now) w w1 →
  sole_entry c key (w_fs w) → now2 - now ≤ LRU_GRACE_PERIOD →
  ¬ evictable c (CACHE_ROOT c) (w_fs w1) now2 (_data_path (CACHE_ROOT c) key).
Proof.
  intros (_ & _ & _ & Hdp & Hmp & Hold) Hsole Hnow (e & He & Hg & Hf).
  apply list_elem_of_omap in He as (p & _ & Hp). unfold stat_of in Hp.
  destruct (w_fs w1 !! p) as [b|] eqn:Hb; [|done]. simpl in Hp.
  destruct (meta_loads b) as [m|] eqn:Hm; [|done]. simpl in Hp.
  destruct (_key_from_meta_path p) as [k|] eqn:Hk; [|done]. simpl in Hp.
  destruct (str_truthy k); [|done]. injection Hp as <-. simpl in *.
  destruct (decide (p = _data_path (CACHE_ROOT c) key)) as [->|Hne1].
  { by rewrite sha_data_no_meta in Hk. }
  destruct (decide (p = _meta_path (CACHE_ROOT c) key)) as [->|Hne2].
  - rewrite Hmp in Hb. injection Hb as <-. rewrite meta_loads_dumps in Hm. injection Hm as <-.
    simpl in Hg. lia.
  - apply Hne2, (Hsole p k); [|done..]. by rewrite (Hold p b).
Qed.

(** Storing verified content: the resolution returns the data file, with the
    content in place; a failing call leaves nothing but files of the entry. *)
Lemma store_sha_keeps c content etag w :
  w_cfg w = Some c → Forall (λ d, d ≤ LRU_GRACE_PERIOD) (w_delays w) →
  sole_entry c key (w_fs w) →
  ∃ w', (_store key content sha etag obj w = (Ret (), w') ∧ w_cfg w' = Some c ∧
           w_remote w' = w_remote w ∧ w_fs w' !! _data_path (CACHE_ROOT c) key = Some content) ∨
        (∃ e, _store key content sha etag obj w = (Raise e, w') ∧ w_faults w ≠ [] ∧
           frame (own_files c key) w w').
Proof.
  intros Hc Hd Hsole. destruct (store_run c key content sha etag obj w (plain_sha _ Hhex) Hc)
    as (w' & [(w1 & Hr & Hst & Hf)|(e & Hr & _ & Hfl & Hf)]); exists w'; [left|right; by exists e].
  pose proof Hst as ((Hc1 & Hr1 & _) & Hclk & Hdel & Hdp & _).
  destruct Hf as (Hc2 & Hr2 & _ & Hfs & _). split_and!; [done|congruence|congruence|].
  rewrite Hfs; [done|]. eapply stored_not_evictable; [exact Hst|done|].
  rewrite Hclk, Hdel. destruct (w_delays w) as [|d1 [|d2 l]]; simpl; unfold LRU_GRACE_PERIOD, SECOND; [lia..|].
  rewrite !Forall_cons in Hd. unfold LRU_GRACE_PERIOD, SECOND in Hd. lia.
Qed.

(** What a run that raised may have left: files of the entry only, and those only
    when a call of the file system failed. *)
Definition leaves_own c w w' : Prop :=
  (∀ p, ¬ own_files c key p → w_fs w' !! p = w_fs w !! p) ∧ (w_faults w = [] → w_fs w' = w_fs w).

Lemma leaves_own_same c w w' : w_fs w' = w_fs w → leaves_own c w w'.
Proof. unfold leaves_own. by intros ->. Qed.

Lemma locked_sha_sound c w :
  w_cfg w = Some c → content_ok (CACHE_ROOT c) (w_fs w) →
  Forall (λ d, d ≤ LRU_GRACE_PERIOD) (w_delays w) → sole_entry c key (w_fs w) →
  match _resolve_or_download_locked obj sha key w with
  | (Ret (Some p), w') =>
    p = _data_path (CACHE_ROOT c) key ∧ ∃ bs, w_fs w' !! p = Some bs ∧ sha256_hex bs = sha
  | (Ret None, w') => w_fs w' = w_fs w ∧ w_fs w !! _data_path (CACHE_ROOT c) key = None
  | (Raise _, w') => leaves_own c w w'
  end.
Proof.
  intros Hc Hok Hd Hsole. destruct (w_fs w !! _data_path (CACHE_ROOT c) key) as [bs|] eqn:Hdp.
  - destruct (locked_sha_hit c w Hc ltac:(eauto)) as (w' & -> & _ & _ & _ & Hfs & _).
    split; [done|]. exists bs. rewrite Hfs.
    + split; [done|]. unfold key in Hdp. rewrite data_path_sha in Hdp by done. by eapply Hok.
    + intros [Hq|[n Hq]]; [by eapply meta_path_ne_data_path|by eapply temp_meta_ne_data_path].
  - rewrite (locked_sha_miss c) by done. destruct (head_run w) as (o & r & Hh).
    destruct o as [[etag|]|e];
      [|by rewrite (run_ret _ _ _ _ _ Hh)|rewrite (run_raise _ _ _ _ _ Hh); by apply leaves_own_same].
    rewrite (run_ret _ _ _ _ _ Hh). set (w1 := set_remote r w).
    destruct (download_run w1) as (o2 & r2 & Hdl).
    pose proof (fetch_sha_run (default "" etag) o2 r2 w1 Hdl) as Hf.
    destruct o2 as [bs|e]; [|rewrite (run_raise _ _ _ _ _ Hf); by apply leaves_own_same].
    destruct (String.eqb_spec (sha256_hex bs) sha) as [Heq|];
      [|rewrite (run_raise _ _ _ _ _ Hf); by apply leaves_own_same].
    destruct (store_sha_keeps c bs (default "" etag) (set_remote r2 w1))
      as (w' & [(Hst & Hc' & _ & Hbs)|(e & Hst & Hfl & Hfr)]); [done..| |]; rewrite Hst in Hf.
    + rewrite (run_ret _ _ _ _ _ Hf), (run_cfg_Some _ c) by done. simpl. split; [done|]. by exists bs.
    + rewrite (run_raise _ _ _ _ _ Hf). split; [apply Hfr|done].
Qed.

Lemma resolve_sha_cases w :
  CACHE_ENABLED (cfg_now w) = true →
  ∃ w0, ready (cfg_now w) w w0 ∧
    (resolve_or_download obj sha w = _resolve_or_download_locked obj sha key w0 ∨
     resolve_or_download obj sha w = (Raise os_error, w0) ∧ ¬ root_ready w).
Proof. intros He. destruct (resolve_cases obj sha w He) as (w0 & Hr). rewrite sha_key in Hr. by exists w0. Qed.

Lemma resolve_sha_run w :
  CACHE_ENABLED (cfg_now w) = true → root_ready w →
  ∃ w0, resolve_or_download obj sha w = _resolve_or_download_locked obj sha key w0 ∧
        ready (cfg_now w) w w0.
Proof. intros He Hw. destruct (resolve_run obj sha w He Hw) as (w0 & Hr & Hw0). rewrite sha_key in Hr. eauto. Qed.
End resolve.

Section theorems.
Context {R : Type} `{!Storage R, !CacheEnv, !CacheEnvLaws}.
Implicit Types (w : CW R) (obj sha : string).

Definition sha_path w sha : list string := _data_path (CACHE_ROOT (cfg_now w)) ("sha256:" +:+ sha).

Lemma resolve_sha_ok obj sha w :
  is_hex sha = true → sha ≠ "" → CACHE_ENABLED (cfg_now w) = true →
  content_ok (CACHE_ROOT (cfg_now w)) (w_fs w) →
  Forall (λ d, d ≤ LRU_GRACE_PERIOD) (w_delays w) →
  sole_entry (cfg_now w) ("sha256:" +:+ sha) (w_fs w) →
  match resolve_or_download obj sha w with
  | (Ret (Some p), w') => p = sha_path w sha ∧ ∃ bs, w_fs w' !! p = Some bs ∧ sha256_hex bs = sha
  | (Ret None, w') => w_fs w' = w_fs w ∧ w_fs w !! sha_path w sha = None
  | (Raise _, w') => leaves_own sha (cfg_now w) w w'
  end.
Proof.
  intros Hh Hn He Hok Hd Hs.
  destruct (resolve_sha_cases obj sha Hn w He) as (w0 & (Hc & Hfs & _ & Hdel & _ & _ & Hfl) & [->|[-> _]]).
  - rewrite <-Hfs in Hok, Hs. rewrite <-Hdel in Hd.
    pose proof (locked_sha_sound obj sha Hh Hn (cfg_now w) w0 Hc Hok Hd Hs) as Hl.
    destruct (_resolve_or_download_locked _ _ _ w0) as [[[p|]|e] w']; [done|by rewrite Hfs in Hl|].
    destruct Hl as [H1 H2]. split; [by rewrite <-Hfs|]. intros Hnil. rewrite H2; [done|by apply Hfl].
  - by apply leaves_own_same.
Qed.

(** C5. Soundness of a SHA-256 resolution, whatever the remote store answers: in
    an intact cache where no other meta file names the entry, and with less than
    the grace period between the clock readings, a returned path is the entry's
    data file, it exists when the call returns and its bytes have the requested
    digest; [None] leaves all files as they were, and so does every exception,
    except that a call that writes or renames may have failed: then files of this
    entry and their temporary siblings can have changed, and no others. *)
Theorem resolve_sha_sound obj sha w :
  is_hex sha = true → sha ≠ "" → CACHE_ENABLED (cfg_now w) = true →
  content_ok (CACHE_ROOT (cfg_now w)) (w_fs w) →
  Forall (λ d, d ≤ LRU_GRACE_PERIOD) (w_delays w) →
  sole_entry (cfg_now w) ("sha256:" +:+ sha) (w_fs w) →
  match resolve_or_download obj sha w with
  | (Ret (Some p), w') => p = sha_path w sha ∧ ∃ bs, w_fs w' !! p = Some bs ∧ sha256_hex bs = sha
  | (Ret None, w') => w_fs w' = w_fs w ∧ w_fs w !! sha_path w sha = None
  | (Raise _, w') => leaves_own sha (cfg_now w) w w'
  end.
Proof. apply resolve_sha_ok. Qed.

(** A hit on a digest key is served offline, also from a full disk: the path is
    returned without any access to the remote store, and no file changes except
    the meta file of the entry (whose access time may be refreshed). *)
Theorem resolve_sha_offline obj sha w bs :
  is_hex sha = true → sha ≠ "" → CACHE_ENABLED (cfg_now w) = true → root_ready w →
  w_fs w !! sha_path w sha = Some bs →
  ∃ w', resolve_or_download obj sha w = (Ret (Some (sha_path w sha)), w') ∧
    w_remote w' = w_remote w ∧ w_fs w' !! sha_path w sha = Some bs ∧
    ∀ p, ¬ near (_meta_path (CACHE_ROOT (cfg_now w)) ("sha256:" +:+ sha)) p →
         w_fs w' !! p = w_fs w !! p.
Proof.
  intros Hh Hn He Hrt Hbs. destruct (resolve_sha_run obj sha Hn w He Hrt) as (w0 & -> & Hc & Hfs & _ & _ & Hr & _).
  unfold sha_path in *. rewrite <-Hfs in *. rewrite <-Hr.
  destruct (locked_sha_hit obj sha Hh Hn (cfg_now w) w0 Hc ltac:(eauto)) as (w' & -> & _ & Hr' & _ & Hf & _).
  exists w'. split_and!; [done|done| |exact Hf]. rewrite Hf; [done|].
  intros [Hq|[n Hq]]; [by eapply meta_path_ne_data_path|by eapply temp_meta_ne_data_path].
Qed.

(** A miss on a digest key with a remote store that answers and no failing call: bytes with the
    requested digest are stored and returned; other bytes are refused with the
    mismatch error and no file changes. *)
Theorem resolve_sha_download obj sha w fh fd etag r1 bs r2 :
  is_hex sha = true → sha ≠ "" → CACHE_ENABLED (cfg_now w) = true → w_faults w = [] →
  Forall (λ d, d ≤ LRU_GRACE_PERIOD) (w_delays w) →
  sole_entry (cfg_now w) ("sha256:" +:+ sha) (w_fs w) →
  w_fs w !! sha_path w sha = None →
  head_object = Some fh → fh obj (w_remote w) = (Ret (Some etag), r1) →
  download_bytes = Some fd → fd obj r1 = (Ret bs, r2) →
  ∃ w', w_remote w' = r2 ∧
    if bool_decide (sha256_hex bs = sha)
    then resolve_or_download obj sha w = (Ret (Some (sha_path w sha)), w') ∧
         w_fs w' !! sha_path w sha = Some bs
    else resolve_or_download obj sha w = (Raise (mismatch obj sha (sha256_hex bs)), w') ∧
         w_fs w' = w_fs w.
Proof.
  intros Hh Hn He Hnf Hd Hs Hdp Hhd Hfh Hdl Hfd.
  destruct (resolve_sha_run obj sha Hn w He (or_intror Hnf)) as (w0 & -> & Hc & Hfs & _ & Hdel & Hr & _ & Hfl).
  unfold sha_path in *. rewrite <-Hfs in *. rewrite <-Hdel in *. rewrite (locked_sha_miss obj sha Hh Hn (cfg_now w)) by done.
  assert (_head_or_none obj w0 = (Ret (Some etag), set_remote r1 w0)) as Hhead.
  { unfold _head_or_none, try_except, remote_call. by rewrite Hhd, Hr, Hfh. }
  rewrite (run_ret _ _ _ _ _ Hhead).
  assert (_download obj (set_remote r1 w0) = (Ret bs, set_remote r2 w0)) as Hdown.
  { unfold _download, remote_call. rewrite Hdl. simpl. by rewrite Hfd. }
  pose proof (fetch_sha_run obj sha Hn (default "" etag) _ r2 (set_remote r1 w0) Hdown) as Hf.
  cbv beta iota in Hf. revert Hf. destruct (String.eqb_spec (sha256_hex bs) sha) as [Heq|Hneq]; intros Hf.
  - rewrite bool_decide_true by done.
    destruct (store_sha_keeps obj sha Hh (cfg_now w) bs (default "" etag) (set_remote r2 (set_remote r1 w0)))
      as (w' & [(Hst & Hc' & Hr' & Hbs)|(e & _ & Hne & _)]); [done..| |by destruct Hne; apply Hfl].
    rewrite Hst in Hf. exists w'. split; [done|].
    rewrite (run_ret _ _ _ _ _ Hf), (run_cfg_Some _ _ _ Hc'). split; [reflexivity|exact Hbs].
  - rewrite bool_decide_false by done. exists (set_remote r2 w0). split; [done|].
    by rewrite (run_raise _ _ _ _ _ Hf).
Qed.

(** ** Name-addressed entries *)
Definition name_path w obj : list string := _data_path (CACHE_ROOT (cfg_now w)) ("name:" +:+ obj).
Definition name_meta w obj : option Meta :=
  w_fs w !! _meta_path (CACHE_ROOT (cfg_now w)) ("name:" +:+ obj) ≫= meta_loads.
(** Validated less than [REVALIDATE_INTERVAL] ago at the next clock reading. *)
Definition is_fresh w (m : Meta) : bool :=
  w_clock w + default 0 (head (w_delays w)) - default 0 (m_last_validated_at m) <? REVALIDATE_INTERVAL.

Lemma name_fresh_run dp mp w b :
  straight dp = true → straight mp = true → w_fs w !! dp = Some b →
  ∃ w', name_fresh "" dp mp w =
          (Ret (match w_fs w !! mp ≫= meta_loads with Some m => is_fresh w m | None => false end), w') ∧
        w_cfg w' = w_cfg w ∧ w_fs w' = w_fs w ∧ w_remote w' = w_remote w ∧ w_faults w' = w_faults w.
Proof.
  intros Hsd Hsm Hdp. unfold name_fresh. rewrite run_exists, bool_decide_true by (done || rewrite Hdp; eauto). simpl.
  rewrite run_read by done. destruct (w_fs w !! mp ≫= meta_loads) as [m|]; by eexists.
Qed.

(** After a stale or unreadable entry: the head decides. *)
Lemma locked_name_stale obj c w b :
  plain_key ("name:" +:+ obj) = true → w_cfg w = Some c → w_fs w !! _data_path (CACHE_ROOT c) ("name:" +:+ obj) = Some b →
  (∀ m, w_fs w !! _meta_path (CACHE_ROOT c) ("name:" +:+ obj) ≫= meta_loads = Some m → is_fresh w m = false) →
  ∃ w1, w_cfg w1 = Some c ∧ w_fs w1 = w_fs w ∧ w_remote w1 = w_remote w ∧ w_faults w1 = w_faults w ∧
  _resolve_or_download_locked obj "" ("name:" +:+ obj) w =
    (head ← _head_or_none obj;
     match head with
     | None => remote_gone "" ("name:" +:+ obj) (_data_path (CACHE_ROOT c) ("name:" +:+ obj))
                 (_meta_path (CACHE_ROOT c) ("name:" +:+ obj))
     | Some etag =>
       hit ← etag_hit (default "" etag) ("name:" +:+ obj) (_data_path (CACHE_ROOT c) ("name:" +:+ obj))
               (_meta_path (CACHE_ROOT c) ("name:" +:+ obj));
       if (hit : bool) then mret (Some (_data_path (CACHE_ROOT c) ("name:" +:+ obj)))
       else _ ← fetch_and_store obj "" ("name:" +:+ obj) (default "" etag);
            cfg' ← _cache_cfg; mret (Some (_data_path (CACHE_ROOT cfg') ("name:" +:+ obj)))
     end) w1.
Proof.
  intros [Hsd Hsm]%(entry_plain c) Hc Hdp Hst.
  unfold _resolve_or_download_locked. rewrite (run_cfg_Some _ c), run_exists by done. simpl.
  destruct (name_fresh_run _ (_meta_path (CACHE_ROOT c) ("name:" +:+ obj)) w b Hsd Hsm Hdp) as (w1 & Hr & H1 & H2 & H3 & H4).
  rewrite (run_ret _ _ _ _ _ Hr). exists w1. split_and!; [congruence|done|done|done|].
  case_match; [|done]. by rewrite Hst.
Qed.

Lemma unlink_run p w :
  straight p = true → w_faults w = [] →
  ∃ w', _unlink p w = (Ret (), w') ∧ w_fs w' = delete p (w_fs w) ∧ w_cfg w' = w_cfg w ∧ w_faults w' = [].
Proof.
  intros Hs Hnf. unfold _unlink, try_except. rewrite run_exists by done. unfold when. case_bool_decide as He.
  - rewrite unlink_straight by done. unfold unlink_at, meet_fault, mbind, io_bind. simpl. rewrite Hnf. simpl.
    eexists. split_and!; [done..|]. simpl. by rewrite Hnf.
  - exists w. split_and!; [done| |done..]. symmetry. apply delete_id. by apply eq_None_not_Some.
Qed.

Lemma etag_hit_run c etag key dp mp w b m :
  straight dp = true → straight mp = true → w_cfg w = Some c → w_fs w !! dp = Some b → w_fs w !! mp ≫= meta_loads = Some m →
  m_etag m = Some etag →
  ∃ w', etag_hit etag key dp mp w = (Ret true, w') ∧ frame (near mp) w w'.
Proof.
  intros Hsd Hsm Hc Hdp Hm Het. unfold etag_hit. rewrite run_exists, bool_decide_true by (done || rewrite Hdp; eauto).
  rewrite run_read, Hm by done. simpl. rewrite bool_decide_true by by rewrite Het.
  destruct (total_update_meta c mp
    (λ m, set_accessed (w_clock (tick (tick w))) (set_validated (w_clock (tick w)) m)) Hsm
    (tick (tick w)) Hc) as ([] & w' & Hr & Hf).
  exists w'. split.
  - do 2 (erewrite run_ret by reflexivity). by rewrite (run_ret _ _ _ _ _ Hr).
  - do 2 (eapply frame_trans; [apply frame_tick|]). exact Hf.
Qed.

Lemma resolve_name_run obj w :
  CACHE_ENABLED (cfg_now w) = true → root_ready w →
  ∃ w0, resolve_or_download obj "" w = _resolve_or_download_locked obj "" ("name:" +:+ obj) w0 ∧
        ready (cfg_now w) w w0.
Proof. apply resolve_run. Qed.

(** A name-addressed entry whose remote object is gone: once the entry is
    stale (or its meta file is unreadable), a head request that finds nothing or
    fails makes the resolution return [None], remove the data and the meta file
    (when no call fails), and change nothing else. *)
Theorem resolve_name_gone obj w b fh o r1 :
  plain_key ("name:" +:+ obj) = true → CACHE_ENABLED (cfg_now w) = true → w_faults w = [] → w_fs w !! name_path w obj = Some b →
  match name_meta w obj with Some m => is_fresh w m = false | None => True end →
  head_object = Some fh → fh obj (w_remote w) = (o, r1) →
  match o with Ret h => h = None | Raise e => is_exception e = true end →
  ∃ w', resolve_or_download obj "" w = (Ret None, w') ∧
    w_fs w' = delete (_meta_path (CACHE_ROOT (cfg_now w)) ("name:" +:+ obj))
                (delete (name_path w obj) (w_fs w)).
Proof.
  intros Hpl He Hnf Hdp Hst Hhd Hfh Ho. destruct (entry_plain (cfg_now w) _ Hpl) as [Hsd Hsm].
  destruct (resolve_name_run obj w He (or_intror Hnf)) as (w0 & -> & Hc & Hfs & Hck & Hdel & Hr & _ & Hfl).
  unfold name_path, name_meta in *. rewrite <-Hfs in *.
  destruct (locked_name_stale obj (cfg_now w) w0 b Hpl Hc Hdp) as (w1 & Hc1 & Hfs1 & Hr1 & Hf1 & ->).
  { intros m Hm. rewrite Hm in Hst. unfold is_fresh in *. by rewrite Hck, Hdel. }
  assert (_head_or_none obj w1 = (Ret None, set_remote r1 w1)) as Hhead.
  { unfold _head_or_none, try_except, remote_call. rewrite Hhd, Hr1, Hr, Hfh.
    destruct o as [h|e]; [by subst h|]. by rewrite Ho. }
  rewrite (run_ret _ _ _ _ _ Hhead). unfold remote_gone. rewrite run_exists by done. simpl.
  rewrite Hfs1, bool_decide_true by (rewrite Hdp; eauto). unfold when, _remove_entry.
  set (dp := _data_path _ _) in *. set (mp := _meta_path _ _) in *.
  set (c := cfg_now w) in *. set (w2 := set_remote r1 w1).
  destruct (unlink_run dp w2 Hsd) as (w3 & Hu & Hfs3 & Hc3 & Hf3); [unfold w2; simpl; rewrite Hf1; by apply Hfl|].
  destruct (unlink_run mp w3 Hsm Hf3) as (w4 & Hu4 & Hfs4 & Hc4 & _). exists w4. split.
  - erewrite run_ret; [reflexivity|]. rewrite (run_cfg_Some _ c) by done. fold dp mp.
    by rewrite (run_ret _ _ _ _ _ Hu).
  - rewrite Hfs4, Hfs3. unfold w2. simpl. by rewrite Hfs1.
Qed.

(** A name-addressed entry that is still valid: validated less than 60 s ago
    it is returned without any remote access; otherwise one head request with the
    stored etag suffices, and nothing is downloaded.  Both keep the content. *)
Theorem resolve_name_hit obj w b m fh etag r1 :
  plain_key ("name:" +:+ obj) = true → CACHE_ENABLED (cfg_now w) = true → root_ready w → w_fs w !! name_path w obj = Some b →
  name_meta w obj = Some m →
  (is_fresh w m = false → head_object = Some fh ∧ fh obj (w_remote w) = (Ret (Some etag), r1) ∧
                          m_etag m = Some (default "" etag)) →
  ∃ w', resolve_or_download obj "" w = (Ret (Some (name_path w obj)), w') ∧
    w_remote w' = (if is_fresh w m then w_remote w else r1) ∧
    w_fs w' !! name_path w obj = Some b.
Proof.
  intros Hpl He Hrt Hdp Hm Hst. destruct (entry_plain (cfg_now w) _ Hpl) as [Hsd Hsm].
  destruct (resolve_name_run obj w He Hrt) as (w0 & -> & Hc & Hfs & Hck & Hdel & Hr & _).
  unfold name_path, name_meta in *. rewrite <-Hfs in *.
  assert (is_fresh w0 m = is_fresh w m) as Hfr by (unfold is_fresh; by rewrite Hck, Hdel).
  set (c := cfg_now w) in *. set (dp := _data_path (CACHE_ROOT c) _) in *. set (mp := _meta_path (CACHE_ROOT c) _) in *.
  assert (∀ w1 w2, frame (near mp) w1 w2 → w_fs w1 = w_fs w0 → w_fs w2 !! dp = Some b) as Hkeep.
  { intros w1 w2 (_ & _ & _ & Hf & _) Hw1. rewrite Hf, Hw1; [done|].
    intros [Hq|[n Hq]]; [by eapply meta_path_ne_data_path|by eapply temp_meta_ne_data_path]. }
  destruct (is_fresh w m) eqn:Hfresh.
  - unfold _resolve_or_download_locked. rewrite (run_cfg_Some _ c), run_exists by done. cbn [str_truthy andb].
    destruct (name_fresh_run dp mp w0 b Hsd Hsm Hdp) as (w1 & Hr1 & H1 & H2 & H3 & _).
    fold dp mp. rewrite (run_ret _ _ _ _ _ Hr1), Hm, Hfr.
    destruct (total_touch_meta c mp Hsm w1) as ([] & w' & Ht & Hf); [congruence|].
    exists w'. rewrite (run_ret _ _ _ _ _ Ht). split_and!; [done| |by eapply Hkeep].
    destruct Hf as (_ & Hf & _). congruence.
  - destruct Hst as (Hhd & Hfh & Het); [done|].
    destruct (locked_name_stale obj c w0 b Hpl Hc Hdp) as (w1 & Hc1 & Hfs1 & Hr1 & _ & ->).
    { intros m'. fold mp. rewrite Hm. by intros [= <-]. }
    assert (_head_or_none obj w1 = (Ret (Some etag), set_remote r1 w1)) as Hhead.
    { unfold _head_or_none, try_except, remote_call. by rewrite Hhd, Hr1, Hr, Hfh. }
    rewrite (run_ret _ _ _ _ _ Hhead). set (w2 := set_remote r1 w1).
    destruct (etag_hit_run c (default "" etag) ("name:" +:+ obj) dp mp w2 b m) as (w' & Ht & Hf);
      [done|done|done|by unfold w2; simpl; rewrite Hfs1|by unfold w2; simpl; rewrite Hfs1|done|].
    exists w'. fold dp mp. rewrite (run_ret _ _ _ _ _ Ht). split_and!; [done| |by eapply Hkeep].
    by destruct Hf as (_ & -> & _).
Qed.
End theorems.
