(* ===== verification/FileCachePolicy.v ===== *)
(** The LRU eviction and the TTL purge of the file cache: which entries they
    remove, in which order and when they stop, what becomes of the recorded total,
    the entries they cannot reach, and what failed writes and removals leave. *)
From S2P Require Import Prelude PyFloat PyText PyStr JudgeConfig FileCache FileCacheProofs FileCacheSpec.
Open Scope Z_scope.

#[export] Instance stat_le_trans : Transitive stat_le.
Proof. intros a b c. unfold stat_le. lia. Qed.
#[export] Instance stat_le_total : Total stat_le.
Proof. intros a b. unfold stat_le. lia. Qed.

Section policy.
Context {R : Type} `{!Storage R, !CacheEnv, !CacheEnvLaws}.
Implicit Types (w : CW R) (fs : gmap (list string) (list Z)) (c : CacheCfg).

(** ** The recorded total *)
Definition meta_at (root p : list string) : Prop :=
  take (length root) p = root ∧ (length root < length p)%nat ∧ endswith META_SUFFIX (path_name p) = true.
#[local] Instance meta_at_dec root p : Decision (meta_at root p).
Proof. unfold meta_at. apply _. Defined.

Definition meta_size (b : list Z) : Z := match meta_loads b with Some m => default 0 (m_size_bytes m) | None => 0 end.
(** What a file adds to the total. *)
Definition file_size root p b : Z := if decide (meta_at root p) then meta_size b else 0.
Definition sum (l : list Z) : Z := foldr Z.add 0 l.

#[local] Instance sum_perm : Proper (Permutation ==> eq) sum.
Proof. intros l k Hp. unfold sum. induction Hp; simpl; lia. Qed.

Lemma elem_of_rglob root fs p : p ∈ rglob_meta root fs ↔ is_Some (fs !! p) ∧ meta_at root p.
Proof.
  unfold rglob_meta. rewrite rglob_order_perm, list_elem_of_fmap. split.
  - intros ([q b] & -> & [Hm Hq%elem_of_map_to_list]%list_elem_of_filter). eauto.
  - intros [[b Hb] Hm]. exists (p, b). split; [done|]. apply list_elem_of_filter. by rewrite elem_of_map_to_list.
Qed.
Lemma NoDup_rglob root fs : NoDup (rglob_meta root fs).
Proof.
  unfold rglob_meta. rewrite rglob_order_perm. eapply sublist_NoDup; [apply (NoDup_fst_map_to_list fs)|].
  apply (fmap_sublist fst), sublist_filter.
Qed.

Lemma total_size_sum root fs :
  total_size root fs = sum (map (λ kv, file_size root kv.1 kv.2) (map_to_list fs)).
Proof.
  set (g p := match fs !! p ≫= meta_loads with Some m => default 0 (m_size_bytes m) | None => 0 end).
  assert (∀ l t, foldl (λ t p, match fs !! p ≫= meta_loads with Some m => t + default 0 (m_size_bytes m) | None => t end) t l
            = t + sum (map g l)) as Hfold.
  { intros l. induction l as [|p l IH]; intros t; simpl; [lia|]. rewrite IH. unfold g at 2.
    destruct (fs !! p ≫= meta_loads); simpl; lia. }
  unfold total_size. rewrite Hfold. unfold rglob_meta. rewrite rglob_order_perm.
  assert (Forall (λ kv, fs !! kv.1 = Some kv.2) (map_to_list fs)) as Hall.
  { apply Forall_forall. intros [p b] Hp%elem_of_map_to_list. done. }
  induction Hall as [|[p b] l Hp Hl IH]; simpl; [done|]. rewrite filter_cons. simpl in Hp. unfold file_size at 1.
  case_decide as Hm; simpl.
  - rewrite decide_True by exact Hm. unfold g at 1, meta_size. rewrite Hp. simpl.
    destruct (meta_loads b); simpl in *; lia.
  - rewrite decide_False by exact Hm. done.
Qed.

Lemma total_size_delete root fs p b :
  fs !! p = Some b → total_size root (delete p fs) = total_size root fs - file_size root p b.
Proof.
  intros Hp. rewrite !total_size_sum. rewrite <-(insert_delete_id fs p b) at 2 by done.
  rewrite map_to_list_insert by apply lookup_delete_eq. simpl. lia.
Qed.
Lemma total_size_delete_other root fs p : ¬ meta_at root p → total_size root (delete p fs) = total_size root fs.
Proof.
  intros Hm. destruct (fs !! p) as [b|] eqn:Hp; [|by rewrite delete_id].
  rewrite (total_size_delete root fs p b) by done. unfold file_size. rewrite decide_False by done. lia.
Qed.

(** ** LRU *)

(** Where the scans meet the keys: each meta file found is the one of the key
    recovered from its name, and no data file is taken for a meta file. It is so for
    the digest keys and for the object names without a directory part that do not
    end in [.meta.json]. *)
Definition flat c fs : Prop :=
  ∀ p k, p ∈ rglob_meta (CACHE_ROOT c) fs → _key_from_meta_path p = Some k →
    p = _meta_path (CACHE_ROOT c) k ∧ plain_key k = true ∧ _key_from_meta_path (_data_path (CACHE_ROOT c) k) = None.

Definition remove_files c fs (e : Stat) : gmap (list string) (list Z) :=
  delete (_meta_path (CACHE_ROOT c) (st_key e)) (delete (_data_path (CACHE_ROOT c) (st_key e)) fs).
Definition sizes (l : list Stat) : Z := foldr (λ e, Z.add (st_size e)) 0 l.

Lemma remove_entry_run c key w :
  plain_key key = true → w_cfg w = Some c → w_faults w = [] →
  ∃ w', _remove_entry key w = (Ret (), w') ∧ w_faults w' = [] ∧
    w_fs w' = delete (_meta_path (CACHE_ROOT c) key) (delete (_data_path (CACHE_ROOT c) key) (w_fs w)).
Proof.
  intros [Hsd Hsm]%(entry_plain c) Hc Hnf. unfold _remove_entry. rewrite (run_cfg_Some _ c) by done.
  destruct (unlink_run (_data_path (CACHE_ROOT c) key) w Hsd Hnf) as (w1 & H1 & Hf1 & _ & Hn1).
  destruct (unlink_run (_meta_path (CACHE_ROOT c) key) w1 Hsm Hn1) as (w2 & H2 & Hf2 & _ & Hn2).
  exists w2. rewrite (run_ret _ _ _ _ _ H1). by rewrite H2, Hf2, Hf1.
Qed.

Lemma evict_step_run c need freed e w :
  plain_key (st_key e) = true → w_cfg w = Some c → w_busy w = ∅ → w_faults w = [] →
  ∃ w', w_cfg w' = Some c ∧ w_busy w' = ∅ ∧ w_faults w' = [] ∧
    evict_step need freed e w = (Ret (if need <=? freed then freed else freed + st_size e), w') ∧
    w_fs w' = (if need <=? freed then w_fs w else remove_files c (w_fs w) e).
Proof.
  intros Hpl Hc Hb Hnf. destruct (total_evict_step c need freed e w Hc) as (r & w' & Hr & Hf).
  exists w'. pose proof (frame_faults _ _ _ Hf Hnf) as Hnf'.
  destruct Hf as (Hc' & _ & Hb' & _). do 2 (split; [congruence|]). split; [done|].
  revert Hr. unfold evict_step. destruct (need <=? freed).
  { intros [= <- <-]. done. }
  unfold _try_key_lock. destruct (key_lock_run (st_key e) w) as (i & l & Hl).
  rewrite (run_ret _ _ _ _ _ Hl). erewrite run_ret by reflexivity.
  rewrite bool_decide_true by (simpl; rewrite Hb; set_solver).
  destruct (remove_entry_run c (st_key e) (set_locks l w) Hpl Hc Hnf) as (w2 & Hr2 & _ & Hf2).
  rewrite (run_ret _ _ _ _ _ Hr2). intros [= <- <-]. done.
Qed.

(** The loop evicts a prefix: it stops at the first point where enough is freed. *)
Lemma evict_loop c need l freed w :
  Forall (λ e, plain_key (st_key e) = true) l → w_cfg w = Some c → w_busy w = ∅ → w_faults w = [] →
  ∃ k r w', foreach l freed (evict_step need) w = (Ret r, w') ∧
    w_fs w' = foldl (remove_files c) (w_fs w) (take k l) ∧
    (∀ j, (j < k)%nat → freed + sizes (take j l) < need) ∧
    (k = length l ∨ need ≤ freed + sizes (take k l)).
Proof.
  intros Hl. revert freed w. induction Hl as [|e l He Hl IH]; intros freed w Hc Hb Hnf; simpl.
  { exists 0%nat, freed, w. split_and!; [done|done|lia|by left]. }
  destruct (evict_step_run c need freed e w He Hc Hb Hnf) as (w1 & Hc1 & Hb1 & Hn1 & Hr & Hf1).
  rewrite (run_ret _ _ _ _ _ Hr). destruct (Z.leb_spec need freed) as [Hle|Hlt].
  - destruct (IH freed w1 Hc1 Hb1 Hn1) as (k & r & w' & -> & Hfs & Hmin & _).
    assert (k = 0%nat) as ->.
    { destruct k; [done|]. specialize (Hmin 0%nat ltac:(lia)). rewrite take_0 in Hmin. simpl in Hmin. lia. }
    exists 0%nat, r, w'. rewrite take_0 in *. simpl in *. split_and!; [done|congruence|lia|right; lia].
  - destruct (IH (freed + st_size e) w1 Hc1 Hb1 Hn1) as (k & r & w' & -> & Hfs & Hmin & Hend).
    exists (S k), r, w'. simpl. split_and!; [done|by rewrite Hfs, Hf1| |].
    + intros [|j] Hj; simpl; [lia|]. specialize (Hmin j ltac:(lia)). lia.
    + destruct Hend as [->|Hend]; [by left|right; lia].
Qed.

(** *** What the rounds remove *)

(** A scanned entry: its meta file is there, with the recorded size. *)
Definition recorded c fs (e : Stat) : Prop :=
  plain_key (st_key e) = true ∧ ¬ meta_at (CACHE_ROOT c) (_data_path (CACHE_ROOT c) (st_key e)) ∧
  meta_at (CACHE_ROOT c) (_meta_path (CACHE_ROOT c) (st_key e)) ∧
  _key_from_meta_path (_meta_path (CACHE_ROOT c) (st_key e)) = Some (st_key e) ∧
  ∃ b, fs !! _meta_path (CACHE_ROOT c) (st_key e) = Some b ∧ st_size e = meta_size b.

Lemma meta_at_key root p : meta_at root p → is_Some (_key_from_meta_path p).
Proof. intros (_ & _ & He). unfold _key_from_meta_path. rewrite He. eauto. Qed.

Lemma scanned_recorded c fs e :
  flat c fs → e ∈ omap (stat_of fs) (rglob_meta (CACHE_ROOT c) fs) → recorded c fs e.
Proof.
  intros Hflat (p & Hp & Hst)%list_elem_of_omap. unfold stat_of in Hst.
  destruct (fs !! p) as [b|] eqn:Hb; [|done]. simpl in Hst.
  destruct (meta_loads b) as [m|] eqn:Hm; [|done]. simpl in Hst.
  destruct (_key_from_meta_path p) as [k|] eqn:Hk; [|done]. simpl in Hst.
  destruct (str_truthy k); [|done]. injection Hst as <-. destruct (Hflat p k Hp Hk) as (-> & Hpl & Hd).
  apply elem_of_rglob in Hp as [_ Hp]. split_and!; simpl; [done| |done|done|].
  - intros [? Hs]%meta_at_key. by rewrite Hd in Hs.
  - exists b. split; [done|]. unfold meta_size. by rewrite Hm.
Qed.

Lemma NoDup_scanned c fs :
  flat c fs → NoDup (map st_key (omap (stat_of fs) (rglob_meta (CACHE_ROOT c) fs))).
Proof.
  intros Hflat. assert (∀ p e, p ∈ rglob_meta (CACHE_ROOT c) fs → stat_of fs p = Some e →
            p = _meta_path (CACHE_ROOT c) (st_key e)) as Hkey.
  { intros p e Hp. unfold stat_of. destruct (fs !! p) as [b|]; [|done]. simpl.
    destruct (meta_loads b); [|done]. simpl. destruct (_key_from_meta_path p) as [k|] eqn:Hk; [|done]. simpl.
    destruct (str_truthy k); [|done]. intros [= <-]. by apply (Hflat p k Hp Hk). }
  pose proof (NoDup_rglob (CACHE_ROOT c) fs) as Hnd. induction Hnd as [|p l Hp Hnd IH]; simpl; [constructor|].
  destruct (stat_of fs p) as [e|] eqn:He; [|apply IH; intros q e' Hq; apply Hkey; by right].
  simpl. constructor; [|apply IH; intros q e' Hq; apply Hkey; by right].
  intros (e' & Hk & (q & Hq & He')%list_elem_of_omap)%list_elem_of_fmap.
  apply Hkey in He; [|by left]. apply Hkey in He'; [|by right]. apply Hp. rewrite He, Hk, <-He'. done.
Qed.

Lemma remove_files_lookup c fs l p :
  foldl (remove_files c) fs l !! p =
    if decide (Exists (λ e, p = _data_path (CACHE_ROOT c) (st_key e) ∨ p = _meta_path (CACHE_ROOT c) (st_key e)) l)
    then None else fs !! p.
Proof.
  revert fs. induction l as [|e l IH]; intros fs; [done|]. cbn [foldl].
  rewrite IH. unfold remove_files. rewrite !lookup_delete.
  destruct (decide (Exists _ l)) as [He|He]; [rewrite decide_True; [done|by right]|].
  destruct (decide (_meta_path (CACHE_ROOT c) (st_key e) = p)) as [Hm|Hm].
  { rewrite decide_True; [done|]. left. auto. }
  destruct (decide (_data_path (CACHE_ROOT c) (st_key e) = p)) as [Hd|Hd].
  { rewrite decide_True; [done|]. left. auto. }
  rewrite decide_False; [done|]. rewrite Exists_cons. naive_solver.
Qed.

Lemma remove_files_total c fs l :
  (∀ e, e ∈ l → recorded c fs e) → NoDup (map st_key l) →
  total_size (CACHE_ROOT c) (foldl (remove_files c) fs l) = total_size (CACHE_ROOT c) fs - sizes l.
Proof.
  revert fs. induction l as [|e l IH]; intros fs Hall Hnd; simpl; [lia|].
  destruct (Hall e) as (Hpl & Hdm & Hmm & Hk & b & Hb & Hsz); [by left|]. simpl in Hnd. apply NoDup_cons in Hnd as [Hni Hnd].
  assert (_meta_path (CACHE_ROOT c) (st_key e) ≠ _data_path (CACHE_ROOT c) (st_key e)) as Hne by (intros Heq; by rewrite <-Heq in Hdm).
  rewrite IH; [|intros e' He'|done].
  - unfold remove_files. rewrite (total_size_delete _ _ _ b) by by rewrite lookup_delete_ne.
    rewrite total_size_delete_other by done. unfold file_size. rewrite decide_True by done. rewrite Hsz. lia.
  - destruct (Hall e') as (Hpl' & Hdm' & Hmm' & Hk' & b' & Hb' & Hsz'); [by right|].
    split_and!; [done..|]. exists b'. split; [|done]. unfold remove_files. rewrite !lookup_delete_ne; [done| |].
    + intros Heq. by rewrite Heq in Hdm.
    + intros Heq. apply Hni, list_elem_of_fmap. exists e'. split; [|done]. rewrite Heq, Hk' in Hk. by injection Hk.
Qed.

Lemma NoDup_victims c now k fs :
  flat c fs → NoDup (map st_key (take k (lru_candidates now (omap (stat_of fs) (rglob_meta (CACHE_ROOT c) fs))))).
Proof.
  intros Hf%NoDup_scanned. eapply sublist_NoDup; [|apply (fmap_sublist st_key), sublist_take].
  unfold lru_candidates. rewrite (Permutation_map st_key (merge_sort_Permutation stat_le _)).
  eapply sublist_NoDup; [exact Hf|]. apply (fmap_sublist st_key), sublist_filter.
Qed.

(** C35. The LRU eviction, when no other thread holds a key lock, no removal
    fails and every meta file is where its key puts it ([flat]): it removes the
    least recently accessed entries first, never one accessed within the grace
    period, exactly as many as it takes for their recorded sizes to reach the
    requested number of bytes (all of them if they do not suffice): of each entry it
    removes, the meta file existed and both files are gone, no other file changes,
    and the recorded total falls by the sizes of these entries. *)
Theorem evict_lru_minimal c need w :
  w_cfg w = Some c → w_busy w = ∅ → w_faults w = [] → flat c (w_fs w) →
  let now := w_clock w + default 0 (head (w_delays w)) in
  let entries := omap (stat_of (w_fs w)) (rglob_meta (CACHE_ROOT c) (w_fs w)) in
  ∃ victims rest w',
    _evict_lru need w = (Ret (), w') ∧
    StronglySorted stat_le (victims ++ rest) ∧
    (∀ e, e ∈ victims ++ rest ↔ e ∈ entries ∧ LRU_GRACE_PERIOD < now - st_last_accessed_at e) ∧
    (∀ e, e ∈ victims → is_Some (w_fs w !! _meta_path (CACHE_ROOT c) (st_key e)) ∧
      w_fs w' !! _meta_path (CACHE_ROOT c) (st_key e) = None ∧
      w_fs w' !! _data_path (CACHE_ROOT c) (st_key e) = None) ∧
    (∀ p, (∀ e, e ∈ victims → ¬ entry_files c (st_key e) p) → w_fs w' !! p = w_fs w !! p) ∧
    total_size (CACHE_ROOT c) (w_fs w') = total_size (CACHE_ROOT c) (w_fs w) - sizes victims ∧
    (∀ j, (j < length victims)%nat → sizes (take j victims) < need) ∧
    (rest = [] ∨ need ≤ sizes victims).
Proof.
  intros Hc Hb Hnf Hflat now entries. set (cands := lru_candidates now entries).
  assert (∀ e, e ∈ cands → recorded c (w_fs w) e) as Hrec.
  { intros e [He _]%elem_of_lru_candidates. by apply scanned_recorded. }
  destruct (evict_loop c need cands 0 (tick w)) as (k & r & w' & Hr & Hfs & Hmin & Hend); [|done..|].
  { apply Forall_forall. intros e He. by apply Hrec. }
  assert (∀ e, e ∈ take k cands → recorded c (w_fs w) e) as Hvic.
  { intros e (i & Hi & _)%elem_of_take. apply Hrec. by eapply list_elem_of_lookup_2. }
  exists (take k cands), (drop k cands), w'. rewrite take_drop. simpl in Hfs. split_and!.
  - unfold _evict_lru, _collect_stats.
    erewrite run_ret; [|rewrite (run_cfg_Some _ c) by done; reflexivity].
    erewrite run_ret; [|reflexivity]. erewrite run_ret; [reflexivity|exact Hr].
  - apply (StronglySorted_merge_sort stat_le).
  - intros e. apply elem_of_lru_candidates.
  - intros e He. destruct (Hvic e He) as (_ & _ & _ & _ & b & Hmb & _). rewrite Hfs, !remove_files_lookup.
    rewrite !decide_True; [by eauto|apply Exists_exists; eauto..].
  - intros p Hp. rewrite Hfs, remove_files_lookup, decide_False; [done|].
    intros (e & He & Hpe)%Exists_exists. apply (Hp e He). destruct (entry_plain c (st_key e)) as [Hsd Hsm]; [by apply Hvic|].
    unfold entry_files. by rewrite !norm_straight.
  - rewrite Hfs. apply remove_files_total; [done|]. by apply NoDup_victims.
  - rewrite length_take. intros j Hj. rewrite take_take, Nat.min_l by lia. apply Hmin. lia.
  - destruct Hend as [-> | Hend]; [left; by rewrite drop_ge|by right].
Qed.

(** A victim whose files are elsewhere (the recovered key lacks the directory part
    of the object name) is counted with its recorded size, and nothing is removed. *)
Theorem nested_victim_counted c need freed e w :
  plain_key (st_key e) = true → w_cfg w = Some c → w_busy w = ∅ → w_faults w = [] → freed < need →
  (∀ p, entry_files c (st_key e) p → w_fs w !! p = None) →
  ∃ w', evict_step need freed e w = (Ret (freed + st_size e), w') ∧ w_fs w' = w_fs w.
Proof.
  intros Hpl Hc Hb Hnf Hlt Hno. destruct (entry_plain c _ Hpl) as [Hsd Hsm].
  destruct (evict_step_run c need freed e w Hpl Hc Hb Hnf) as (w' & _ & _ & _ & Hr & Hf).
  rewrite (proj2 (Z.leb_gt _ _)) in Hr, Hf by done. exists w'. split; [done|]. rewrite Hf. unfold remove_files.
  rewrite !delete_id; [done|..]; [|rewrite delete_id]; apply Hno; unfold entry_files; rewrite !norm_straight by done; auto.
Qed.

(** A removal that fails is counted as if it had succeeded: with both calls of a
    round failing (the files are held open elsewhere, say) the round frees the
    entry's recorded size and no file is gone, so that the eviction can stop before
    it has freed anything. *)
Theorem failed_removal_counted c need freed e m n fl w :
  plain_key (st_key e) = true → w_cfg w = Some c → w_busy w = ∅ → freed < need → w_faults w = Fails m :: Fails n :: fl →
  is_Some (w_fs w !! _data_path (CACHE_ROOT c) (st_key e)) →
  is_Some (w_fs w !! _meta_path (CACHE_ROOT c) (st_key e)) →
  ∃ w', evict_step need freed e w = (Ret (freed + st_size e), w') ∧ w_fs w' = w_fs w.
Proof.
  intros [Hsd Hsm]%(entry_plain c) Hc Hb Hlt Hfl Hd Hm. unfold evict_step. rewrite (proj2 (Z.leb_gt _ _)) by done.
  unfold _try_key_lock. destruct (key_lock_run (st_key e) w) as (i & l & Hl).
  rewrite (run_ret _ _ _ _ _ Hl). erewrite run_ret by reflexivity.
  rewrite bool_decide_true by (simpl; rewrite Hb; set_solver).
  assert (∀ p w1 x fl', straight p = true → is_Some (w_fs w1 !! p) → w_faults w1 = Fails x :: fl' →
            _unlink p w1 = (Ret (), next_fault w1)) as Hu.
  { intros p w1 x fl' Hs Hp Hf. unfold _unlink, try_except. rewrite run_exists, bool_decide_true by done.
    unfold when. rewrite unlink_straight by done. unfold unlink_at, meet_fault, mbind, io_bind. simpl. by rewrite Hf. }
  set (w0 := set_locks l w). assert (_remove_entry (st_key e) w0 = (Ret (), next_fault (next_fault w0))) as Hr.
  { unfold _remove_entry. rewrite (run_cfg_Some _ c) by done.
    rewrite (run_ret _ _ _ _ _ (Hu _ w0 m _ Hsd Hd Hfl)). apply (Hu _ (next_fault w0) n fl); [done|done|].
    simpl. by rewrite Hfl. }
  rewrite (run_ret _ _ _ _ _ Hr). by eexists.
Qed.

(** ** Entries that the scans cannot reach *)

(** Path components never contain a separator. *)
Definition wf_paths fs : Prop := ∀ p b, fs !! p = Some b → Forall (λ s, str_in "/" s = false) p.

Lemma key_from_meta_noslash p k :
  Forall (λ s, str_in "/" s = false) p → _key_from_meta_path p = Some k → str_in "/" k = false.
Proof.
  unfold _key_from_meta_path. intros Hp. destruct (endswith _ _) eqn:He; [|done]. intros [= <-].
  assert (str_in "/" (path_name p) = false) as Hn.
  { unfold path_name. destruct (last p) as [l|] eqn:Hl; [|done]. simpl.
    apply last_Some in Hl as [q ->]. by apply Forall_app in Hp as [_ [Hl _]%Forall_cons]. }
  apply endswith_spec in He as [a Ha]. rewrite Ha in *. change 10%nat with (String.length META_SUFFIX).
  rewrite str_chop_app. rewrite str_in_app in Hn. by apply orb_false_iff in Hn as [].
Qed.

Lemma norm_length p : (length (norm p) ≤ length p)%nat.
Proof.
  induction p as [|x p IH] using rev_ind; [done|]. unfold norm in *. rewrite foldl_app, length_app. simpl.
  destruct (String.eqb x ".."); [|rewrite length_app; simpl; lia].
  destruct (foldl _ [] p) as [|y q _] using rev_ind; simpl in *; [lia|]. rewrite removelast_last.
  rewrite length_app in IH. simpl in IH. lia.
Qed.

(** Below the root, the files of a separator-free key are at depth two at most. *)
Lemma flat_entry_depth c k p :
  str_in "/" k = false → entry_files c k p → (length p ≤ length (CACHE_ROOT c) + 2)%nat.
Proof.
  intros Hk. assert (∀ s, str_in "/" s = false → length (parts s) ≤ 1)%nat as Hone.
  { intros s Hs. destruct (parts_noslash_cases s Hs) as [-> | ->]; simpl; lia. }
  assert (str_in "/" (str_take 2 k) = false) as Ht.
  { unfold str_take, str_in in *. rewrite str_of_chars. rewrite <-(take_drop 2 (str_chars k)) in Hk.
    rewrite existsb_app in Hk. by apply orb_false_iff in Hk as []. }
  intros [-> | ->]; (etrans; [apply norm_length|]); unfold _data_path, _meta_path, path_div; rewrite !length_app.
  - pose proof (Hone _ Hk). pose proof (Hone _ Ht). lia.
  - pose proof (Hone _ Ht). assert (str_in "/" (k +:+ META_SUFFIX) = false) as Hkm.
    { by rewrite str_in_app, Hk. }
    pose proof (Hone _ Hkm). lia.
Qed.

(** A file deeper than that. *)
Definition deep c (p : list string) : Prop := (length (CACHE_ROOT c) + 2 < length p)%nat.

Lemma scan_key_shallow c fs p k :
  wf_paths fs → is_Some (fs !! p) → _key_from_meta_path p = Some k →
  ∀ q, entry_files c k q → ¬ deep c q.
Proof.
  intros Hwf [b Hb] Hk q Hq. unfold deep.
  pose proof (flat_entry_depth c k q (key_from_meta_noslash p k (Hwf p b Hb) Hk) Hq). lia.
Qed.

Lemma total_purge_step c fp now n p :
  (∀ k q, _key_from_meta_path p = Some k → entry_files c k q → fp q) →
  total_in (R:=R) c fp (purge_step c now n p).
Proof.
  intros Hp. unfold purge_step. apply total_bind; [apply total_gets|]. intros fs'.
  destruct (_ ≫= meta_loads); [|apply total_ret]. apply total_if; [|apply total_ret].
  destruct (_key_from_meta_path p) as [k|] eqn:Hk; [|apply total_ret].
  apply total_if; [|apply total_ret]. apply total_try_key_lock. intros b.
  apply total_if; [|apply total_ret]. apply total_bind; [|intros _; apply total_ret].
  eapply total_mono; [|apply total_remove_entry]. intros q. by apply Hp.
Qed.

Lemma evict_lru_cfg need w : _evict_lru need w = _evict_lru need (set_cfg (cfg_now w) w).
Proof.
  unfold _evict_lru, _collect_stats, mbind at 1, io_bind at 1. unfold mbind at 2, io_bind at 2.
  rewrite !run_cfg. done.
Qed.

Lemma nested_deep c key p :
  plain_key key = true → (2 ≤ length (parts key))%nat → parts (str_take 2 key) ≠ [] → entry_files c key p → deep c p.
Proof.
  intros [Hsd Hsm]%(entry_plain c) Hk Ht. assert (1 ≤ length (parts (str_take 2 key)))%nat by (destruct (parts (str_take 2 key)); simpl; [done|lia]).
  unfold deep, entry_files. rewrite !norm_straight by done.
  intros [-> | ->]; unfold _data_path, _meta_path, path_div; rewrite !length_app; [lia|].
  destruct (parts_app key META_SUFFIX) as (init & l & E1 & E2); [done|simpl; lia|].
  rewrite E2, length_app. rewrite E1, length_app in Hk. simpl.
  assert (length (filter (λ p0, p0 ≠ "" ∧ p0 ≠ ".") [l]) ≤ 1)%nat.
  { rewrite filter_cons, filter_nil. case_decide; simpl; lia. }
  lia.
Qed.

(** A file that no meta file of the cache names: the scans leave it, whatever
    fails. *)
Definition unnamed c fs (p : list string) : Prop :=
  ∀ q k, is_Some (fs !! q) → _key_from_meta_path q = Some k → ¬ entry_files c k p.

Lemma purge_keeps w p :
  unnamed (cfg_now w) (w_fs w) p → w_fs (purge_expired w).2 !! p = w_fs w !! p.
Proof.
  intros Hp. set (c := cfg_now w) in *. unfold purge_expired. rewrite run_cfg. fold c.
  destruct (CACHE_ENABLED c); [|done]. simpl.
  destruct (ensure_root_run c (set_cfg c w) eq_refl) as ([u|e] & w1 & He & Hrd & _);
    destruct Hrd as (Hc1 & Hfs1 & _); simpl in Hfs1.
  2: by rewrite (run_raise _ _ _ _ _ He), <-Hfs1.
  rewrite (run_ret _ _ _ _ _ He). erewrite run_ret by reflexivity. erewrite run_ret by reflexivity.
  cbn [w_fs tick]. rewrite Hfs1.
  assert (total_in (R:=R) c (λ q, q ≠ p)
    (foreach (rglob_meta (CACHE_ROOT c) (w_fs w)) 0 (purge_step c (w_clock (tick w1))))) as Ht.
  { apply total_foreach. intros n q [Hq _]%elem_of_rglob. apply total_purge_step.
    intros k q' Hk Hf ->. by apply (Hp q k). }
  destruct (Ht (tick w1) Hc1) as (n & w' & Hr & _ & _ & _ & Hf & _).
  rewrite Hr. simpl. rewrite Hf by tauto. simpl. by rewrite Hfs1.
Qed.

Lemma evict_lru_keeps need w p :
  unnamed (cfg_now w) (w_fs w) p → w_fs (_evict_lru need w).2 !! p = w_fs w !! p.
Proof.
  intros Hp. rewrite evict_lru_cfg. set (c := cfg_now w) in *.
  destruct (evict_lru_run c need (set_cfg c w) eq_refl) as (w' & -> & _ & _ & _ & Hf & _).
  rewrite Hf; [done|]. intros (e & He & _ & Hq). apply list_elem_of_omap in He as (q & _ & Hst).
  unfold stat_of in Hst. cbn [w_fs set_cfg] in Hst. destruct (w_fs w !! q) as [b|] eqn:Hb; [|done]. simpl in Hst.
  destruct (meta_loads b) as [m|]; [|done]. simpl in Hst.
  destruct (_key_from_meta_path q) as [k|] eqn:Hk; [|done]. simpl in Hst.
  destruct (str_truthy k); [|done]. injection Hst as <-. by apply (Hp q k).
Qed.

(** The scans recover a key from the last component of a meta file's path, so
    an entry addressed by an object name with a directory part (the documented
    form of the object keys) is out of their reach: neither the TTL purge nor the
    LRU eviction ever removes its data or its meta file, however old it is. *)
Theorem scans_skip_nested_names object_name need w p :
  plain_key ("name:" +:+ object_name) = true →
  wf_paths (w_fs w) → (2 ≤ length (parts ("name:" +:+ object_name)))%nat →
  entry_files (cfg_now w) (_cache_key "" object_name) p →
  w_fs (purge_expired w).2 !! p = w_fs w !! p ∧ w_fs (_evict_lru need w).2 !! p = w_fs w !! p.
Proof.
  intros Hpl Hwf Hn Hp. assert (deep (cfg_now w) p) as Hdeep by by eapply nested_deep.
  assert (unnamed (cfg_now w) (w_fs w) p) as Hun.
  { intros q k Hq Hk Hf. by eapply scan_key_shallow. }
  split; [by apply purge_keeps|by apply evict_lru_keeps].
Qed.

(** ** A failed store *)

(** A store whose write of the data fails half way, as on a full disk, raises and
    leaves the temporary file behind (the meta files' writer removes its own);
    no meta file names it, so that no purge and no eviction reclaims the space. *)
Theorem failed_store_leaks c key content sha etag obj n fl w :
  plain_key key = true →
  w_cfg w = Some c → w_faults w = Works :: Fails (Some n) :: fl →
  let tmp := temp_of (_data_path (CACHE_ROOT c) key) (w_uuid w) in
  unnamed c (w_fs w) tmp → _key_from_meta_path tmp = None →
  ∃ w', _store key content sha etag obj w = (Raise os_error, w') ∧
    w_fs w' = <[tmp := take n content]> (w_fs w) ∧
    w_fs (purge_expired w').2 !! tmp = Some (take n content) ∧
    ∀ need, w_fs (_evict_lru need w').2 !! tmp = Some (take n content).
Proof.
  intros Hpl Hc Hfl tmp Hun Hnm. destruct (entry_plain c key Hpl) as [Hsd Hsm]. destruct (key_lock_run key w) as (i & l & Hl).
  assert (∃ w', _store key content sha etag obj w = (Raise os_error, w') ∧
            w_fs w' = <[tmp := take n content]> (w_fs w) ∧ w_cfg w' = Some c) as (w' & Hr & Hfs & Hc').
  { eexists. split.
    - unfold _store, store_files. apply run_raise. unfold with_key_lock.
      rewrite (run_ret _ _ _ _ _ Hl), (run_cfg_Some _ c) by done. cbv zeta.
      erewrite run_ret.
      2:{ unfold mkdir, meet_fault, mbind, io_bind. simpl. rewrite Hfl. reflexivity. }
      erewrite run_ret by reflexivity. erewrite run_ret by reflexivity. erewrite run_ret by reflexivity.
      apply run_raise. rewrite write_straight by by apply temp_straight.
      unfold write_at, meet_fault, mbind, io_bind. simpl. rewrite Hfl. reflexivity.
    - by split. }
  exists w'. assert (cfg_now w' = c) as Hcn by (unfold cfg_now; by rewrite Hc').
  assert (unnamed (cfg_now w') (w_fs w') tmp) as Hun'.
  { rewrite Hcn, Hfs. intros q k Hq Hk. destruct (decide (q = tmp)) as [->|Hne]; [congruence|].
    rewrite lookup_insert_ne in Hq by done. by apply (Hun q k). }
  split_and!; [done|done| |intros need].
  - by rewrite purge_keeps, Hfs, lookup_insert_eq.
  - by rewrite evict_lru_keeps, Hfs, lookup_insert_eq.
Qed.
End policy.
