(* ===== verification/FileCacheWitness.v ===== *)
(** Concrete instances of what the file cache takes from outside, and the
    properties of the cache at concrete worlds: a meta codec through [Countable],
    a two-letter digest, the identity listing order, and a remote store that is a
    map from object names to bytes and etag. *)
From stdpp Require Import countable.
From S2P Require Import Prelude PyFloat PyText PyStr JudgeConfig FileCache FileCacheProofs FileCacheSpec FileCachePolicy.
Open Scope Z_scope.

Definition meta_tuple (m : Meta) :=
  (m_etag m, m_sha256 m, m_size_bytes m, m_object_name m, m_cached_at m, m_last_accessed_at m,
   m_last_validated_at m).
Definition tuple_meta (t : option string * option string * option Z * option string * option Z * option Z * option Z) : Meta :=
  let '(a, b, c, d, e, f, g) := t in mkMeta a b c d e f g.

Definition bit_digest (bs : list Z) : string :=
  of_chars (map (λ b, if Z.even b then "0"%char else "1"%char) bs).

Lemma filter_straight p : straight (filter (λ c, c ≠ "..") p) = true.
Proof.
  induction p as [|c p IH]; [done|]. rewrite filter_cons. case_decide as Hc; [|done]. simpl.
  by apply String.eqb_neq in Hc as ->.
Qed.

#[export] Instance example_env : CacheEnv := {|
  meta_dumps m := [Z.pos (encode (meta_tuple m))];
  meta_loads bs := match bs with [Z.pos p] => tuple_meta <$> decode p | _ => None end;
  sha256_hex := bit_digest;
  rglob_order l := l;
  resolve_path := filter (λ c, c ≠ "..");
  resolve_path_straight p := filter_straight p;
  PROJECT_ROOT := ["app"];
  pid_tid := "1.2";
  settings := default_judge_settings;
  gettempdir := ["tmp"];
|}.

#[export] Instance example_env_laws : CacheEnvLaws.
Proof.
  split.
  - intros m. unfold meta_loads, meta_dumps, example_env. rewrite decode_encode. by destruct m.
  - intros bs. unfold sha256_hex, example_env, is_hex, bit_digest. rewrite str_of_chars.
    induction bs as [|b bs IH]; simpl; [done|]. by destruct (Z.even b).
  - done.
Qed.

(** Object names to bytes and etag. *)
Notation store := (gmap string (list Z * string)) (only parsing).
Definition store_download (o : string) (r : store) : outcome (list Z) * store :=
  (match r !! o with Some (bs, _) => Ret bs | None => Raise (OtherError "ClientError" "404") end, r).
Definition store_head (o : string) (r : store) : outcome (option (option string)) * store :=
  (match r !! o with Some (_, e) => Ret (Some (Some e)) | None => Ret None end, r).
#[export] Instance example_storage : Storage store := {|
  download_bytes := Some store_download;
  head_object := Some store_head;
|}.

Definition CW_with_remote (r : store) : CW store := mkCW ∅ 0 [] [] None false ∅ ∅ 0%nat r [].
Definition example_remote : store := {[ "oj/1.in" := ([2; 3], "e1") ]}.
Definition example_cfg : CacheCfg := cache_cfg_of settings.
Definition example_world (fs : gmap (list string) (list Z)) : CW store :=
  mkCW fs (1000 * SECOND) [0; 0; 0; 0] [] (Some example_cfg) true ∅ ∅ 0%nat example_remote [].

(** The same world on a disk that fills up after [k] more calls. *)
Definition full_disk (k n : nat) (w : CW store) : CW store :=
  run_op (OpOther (w_clock w) (w_delays w) (replicate k Works ++ [Fails (Some n)]) (w_busy w) (w_remote w)) w.

Lemma sole_entry_empty k : sole_entry example_cfg k ∅.
Proof. intros p k' [b Hb]. by rewrite lookup_empty in Hb. Qed.
Lemma content_ok_empty root : content_ok root ∅.
Proof. intros h bs _ Hb. by rewrite lookup_empty in Hb. Qed.

(** A world that holds one file per entry of the list. *)
Definition name_entry (obj : string) (bs : list Z) (m : Meta) : gmap (list string) (list Z) :=
  <[_data_path (CACHE_ROOT example_cfg) ("name:" +:+ obj) := bs]>
    {[ _meta_path (CACHE_ROOT example_cfg) ("name:" +:+ obj) := meta_dumps m ]}.
Definition old_meta : Meta :=
  mkMeta (Some "e1") None (Some 1) None (Some 0) (Some 0) (Some 0).

Lemma cache_integrity_witness :
  content_ok (CACHE_ROOT example_cfg) (w_fs (foldl (λ w op, run_op op w) (example_world ∅)
    [OpResolve "oj/1.in" "01"; OpOther 0 [] [Works; Fails (Some 1%nat)] ∅ ∅; OpResolve "oj/1.in" "11"; OpEvict 5; OpPurge; OpInvalidate "oj/1.in" "01"])).
Proof.
  apply (cache_integrity _ (example_world ∅)); [|apply content_ok_empty].
  repeat constructor.
Defined.

(** An object name that goes back up leads to the file of a digest: a resolution
    by such a name overwrites it. *)
Example dotdot_overwrites_digest :
  let w := CW_with_remote {[ "oj/1.in" := ([2; 3], "e1"); "x/../../sh/sha256:01" := ([7; 7], "e2") ]} in
  let w1 := run_op (OpResolve "oj/1.in" "01") w in
  let w2 := run_op (OpResolve "x/../../sh/sha256:01" "") w1 in
  w_fs w1 !! sha_path w1 "01" = Some [2; 3] ∧ w_fs w2 !! sha_path w1 "01" = Some [7; 7] ∧
  sha256_hex [7; 7] = "11".
Proof. by vm_compute. Qed.


Lemma resolve_sha_sound_witness :
  match resolve_or_download "oj/1.in" "01" (example_world ∅) with
  | (Ret (Some p), w') => p = sha_path (example_world ∅) "01" ∧ ∃ bs, w_fs w' !! p = Some bs ∧ sha256_hex bs = "01"
  | (Ret None, w') => w_fs w' = ∅ ∧ (∅ : gmap (list string) (list Z)) !! sha_path (example_world ∅) "01" = None
  | (Raise _, w') => leaves_own "01" example_cfg (example_world ∅) w'
  end ∧
  let w := full_disk 1 1 (example_world ∅) in
  (resolve_or_download "oj/1.in" "01" w).1 = Raise os_error ∧
  leaves_own "01" example_cfg w (resolve_or_download "oj/1.in" "01" w).2.
Proof.
  split; [|intros w].
  - apply (resolve_sha_sound "oj/1.in" "01" (example_world ∅)); [done|done|done|apply content_ok_empty| |apply sole_entry_empty].
    decide_eval.
  - assert ((resolve_or_download "oj/1.in" "01" w).1 = Raise os_error) as Hr by by vm_compute.
    split; [exact Hr|]. pose proof (resolve_sha_sound "oj/1.in" "01" w eq_refl ltac:(done) eq_refl
      (content_ok_empty _) ltac:(decide_eval) (sole_entry_empty _)) as H.
    destruct (resolve_or_download "oj/1.in" "01" w) as [[o|e] w']; [by simpl in Hr|exact H].
Defined.

Lemma resolve_sha_offline_witness :
  let fs : gmap (list string) (list Z) := {[ sha_path (example_world ∅) "01" := [2; 3] ]} in
  ∃ w', resolve_or_download "gone" "01" (example_world fs) = (Ret (Some (sha_path (example_world ∅) "01")), w')
        ∧ w_remote w' = example_remote.
Proof.
  intros fs. destruct (resolve_sha_offline "gone" "01" (example_world fs) [2; 3]) as (w' & H1 & H2 & _);
    [done|done|done|by left|apply lookup_singleton_eq|]. by exists w'.
Defined.

Lemma resolve_sha_download_witness :
  (∃ w', resolve_or_download "oj/1.in" "01" (example_world ∅) = (Ret (Some (sha_path (example_world ∅) "01")), w')
     ∧ w_fs w' !! sha_path (example_world ∅) "01" = Some [2; 3]) ∧
  (∃ w', resolve_or_download "oj/1.in" "11" (example_world ∅) = (Raise (mismatch "oj/1.in" "11" "01"), w')
     ∧ w_fs w' = ∅).
Proof.
  split.
  - destruct (resolve_sha_download "oj/1.in" "01" (example_world ∅) store_head store_download (Some "e1")
      example_remote [2; 3] example_remote) as (w' & _ & H); [done|done|done|done|decide_eval|apply sole_entry_empty|done..|].
    by exists w'.
  - destruct (resolve_sha_download "oj/1.in" "11" (example_world ∅) store_head store_download (Some "e1")
      example_remote [2; 3] example_remote) as (w' & _ & H); [done|done|done|done|decide_eval|apply sole_entry_empty|done..|].
    by exists w'.
Defined.

Lemma resolve_name_gone_witness :
  let w := example_world (name_entry "x" [7] old_meta) in
  ∃ w', resolve_or_download "x" "" w = (Ret None, w') ∧
    w_fs w' = delete (_meta_path (CACHE_ROOT example_cfg) "name:x") (delete (name_path w "x") (w_fs w)).
Proof.
  intros w. apply (resolve_name_gone "x" w [7] store_head (Ret None) example_remote);
    [done|done|done|by apply lookup_insert_eq|by vm_compute|done..].
Defined.

Lemma resolve_name_hit_witness :
  let w := example_world (name_entry "oj/1.in" [2; 3] old_meta) in
  ∃ w', resolve_or_download "oj/1.in" "" w = (Ret (Some (name_path w "oj/1.in")), w') ∧
    w_remote w' = example_remote ∧ w_fs w' !! name_path w "oj/1.in" = Some [2; 3].
Proof.
  intros w. apply (resolve_name_hit "oj/1.in" w [2; 3] old_meta store_head (Some "e1") example_remote);
    [done|done|by left|by apply lookup_insert_eq|by vm_compute|done].
Defined.

(** Two old entries with flat names; the older one goes. *)
Definition older_meta : Meta := mkMeta (Some "e0") None (Some 3) None (Some (-5)) (Some (-5)) (Some (-5)).
Definition two_entries : gmap (list string) (list Z) := name_entry "x" [7] old_meta ∪ name_entry "y" [7; 8; 9] older_meta.

Lemma two_entries_flat : flat example_cfg two_entries.
Proof.
  assert (Forall (λ p, match _key_from_meta_path p with
            | Some k => p = _meta_path (CACHE_ROOT example_cfg) k ∧ plain_key k = true ∧
                        _key_from_meta_path (_data_path (CACHE_ROOT example_cfg) k) = None
            | None => True end) (rglob_meta (CACHE_ROOT example_cfg) two_entries)) as Hall.
  { vm_compute. repeat constructor. }
  intros p k Hp Hk. rewrite Forall_forall in Hall. specialize (Hall p Hp). by rewrite Hk in Hall.
Qed.

Lemma evict_lru_minimal_witness :
  let w := example_world two_entries in
  ∃ (victims rest : list Stat) w', _evict_lru 2 w = (Ret (), w') ∧
    w_fs w' !! name_path w "y" = None ∧ w_fs w' !! name_path w "x" = Some [7] ∧
    total_size (CACHE_ROOT example_cfg) (w_fs w') = total_size (CACHE_ROOT example_cfg) (w_fs w) - sizes victims ∧
    (rest = [] ∨ 2 ≤ sizes victims).
Proof.
  intros w. destruct (evict_lru_minimal example_cfg 2 w) as (v & r & w' & H1 & _ & _ & _ & _ & H2 & _ & H3);
    [done|done|done|apply two_entries_flat|].
  exists v, r, w'. split; [exact H1|]. apply (f_equal snd) in H1. simpl in H1.
  split_and!; [by rewrite <-H1; vm_compute|by rewrite <-H1; vm_compute|exact H2|exact H3].
Defined.

Lemma nested_victim_counted_witness :
  let w := example_world (name_entry "oj/1.in" [2; 3] old_meta) in
  ∃ e, lru_candidates (w_clock w) (omap (stat_of (w_fs w)) (rglob_meta (CACHE_ROOT example_cfg) (w_fs w))) = [e] ∧
  ∃ w', evict_step (R:=store) 1 0 e w = (Ret (0 + st_size e), w') ∧ w_fs w' = w_fs w.
Proof.
  intros w. exists (mkStat "1.in" 1 0). split; [by vm_compute|].
  apply (nested_victim_counted example_cfg); [done|done|done|done|done|].
  intros p [-> | ->]; by vm_compute.
Defined.

Lemma scans_skip_nested_names_witness :
  let w := example_world (name_entry "oj/1.in" [2; 3] old_meta) in
  let p := name_path w "oj/1.in" in
  w_fs (purge_expired w).2 !! p = Some [2; 3] ∧ w_fs (_evict_lru 1 w).2 !! p = Some [2; 3].
Proof.
  intros w p. assert (w_fs w !! p = Some [2; 3]) as Hp by apply lookup_insert_eq. rewrite <-!Hp.
  apply (scans_skip_nested_names "oj/1.in" 1 w p); [done| |vm_compute; lia|by left].
  change (map_Forall (λ p _, Forall (λ s, str_in "/" s = false) p) (w_fs w)). decide_eval.
Defined.

Lemma failed_store_leaks_witness :
  let w := full_disk 1 1 (example_world ∅) in
  ∃ w' tmp, _store (R:=store) "sha256:01" [2; 3] "01" "e1" "oj/1.in" w = (Raise os_error, w') ∧
    w_fs (purge_expired w').2 !! tmp = Some [2].
Proof.
  intros w. destruct (failed_store_leaks example_cfg "sha256:01" [2; 3] "01" "e1" "oj/1.in" 1 [] w)
    as (w' & Hr & _ & Hp & _); [done|done|done|by intros q k [b Hb]|by vm_compute|].
  exists w', (temp_of (_data_path (CACHE_ROOT example_cfg) "sha256:01") (w_uuid w)). by split.
Defined.

Lemma failed_removal_counted_witness :
  let w := run_op (OpOther 0 [] [Fails None; Fails None] ∅ ∅) (example_world (name_entry "x" [7] old_meta)) in
  ∃ w', evict_step (R:=store) 1 0 (mkStat "name:x" 1 0) w = (Ret 1, w') ∧ w_fs w' = w_fs w.
Proof.
  intros w. apply (failed_removal_counted example_cfg 1 0 (mkStat "name:x" 1 0) None None [] w);
    [done|done|done|lia|done| |]; eexists; by vm_compute.
Defined.
