(* ===== verification/CacheLocks.v ===== *)
(** The key locks of the judge file cache under threads:
    app/modules/judge/file_cache.py.

    FileCache runs one operation at a time and is told which keys others hold.
    Here the operations of several threads are interleaved step by step, reduced to
    what they do with locks: the registry [_KEY_LOCKS] with its re-entrant locks, the
    initialisation lock, blocking acquisition ([with _key_lock(key)]), attempts
    ([_try_key_lock]) and releases. What an operation does between two lock calls is
    one step; which path it takes and which keys a scan visits are arbitrary.

    Looking a lock up is one step, since nothing blocks while [_KEY_LOCKS_LOCK] is
    held. *)
From stdpp Require Import relations.
From S2P Require Import Prelude JudgeConfig FileCache.
Open Scope nat_scope.

(** ** Lock programs *)

(** A lock: [_CACHE_INIT_LOCK], or the lock object that the registry holds under
    that number. *)
Notation lock := (option nat) (only parsing).
(** What the code names it by: nothing, or a cache key. *)
Notation name := (option string) (only parsing).

(** The lock calls of a piece of code: [with lock: body], [with _try_key_lock(key)
    as acquired: if acquired: body], and anything else. *)
Inductive cmd :=
| Work
| With (k : name) (body : list cmd)
| Try (k : string) (body : list cmd).

(** How a call of [_resolve_or_download_locked] goes: it returns or raises before it
    stores; the store raises under the inner lock; the store succeeds and the
    eviction after it tries some keys. *)
Inductive ResolveEnd :=
| NoStore
| StoreRaises
| StoreDone (victims : list string).

(** [first]: the thread has found [_CACHE_INITIALIZED] false. *)
Definition ensure_root_script (first : bool) : list cmd :=
  if first then [With None [Work]] else [].
Definition remove_scan (keys : list string) : list cmd := map (λ k, Try k [Work]) keys.
Definition store_script (key : string) (e : ResolveEnd) : list cmd :=
  match e with
  | NoStore => []
  | StoreRaises => [With (Some key) [Work]]
  | StoreDone victims => With (Some key) [Work] :: remove_scan victims
  end.
Definition resolve_script (first : bool) (key : string) (e : ResolveEnd) : list cmd :=
  ensure_root_script first ++ [With (Some key) (Work :: store_script key e)].
Definition invalidate_script (key : string) : list cmd := [With (Some key) [Work]].
Definition purge_script (first : bool) (keys : list string) : list cmd :=
  ensure_root_script first ++ remove_scan keys.

Inductive CacheCall :=
| CallResolve (first : bool) (key : string) (e : ResolveEnd)
| CallInvalidate (key : string)
| CallPurge (first : bool) (keys : list string).

Definition call_script (c : CacheCall) : list cmd :=
  match c with
  | CallResolve f k e => resolve_script f k e
  | CallInvalidate k => invalidate_script k
  | CallPurge f ks => purge_script f ks
  end.

(** ** The machine *)

(** What a thread has still to do. *)
Inductive item :=
| Do (c : cmd)
| Acquire (k : name) (l : lock) (body : list cmd)
| TryAcquire (k : name) (l : lock) (body : list cmd)
| Release (k : name) (l : lock).

Notation Registry := (gmap string nat) (only parsing).
(** The owner of a held lock and how many times it has acquired it. *)
Notation Owners := (gmap (option nat) (nat * nat)) (only parsing).

Record LState := mkLState {
  registry : Registry;
  owners : Owners;
  threads : list (list item) }.

(** [_key_lock]; the initialisation lock is not in the registry. *)
Definition lock_of (k : name) (reg : Registry) : lock * Registry :=
  match k with
  | None => (None, reg)
  | Some key =>
      match reg !! key with
      | Some n => (Some n, reg)
      | None => (Some (size reg), <[key := size reg]> reg)
      end
  end.

(** [RLock.acquire] by thread [i]: [None] is waiting (or, for an attempt, [False]). *)
Definition acquire (i : nat) (l : lock) (own : Owners) : option Owners :=
  match own !! l with
  | None => Some (<[l := (i, 1)]> own)
  | Some (j, n) => if decide (j = i) then Some (<[l := (i, S n)]> own) else None
  end.

(** [RLock.release]: an error for a thread that does not hold it. *)
Definition release (i : nat) (l : lock) (own : Owners) : option Owners :=
  match own !! l with
  | Some (j, n) =>
      if decide (j = i)
      then Some (match n with S (S m) => <[l := (i, S m)]> own | _ => delete l own end)
      else None
  | None => None
  end.

Definition held_body (k : name) (l : lock) (body : list cmd) : list item :=
  map Do body ++ [Release k l].

(** One step of thread [i] at [it]: what it does instead, the registry, the owners. *)
Definition exec (i : nat) (it : item) (reg : Registry) (own : Owners) :
    option (list item * Registry * Owners) :=
  match it with
  | Do Work => Some ([], reg, own)
  | Do (With k b) => let '(l, reg') := lock_of k reg in Some ([Acquire k l b], reg', own)
  | Do (Try k b) => let '(l, reg') := lock_of (Some k) reg in Some ([TryAcquire (Some k) l b], reg', own)
  | Acquire k l b => own' ← acquire i l own; Some (held_body k l b, reg, own')
  | TryAcquire k l b =>
      match acquire i l own with
      | Some own' => Some (held_body k l b, reg, own')
      | None => Some ([], reg, own)
      end
  | Release k l => own' ← release i l own; Some ([], reg, own')
  end.

Inductive lstep (s : LState) : LState → Prop :=
| lstep_thread i it rest its reg own :
    threads s !! i = Some (it :: rest) →
    exec i it (registry s) (owners s) = Some (its, reg, own) →
    lstep s (mkLState reg own (<[i := its ++ rest]> (threads s))).

(** Every thread at the beginning of its call; locks of earlier calls may be in the
    registry. *)
Definition start (reg : Registry) (calls : list CacheCall) : LState :=
  mkLState reg ∅ (map (λ c, map Do (call_script c)) calls).

Definition finished (s : LState) : Prop := Forall (λ t, t = []) (threads s).

(** Thread [i] is inside a [with] block of the key. *)
Definition in_section (s : LState) (i : nat) (key : string) : Prop :=
  ∃ t l, threads s !! i = Some t ∧ Release (Some key) l ∈ t.

(** ** The length of a run *)
Fixpoint cmd_size (c : cmd) : nat :=
  match c with
  | Work => 1
  | With _ b | Try _ b => 3 + sum_list (map cmd_size b)
  end.
Definition item_size (it : item) : nat :=
  match it with
  | Do c => cmd_size c
  | Acquire _ _ b | TryAcquire _ _ b => 2 + sum_list (map cmd_size b)
  | Release _ _ => 1
  end.
Definition state_size (s : LState) : nat := sum_list (map (λ t, sum_list (map item_size t)) (threads s)).

(** ** Politeness: a thread that holds a lock waits for no other one *)
Fixpoint polite (held : list name) (c : cmd) : bool :=
  match c with
  | Work => true
  | With k b => (bool_decide (held = []) || bool_decide (k ∈ held)) && forallb (polite (k :: held)) b
  | Try k b => forallb (polite (Some k :: held)) b
  end.

(** The locks that the rest of a thread releases. *)
Definition held (t : list item) : list name :=
  omap (λ it, match it with Release k _ => Some k | _ => None end) t.
Definition holds (l : lock) (t : list item) : nat :=
  sum_list (map (λ it, match it with Release _ l' => if decide (l' = l) then 1 else 0 | _ => 0 end) t).

Definition may_wait (k : name) (h : list name) : Prop := h = [] ∨ k ∈ h.
Fixpoint polite_thread (t : list item) : Prop :=
  match t with
  | [] => True
  | it :: rest =>
      match it with
      | Do c => polite (held rest) c = true
      | Acquire k _ b => may_wait k (held rest) ∧ forallb (polite (k :: held rest)) b = true
      | TryAcquire k _ b => forallb (polite (k :: held rest)) b = true
      | Release _ _ => True
      end ∧ polite_thread rest
  end.

(** ** The invariant *)
Definition reg_wf (reg : Registry) : Prop :=
  (∀ k n, reg !! k = Some n → n < size reg) ∧
  (∀ k k' n, reg !! k = Some n → reg !! k' = Some n → k = k').

(** The registry's lock of a key never changes. *)
Definition names (reg : Registry) (k : name) (l : lock) : Prop :=
  match k with
  | None => l = None
  | Some key => ∃ n, reg !! key = Some n ∧ l = Some n
  end.
Definition item_ok (reg : Registry) (it : item) : Prop :=
  match it with
  | Do _ => True
  | Acquire k l _ | TryAcquire k l _ | Release k l => names reg k l
  end.

(** How many times the thread has acquired the lock. *)
Definition count (i : nat) (l : lock) (own : Owners) : nat :=
  match own !! l with Some (j, n) => if decide (j = i) then n else 0 | None => 0 end.

(** What a step keeps of one thread: its items name their locks, it will release
    each lock as often as it has acquired it, and it is polite. *)
Definition thread_ok (reg : Registry) (own : Owners) (i : nat) (t : list item) : Prop :=
  Forall (item_ok reg) t ∧ (∀ l, holds l t = count i l own) ∧ polite_thread t.

Record lock_inv (s : LState) : Prop := {
  inv_reg : reg_wf (registry s);
  inv_pos : ∀ l i n, owners s !! l = Some (i, n) → 1 ≤ n ∧ is_Some (threads s !! i);
  inv_threads : ∀ i t, threads s !! i = Some t → thread_ok (registry s) (owners s) i t }.

Lemma names_unique reg k l l' : names reg k l → names reg k l' → l = l'.
Proof. destruct k as [key|]; simpl; [|congruence]. intros (n & Hn & ->) (n' & Hn' & ->). congruence. Qed.

Lemma names_mono reg reg' k l : reg ⊆ reg' → names reg k l → names reg' k l.
Proof.
  intros Hsub. destruct k as [key|]; simpl; [|done]. intros (n & Hn & ->). exists n. split; [|done].
  by eapply lookup_weaken.
Qed.

Lemma item_ok_mono reg reg' it : reg ⊆ reg' → item_ok reg it → item_ok reg' it.
Proof. intros Hsub. destruct it; simpl; [done|by apply names_mono..]. Qed.

Lemma lock_of_spec k reg l reg' :
  reg_wf reg → lock_of k reg = (l, reg') → reg_wf reg' ∧ reg ⊆ reg' ∧ names reg' k l.
Proof.
  intros [Hlt Hinj]. destruct k as [key|]; simpl; [|by intros [= <- <-]].
  destruct (reg !! key) as [n|] eqn:Hk; intros [= <- <-].
  { split_and!; [done|done|]. by exists n. }
  split_and!; [|by apply insert_subseteq|exists (size reg); by rewrite lookup_insert_eq].
  split; [|intros k k' n].
  - intros k n. rewrite map_size_insert_None by done. rewrite lookup_insert_Some.
    intros [[<- <-]|[_ Hn%Hlt]]; lia.
  - rewrite !lookup_insert_Some. intros [[<- <-]|[Hne Hn]] [[<- Heq]|[Hne' Hn']]; try done.
    + apply Hlt in Hn'. lia.
    + apply Hlt in Hn. lia.
    + by eapply Hinj.
Qed.

(** ** Acquiring and releasing *)
Definition owners_pos (own : Owners) : Prop := ∀ l i n, own !! l = Some (i, n) → 1 ≤ n.

Lemma acquire_spec i l own own' :
  acquire i l own = Some own' →
  (∀ j l', count j l' own' = count j l' own + (if decide (l' = l ∧ j = i) then 1 else 0)) ∧
  (∀ l' j n, own' !! l' = Some (j, n) → j = i ∧ 1 ≤ n ∨ own !! l' = Some (j, n)).
Proof.
  unfold acquire. destruct (own !! l) as [[j0 n0]|] eqn:Hl; [destruct (decide (j0 = i)) as [->|]; [|done]|];
    intros [= <-]; (split; [intros j l'; unfold count|intros l' j n]);
    destruct (decide (l' = l)) as [->|Hne];
    rewrite ?lookup_insert_eq, ?(lookup_insert_ne _ _ _ _ (not_eq_sym Hne)), ?Hl;
    repeat case_decide; naive_solver lia.
Qed.

Lemma acquire_free i l own : (∀ j n, own !! l = Some (j, n) → j = i) → is_Some (acquire i l own).
Proof.
  intros Hl. unfold acquire. destruct (own !! l) as [[j n]|]; [|by eexists].
  rewrite decide_True by (by eapply Hl). by eexists.
Qed.

Lemma release_spec i l own own' :
  owners_pos own → release i l own = Some own' →
  (∀ j l', count j l' own = count j l' own' + (if decide (l' = l ∧ j = i) then 1 else 0)) ∧
  (∀ l' j n, own' !! l' = Some (j, n) → j = i ∧ 1 ≤ n ∨ own !! l' = Some (j, n)).
Proof.
  intros Hpos. unfold release. destruct (own !! l) as [[j0 n0]|] eqn:Hl; [|done].
  destruct (decide (j0 = i)) as [->|]; [|done]. pose proof (Hpos _ _ _ Hl) as Hn0.
  intros [= <-]. split; [intros j l'; unfold count|intros l' j n];
    (destruct n0 as [|[|m]]; [lia|..]);
    destruct (decide (l' = l)) as [->|Hne];
    rewrite ?lookup_insert_eq, ?lookup_delete_eq, ?(lookup_insert_ne _ _ _ _ (not_eq_sym Hne)),
      ?(lookup_delete_ne _ _ _ (not_eq_sym Hne)), ?Hl;
    repeat case_decide; naive_solver lia.
Qed.

Lemma release_held i l own : count i l own ≠ 0 → is_Some (release i l own).
Proof.
  unfold count, release. destruct (own !! l) as [[j n]|]; [|done].
  destruct (decide (j = i)) as [->|]; [|done]. intros _. by eexists.
Qed.

(** ** Counting releases *)
Lemma sum_list_app (l k : list nat) : sum_list (l ++ k) = sum_list l + sum_list k.
Proof. induction l as [|x l IH]; simpl; [done|]. rewrite IH. lia. Qed.
Lemma holds_app l t t' : holds l (t ++ t') = holds l t + holds l t'.
Proof. unfold holds. by rewrite map_app, sum_list_app. Qed.
Lemma holds_do l b : holds l (map Do b) = 0.
Proof. induction b as [|c b IH]; [done|]. exact IH. Qed.
Lemma holds_body l k l' b : holds l (held_body k l' b) = if decide (l' = l) then 1 else 0.
Proof. unfold held_body. rewrite holds_app, holds_do. unfold holds. simpl. lia. Qed.
Lemma holds_cons_release l k l' t : holds l (Release k l' :: t) = (if decide (l' = l) then 1 else 0) + holds l t.
Proof. done. Qed.

Lemma held_app t t' : held (t ++ t') = held t ++ held t'.
Proof. apply omap_app. Qed.
Lemma held_do b : held (map Do b) = [].
Proof. induction b as [|c b IH]; [done|]. exact IH. Qed.

(** Holding a lock is having a release of it to come. *)
Lemma elem_of_held k t : k ∈ held t ↔ ∃ l, Release k l ∈ t.
Proof.
  unfold held. rewrite list_elem_of_omap. split.
  - intros ([| | |k' l] & Hin & Heq); try done. injection Heq as ->. by exists l.
  - intros [l Hin]. by exists (Release k l).
Qed.
Lemma release_counted k l t : Release k l ∈ t → holds l t ≠ 0.
Proof.
  intros (t1 & t2 & ->)%list_elem_of_split. rewrite holds_app, holds_cons_release, decide_True by done. lia.
Qed.
Lemma counted_release l t : holds l t ≠ 0 → ∃ k, Release k l ∈ t.
Proof.
  induction t as [|it t IH]; [done|]. unfold holds. simpl. fold (holds l t). intros Hne.
  destruct it as [| | |k l']; try (destruct IH as [k' Hk']; [exact Hne|exists k'; by right]).
  destruct (decide (l' = l)) as [->|]; [exists k; left|]. destruct IH as [k' Hk']; [exact Hne|].
  exists k'. by right.
Qed.

(** The body of a block is polite in the thread that enters it. *)
Lemma polite_body k l b rest :
  forallb (polite (k :: held rest)) b = true → polite_thread rest → polite_thread (held_body k l b ++ rest).
Proof.
  intros Hb Hr. unfold held_body. rewrite <-(assoc_L (++)). simpl.
  induction b as [|c b IH]; simpl in *; [done|]. apply andb_true_iff in Hb as [Hc Hb].
  split; [|by apply IH]. by rewrite held_app, held_do.
Qed.

(** ** Every step keeps the invariant *)

(** What a step of thread [i] does to the rest of the state. *)
Record step_spec (i : nat) (t : list item) (reg : Registry) (own : Owners)
    (t' : list item) (reg' : Registry) (own' : Owners) : Prop := {
  ss_reg : reg_wf reg';
  ss_sub : reg ⊆ reg';
  ss_other : ∀ j l, j ≠ i → count j l own' = count j l own;
  ss_owner : ∀ l j n, own' !! l = Some (j, n) → j = i ∧ 1 ≤ n ∨ own !! l = Some (j, n);
  ss_thread : thread_ok reg' own' i t' }.

Lemma enter_spec i k l b rest reg own own' t :
  reg_wf reg → acquire i l own = Some own' → names reg k l → Forall (item_ok reg) rest →
  (∀ l', holds l' rest = count i l' own) →
  forallb (polite (k :: held rest)) b = true → polite_thread rest →
  step_spec i t reg own (held_body k l b ++ rest) reg own'.
Proof.
  intros Hreg Hacq Hn Hok Hc Hb Hp. destruct (acquire_spec i l own own' Hacq) as [Hcount Hown].
  split; [done|done| |done|split_and!].
  - intros j l' Hj. rewrite Hcount, decide_False by naive_solver. lia.
  - apply Forall_app. split; [|done]. apply Forall_app. split; [|by constructor].
    apply Forall_fmap, Forall_forall. by intros [].
  - intros l'. rewrite holds_app, holds_body, Hcount, Hc. repeat case_decide; naive_solver lia.
  - by apply polite_body.
Qed.

Lemma same_owners i t reg own t' reg' :
  reg_wf reg' → reg ⊆ reg' → thread_ok reg' own i t' → step_spec i t reg own t' reg' own.
Proof. split; auto. Qed.

(** Naming the lock of a block keeps the owners. *)
Lemma lookup_spec i k b rest reg own l reg' (it : item) t :
  reg_wf reg → lock_of k reg = (l, reg') → Forall (item_ok reg) rest →
  (∀ l', holds l' rest = count i l' own) → polite_thread (it :: rest) →
  (it = Acquire k l b ∨ it = TryAcquire k l b) →
  step_spec i t reg own (it :: rest) reg' own.
Proof.
  intros Hreg Hl Hok Hc Hp Hit. destruct (lock_of_spec k reg l reg' Hreg Hl) as (Hreg' & Hsub & Hn).
  apply same_owners; [done..|]. split_and!; [|destruct Hit as [-> | ->]; exact Hc|exact Hp].
  constructor; [by destruct Hit as [-> | ->]|].
  eapply Forall_impl; [exact Hok|]. intros x. by apply item_ok_mono.
Qed.

Lemma exec_spec i it rest reg own its reg' own' :
  reg_wf reg → owners_pos own → thread_ok reg own i (it :: rest) →
  exec i it reg own = Some (its, reg', own') →
  step_spec i (it :: rest) reg own (its ++ rest) reg' own'.
Proof.
  intros Hreg Hpos ([Hit Hok]%Forall_cons & Hc & Hp).
  assert (polite_thread rest) as Hrest by apply Hp.
  destruct it as [[|k b|k b]|k l b|k l b|k l]; simpl in *.
  - intros [= <- <- <-]. by apply same_owners.
  - destruct (lock_of k reg) as [l reg1] eqn:Hl. intros [= <- <- <-].
    eapply (lookup_spec i k b rest); eauto. destruct Hp as [[Hw Hb]%andb_true_iff _]. simpl. split_and!; [|done..].
    apply orb_true_iff in Hw as [Hw|Hw]; apply bool_decide_eq_true in Hw; [by left|by right].
  - destruct (match reg !! k with Some n => _ | None => _ end) as [l reg1] eqn:Hl. intros [= <- <- <-].
    by eapply (lookup_spec i (Some k) b rest); eauto.
  - destruct (acquire i l own) as [own1|] eqn:Hacq; [|done]. intros [= <- <- <-].
    destruct Hp as [[_ Hb] _]. by eapply enter_spec.
  - destruct (acquire i l own) as [own1|] eqn:Hacq; intros [= <- <- <-].
    + destruct Hp as [Hb _]. by eapply enter_spec.
    + by apply same_owners.
  - destruct (release i l own) as [own1|] eqn:Hrel; [|done]. intros [= <- <- <-].
    destruct (release_spec i l own own1 Hpos Hrel) as [Hcount Hown]. split; [done|done| |done|split_and!; [done| |done]].
    + intros j l' Hj. rewrite (Hcount j l'), decide_False by naive_solver. lia.
    + intros l'. specialize (Hc l'). rewrite Hcount in Hc. simpl. rewrite holds_cons_release in Hc.
      repeat case_decide; naive_solver lia.
Qed.

Lemma inv_owners_pos s : lock_inv s → owners_pos (owners s).
Proof. intros Hs l i n Hl. by apply (inv_pos s Hs) in Hl as []. Qed.

Lemma lstep_inv s s' : lock_inv s → lstep s s' → lock_inv s'.
Proof.
  intros Hs [i it rest its reg own Hi He].
  destruct (exec_spec i it rest _ _ _ _ _ (inv_reg s Hs) (inv_owners_pos s Hs) (inv_threads s Hs i _ Hi) He)
    as [Hreg Hsub Hother Hown Hth]. pose proof (lookup_lt_Some _ _ _ Hi) as Hlt. split; simpl; [done| |].
  - intros l j n [[-> Hn]|Hl]%Hown.
    + split; [done|]. rewrite list_lookup_insert_eq by done. by eexists.
    + destruct (inv_pos s Hs l j n Hl) as [Hn [t Ht]]. split; [done|].
      apply lookup_lt_is_Some. rewrite length_insert. by eapply lookup_lt_Some.
  - intros j t. rewrite list_lookup_insert_Some. intros [(<- & <- & _)|[Hne Ht]]; [done|].
    destruct (inv_threads s Hs j t Ht) as (Hok & Hc & Hp). split_and!; [|intros l; by rewrite Hc, Hother|done].
    eapply Forall_impl; [exact Hok|]. intros x. by apply item_ok_mono.
Qed.

Lemma rtc_lstep_inv s s' : lock_inv s → rtc lstep s s' → lock_inv s'.
Proof. intros Hs Hr. induction Hr as [|s1 s2 s3 Hstep _ IH]; [done|]. by apply IH, (lstep_inv s1). Qed.

(** *** The calls of the module start in it *)
Lemma polite_scan h keys : forallb (polite h) (remove_scan keys) = true.
Proof. induction keys; [done|]. done. Qed.

Lemma call_script_polite c : forallb (polite []) (call_script c) = true.
Proof.
  destruct c as [first k e|k|first ks]; [|done|].
  - simpl. unfold resolve_script. rewrite forallb_app. apply andb_true_iff. split; [by destruct first|].
    simpl. rewrite andb_true_r. destruct e as [| |victims]; simpl; rewrite ?bool_decide_true by set_solver; [done..|].
    simpl. apply polite_scan.
  - simpl. unfold purge_script. rewrite forallb_app. apply andb_true_iff. split; [by destruct first|apply polite_scan].
Qed.

Lemma polite_do b : forallb (polite []) b = true → polite_thread (map Do b).
Proof.
  induction b as [|c b IH]; simpl; [done|]. intros [Hc Hb]%andb_true_iff. split; [|by apply IH]. by rewrite held_do.
Qed.

Lemma start_inv reg calls : reg_wf reg → lock_inv (start reg calls).
Proof.
  intros Hreg. split; simpl; [done|by intros l i n|]. intros i t Ht.
  apply list_lookup_fmap_Some in Ht as (c & -> & _). split_and!.
  - apply Forall_fmap, Forall_forall. by intros [].
  - intros l. by rewrite holds_do.
  - apply polite_do, call_script_polite.
Qed.

(** ** Progress *)
Lemma do_step s i it rest :
  threads s !! i = Some (it :: rest) → is_Some (exec i it (registry s) (owners s)) → ∃ s', lstep s s'.
Proof. intros Hi [[[its reg] own] He]. eexists. by eapply lstep_thread. Qed.

Lemma exec_ready i it rest reg own :
  thread_ok reg own i (it :: rest) →
  (∀ k l b, it = Acquire k l b → is_Some (acquire i l own)) → is_Some (exec i it reg own).
Proof.
  intros (_ & Hc & _) Hacq. destruct it as [[|k b|k b]|k l b|k l b|k l]; cbn [exec].
  - by eexists.
  - destruct (lock_of k reg). by eexists.
  - destruct (lock_of (Some k) reg). by eexists.
  - destruct (Hacq k l b eq_refl) as [own' ->]. by eexists.
  - destruct (acquire i l own); by eexists.
  - destruct (release_held i l own) as [own' ->]; [|by eexists].
    rewrite <-Hc, holds_cons_release, decide_True by done. lia.
Qed.

(** A thread that holds a lock never waits: it holds the lock it asks for. *)
Lemma holder_never_waits reg own i k l b rest l0 :
  thread_ok reg own i (Acquire k l b :: rest) → count i l0 own ≠ 0 → is_Some (acquire i l own).
Proof.
  intros ([Hn Hok]%Forall_cons & Hc & ([Hemp|Hin] & _) & _) Hcount; rewrite <-Hc in Hcount.
  - apply counted_release in Hcount as [k0 Hin]. apply list_elem_of_In in Hin.
    destruct Hin as [?|Hin%list_elem_of_In]; [done|].
    assert (k0 ∈ held rest) as Hk by (apply elem_of_held; eauto). rewrite Hemp in Hk. set_solver.
  - apply elem_of_held in Hin as [l' Hin]. pose proof Hin as Hcnt%release_counted.
    rewrite Forall_forall in Hok. apply Hok in Hin. simpl in *.
    rewrite (names_unique reg k l l' Hn Hin) in *. specialize (Hc l'). unfold holds in Hc. simpl in Hc.
    change (holds l' rest = count i l' own) in Hc. rewrite Hc in Hcnt.
    apply acquire_free. intros j n Hl. unfold count in Hcnt. rewrite Hl in Hcnt. by case_decide.
Qed.

Lemma holder_steps s i t l :
  lock_inv s → threads s !! i = Some t → count i l (owners s) ≠ 0 → ∃ s', lstep s s'.
Proof.
  intros Hs Hi Hc. pose proof (inv_threads s Hs i t Hi) as Hok. destruct t as [|it rest].
  { destruct Hok as (_ & Hh & _). by rewrite <-Hh in Hc. }
  eapply do_step; [exact Hi|]. eapply exec_ready; [exact Hok|]. intros k l' b ->.
  by eapply holder_never_waits.
Qed.

(** No deadlock: as long as a thread has something to do, some thread can move. *)
Lemma lock_progress s : lock_inv s → finished s ∨ ∃ s', lstep s s'.
Proof.
  intros Hs. destruct (decide (Forall (λ t, t = []) (threads s))) as [|Hne]; [by left|right].
  apply not_Forall_Exists in Hne; [|apply _]. apply Exists_exists in Hne as (t & Ht & Hne).
  apply list_elem_of_lookup in Ht as [i Hi]. destruct t as [|it rest]; [by destruct Hne|].
  pose proof (inv_threads s Hs i _ Hi) as Hok.
  destruct (exec i it (registry s) (owners s)) as [x|] eqn:He.
  { eapply do_step; [exact Hi|]. rewrite He. by eexists. }
  assert (∃ l j n, owners s !! l = Some (j, n)) as (l & j & n & Hl).
  { destruct (decide (map_Forall (λ _ _, False) (owners s))) as [Hmt|Hex].
    - destruct (exec_ready i it rest _ _ Hok) as [y Hy]; [|by rewrite He in Hy].
      intros k l b ->. apply acquire_free. intros j n Hl. destruct (Hmt l (j, n) Hl).
    - apply map_not_Forall in Hex as (l & [j n] & Hl & _); [|apply _]. eauto. }
  destruct (inv_pos s Hs l j n Hl) as [Hn [t Ht]]. apply (holder_steps s j t l); [done..|].
  unfold count. rewrite Hl, decide_True by done. lia.
Qed.

(** ** Every step is progress *)
Lemma sum_body k l b : sum_list (map item_size (held_body k l b)) = 1 + sum_list (map cmd_size b).
Proof.
  unfold held_body. rewrite map_app, sum_list_app. simpl. rewrite map_map.
  change (map (λ x, item_size (Do x)) b) with (map cmd_size b). lia.
Qed.

Lemma exec_shorter i it reg own its reg' own' :
  exec i it reg own = Some (its, reg', own') → sum_list (map item_size its) < item_size it.
Proof.
  destruct it as [[|k b|k b]|k l b|k l b|k l]; cbn [exec].
  - intros [= <- _ _]. simpl. lia.
  - destruct (lock_of k reg). intros [= <- _ _]. simpl. lia.
  - destruct (lock_of (Some k) reg). intros [= <- _ _]. simpl. lia.
  - destruct (acquire i l own); [|done]. intros [= <- _ _]. rewrite sum_body. simpl. lia.
  - destruct (acquire i l own); intros [= <- _ _]; rewrite ?sum_body; simpl; lia.
  - destruct (release i l own); [|done]. intros [= <- _ _]. simpl. lia.
Qed.

Lemma sum_insert (f : list item → nat) (l : list (list item)) i t t' :
  l !! i = Some t → sum_list (map f (<[i := t']> l)) + f t = sum_list (map f l) + f t'.
Proof.
  revert i. induction l as [|x l IH]; intros [|i]; simpl; [done|done| |].
  - intros [= ->]. lia.
  - intros Hi. specialize (IH i Hi). lia.
Qed.

Lemma lstep_shorter s s' : lstep s s' → state_size s' < state_size s.
Proof.
  intros [i it rest its reg own Hi He]. unfold state_size. simpl.
  pose proof (sum_insert (λ t, sum_list (map item_size t)) _ _ _ (its ++ rest) Hi) as Hsum.
  apply exec_shorter in He. simpl in Hsum. rewrite map_app, sum_list_app in Hsum. lia.
Qed.

Lemma nsteps_bound n s s' : nsteps lstep n s s' → n + state_size s' ≤ state_size s.
Proof. induction 1 as [s|n s1 s2 s3 H1%lstep_shorter _ IH]; lia. Qed.

(** When all threads are done, no lock is held. *)
Lemma finished_free s : lock_inv s → finished s → owners s = ∅.
Proof.
  intros Hs Hf. apply map_empty. intros l. apply eq_None_not_Some. intros [[i n] Hl].
  destruct (inv_pos s Hs l i n Hl) as [Hn [t Ht]]. destruct (inv_threads s Hs i t Ht) as (_ & Hc & _).
  specialize (Hc l). unfold finished in Hf. rewrite Forall_lookup in Hf. rewrite (Hf i t Ht) in Hc.
  unfold count in Hc. rewrite Hl, decide_True in Hc by done. simpl in Hc. unfold holds in Hc. simpl in Hc. lia.
Qed.

(** ** The theorems *)

(** At most one thread is inside the blocks of a key. *)
Lemma sections_exclusive s i j key : lock_inv s → in_section s i key → in_section s j key → i = j.
Proof.
  intros Hs (t & l & Hi & Hin) (t' & l' & Hj & Hin').
  destruct (inv_threads s Hs i t Hi) as (Hok & Hc & _), (inv_threads s Hs j t' Hj) as (Hok' & Hc' & _).
  rewrite Forall_forall in Hok, Hok'. pose proof (Hok _ Hin) as Hn. pose proof (Hok' _ Hin') as Hn'.
  simpl in Hn, Hn'. assert (l' = l) as -> by by eapply (names_unique _ (Some key)).
  apply release_counted in Hin, Hin'. rewrite Hc in Hin. rewrite Hc' in Hin'. unfold count in *.
  destruct (owners s !! l) as [[k n]|]; [|done]. repeat case_decide; congruence.
Qed.

(** C37. Threads that resolve, invalidate and purge cannot deadlock and always finish:
    whatever keys they work on, whichever paths they take and whichever way they are
    interleaved, some thread can move until all have finished; a run has no more
    steps than the calls have lock operations and stretches of work to do; at most one
    thread is between the first acquisition of a key's lock and its last release, also
    while threads fill the registry and enter their own keys again; no thread ever
    releases a lock it does not hold, and in the end every lock is free. *)
Theorem cache_threads_finish reg calls n s :
  reg_wf reg → nsteps lstep n (start reg calls) s →
  n ≤ state_size (start reg calls) ∧
  (finished s ∧ owners s = ∅ ∨ ∃ s', lstep s s') ∧
  (∀ i j key, in_section s i key → in_section s j key → i = j) ∧
  (∀ i k l rest, threads s !! i = Some (Release k l :: rest) → is_Some (release i l (owners s))).
Proof.
  intros Hreg Hr. assert (lock_inv s) as Hs.
  { eapply rtc_lstep_inv; [by apply start_inv|]. apply rtc_nsteps. by exists n. }
  split_and!.
  - apply nsteps_bound in Hr. lia.
  - destruct (lock_progress s Hs) as [Hf|Hstep]; [left|by right]. split; [done|by apply finished_free].
  - intros i j key. by apply sections_exclusive.
  - intros i k l rest Hi. destruct (inv_threads s Hs i _ Hi) as (_ & Hc & _).
    apply release_held. rewrite <-Hc, holds_cons_release, decide_True by done. lia.
Qed.

(** The registry is the one FileCache keeps in its world. *)
Lemma key_lock_registry {R} key (w : CW R) :
  _key_lock key w =
    (Ret (default 0 (fst (lock_of (Some key) (w_locks w)))),
     FileCache.set_locks (snd (lock_of (Some key) (w_locks w))) w).
Proof.
  unfold _key_lock, mbind, io_bind. simpl. destruct (w_locks w !! key) as [n|]; simpl; [by destruct w|done].
Qed.

(** Two threads resolve the same object, the second evicting others meanwhile, and a
    third purges. *)
Definition example_calls : list CacheCall :=
  [CallResolve true "sha256:a" (StoreDone ["sha256:b"; "sha256:a"]);
   CallResolve false "sha256:a" NoStore; CallPurge true ["sha256:a"; "sha256:b"]].

(** Two steps on, the second thread is inside its key and the first waits outside. *)
Definition example_state : LState :=
  mkLState {[ "sha256:a" := 0 ]} {[ Some 0 := (1, 1) ]}
    [map Do (resolve_script true "sha256:a" (StoreDone ["sha256:b"; "sha256:a"]));
     [Do Work; Release (Some "sha256:a") (Some 0)]; map Do (purge_script true ["sha256:a"; "sha256:b"])].

Lemma cache_threads_finish_witness :
  nsteps lstep 2 (start ∅ example_calls) example_state ∧
  in_section example_state 1 "sha256:a" ∧ ¬ in_section example_state 0 "sha256:a" ∧
  2 ≤ state_size (start ∅ example_calls) ∧ ∃ s', lstep example_state s'.
Proof.
  assert (nsteps lstep 2 (start ∅ example_calls) example_state) as Hr.
  { eapply nsteps_l; [by eapply (lstep_thread _ 1)|]. eapply nsteps_l; [by eapply (lstep_thread _ 1)|]. apply nsteps_O. }
  assert (in_section example_state 1 "sha256:a") as H1.
  { eexists _, _. split; [done|]. right. left. }
  assert (reg_wf ∅) as Hreg by (by split).
  destruct (cache_threads_finish ∅ example_calls 2 example_state Hreg Hr) as (Hn & Hp & Hex & _).
  split; [exact Hr|]. split; [exact H1|]. split; [intros H0; by specialize (Hex 0 1 _ H0 H1)|]. split; [exact Hn|].
  destruct Hp as [[Hf _]|Hs]; [|exact Hs]. unfold finished in Hf. apply Forall_cons in Hf as [Hf _]. discriminate Hf.
Defined.
