(* ===== verification/LanguageConfig.v ===== *)
(** Language configuration: app/modules/judge/language_config.py, with
    [shlex.split] of the standard library (POSIX mode, no comments) as the state
    machine it is. *)
From S2P Require Import Prelude PyText PyStr Sandbox Schemas.
Open Scope string_scope.
Open Scope list_scope.

(** ** shlex.split *)
Inductive LexState :=
| LSpace
| LWord
| LQuote (q : ascii)
| LEscape (back : option ascii).   (* [None]: back to the word, [Some q]: to the quotation *)

Definition backslash : ascii := "092"%char.
Definition dquote : ascii := "034"%char.
Definition squote : ascii := "039"%char.

Definition shlex_white (c : ascii) : bool :=
  (Ascii.eqb c " " || Ascii.eqb c "009" || Ascii.eqb c "010" || Ascii.eqb c "013")%char.
Definition is_quote (c : ascii) : bool := Ascii.eqb c dquote || Ascii.eqb c squote.

Definition snoc (t : string) (c : ascii) : string := t +:+ String c "".

(** The token read so far, when there is one. *)
Definition emit (tok : string) (quoted : bool) (rest : outcome (list string)) : outcome (list string) :=
  if str_truthy tok || quoted then toks ← rest; mret (tok :: toks) else rest.

Fixpoint shlex_go (s : string) (st : LexState) (tok : string) (quoted : bool) : outcome (list string) :=
  match s with
  | EmptyString =>
    match st with
    | LQuote _ => Raise (ValueError "No closing quotation")
    | LEscape _ => Raise (ValueError "No escaped character")
    | LSpace | LWord => emit tok quoted (mret [])
    end
  | String c s' =>
    match st with
    | LSpace =>
      if shlex_white c then emit tok quoted (shlex_go s' LSpace "" false)
      else if Ascii.eqb c backslash then shlex_go s' (LEscape None) tok quoted
      else if is_quote c then shlex_go s' (LQuote c) tok quoted
      else shlex_go s' LWord (String c "") quoted
    | LWord =>
      if shlex_white c then emit tok quoted (shlex_go s' LSpace "" false)
      else if is_quote c then shlex_go s' (LQuote c) tok quoted
      else if Ascii.eqb c backslash then shlex_go s' (LEscape None) tok quoted
      else shlex_go s' LWord (snoc tok c) quoted
    | LQuote q =>
      if Ascii.eqb c q then shlex_go s' LWord tok true
      else if Ascii.eqb c backslash && Ascii.eqb q dquote then shlex_go s' (LEscape (Some q)) tok true
      else shlex_go s' (LQuote q) (snoc tok c) true
    | LEscape None => shlex_go s' LWord (snoc tok c) quoted
    | LEscape (Some q) =>
      let tok' := if negb (Ascii.eqb c backslash) && negb (Ascii.eqb c q) then snoc tok backslash else tok in
      shlex_go s' (LQuote q) (snoc tok' c) quoted
    end
  end.

Definition shlex_split (s : string) : outcome (list string) := shlex_go s LSpace "" false.

(** ** The configuration objects of the sandbox, as the worker builds them *)
Record CommandSpec := mkCommand {
  cs_argv : list string;
  cs_env : list string;
  cs_seccomp : string;
  cs_memory_limit_check_only : bool;
  cs_limits : option JudgeLimits;
}.

(** One language: the explicit specification, or a call of one of the two
    constructors of the sandbox. *)
Inductive LanguageSpec :=
| SpecLanguage (id source_filename exe_filename : string) (compile run : CommandSpec)
| CompiledLanguage (id exe_filename : string) (compile_argv run_argv : list string)
    (compile_limits : JudgeLimits)
| ScriptLanguage (id : string) (argv : list string)
| TestlibChecker.

#[export] Instance CommandSpec_eq_dec : EqDecision CommandSpec.
Proof. solve_decision. Defined.
#[export] Instance LanguageSpec_eq_dec : EqDecision LanguageSpec.
Proof. solve_decision. Defined.

(** [LanguagesConfig([spec])] *)
Notation LanguagesConfig := (list LanguageSpec) (only parsing).

(** ** language_config.py *)
Definition key_of (language_key : string) : string := lower (str_strip language_key).

Definition is_go (key : string) : bool := String.eqb key "go" || String.eqb key "golang".

Definition _needs_virt_as (language_key : string) : bool :=
  startswith "java" (key_of language_key) || is_go (key_of language_key).

Definition _default_exe_filename (language_key exe_filename : string) : string :=
  if startswith "java" (key_of language_key) then "Main" else exe_filename.

Definition compile_limits : JudgeLimits :=
  mkLimits 30000 60000 (1024 * 1024 * 1024) 256 (Some (64 * 1024 * 1024)%Z).

Definition java_home : string := "/usr/lib/jvm/java-17-openjdk-amd64".
Definition java_env : list string :=
  ["JAVA_HOME=" +:+ java_home; "LD_LIBRARY_PATH=" +:+ java_home +:+ "/lib"].
Definition go_env : list string :=
  ["GOCACHE=/tmp/go-cache"; "GOPROXY=off"; "GO111MODULE=off"; "HOME=/tmp"].

(** The environments of the compiler and of the program. *)
Definition compile_env (key_l : string) : list string :=
  if is_go key_l then go_env else if startswith "java" key_l then java_env else [].
Definition run_env (key_l : string) : list string :=
  if is_go key_l then [] else if startswith "java" key_l then java_env else [].

Definition build_languages_config (language : LanguageConfigIn) (exe_filename : string) :
    outcome LanguagesConfig :=
  let language_key := lg_key language in
  let compile_cmd := opt_str_or (lg_compile_command language) "" in
  let exe_name := _default_exe_filename language_key exe_filename in
  if str_truthy (str_strip compile_cmd) then
    compile_argv ← shlex_split compile_cmd;
    run_argv ← shlex_split (opt_str_or (lg_run_command language) "{exe}");
    if _needs_virt_as language_key then
      let key_l := key_of language_key in
      mret [SpecLanguage language_key
        (opt_str_or (lg_source_filename language)
           (if startswith "java" key_l then "Main.java" else "main.go"))
        exe_name
        (mkCommand compile_argv (compile_env key_l) "none" true (Some compile_limits))
        (mkCommand run_argv (run_env key_l) "none" true None)]
    else mret [CompiledLanguage language_key exe_name compile_argv run_argv compile_limits]
  else
    run_argv ← shlex_split (opt_str_or (lg_run_command language) "");
    mret [ScriptLanguage language_key run_argv].

(** ** Facts *)

(** A word that the lexer takes as it is. *)
Definition plain_char (c : ascii) : bool :=
  negb (shlex_white c) && negb (is_quote c) && negb (Ascii.eqb c backslash).
Definition plain (w : string) : Prop := w ≠ "" ∧ forallb plain_char (str_chars w) = true.

Lemma snoc_app t c s : snoc t c +:+ s = t +:+ String c s.
Proof. unfold snoc. induction t as [|a t IH]; [done|]. rewrite !str_app_cons. by rewrite IH. Qed.

Lemma snoc_truthy t c : str_truthy (snoc t c) = true.
Proof. by destruct t. Qed.

Lemma shlex_word (w : string) k (tok : string) :
  forallb plain_char (str_chars w) = true →
  shlex_go (w +:+ k) LWord tok false = shlex_go k LWord (tok +:+ w) false.
Proof.
  revert tok. induction w as [|c w IH]; intros tok Hp.
  - by rewrite str_app_nil.
  - simpl in Hp. apply andb_true_iff in Hp as [Hc Hw]. unfold plain_char in Hc.
    rewrite !andb_true_iff, !negb_true_iff in Hc. destruct Hc as [[H1 H2] H3].
    rewrite str_app_cons. cbn [shlex_go]. rewrite H1, H2, H3, IH by done. by rewrite snoc_app.
Qed.

Lemma shlex_word_start (w : string) k :
  plain w → shlex_go (w +:+ k) LSpace "" false = shlex_go k LWord w false.
Proof.
  intros [Hne Hp]. destruct w as [|c w]; [done|]. simpl in Hp. apply andb_true_iff in Hp as [Hc Hw].
  unfold plain_char in Hc. rewrite !andb_true_iff, !negb_true_iff in Hc. destruct Hc as [[H1 H2] H3].
  rewrite str_app_cons. cbn [shlex_go]. rewrite H1, H2, H3, shlex_word by done. done.
Qed.

Lemma shlex_split_words ws :
  Forall plain ws → shlex_split (join " " ws) = Ret ws.
Proof.
  unfold shlex_split. induction 1 as [|w ws Hw Hws IH]; [done|].
  assert (str_truthy w = true) as Ht by by destruct Hw; destruct w.
  destruct ws as [|w2 ws].
  - simpl. rewrite <-(str_app_nil w) at 1. rewrite shlex_word_start by done.
    simpl. unfold emit. by rewrite Ht.
  - change (join " " (w :: w2 :: ws)) with (w +:+ String " " (join " " (w2 :: ws))).
    rewrite shlex_word_start by done. cbn [shlex_go]. rewrite IH. unfold emit. by rewrite Ht.
Qed.

(** Splitting a command line: words without blanks, quotes and backslashes,
    joined by single blanks, come back unchanged (so the argument vectors of the
    configured commands are the ones written down). *)
Theorem shlex_split_join ws (Hws : Forall plain ws) : shlex_split (join " " ws) = Ret ws.
Proof. by apply shlex_split_words. Qed.

Lemma shlex_split_join_witness :
  shlex_split "/usr/bin/g++ -O2 {source} -o {exe}" = Ret ["/usr/bin/g++"; "-O2"; "{source}"; "-o"; "{exe}"].
Proof.
  apply (shlex_split_join ["/usr/bin/g++"; "-O2"; "{source}"; "-o"; "{exe}"]).
  repeat constructor; done.
Defined.
