(* ===== verification/DataLoader.v ===== *)
(** Test data references: app/modules/judge/data_loader.py.

    [DataEnv] is the interface between the loader and what it reads from: the
    storage client, the file cache and the data references of the sandbox.  The
    loader is written against it; [cache_data_env] discharges it with the file
    cache of this development. *)
From S2P Require Import Prelude PyFloat PyText PyStr Sandbox Schemas JudgeConfig FileCache FileCacheProofs.
From S2P Require Import FileCacheSpec.

(** The world [W] of the loader: whether the module variable [_storage] is set,
    [get_storage()], the [get_path] method when the client has one, the cache,
    [Path.exists] and [DataRef.from_path(str(p), compute_hash="always")]. *)
Class DataEnv (W : Type) := {
  storage_ready : W → bool;
  set_storage_ready : W → W;
  get_storage : io W ();
  get_path : option (string → outcome (list string));
  cache_resolve : string → string → io W (option (list string));
  exists_path : list string → io W bool;
  from_path : list string → io W DataRef;
  from_data : text → DataRef;
}.

Section DataLoader.
Context {W : Type} `{!DataEnv W}.

Definition _ensure_storage : io W () :=
  r ← gets storage_ready;
  if (r : bool) then mret () else _ ← get_storage; modify set_storage_ready.

Definition _resolve_file (object_name sha256 : string) : io W (option (list string)) :=
  _ ← _ensure_storage;
  match get_path with
  | Some f =>
    match f object_name with
    | Ret p => mret (Some p)
    | Raise (ValueError _) => mret None
    | Raise e => raise e
    end
  | None => cache_resolve object_name sha256
  end.

(** The branch the two resolvers share: a reference to a file with the expected
    digest, or an exception. *)
Definition resolve_file_ref (missing object_name expected_sha256 : string) : io W DataRef :=
  file_path ← _resolve_file object_name expected_sha256;
  let not_there := raise (RuntimeError (missing +:+ object_name)) in
  match file_path with
  | None => not_there
  | Some p =>
    ex ← exists_path p;
    if (ex : bool) then
      ref ← from_path p;
      if str_truthy expected_sha256 && opt_str_truthy (dr_sha256 ref)
         && negb (bool_decide (dr_sha256 ref = Some expected_sha256))
      then raise (RuntimeError ("测试数据文件 hash 不匹配: " +:+ object_name))
      else mret ref
    else not_there
  end.

Definition resolve_input_ref (test_case : TestCaseData) : io W DataRef :=
  let input_file := opt_str_or (tc_input_file test_case) "" in
  let expected_sha256 := opt_str_or (tc_input_sha256 test_case) "" in
  if str_truthy input_file
  then resolve_file_ref "测试数据输入文件不存在或无法下载: " input_file expected_sha256
  else mret (from_data (default [] (tc_input_inline test_case))).

Definition resolve_output_ref (test_case : TestCaseData) : io W (option DataRef) :=
  let output_file := opt_str_or (tc_output_file test_case) "" in
  let expected_sha256 := opt_str_or (tc_output_sha256 test_case) "" in
  if str_truthy output_file
  then ref ← resolve_file_ref "测试数据输出文件不存在或无法下载: " output_file expected_sha256; mret (Some ref)
  else mret (from_data <$> tc_output_inline test_case).
End DataLoader.

(** ** The file cache as the data environment of a remote storage client *)
Section cache_env.
Context {R : Type} `{!Storage R, !CacheEnv}.

(** [mk_ref p bs]: the reference that [DataRef.from_path] builds for a file. *)
Definition cache_data_env (mk_ref : list string → list Z → DataRef) (mk_data : text → DataRef) :
    DataEnv (CW R) := {|
  storage_ready _ := true;
  set_storage_ready w := w;
  get_storage := mret ();
  get_path := None;
  cache_resolve := resolve_or_download;
  exists_path := path_exists;
  from_path p := o ← gets (λ w : CW R, match place_of (w_dirs w) p with File q => w_fs w !! q | _ => None end);
                 match o with
                 | Some bs => mret (mk_ref p bs)
                 | None => raise (FileNotFoundError "open")
                 end;
  from_data := mk_data;
|}.
End cache_env.

Section cache_data.
Context {R : Type} `{!Storage R, !CacheEnv, !CacheEnvLaws}.
Implicit Types (w : CW R).
Variables (mk_ref : list string → list Z → DataRef) (mk_data : text → DataRef).
(** [DataRef.from_path(p, compute_hash="always")] records the digest of the file. *)
Hypothesis mk_ref_sha : ∀ p bs, dr_sha256 (mk_ref p bs) = Some (sha256_hex bs).

#[local] Existing Instance cache_data_env.
#[local] Instance the_env : DataEnv (CW R) := cache_data_env mk_ref mk_data.

(** A test input addressed by file and digest, loaded through the file cache:
    whatever the remote store serves, the reference the judge gets (if it gets
    one) is the reference of a file that is present and has the expected digest;
    the loader itself never reports a digest mismatch (an error is one of the cache,
    or says that the object is unavailable), and an error leaves the files as they
    were, except files of this entry when a call of the file system failed. *)
Theorem resolve_input_ref_verified tc sha obj w :
  tc_input_file tc = Some obj → obj ≠ "" → tc_input_sha256 tc = Some sha →
  is_hex sha = true → sha ≠ "" → CACHE_ENABLED (cfg_now w) = true →
  content_ok (CACHE_ROOT (cfg_now w)) (w_fs w) →
  Forall (λ d, (d ≤ LRU_GRACE_PERIOD)%Z) (w_delays w) →
  sole_entry (cfg_now w) ("sha256:" +:+ sha) (w_fs w) →
  match resolve_input_ref tc w with
  | (Ret ref, w') => ∃ bs, w_fs w' !! sha_path w sha = Some bs ∧ ref = mk_ref (sha_path w sha) bs
                           ∧ sha256_hex bs = sha
  | (Raise e, w') => leaves_own sha (cfg_now w) w w' ∧
    ((resolve_or_download obj sha w).1 = Raise e ∨
     e = RuntimeError ("测试数据输入文件不存在或无法下载: " +:+ obj))
  end.
Proof.
  intros Hobj Hne Htc Hh Hs He Hok Hd Hsole.
  unfold resolve_input_ref. rewrite Hobj, Htc.
  assert (opt_str_or (Some obj) "" = obj ∧ str_truthy obj = true) as [-> Ht] by by destruct obj.
  rewrite Ht. assert (opt_str_or (Some sha) "" = sha ∧ str_truthy sha = true) as [-> Ht2] by by destruct sha.
  pose proof (resolve_sha_ok obj sha w Hh Hs He Hok Hd Hsole) as Hres.
  unfold resolve_file_ref, _resolve_file, _ensure_storage, mbind, io_bind. cbn.
  destruct (resolve_or_download obj sha w) as [[[p|]|e] w1]; cbn.
  - destruct Hres as (-> & bs & Hp & Hbs). unfold sha_path in *.
    destruct (entry_plain (cfg_now w) _ (plain_sha sha Hh)) as [Hsd _].
    unfold path_exists, place_now, gets, mbind, io_bind. cbn -[place_of]. rewrite place_straight by done.
    cbn -[place_of]. rewrite Hp. cbn -[place_of]. rewrite place_straight, Hp by done. cbn -[place_of].
    rewrite mk_ref_sha, Hbs.
    rewrite bool_decide_true by done. rewrite andb_false_r. by exists bs.
  - destruct Hres. split; [by apply leaves_own_same|by right].
  - split; [done|]. by left.
Qed.
End cache_data.

(** ** Witness: the example world of the cache *)
From S2P Require Import FileCacheWitness.

Definition example_ref (p : list string) (bs : list Z) : DataRef :=
  mkDataRef (Some (join "/" p)) (DBytes bs) (Some (sha256_hex bs)) [].

Lemma resolve_input_ref_verified_witness :
  let tc := mkTestCase 1 None None None None None None (Some "oj/1.in") None (Some "01") None None None None in
  let w := example_world ∅ in
  match resolve_input_ref (DataEnv0 := cache_data_env example_ref (λ t, mkDataRef None (DStr t) None [])) tc w with
  | (Ret ref, w') => ∃ bs, w_fs w' !! sha_path w "01" = Some bs ∧ ref = example_ref (sha_path w "01") bs
                           ∧ sha256_hex bs = "01"
  | (Raise e, w') => leaves_own "01" example_cfg w w' ∧
    ((resolve_or_download "oj/1.in" "01" w).1 = Raise e ∨
     e = RuntimeError ("测试数据输入文件不存在或无法下载: " +:+ "oj/1.in"))
  end.
Proof.
  intros tc w. apply (resolve_input_ref_verified example_ref _ (λ p bs, eq_refl) tc "01" "oj/1.in" w);
    [done|done|done|done|done|done|apply content_ok_empty|decide_eval|apply sole_entry_empty].
Defined.
