(* ===== verification/Runtime.v ===== *)
(** The world of a judge run and the operations of the sandbox.

    The sandbox ([acoj_sandbox]), the operating system and the test data live in
    an external state [E]; the class [SandboxApi] stands for the operations the
    worker calls on them.  Beside it the world keeps the module flags of
    sandbox_config.py and a trace of the resources acquired and released (sandbox
    clients, prepared programs, batch results, file descriptors, directories), so
    that the properties can say that each is released exactly once. *)
From S2P Require Import Prelude PyFloat PyText PyStr Sandbox Schemas JudgeConfig LanguageConfig DataLoader.

Inductive Kind := KClient | KProgram | KBatch | KFd | KDir.
#[export] Instance Kind_eq_dec : EqDecision Kind.
Proof. solve_decision. Defined.
#[export] Instance Kind_countable : Countable Kind.
Proof.
  refine (inj_countable' (λ k, match k with KClient => 0 | KProgram => 1 | KBatch => 2 | KFd => 3 | KDir => 4 end)
    (λ n, match n with 0 => KClient | 1 => KProgram | 2 => KBatch | 3 => KFd | _ => KDir end) _).
  by intros [].
Defined.

Inductive Event :=
| Acquire (k : Kind) (n : nat)
| Release (k : Kind) (n : nat)
| Warning (msg : string).

(** The module variables of sandbox_config.py. *)
Record Flags := mkFlags {
  _capacity_warning_logged : bool;
  _production_warning_logged : bool;
  _metrics_callback_registered : bool;
}.

Record JW (E : Type) := mkJW {
  jw_ext : E;
  jw_flags : Flags;
  jw_trace : list Event;
  jw_next : nat;
}.
Arguments mkJW {E}.
Arguments jw_ext {E}.
Arguments jw_flags {E}.
Arguments jw_trace {E}.
Arguments jw_next {E}.

(** ** Arguments of the sandbox operations *)
Record BindMount := mkBindMount { bm_source : string; bm_target : string; bm_read_only : bool; bm_recursive : bool }.
Record IsolationConfig := mkIsolation {
  iso_enable_namespaces : bool;
  iso_isolate_network : bool;
  iso_isolate_ipc : bool;
  iso_isolate_uts : bool;
  iso_private_mounts : bool;
  iso_rootfs_path : string;
  iso_use_pivot_root : bool;
  iso_bind_workspace : bool;
  iso_bind_mounts : list BindMount;
}.
Record CgroupConfig := mkCgroup {
  cg_enabled : bool;
  cg_version : string;
  cg_base_path : string;
  cg_v1_memory_base_path : string;
  cg_v1_pids_base_path : string;
}.
Record ClientArgs := mkClientArgs {
  ca_languages : list LanguageSpec;
  ca_pool_size : Z;
  ca_borrow_timeout : f64;
  ca_allow_emergency_worker : bool;
  ca_max_queue_wait_seconds : f64;
  ca_request_timeout : f64;
  ca_queue_wait_warn_seconds : f64;
  ca_health_check_timeout : f64;
  ca_compilation_cache_enabled : bool;
}.
Record JudgeCase := mkJudgeCase {
  jc_case_id : string;
  jc_input : DataRef;
  jc_expected_output : option DataRef;
  jc_limits : JudgeLimits;
}.
Record RunCasesArgs := mkRunCases {
  rc_language : string;
  rc_source : string;
  rc_cases : list JudgeCase;
  rc_isolation : IsolationConfig;
  rc_cgroup : CgroupConfig;
  rc_stop_on_first_failure : bool;
  rc_parallelism : Z;
}.
Record PrepareArgs := mkPrepare {
  pa_language : string;
  pa_source : string;
  pa_limits : option JudgeLimits;
  pa_workspace : option nat;          (* the directory, by its handle *)
  pa_testlib_header : bool;           (* extra_files={"testlib.h": ...} *)
}.
Record RunArgs := mkRunArgs { ra_input : DataRef; ra_limits : JudgeLimits }.
Record CheckerArgs := mkCheckerArgs {
  ck_source : string;
  ck_input : DataRef;
  ck_actual_path : string;
  ck_expected_output : DataRef;
  ck_prepared : nat;
}.

(** The input file of an interactive case: a copy, or inline content. *)
Inductive InputContent :=
| FromPath (path : string)
| FromBytes (bs : byte_list)
| FromText (t : text).
(** [program.run_with_paths(...)]: names are relative to the working directory. *)
Record RunPathsArgs := mkRunPaths {
  rp_program : nat;
  rp_stdin : string;
  rp_stdout : string;
  rp_stderr : string;
  rp_limits : JudgeLimits;
  rp_input_file : bool;               (* variables={"input_file": ...} *)
  rp_exit_codes_ok : list Z;
}.
(** The two tasks of the interactive mode. *)
Inductive Who := User | Interactor.
#[export] Instance Who_eq_dec : EqDecision Who.
Proof. solve_decision. Defined.

(** The operations of the sandbox; handles are the numbers the world gives to
    acquired resources.  [sb_files] are the regular files of the host. *)
Class SandboxApi (E : Type) := {
  sb_client : ClientArgs → io E ();
  sb_register_callback : option (io E ());
  sb_cache_configure : string → Z → Z → io E ();
  sb_run_cases : nat → RunCasesArgs → io E BatchResult;
  sb_prepare : nat → PrepareArgs → IsolationConfig → CgroupConfig → io E Program;
  sb_run : nat → RunArgs → IsolationConfig → CgroupConfig → io E RunResult;
  sb_run_checker : nat → CheckerArgs → IsolationConfig → CgroupConfig → io E bool;
  sb_preview : string → io E text;
  sb_testlib_id : string;
  sb_close : Kind → nat → io E ();
  sb_files : E → gmap string byte_list;
}.

(** The host operations and the thread pool of the interactive mode.
    [ix_wait pending timeout] answers the tasks that finish within the timeout,
    with the outcome of their [run_with_paths]. *)
Class InteractApi (E : Type) := {
  ix_mkdtemp : io E ();
  ix_write_input : nat → InputContent → io E ();
  ix_mkfifo : nat → string → io E ();
  ix_open : nat → string → io E ();
  ix_submit : nat → option RunPathsArgs → RunPathsArgs → IsolationConfig → CgroupConfig → io E ();
  ix_wait : list Who → f64 → io E (list (Who * outcome RunResult));
  ix_shutdown : io E ();
  ix_read : nat → string → io E (option byte_list);
}.

(** The configuration of the process. *)
Class JudgeEnv := {
  je_module_configs : gmap string ModuleConfig;
  je_fallback : JudgeSettings;
  je_worker_concurrency : Z;
  je_debug : bool;
}.
Definition cfg_of `{!JudgeEnv} : JudgeSettings := get_judge_settings je_module_configs je_fallback.

Section world.
Context {E : Type}.
Implicit Types w : JW E.

Definition lift_ext {A} (m : io E A) : io (JW E) A :=
  λ w, let '(o, e) := m (jw_ext w) in (o, mkJW e (jw_flags w) (jw_trace w) (jw_next w)).
Definition log (ev : Event) : io (JW E) () :=
  modify (λ w, mkJW (jw_ext w) (jw_flags w) (jw_trace w ++ [ev]) (jw_next w)).
Definition set_flags (f : Flags → Flags) : io (JW E) () :=
  modify (λ w, mkJW (jw_ext w) (f (jw_flags w)) (jw_trace w) (jw_next w)).

(** A call that returns a resource: the handle is new. *)
Definition acquire {A} (k : Kind) (m : io E A) : io (JW E) (nat * A) :=
  a ← lift_ext m;
  n ← gets jw_next;
  _ ← modify (λ w, mkJW (jw_ext w) (jw_flags w) (jw_trace w ++ [Acquire k n]) (S n));
  mret (n, a).

(** A call that releases it. *)
Definition release `{!SandboxApi E} (k : Kind) (n : nat) : io (JW E) () :=
  _ ← log (Release k n);
  lift_ext (sb_close k n).
Definition release_opt `{!SandboxApi E} (k : Kind) (o : option nat) : io (JW E) () :=
  match o with Some n => release k n | None => mret () end.
End world.

(** The data environment of the external state serves the judge run. *)
#[export] Instance jw_data_env {E} `{!DataEnv E} : DataEnv (JW E) := {|
  storage_ready w := storage_ready (jw_ext w);
  set_storage_ready w := mkJW (set_storage_ready (jw_ext w)) (jw_flags w) (jw_trace w) (jw_next w);
  get_storage := lift_ext get_storage;
  get_path := get_path (W:=E);
  cache_resolve o s := lift_ext (cache_resolve o s);
  exists_path p := lift_ext (exists_path p);
  from_path p := lift_ext (from_path p);
  from_data := from_data (W:=E);
|}.

(** ** Who holds what: the ledger of a trace

    [None] when a resource is acquired twice or released when it is not held. *)
Definition ledger_step (held : option (gset (Kind * nat))) (ev : Event) : option (gset (Kind * nat)) :=
  s ← held;
  match ev with
  | Acquire k n => if decide ((k, n) ∈ s) then None else Some ({[(k, n)]} ∪ s)
  | Release k n => if decide ((k, n) ∈ s) then Some (s ∖ {[(k, n)]}) else None
  | Warning _ => Some s
  end.
Definition ledger (t : list Event) : option (gset (Kind * nat)) := foldl ledger_step (Some ∅) t.

Section ledger.
Context {E : Type} `{!SandboxApi E}.
Implicit Types (w : JW E) (s : gset (Kind * nat)).

(** The run holds exactly the resources [s], and the next handle is new. *)
Definition holds s w : Prop := ledger (jw_trace w) = Some s ∧ ∀ k n, (k, n) ∈ s → (n < jw_next w)%nat.

(** [steps s m Q]: from a world that holds [s], the outcome [o] of [m] leaves the
    resources [Q o]. *)
Definition steps {A} s (m : io (JW E) A) (Q : outcome A → gset (Kind * nat) → Prop) : Prop :=
  ∀ w, holds s w → ∃ s', holds s' (m w).2 ∧ Q (m w).1 s'.

Lemma steps_ret {A} s (a : A) Q : Q (Ret a) s → steps s (mret a) Q.
Proof. intros HQ w Hw. by exists s. Qed.
Lemma steps_raise {A} s e (Q : outcome A → _ → Prop) : Q (Raise e) s → steps s (raise e) Q.
Proof. intros HQ w Hw. by exists s. Qed.
Lemma steps_gets {A} s (f : JW E → A) Q : (∀ a, Q (Ret a) s) → steps s (gets f) Q.
Proof. intros HQ w Hw. exists s. split; [done|apply HQ]. Qed.
Lemma steps_lift {A} s (m : io E A) Q : (∀ o, Q o s) → steps s (lift_ext m) Q.
Proof. intros HQ w [H1 H2]. exists s. unfold lift_ext. destruct (m (jw_ext w)) as [o e]. split; [done|apply HQ]. Qed.
Lemma steps_flags s f (Q : outcome () → _ → Prop) : Q (Ret ()) s → steps s (set_flags f) Q.
Proof. intros HQ w Hw. by exists s. Qed.
Lemma steps_warn s msg (Q : outcome () → _ → Prop) : Q (Ret ()) s → steps s (log (Warning msg)) Q.
Proof.
  intros HQ w [H1 H2]. exists s. split; [split|]; simpl; [|done|done].
  unfold ledger in *. rewrite foldl_app, H1. done.
Qed.
Lemma steps_bind {A B} s (m : io (JW E) A) (f : A → io (JW E) B) Q :
  steps s m (λ o s', match o with Ret a => steps s' (f a) Q | Raise e => Q (Raise e) s' end) →
  steps s (m ≫= f) Q.
Proof.
  intros Hm w Hw. destruct (Hm w Hw) as (s1 & H1 & HQ). unfold mbind, io_bind.
  destruct (m w) as [[a|e] w1]; simpl in *; [by apply HQ|by exists s1].
Qed.
Lemma steps_mono {A} s (m : io (JW E) A) (P Q : outcome A → gset (Kind * nat) → Prop) :
  steps s m P → (∀ o s', P o s' → Q o s') → steps s m Q.
Proof. intros Hm HPQ w Hw. destruct (Hm w Hw) as (s' & H1 & H2). eauto. Qed.
Lemma steps_if {A} s (b : bool) (m1 m2 : io (JW E) A) Q :
  steps s m1 Q → steps s m2 Q → steps s (if b then m1 else m2) Q.
Proof. by destruct b. Qed.

Lemma steps_acquire {A} s k (m : io E A) (Q : outcome (nat * A) → _ → Prop) :
  (∀ e, Q (Raise e) s) → (∀ n a, (∀ k', (k', n) ∉ s) → Q (Ret (n, a)) ({[(k, n)]} ∪ s)) →
  steps s (acquire k m) Q.
Proof.
  intros He Ha w [H1 H2]. unfold acquire, lift_ext, mbind, io_bind.
  destruct (m (jw_ext w)) as [[a|e] w1]; simpl; [|exists s; split; [done|apply He]].
  assert (∀ k', (k', jw_next w) ∉ s) as Hnew.
  { intros k' Hin. specialize (H2 k' _ Hin). lia. }
  exists ({[(k, jw_next w)]} ∪ s). split; [split|].
  - simpl. unfold ledger in *. rewrite foldl_app, H1. simpl. by rewrite decide_False.
  - simpl. intros k' n. rewrite elem_of_union, elem_of_singleton. intros [[= -> ->]|Hin]; [lia|].
    specialize (H2 _ _ Hin). lia.
  - by apply Ha.
Qed.

Lemma steps_release s k n (Q : outcome () → _ → Prop) :
  (k, n) ∈ s → (∀ o, Q o (s ∖ {[(k, n)]})) → steps s (release k n) Q.
Proof.
  intros Hin HQ. unfold release. apply steps_bind. intros w [H1 H2].
  exists (s ∖ {[(k, n)]}). split; [split|]; simpl.
  - unfold ledger in *. rewrite foldl_app, H1. simpl. by rewrite decide_True.
  - intros k' n' Hk. apply (H2 k'). set_solver.
  - by apply steps_lift.
Qed.
End ledger.

(** The same for code with local variables [L] that a [finally] clause reads. *)
Section ledger_locals.
Context {E : Type} `{!SandboxApi E} {L : Type}.
Implicit Types (w : JW E) (s : gset (Kind * nat)) (l : L).

Definition stepsL {A} l s (m : io (L * JW E) A) (Q : outcome A → L → gset (Kind * nat) → Prop) : Prop :=
  ∀ w, holds s w → ∃ s', holds s' (m (l, w)).2.2 ∧ Q (m (l, w)).1 (m (l, w)).2.1 s'.

Lemma stepsL_ret {A} l s (a : A) Q : Q (Ret a) l s → stepsL l s (mret a) Q.
Proof. intros HQ w Hw. by exists s. Qed.
Lemma stepsL_raise {A} l s e (Q : outcome A → _ → _ → Prop) : Q (Raise e) l s → stepsL l s (raise e) Q.
Proof. intros HQ w Hw. by exists s. Qed.
Lemma stepsL_get l s (Q : outcome L → _ → _ → Prop) : Q (Ret l) l s → stepsL l s get_locals Q.
Proof. intros HQ w Hw. by exists s. Qed.
Lemma stepsL_set l s f (Q : outcome () → _ → _ → Prop) : Q (Ret ()) (f l) s → stepsL l s (set_locals f) Q.
Proof. intros HQ w Hw. by exists s. Qed.
Lemma stepsL_up {A} l s (m : io (JW E) A) Q :
  steps s m (λ o s', Q o l s') → stepsL l s (up m) Q.
Proof.
  intros Hm w Hw. destruct (Hm w Hw) as (s' & H1 & H2). exists s'. unfold up. simpl.
  by destruct (m w) as [o w'].
Qed.
Lemma stepsL_bind {A B} l s (m : io (L * JW E) A) (f : A → io (L * JW E) B) Q :
  stepsL l s m (λ o l' s', match o with Ret a => stepsL l' s' (f a) Q | Raise e => Q (Raise e) l' s' end) →
  stepsL l s (m ≫= f) Q.
Proof.
  intros Hm w Hw. destruct (Hm w Hw) as (s1 & H1 & HQ). unfold mbind, io_bind.
  destruct (m (l, w)) as [[a|e] [l1 w1]]; simpl in *; [by apply HQ|by exists s1].
Qed.
Lemma stepsL_if {A} l s (b : bool) (m1 m2 : io (L * JW E) A) Q :
  (b = true → stepsL l s m1 Q) → (b = false → stepsL l s m2 Q) → stepsL l s (if b then m1 else m2) Q.
Proof. destruct b; auto. Qed.
Lemma stepsL_mono {A} l s (m : io (L * JW E) A) (P Q : outcome A → L → gset (Kind * nat) → Prop) :
  stepsL l s m P → (∀ o l' s', P o l' s' → Q o l' s') → stepsL l s m Q.
Proof. intros Hm HPQ w Hw. destruct (Hm w Hw) as (s' & H1 & H2). eauto. Qed.
Lemma steps_finally {A} s l (m : io (L * JW E) A) fin Q :
  stepsL l s m (λ o l' s', steps s' (fin l') (λ o2 s2, Q (match o2 with Ret _ => o | Raise e => Raise e end) s2)) →
  steps s (try_finally_locals l m fin) Q.
Proof.
  intros Hm w Hw. destruct (Hm w Hw) as (s1 & H1 & Hf). unfold try_finally_locals.
  destruct (m (l, w)) as [o [l1 w1]]. simpl in *. destruct (Hf w1 H1) as (s2 & H2 & HQ).
  exists s2. destruct (fin l1 w1) as [[[]|e] w2]; done.
Qed.
End ledger_locals.
