(* ===== verification/SandboxConfig.v ===== *)
(** Sandbox clients and isolation: app/modules/judge/sandbox_config.py. *)
From S2P Require Import Prelude PyFloat PyText PyStr Sandbox Schemas JudgeConfig FileCache LanguageConfig.
From S2P Require Import DataLoader Runtime.

Section SandboxConfig.
Context {E : Type} `{!DataEnv E, !SandboxApi E, !JudgeEnv}.

Definition _SYSTEM_BIND_CANDIDATES : list string := ["/usr"; "/etc"; "/proc"].

Definition _system_bind_mounts : io (JW E) (list BindMount) :=
  foreach _SYSTEM_BIND_CANDIDATES [] (λ mounts path,
    ex ← exists_path (parts path);
    mret (if (ex : bool) then mounts ++ [mkBindMount path path (negb (String.eqb path "/proc")) true]
          else mounts)).

Definition build_isolation_config : io (JW E) IsolationConfig :=
  let cfg := cfg_of in
  let enable_ns := sandbox_enable_namespaces cfg in
  bind_mounts ← (if str_truthy (sandbox_rootfs_path cfg) && sandbox_bind_system_paths cfg
                 then _system_bind_mounts else mret []);
  mret (mkIsolation enable_ns
    (if enable_ns then sandbox_isolate_network cfg else false)
    (if enable_ns then sandbox_isolate_ipc cfg else false)
    (if enable_ns then sandbox_isolate_uts cfg else false)
    (if enable_ns then sandbox_private_mounts cfg else false)
    (sandbox_rootfs_path cfg)
    (if enable_ns then sandbox_use_pivot_root cfg else false)
    (sandbox_bind_workspace cfg) bind_mounts).

Definition build_cgroup_config : CgroupConfig :=
  let cfg := cfg_of in
  mkCgroup (sandbox_enable_cgroup cfg) (sandbox_cgroup_version cfg) (sandbox_cgroup_base_path cfg)
    (sandbox_cgroup_v1_memory_base_path cfg) (sandbox_cgroup_v1_pids_base_path cfg).

Definition set_capacity_logged (f : Flags) : Flags :=
  mkFlags true (_production_warning_logged f) (_metrics_callback_registered f).
Definition set_production_logged (f : Flags) : Flags :=
  mkFlags (_capacity_warning_logged f) true (_metrics_callback_registered f).
Definition set_callback_registered (f : Flags) : Flags :=
  mkFlags (_capacity_warning_logged f) (_production_warning_logged f) true.

Definition expected_peak (cfg : JudgeSettings) : Z :=
  (je_worker_concurrency * Z.max 1 (sandbox_standard_parallelism cfg))%Z.

Definition _warn_if_pool_capacity_is_lower_than_parallelism : io (JW E) () :=
  flags ← gets jw_flags;
  if _capacity_warning_logged flags then mret ()
  else
    let cfg := cfg_of in
    when (sandbox_worker_pool_size cfg <? expected_peak cfg)%Z (
      _ ← log (Warning "sandbox worker pool may queue under peak load");
      set_flags set_capacity_logged).

Definition hardening_warnings (cfg : JudgeSettings) : list string :=
  (if negb (sandbox_enable_namespaces cfg) then ["namespaces disabled"] else []) ++
  (if sandbox_enable_namespaces cfg && negb (str_truthy (sandbox_rootfs_path cfg))
   then ["namespaces enabled without rootfs_path"] else []) ++
  (if negb (sandbox_enable_cgroup cfg) then ["cgroup disabled"] else []).

Definition _warn_if_runtime_config_is_not_production_hardened : io (JW E) () :=
  flags ← gets jw_flags;
  if _production_warning_logged flags || je_debug then mret ()
  else
    let warnings := hardening_warnings cfg_of in
    _ ← when (negb (bool_decide (warnings = [])))
          (log (Warning ("sandbox runtime is not production hardened: " +:+ join ", " warnings)));
    set_flags set_production_logged.

Definition _configure_compilation_cache : io (JW E) () :=
  let cfg := cfg_of in
  if negb (sandbox_compilation_cache_enabled cfg) then mret ()
  else try_except
    (lift_ext (sb_cache_configure (sandbox_compilation_cache_dir cfg)
       (sandbox_compilation_cache_max_mb cfg * 1024 * 1024) (sandbox_compilation_cache_ttl_seconds cfg)))
    is_exception (λ _, mret ()).

Definition _register_pool_metrics_callback : io (JW E) () :=
  flags ← gets jw_flags;
  if _metrics_callback_registered flags then mret ()
  else match sb_register_callback with
       | None => mret ()
       | Some register => _ ← lift_ext register; set_flags set_callback_registered
       end.

Definition create_sandbox_client (languages : list LanguageSpec) : io (JW E) nat :=
  let cfg := cfg_of in
  _ ← _warn_if_pool_capacity_is_lower_than_parallelism;
  _ ← _warn_if_runtime_config_is_not_production_hardened;
  _ ← _configure_compilation_cache;
  _ ← _register_pool_metrics_callback;
  client ← acquire KClient (sb_client (mkClientArgs languages (sandbox_worker_pool_size cfg)
    (sandbox_borrow_timeout_seconds cfg) (sandbox_allow_emergency_worker cfg)
    (sandbox_max_queue_wait_seconds cfg) (sandbox_request_timeout_seconds cfg)
    (sandbox_queue_wait_warn_seconds cfg) (sandbox_health_check_timeout_seconds cfg)
    (sandbox_compilation_cache_enabled cfg)));
  mret client.1.

(** ** Resources *)
Implicit Types (s : gset (Kind * nat)).

(** An operation that neither acquires nor releases. *)
Definition neutral {A} (m : io (JW E) A) : Prop := ∀ s, steps s m (λ _ s', s' = s).

Lemma neutral_steps {A} s (m : io (JW E) A) Q : neutral m → (∀ o, Q o s) → steps s m Q.
Proof. intros Hm HQ. eapply steps_mono; [apply Hm|]. by intros o s' ->. Qed.
Lemma neutral_ret {A} (a : A) : neutral (mret a).
Proof. intros s. by apply steps_ret. Qed.
Lemma neutral_raise {A} e : neutral (raise (A:=A) e).
Proof. intros s. by apply steps_raise. Qed.
Lemma neutral_gets {A} (f : JW E → A) : neutral (gets f).
Proof. intros s. by apply steps_gets. Qed.
Lemma neutral_lift {A} (m : io E A) : neutral (lift_ext m).
Proof. intros s. by apply steps_lift. Qed.
Lemma neutral_flags f : neutral (set_flags f).
Proof. intros s. by apply steps_flags. Qed.
Lemma neutral_warn msg : neutral (log (Warning msg)).
Proof. intros s. by apply steps_warn. Qed.
Lemma neutral_bind {A B} (m : io (JW E) A) (f : A → io (JW E) B) :
  neutral m → (∀ a, neutral (f a)) → neutral (m ≫= f).
Proof. intros Hm Hf s. apply steps_bind, neutral_steps; [done|]. intros [a|e]; [apply Hf|done]. Qed.
Lemma neutral_if {A} (b : bool) (m1 m2 : io (JW E) A) : neutral m1 → neutral m2 → neutral (if b then m1 else m2).
Proof. by destruct b. Qed.
Lemma neutral_when b (m : io (JW E) ()) : neutral m → neutral (when b m).
Proof. intros. by apply neutral_if; [|apply neutral_ret]. Qed.
Lemma neutral_try {A} (m : io (JW E) A) handles h : neutral m → (∀ e, neutral (h e)) → neutral (try_except m handles h).
Proof.
  intros Hm Hh s w Hw. destruct (Hm s w Hw) as (s1 & H1 & ->). unfold try_except.
  destruct (m w) as [[a|e] w1]; simpl in *; [by exists s|]. destruct (handles e); [by apply Hh|by exists s].
Qed.
Lemma neutral_foreach {A B} (l : list A) (acc : B) (body : B → A → io (JW E) B) :
  (∀ acc x, neutral (body acc x)) → neutral (foreach l acc body).
Proof.
  intros Hb. revert acc. induction l as [|x l IH]; intros acc; simpl; [apply neutral_ret|].
  by apply neutral_bind.
Qed.
Hint Resolve neutral_ret neutral_raise neutral_gets neutral_lift neutral_flags neutral_warn neutral_bind
  neutral_if neutral_when neutral_try : neutral.

Lemma neutral_isolation : neutral build_isolation_config.
Proof.
  unfold build_isolation_config. apply neutral_bind; [|auto with neutral].
  apply neutral_if; [|auto with neutral]. apply neutral_foreach. intros acc x.
  apply neutral_bind; [apply neutral_lift|auto with neutral].
Qed.

Lemma neutral_setup :
  neutral (_ ← _warn_if_pool_capacity_is_lower_than_parallelism;
           _ ← _warn_if_runtime_config_is_not_production_hardened;
           _ ← _configure_compilation_cache;
           _register_pool_metrics_callback).
Proof.
  unfold _warn_if_pool_capacity_is_lower_than_parallelism, _warn_if_runtime_config_is_not_production_hardened,
    _configure_compilation_cache, _register_pool_metrics_callback.
  repeat (apply neutral_bind; [|intros ?]); auto 10 with neutral.
  destruct sb_register_callback; auto with neutral.
Qed.

(** A client is one new resource; a failed creation leaves none. *)
Lemma create_client_steps s (languages : list LanguageSpec) (Q : outcome nat → gset (Kind * nat) → Prop) :
  (∀ e, Q (Raise e) s) → (∀ n, (∀ k, (k, n) ∉ s) → Q (Ret n) ({[(KClient, n)]} ∪ s)) →
  steps s (create_sandbox_client languages) Q.
Proof.
  intros He Hn. unfold create_sandbox_client.
  pose proof neutral_setup as Hset. intros w Hw. destruct (Hset s w Hw) as (s1 & H1 & ->).
  revert H1. unfold mbind, io_bind.
  destruct (_warn_if_pool_capacity_is_lower_than_parallelism w) as [[[]|e] w1]; simpl; [|by exists s].
  destruct (_warn_if_runtime_config_is_not_production_hardened w1) as [[[]|e] w2]; simpl; [|by exists s].
  destruct (_configure_compilation_cache w2) as [[[]|e] w3]; simpl; [|by exists s].
  destruct (_register_pool_metrics_callback w3) as [[[]|e] w4]; simpl; [|by exists s].
  intros Hw4. eapply (steps_bind s (acquire KClient _) (λ c, mret c.1) Q); [|exact Hw4].
  apply steps_acquire; [done|]. intros n [] Hnew. apply steps_ret. by apply Hn.
Qed.
End SandboxConfig.

#[export] Hint Resolve neutral_ret neutral_raise neutral_gets neutral_lift neutral_flags neutral_warn neutral_bind
  neutral_if neutral_when neutral_try neutral_isolation : neutral.
