(* ===== verification/CaseBuilder.v ===== *)
(** Sandbox cases of a submission: app/modules/judge/case_builder.py. *)
From S2P Require Import Prelude PyFloat PyText PyStr Sandbox Schemas JudgeConfig FileCache LanguageConfig.
From S2P Require Import DataLoader Runtime SandboxConfig.
Open Scope Z_scope.

Definition _DEFAULT_OUTPUT_BYTES : Z := 8 * 1024 * 1024.

Definition build_judge_limits (tc : TestCaseData) (problem : ProblemConfig) : JudgeLimits :=
  let cpu_ms := z_or (tc_time_limit_ms tc) (pb_time_limit_ms problem) in
  let output_bytes := z_or (tc_output_limit_bytes tc)
                        (z_or (pb_output_limit_bytes problem) _DEFAULT_OUTPUT_BYTES) in
  mkLimits cpu_ms (cpu_ms * 3)
    (z_or (tc_memory_limit_kb tc) (pb_memory_limit_kb problem) * 1024) 256 (Some output_bytes).

Section CaseBuilder.
Context {E : Type} `{!DataEnv E, !SandboxApi E, !JudgeEnv}.

Definition build_judge_case (tc : TestCaseData) (problem : ProblemConfig) : io (JW E) JudgeCase :=
  input ← resolve_input_ref tc;
  expected_output ← resolve_output_ref tc;
  mret (mkJudgeCase (str_of_Z (tc_case_no tc)) input expected_output (build_judge_limits tc problem)).

Definition build_judge_cases (test_cases_data : list TestCaseData) (problem : ProblemConfig) :
    io (JW E) (list JudgeCase) :=
  foreach test_cases_data [] (λ cases tc,
    c ← build_judge_case tc problem; mret (cases ++ [c])).

(** ** Facts *)
Lemma neutral_resolve_file_ref missing obj sha : neutral (E:=E) (resolve_file_ref missing obj sha).
Proof.
  unfold resolve_file_ref, _resolve_file, _ensure_storage. apply neutral_bind.
  - apply neutral_bind.
    + apply neutral_bind; [auto with neutral|]. intros [|]; [auto with neutral|].
      apply neutral_bind; [apply neutral_lift|]. intros _ s w Hw. by exists s.
    + intros _. destruct get_path as [f|]; [|apply neutral_lift].
      destruct (f obj) as [p|[]]; auto with neutral.
  - intros [p|]; [|auto with neutral]. apply neutral_bind; [apply neutral_lift|].
    intros [|]; [|auto with neutral]. apply neutral_bind; [apply neutral_lift|]. auto with neutral.
Qed.

Lemma neutral_input tc : neutral (E:=E) (resolve_input_ref tc).
Proof.
  unfold resolve_input_ref. apply neutral_if; [apply neutral_resolve_file_ref|auto with neutral].
Qed.
Lemma neutral_output tc : neutral (E:=E) (resolve_output_ref tc).
Proof.
  unfold resolve_output_ref. apply neutral_if; [|auto with neutral].
  apply neutral_bind; [apply neutral_resolve_file_ref|auto with neutral].
Qed.

Lemma neutral_build_cases tcs problem : neutral (build_judge_cases tcs problem).
Proof.
  apply neutral_foreach. intros acc tc. apply neutral_bind; [|auto with neutral].
  unfold build_judge_case. apply neutral_bind; [apply neutral_input|]. intros i.
  apply neutral_bind; [apply neutral_output|auto with neutral].
Qed.

(** One case per test case, in order, with its number and its limits. *)
Lemma build_judge_cases_shape tcs problem w cases w' :
  build_judge_cases tcs problem w = (Ret cases, w') →
  map jc_case_id cases = map (λ tc, str_of_Z (tc_case_no tc)) tcs ∧
  map jc_limits cases = map (λ tc, build_judge_limits tc problem) tcs.
Proof.
  unfold build_judge_cases.
  enough (∀ (l : list TestCaseData) acc w, foreach l acc (λ cases tc,
      c ← build_judge_case tc problem; mret (cases ++ [c])) w = (Ret cases, w') →
    map jc_case_id cases = map jc_case_id acc ++ map (λ tc, str_of_Z (tc_case_no tc)) l ∧
    map jc_limits cases = map jc_limits acc ++ map (λ tc, build_judge_limits tc problem) l) as Hgen.
  { intros Hr. by apply Hgen in Hr. }
  induction l as [|tc l IH]; intros acc w0; simpl.
  { intros [= <- _]. by rewrite !app_nil_r. }
  destruct (build_judge_case tc problem w0) as [[c|e] w1] eqn:Hc;
    [|by unfold mbind, io_bind; rewrite Hc].
  rewrite (run_ret _ _ _ (acc ++ [c]) w1) by (unfold mbind, io_bind; by rewrite Hc). intros Hr. apply IH in Hr as [H1 H2]. rewrite H1, H2, !map_app, <-!app_assoc. simpl.
  unfold build_judge_case, mbind, io_bind in Hc.
  destruct (resolve_input_ref tc w0) as [[i|] w2]; [|done]. simpl in Hc.
  destruct (resolve_output_ref tc w2) as [[o|] w3]; [|done]. simpl in Hc. by injection Hc as <- <-.
Qed.
End CaseBuilder.

#[export] Hint Resolve neutral_input neutral_output neutral_build_cases : neutral.
