(* ===== verification/ModeBase.v ===== *)
(** What the judge modes share: app/modules/judge/modes/base.py, the way the modes
    read the payload, and the rules for their resources. *)
From S2P Require Import Prelude PyFloat PyText PyStr Sandbox Schemas JudgeConfig FileCache LanguageConfig.
From S2P Require Import DataLoader Runtime SandboxConfig CaseBuilder.
Open Scope Z_scope.

(** A judge mode: the single method of [BaseJudgeMode]. *)
Class BaseJudgeMode (W : Type) := { mode_judge : JudgePayload → io W JudgeResultOut }.

(** [d[k]] *)
Definition getitem {W A} (k : string) (o : option A) : io W A :=
  match o with Some a => mret a | None => raise (KeyError ("'" +:+ k +:+ "'")) end.

(** [language_cfg["key"]] and the like on a configuration that may be [None]. *)
Definition languages_of {W} (language : option LanguageConfigIn) (exe : string) : io W (list LanguageSpec) :=
  match language with
  | Some l => lift (build_languages_config l exe)
  | None => raise (TypeError "'NoneType' object is not subscriptable")
  end.
Definition language_key {W} (language : option LanguageConfigIn) : io W string :=
  match language with
  | Some l => mret (lg_key l)
  | None => raise (TypeError "'NoneType' object is not subscriptable")
  end.

(** [process.message], an attribute that every sandbox result has. *)
Definition attr_message (p : ProcessResult) : outcome string :=
  match pr_message p with
  | Some m => Ret m
  | None => Raise (AttributeError "message")
  end.

(** ** Resources *)
(** Closing a sandbox object does not raise. *)
Class SandboxLaws E `{!SandboxApi E} : Prop := {
  sb_close_ok k n (e : E) : ∃ e', sb_close k n e = (Ret (), e');
}.

(** The sandbox clients can be created. *)
Class ClientsStart E `{!DataEnv E, !SandboxApi E, !JudgeEnv} : Prop := {
  sb_client_ok args (e : E) : ∃ e', sb_client args e = (Ret (), e');
  sb_callback_ok f (e : E) : sb_register_callback = Some f → ∃ e', f e = (Ret (), e');
  sb_configure_ok d m t (e : E) :
    match (sb_cache_configure d m t e).1 with Raise x => is_exception x = true | Ret _ => True end;
}.

Lemma create_client_ok {E} `{!DataEnv E, !SandboxApi E, !JudgeEnv, !ClientsStart E}
    (languages : list LanguageSpec) (w : JW E) :
  ∃ n w', create_sandbox_client languages w = (Ret n, w').
Proof.
  assert (∀ {A B} (m : io (JW E) A) (f : A → io (JW E) B),
    (∀ w, ∃ a w', m w = (Ret a, w')) → (∀ a w, ∃ b w', f a w = (Ret b, w')) →
    ∀ w, ∃ b w', (m ≫= f) w = (Ret b, w')) as Hbind.
  { intros A B m f Hm Hf w0. destruct (Hm w0) as (a & w1 & Ha). rewrite (run_ret _ _ _ _ _ Ha). apply Hf. }
  revert w. unfold create_sandbox_client. apply Hbind; [|intros _; apply Hbind; [|intros _; apply Hbind;
    [|intros _; apply Hbind; [|intros _; apply Hbind]]]].
  - intros w. unfold _warn_if_pool_capacity_is_lower_than_parallelism. erewrite run_ret by reflexivity.
    destruct (_capacity_warning_logged _); [eauto|]. unfold when. case_match; eauto.
  - intros w. unfold _warn_if_runtime_config_is_not_production_hardened. erewrite run_ret by reflexivity.
    destruct (_ || _); [eauto|]. unfold when. case_match; eauto.
  - intros w. unfold _configure_compilation_cache. case_match; [eauto|].
    unfold try_except, lift_ext.
    match goal with |- context [sb_cache_configure ?d ?m ?t ?e] =>
      pose proof (sb_configure_ok d m t e) as Hcfg; destruct (sb_cache_configure d m t e) as [[[]|x] e'] end;
      [eauto|]. simpl in Hcfg. rewrite Hcfg. eauto.
  - intros w. unfold _register_pool_metrics_callback. erewrite run_ret by reflexivity.
    case_match; [eauto|]. destruct sb_register_callback as [f|] eqn:Hf; [|eauto].
    destruct (sb_callback_ok f (jw_ext w) Hf) as [e' He].
    erewrite run_ret; [eauto|]. unfold lift_ext. rewrite He. reflexivity.
  - intros w. unfold acquire, lift_ext, mbind, io_bind. simpl.
    match goal with |- context [sb_client ?a ?e] => destruct (sb_client_ok a e) as [e' ->] end. eauto.
  - eauto.
Qed.

Section resources.
Context {E : Type} `{!DataEnv E, !SandboxApi E, !SandboxLaws E, !JudgeEnv}.
Implicit Types (s : gset (Kind * nat)).

Lemma steps_close s k n (Q : outcome () → _ → Prop) :
  (k, n) ∈ s → Q (Ret ()) (s ∖ {[(k, n)]}) → steps s (release k n) Q.
Proof.
  intros Hin HQ w Hw. destruct (steps_release s k n (λ _ s', s' = s ∖ {[(k, n)]}) Hin (λ _, eq_refl) w Hw)
    as (s' & H1 & ->). exists (s ∖ {[(k, n)]}). split; [done|]. revert H1.
  unfold release, lift_ext, log, mbind, io_bind. simpl.
  destruct (sb_close_ok k n (jw_ext w)) as [e' ->]. done.
Qed.

Lemma steps_close_opt s k o (Q : outcome () → _ → Prop) :
  match o with Some n => (k, n) ∈ s ∧ Q (Ret ()) (s ∖ {[(k, n)]}) | None => Q (Ret ()) s end →
  steps s (release_opt k o) Q.
Proof. destruct o as [n|]; [intros []; by apply steps_close|apply steps_ret]. Qed.

(** A client that can be created is created. *)
Lemma create_client_total `{!ClientsStart E} s (languages : list LanguageSpec) (Q : outcome nat → gset (Kind * nat) → Prop) :
  (∀ n, (∀ k, (k, n) ∉ s) → Q (Ret n) ({[(KClient, n)]} ∪ s)) →
  steps s (create_sandbox_client languages) Q.
Proof.
  intros HQ w Hw. destruct (create_client_steps s languages
    (λ o s', match o with Ret n => (∀ k, (k, n) ∉ s) ∧ s' = {[(KClient, n)]} ∪ s | Raise _ => True end)
    (λ _, I) (λ n Hn, conj Hn eq_refl) w Hw) as (s' & H1 & H2).
  destruct (create_client_ok languages w) as (n & w' & Hr). rewrite Hr in *. simpl in *.
  destruct H2 as [Hn ->]. eauto.
Qed.

Lemma neutral_getitem {A} k (o : option A) : neutral (E:=E) (getitem k o).
Proof. destruct o; [apply neutral_ret|apply neutral_raise]. Qed.
Lemma neutral_lift_outcome {A} (o : outcome A) : neutral (E:=E) (lift o).
Proof. intros s w Hw. by exists s. Qed.
Lemma neutral_languages l exe : neutral (E:=E) (languages_of l exe).
Proof. destruct l; [apply neutral_lift_outcome|apply neutral_raise]. Qed.
Lemma neutral_language_key l : neutral (E:=E) (language_key l).
Proof. destruct l; [apply neutral_ret|apply neutral_raise]. Qed.
End resources.

#[export] Hint Resolve neutral_getitem neutral_lift_outcome neutral_languages neutral_language_key : neutral.
