(* ===== verification/StandardMode.v ===== *)
(** The STANDARD judge mode: app/modules/judge/modes/standard.py (ACM, OI and
    IOI), from the payload to the result. *)
From S2P Require Import Prelude PyFloat PyText PyStr Sandbox Schemas ResultMapper Scoring Checker.
From S2P Require Import JudgeConfig FileCache LanguageConfig DataLoader Runtime SandboxConfig CaseBuilder ModeBase.
Open Scope Z_scope.

(** ** The cases of a batch *)
Definition _skipped_result (case_no : Z) : CaseResult := mkCase case_no "SKIPPED" 0 0 fzero [] [].

(** [int(tc_meta.get("case_no") or (i + 1))] *)
Definition case_no_of (tc_meta : option TestCaseData) (i : nat) : Z :=
  z_or (tc_case_no <$> tc_meta) (Z.of_nat i + 1).

Definition oj_verdict (files : gmap string byte_list) (c : SandboxCase) : string :=
  let run_ok := status_eqb (sc_status c) StAC in
  let output_match := run_ok && outputs_match files (sc_actual_output c) (sc_expected_output c) in
  if run_ok && output_match then "AC"
  else if negb run_ok then to_oj_result (sc_status c) else "WA".

Definition case_entry (files : gmap string byte_list) (i : nat) (tc_meta : option TestCaseData)
    (c : SandboxCase) : outcome CaseResult :=
  mem ← memory_kb (sc_run c);
  mret (mkCase (case_no_of tc_meta i) (oj_verdict files c) (reported_run_time_ms (Some (sc_run c))) mem
    (default fzero (tc_meta ≫= tc_points))
    (dr_preview_text (sc_actual_output c)) (dr_preview_text (sc_stderr c))).

(** The loop [for i, case_result in enumerate(batch_result.cases)] from index
    [i] on: the entries it appends and whether a failure was seen. *)
Fixpoint collect (files : gmap string byte_list) (tcs : list TestCaseData) (stop_on_first : bool)
    (i : nat) (cases : list SandboxCase) (had_failure : bool) : outcome (list CaseResult * bool) :=
  match cases with
  | [] => mret ([], had_failure)
  | c :: cases' =>
    if stop_on_first && had_failure then
      rest ← collect files tcs stop_on_first (S i) cases' had_failure;
      mret (_skipped_result (case_no_of (tcs !! i) i) :: rest.1, rest.2)
    else
      entry ← case_entry files i (tcs !! i) c;
      rest ← collect files tcs stop_on_first (S i) cases'
               (if String.eqb (c_result entry) "AC" then had_failure else true);
      mret (entry :: rest.1, rest.2)
  end.

(** The entries for the cases the sandbox did not run. *)
Definition pad_skipped (tcs : list TestCaseData) (raw : list CaseResult) : list CaseResult :=
  raw ++ map (λ j, _skipped_result (case_no_of (tcs !! j) j)) (seq (length raw) (length tcs - length raw)).

Definition raw_results (files : gmap string byte_list) (tcs : list TestCaseData) (stop_on_first : bool)
    (cases : list SandboxCase) : outcome (list CaseResult) :=
  r ← collect files tcs stop_on_first 0 cases false;
  mret (if stop_on_first && r.2 && (length r.1 <? length tcs)%nat then pad_skipped tcs r.1 else r.1).

Definition has_batch (tcs : list TestCaseData) : bool :=
  existsb (λ tc, negb (z_or (tc_batch_no tc) 0 =? 0)) tcs.
Definition stop_on_first (problem : ProblemConfig) (tcs : list TestCaseData) : bool :=
  negb (default false (pb_partial problem)) && negb (has_batch tcs).

Definition sum_points (cases : list CaseResult) : f64 :=
  fsum (map c_points (filter (λ c, is_AC c = true) cases)).

(** The result the mode returns once the batch has run. *)
Definition batch_verdict (files : gmap string byte_list) (submission_id : string) (problem : ProblemConfig)
    (tcs : list TestCaseData) (batch : BatchResult) : outcome JudgeResultOut :=
  let has_ce := negb (status_eqb (pr_status (br_compile batch)) StAC) in
  raw ← raw_results files tcs (stop_on_first problem tcs) (br_cases batch);
  let '(case_results, score) :=
    if has_batch tcs then aggregate_batches raw tcs
    else (raw, if has_ce then fzero else sum_points raw) in
  overall ← (if has_ce then mret "CE"
             else match pb_points problem with
                  | None => Raise (KeyError "'points'")
                  | Some p => mret (if fge score p then "AC" else compute_overall_result false case_results)
                  end);
  compile_output ← (if opt_str_truthy (br_message batch) then mret (opt_str_or (br_message batch) "")
                    else attr_message (br_compile batch));
  let rm := run_metrics_from_cases case_results in
  let cm := compile_metrics_from_process (Some (br_compile batch)) in
  mret (mkResult submission_id "COMPLETED" (Some overall) score rm.1 rm.2 cm.1 cm.2
    (Some compile_output) has_ce case_results None 0).

(** ** The mode *)
Section StandardMode.
Context {E : Type} `{!DataEnv E, !SandboxApi E, !JudgeEnv}.

Definition run_batch (payload : JudgePayload) (tcs : list TestCaseData) (key source : string)
    (cases : list JudgeCase) (client : nat) : io (option nat * JW E) JudgeResultOut :=
  let problem := pl_problem payload in
  let stop := stop_on_first problem tcs in
  isolation ← up build_isolation_config;
  let cgroup := build_cgroup_config in
  let parallelism := Z.max 1 (sandbox_standard_parallelism cfg_of) in
  batch ← up (acquire KBatch (sb_run_cases client
    (mkRunCases key source cases isolation cgroup stop
       (if stop then 1 else Z.min parallelism (Z.of_nat (length cases))))));
  _ ← set_locals (λ _, Some batch.1);
  files ← up (gets (λ w, sb_files (jw_ext w)));
  lift (batch_verdict files (pl_submission_id payload) problem tcs batch.2).

Definition judge_standard (payload : JudgePayload) : io (JW E) JudgeResultOut :=
  language_cfg ← getitem "language" (pl_language payload);
  source ← getitem "source" (pl_source payload);
  tcs ← getitem "test_cases" (pl_test_cases payload);
  languages_config ← languages_of language_cfg "main";
  key ← language_key language_cfg;
  cases ← build_judge_cases tcs (pl_problem payload);
  if bool_decide (cases = []) then mret (error_verdict (pl_submission_id payload) "没有测试点数据")
  else
    client ← create_sandbox_client languages_config;
    try_finally_locals None (run_batch payload tcs key source cases client)
      (λ batch_result, _ ← release_opt KBatch batch_result; release KClient client).
End StandardMode.

(** ** The collected cases *)
Definition skipped (c : CaseResult) : Prop := ∃ no, c = _skipped_result no.

Lemma oj_verdict_not_skipped files c : oj_verdict files c ≠ "SKIPPED".
Proof.
  unfold oj_verdict. destruct (status_eqb (sc_status c) StAC); simpl.
  - by destruct (outputs_match _ _ _).
  - unfold to_oj_result. by destruct (sc_status c).
Qed.

Lemma case_entry_verdict files i tm c e :
  case_entry files i tm c = Ret e → c_result e = oj_verdict files c.
Proof. unfold case_entry. destruct (memory_kb (sc_run c)); [|done]. by intros [= <-]. Qed.

Section collect.
Variables (files : gmap string byte_list) (tcs : list TestCaseData).

Lemma collect_all i cases had rs had' :
  collect files tcs false i cases had = Ret (rs, had') → length rs = length cases.
Proof.
  revert i had rs. induction cases as [|c cases IH]; intros i had rs; simpl.
  { by intros [= <- _]. }
  destruct (case_entry _ _ _ _) as [e|]; [|done]. simpl.
  destruct (collect _ _ _ _ _ _) as [[rs' h]|] eqn:Hr; [|done]. simpl. intros [= <- ->].
  simpl. f_equal. by eapply IH.
Qed.

Lemma collect_skips i cases rs had' :
  collect files tcs true i cases true = Ret (rs, had') →
  had' = true ∧ length rs = length cases ∧ Forall skipped rs.
Proof.
  revert i rs. induction cases as [|c cases IH]; intros i rs; simpl.
  { intros [= <- <-]. split_and!; [done|done|constructor]. }
  destruct (collect _ _ _ _ _ _) as [[rs' h]|] eqn:Hr; [|done]. simpl. intros [= <- ->].
  destruct (IH _ _ Hr) as (-> & Hl & Hs). simpl. split_and!; [done|by f_equal|].
  constructor; [by eexists|done].
Qed.

Lemma collect_stop i cases rs had' :
  collect files tcs true i cases false = Ret (rs, had') →
  length rs = length cases ∧
  ((had' = false ∧ Forall (λ c, is_AC c = true) rs) ∨
   (had' = true ∧ ∃ pre f post, rs = pre ++ f :: post ∧ Forall (λ c, is_AC c = true) pre ∧
      is_failure (c_result f) = true ∧ Forall skipped post)).
Proof.
  revert i rs. induction cases as [|c cases IH]; intros i rs; simpl.
  { intros [= <- <-]. split; [done|]. left. split; [done|constructor]. }
  destruct (case_entry _ _ _ _) as [e|] eqn:He; [|done]. simpl.
  apply case_entry_verdict in He.
  destruct (String.eqb_spec (c_result e) "AC") as [Hac|Hac].
  - destruct (collect _ _ _ _ _ false) as [[rs' h]|] eqn:Hr; [|done]. simpl. intros [= <- ->].
    destruct (IH _ _ Hr) as (Hl & [[-> Hall]|(-> & pre & f & post & -> & Hpre & Hf & Hpost)]);
      (split; [simpl; by f_equal|]); [left|right]; (split; [done|]).
    + constructor; [|done]. unfold is_AC. by rewrite Hac.
    + exists (e :: pre), f, post. split_and!; [done| |done|done].
      constructor; [|done]. unfold is_AC. by rewrite Hac.
  - destruct (collect _ _ _ _ _ true) as [[rs' h]|] eqn:Hr; [|done]. simpl. intros [= <- ->].
    destruct (collect_skips _ _ _ _ Hr) as (-> & Hl & Hs). split; [simpl; by f_equal|].
    right. split; [done|]. exists [], e, rs'. split_and!; [done|constructor| |done].
    pose proof (oj_verdict_not_skipped files c) as Hns. rewrite <-He in Hns.
    unfold is_failure. apply String.eqb_neq in Hac, Hns. by rewrite Hac, Hns.
Qed.

Lemma raw_results_stop cases rs :
  raw_results files tcs true cases = Ret rs →
  (Forall (λ c, is_AC c = true) rs ∧ length rs = length cases) ∨
  (∃ pre f post, rs = pre ++ f :: post ∧ Forall (λ c, is_AC c = true) pre ∧
     is_failure (c_result f) = true ∧ Forall skipped post ∧
     length rs = (length cases `max` length tcs)%nat).
Proof.
  unfold raw_results. destruct (collect _ _ _ _ _ _) as [[r h]|] eqn:Hc; [|done]. simpl.
  destruct (collect_stop _ _ _ _ Hc) as (Hl & [[-> Hall]|(-> & pre & f & post & -> & Hpre & Hf & Hpost)]);
    simpl; intros [= <-]; [by left|right].
  case_match eqn:Hlt.
  - exists pre, f, (post ++ map (λ j, _skipped_result (case_no_of (tcs !! j) j))
      (seq (length (pre ++ f :: post)) (length tcs - length (pre ++ f :: post)))).
    apply Nat.ltb_lt in Hlt. split_and!; [|done|done| |].
    + unfold pad_skipped. by rewrite <-!app_assoc.
    + apply Forall_app. split; [done|]. apply Forall_fmap, Forall_true. intros j. by eexists.
    + unfold pad_skipped. rewrite length_app, length_map, length_seq, <-Hl. lia.
  - exists pre, f, post. apply Nat.ltb_ge in Hlt. split_and!; [done..|]. rewrite Hl in *. lia.
Qed.
End collect.

Lemma filter_AC_stop pre f post :
  Forall (λ c, is_AC c = true) pre → is_failure (c_result f) = true → Forall skipped post →
  filter (λ c, is_AC c = true) (pre ++ f :: post) = pre.
Proof.
  intros Hpre Hf Hpost. rewrite filter_app, filter_cons.
  assert (filter (λ c, is_AC c = true) pre = pre) as ->.
  { induction Hpre as [|c l Hc Hl IH]; [done|]. by rewrite filter_cons, decide_True, IH. }
  rewrite decide_False.
  - assert (filter (λ c, is_AC c = true) post = []) as ->; [|by rewrite app_nil_r].
    induction Hpost as [|c l [no ->] Hl IH]; [done|]. by rewrite filter_cons, decide_False, IH.
  - unfold is_AC, is_failure in *. by destruct (String.eqb (c_result f) "AC").
Qed.

Lemma first_failure_stop pre f post :
  Forall (λ c, is_AC c = true) pre → is_failure (c_result f) = true →
  first_failure (pre ++ f :: post) = Some (c_result f).
Proof.
  intros Hpre Hf. apply first_failure_Some. exists pre, f, post. split_and!; [done..|].
  eapply Forall_impl; [done|]. intros c Hc. apply is_failure_spec. left. by apply String.eqb_eq.
Qed.

(** ** Reading a verdict *)
Lemma batch_verdict_inv files sid problem tcs batch r :
  batch_verdict files sid problem tcs batch = Ret r →
  ∃ raw, raw_results files tcs (stop_on_first problem tcs) (br_cases batch) = Ret raw ∧
    let has_ce := negb (status_eqb (pr_status (br_compile batch)) StAC) in
    (r_cases r, r_score r) = (if has_batch tcs then aggregate_batches raw tcs
                              else (raw, if has_ce then fzero else sum_points raw)) ∧
    r_compile_error r = has_ce ∧ r_status r = "COMPLETED" ∧
    (if has_ce then r_result r = Some "CE"
     else ∃ p, pb_points problem = Some p ∧
       r_result r = Some (if fge (r_score r) p then "AC" else compute_overall_result false (r_cases r))).
Proof.
  unfold batch_verdict. destruct (raw_results _ _ _ _) as [raw|] eqn:Hraw; [|done]. simpl.
  set (has_ce := negb _). destruct (if has_batch tcs then _ else _) as [cs sc] eqn:Hcs.
  intros Hr. exists raw. split; [done|].
  destruct has_ce; simpl in Hr.
  - destruct (if opt_str_truthy _ then _ else _) as [co|]; [|done]. injection Hr as <-. simpl. by rewrite Hcs.
  - destruct (pb_points problem) as [p|]; [|done]. simpl in Hr.
    destruct (if opt_str_truthy _ then _ else _) as [co|]; [|done]. injection Hr as <-. simpl.
    rewrite Hcs. split_and!; [done..|]. by exists p.
Qed.

(** C2. ACM submissions (not partial, no batches) stop at the first failure:
    either every case is AC, or the result is a prefix of AC cases, one failing
    case, and SKIPPED entries (with no time, memory or points) up to the number
    of test cases; the score is the sum of the points of that prefix, and below
    full marks the verdict is the one of the failing case. *)
Theorem acm_first_failure files sid problem tcs batch r
  (Hmode : stop_on_first problem tcs = true)
  (Hcompiled : pr_status (br_compile batch) = StAC)
  (Hr : batch_verdict files sid problem tcs batch = Ret r) :
  (Forall (λ c, is_AC c = true) (r_cases r) ∧ length (r_cases r) = length (br_cases batch)) ∨
  ∃ pre f post, r_cases r = pre ++ f :: post ∧ Forall (λ c, is_AC c = true) pre ∧
    is_failure (c_result f) = true ∧ Forall skipped post ∧
    length (r_cases r) = (length (br_cases batch) `max` length tcs)%nat ∧
    r_score r = fsum (map c_points pre) ∧
    ∃ p, pb_points problem = Some p ∧
      r_result r = Some (if fge (r_score r) p then "AC" else c_result f).
Proof.
  destruct (batch_verdict_inv _ _ _ _ _ _ Hr) as (raw & Hraw & Hcs & _ & _ & Hres).
  rewrite Hcompiled in *. simpl in *. rewrite Hmode in Hraw.
  assert (has_batch tcs = false) as Hb.
  { unfold stop_on_first in Hmode. apply andb_true_iff in Hmode as [_ Hmode]. by apply negb_true_iff. }
  rewrite Hb in Hcs. injection Hcs as Hcs Hsc.
  destruct (raw_results_stop files tcs _ _ Hraw) as [[Hall Hlen]|(pre & f & post & -> & Hpre & Hf & Hpost & Hlen)].
  - left. by rewrite Hcs.
  - right. exists pre, f, post. rewrite Hcs in *. destruct Hres as (p & Hp & Hres). split_and!; [done..| |].
    + rewrite Hsc. unfold sum_points. by rewrite filter_AC_stop.
    + exists p. split; [done|]. rewrite Hres. unfold compute_overall_result.
      by rewrite (first_failure_stop pre f post).
Qed.

(** C7. No false accept: a submission whose verdict is AC has a successful
    compilation and either reaches the points of the problem or has no failing
    case at all. *)
Theorem standard_accept_sound files sid problem tcs batch r
  (Hr : batch_verdict files sid problem tcs batch = Ret r) (Hac : r_result r = Some "AC") :
  pr_status (br_compile batch) = StAC ∧ r_compile_error r = false ∧
  ((∃ p, pb_points problem = Some p ∧ fge (r_score r) p = true) ∨
   Forall (λ c, c_result c = "AC" ∨ c_result c = "SKIPPED") (r_cases r)).
Proof.
  destruct (batch_verdict_inv _ _ _ _ _ _ Hr) as (raw & _ & _ & Hce & _ & Hres).
  rewrite Hce. destruct (status_eqb _ _) eqn:Hst; simpl in *; [|congruence].
  apply bool_decide_eq_true in Hst. split_and!; [done..|].
  destruct Hres as (p & Hp & Hres). rewrite Hac in Hres. destruct (fge _ p) eqn:Hge; [by left; eauto|].
  right. unfold compute_overall_result in Hres.
  destruct (first_failure (r_cases r)) as [x|] eqn:Hff; simpl in Hres.
  - injection Hres as <-. by apply first_failure_Some in Hff as (? & ? & ? & _ & _ & Hf & _).
  - apply first_failure_None in Hff. eapply Forall_impl; [exact Hff|]. intros c. apply is_failure_spec.
Qed.

(** ** Points *)
Definition points_ok (tcs : list TestCaseData) : Prop :=
  Forall (λ tc, nonneg (default fzero (tc_points tc)) = true) tcs.

Lemma skipped_nonneg c : skipped c → nonneg (c_points c) = true.
Proof. by intros [no ->]. Qed.

Lemma collect_nonneg files tcs stop i cases had r :
  points_ok tcs → collect files tcs stop i cases had = Ret r →
  Forall (λ c, nonneg (c_points c) = true) r.1.
Proof.
  intros Hok. revert i had r. induction cases as [|c cases IH]; intros i had r; simpl.
  { intros [= <-]. constructor. }
  case_match.
  - destruct (collect _ _ _ _ _ _) as [r'|] eqn:Hr; [|done]. simpl. intros [= <-].
    constructor; [done|by eapply IH].
  - unfold case_entry. destruct (memory_kb _) as [m|]; [|done]. simpl.
    destruct (collect _ _ _ _ _ _) as [r'|] eqn:Hr; [|done]. simpl. intros [= <-].
    constructor; [|by eapply IH]. simpl. destruct (tcs !! i) as [tc|] eqn:Htc; [|done]. simpl.
    eapply Forall_lookup_1 in Hok; [exact Hok|done].
Qed.

Lemma raw_results_nonneg files tcs stop cases raw :
  points_ok tcs → raw_results files tcs stop cases = Ret raw →
  Forall (λ c, nonneg (c_points c) = true) raw.
Proof.
  intros Hok. unfold raw_results. destruct (collect _ _ _ _ _ _) as [r|] eqn:Hr; [|done]. simpl.
  pose proof (collect_nonneg _ _ _ _ _ _ _ Hok Hr) as Hnn.
  case_match; intros [= <-]; [|done]. unfold pad_skipped. apply Forall_app. split; [done|].
  apply Forall_fmap, Forall_true. done.
Qed.

(** A problem worth zero points accepts everything that compiles: the verdict
    is AC whatever the cases say. *)
Theorem zero_points_accepts files sid problem tcs batch r
  (Hpts : points_ok tcs) (Hp : pb_points problem = Some fzero)
  (Hcompiled : pr_status (br_compile batch) = StAC)
  (Hr : batch_verdict files sid problem tcs batch = Ret r) :
  r_result r = Some "AC".
Proof.
  destruct (batch_verdict_inv _ _ _ _ _ _ Hr) as (raw & Hraw & Hcs & _ & _ & Hres).
  apply raw_results_nonneg in Hraw; [|done]. rewrite Hcompiled in *. simpl in *.
  destruct Hres as (p & Hp' & ->). rewrite Hp in Hp'. injection Hp' as <-.
  unfold fge. rewrite fle_zero_nonneg; [done|].
  destruct (has_batch tcs).
  - replace (r_score r) with (aggregate_batches raw tcs).2 by by rewrite <-Hcs.
    by apply aggregate_nonneg.
  - injection Hcs as _ ->. unfold sum_points. apply fsum_nonneg, Forall_fmap.
    by apply Forall_filter_sub.
Qed.

(** ** Resources *)

Section resources.
Context {E : Type} `{!DataEnv E, !SandboxApi E, !SandboxLaws E, !JudgeEnv}.
Implicit Types (s : gset (Kind * nat)).

(** What a finished body of the standard mode holds. *)
Definition batch_held s (client : nat) (o : option nat) (s' : gset (Kind * nat)) : Prop :=
  match o with
  | Some n => s' = {[(KBatch, n)]} ∪ s ∧ (∀ k, (k, n) ∉ s)
  | None => s' = s
  end.

Lemma run_batch_steps s payload tcs key source cases client :
  stepsL None s (run_batch payload tcs key source cases client) (λ _ o s', batch_held s client o s').
Proof.
  unfold run_batch. apply stepsL_bind, stepsL_up, neutral_steps; [apply neutral_isolation|].
  intros [iso|e]; [|done]. apply stepsL_bind, stepsL_up, steps_acquire; [done|].
  intros n batch Hnew. apply stepsL_bind, stepsL_set. simpl.
  apply stepsL_bind, stepsL_up, steps_gets. intros files w Hw.
  by exists ({[(KBatch, n)]} ∪ s).
Qed.

Lemma judge_standard_steps s payload : steps s (judge_standard payload) (λ _ s', s' = s).
Proof.
  unfold judge_standard.
  apply steps_bind, neutral_steps; [apply neutral_getitem|]. intros [language|e]; [|done].
  apply steps_bind, neutral_steps; [apply neutral_getitem|]. intros [source|e]; [|done].
  apply steps_bind, neutral_steps; [apply neutral_getitem|]. intros [tcs|e]; [|done].
  apply steps_bind, neutral_steps; [apply neutral_languages|]. intros [langs|e]; [|done].
  apply steps_bind, neutral_steps; [apply neutral_language_key|]. intros [key|e]; [|done].
  apply steps_bind, neutral_steps; [apply neutral_build_cases|]. intros [cases|e]; [|done].
  apply steps_if; [by apply steps_ret|].
  apply steps_bind, create_client_steps; [done|]. intros client Hnew.
  apply steps_finally. eapply stepsL_mono; [apply run_batch_steps|].
  intros o b s' Hheld. apply steps_bind, steps_close_opt.
  destruct b as [n|]; simpl in Hheld.
  - destruct Hheld as [-> Hn]. split; [set_solver|].
    apply steps_close; [set_solver|]. set_solver.
  - subst s'. apply steps_close; set_solver.
Qed.

(** C8. The standard mode releases what it acquires: whatever the sandbox does
    (the client may fail to start, the run may raise, the results may be
    malformed) and however the mode ends, the batch result and the client are
    closed exactly once if they were obtained, and nothing else is. *)
Theorem standard_releases payload (w : JW E) s (Hw : holds s w) :
  holds s (judge_standard payload w).2.
Proof. by destruct (judge_standard_steps s payload w Hw) as (s' & H1 & ->). Qed.
End resources.
