(* ===== verification/SpjMode.v ===== *)
(** The SPECIAL_JUDGE mode: app/modules/judge/modes/spj.py. *)
From S2P Require Import Prelude PyFloat PyText PyStr Sandbox Schemas ResultMapper Scoring JudgeConfig.
From S2P Require Import FileCache LanguageConfig DataLoader Runtime SandboxConfig CaseBuilder ModeBase.
Open Scope Z_scope.

Definition _CHECKER_COMPILE_LIMITS : JudgeLimits :=
  mkLimits 60000 120000 (1024 * 1024 * 1024) 256 (Some (64 * 1024 * 1024)).

Definition _compile_failure_text (program : Program) : string :=
  let fallback := opt_str_or (pr_message (pg_compile program)) "compile failed" in
  match pg_compile_result program with
  | Some result =>
    let text := str_strip (opt_str_or (cr_compiler_output result) (opt_str_or (cr_message result) "")) in
    if str_truthy text then text else fallback
  | None => fallback
  end.

(** [d.get(k, {})] of a payload entry that may be present with the value [None]:
    the next [.get] on it fails. *)
Definition get_dict {W A} (o : option (option A)) (empty : A) : io W A :=
  match o with
  | None => mret empty
  | Some (Some d) => mret d
  | Some None => raise (AttributeError "'NoneType' object has no attribute 'get'")
  end.

(** [problem["points"] / max(len(test_cases_data), 1)] *)
Definition per_case_points {W} (problem : ProblemConfig) (n : nat) : io W f64 :=
  points ← match pb_points problem with
           | Some p => mret p
           | None => raise (KeyError "'points'")
           end;
  mret (fdiv points (f_of_Z (Z.max (Z.of_nat n) 1))).

(** What the loop over the test cases accumulates. *)
Record Tally := mkTally { t_cases : list CaseResult; t_all_ac : bool; t_total : f64 }.
Definition empty_tally : Tally := mkTally [] true fzero.

Section SpjMode.
Context {E : Type} `{!DataEnv E, !SandboxApi E, !JudgeEnv}.

(** One test case of the loop. *)
Definition spj_case (problem : ProblemConfig) (spj_source : string) (iso : IsolationConfig) (cg : CgroupConfig)
    (client program checker_program : nat) (pcp : f64) (acc : Tally) (tc : TestCaseData) : io (JW E) Tally :=
  input_ref ← resolve_input_ref tc;
  expected_ref ← resolve_output_ref tc;
  user_result ← lift_ext (sb_run program (mkRunArgs input_ref (build_judge_limits tc problem)) iso cg);
  let user_ac := status_eqb (rr_status user_result) StAC in
  accepted ← lift_ext (sb_run_checker client
    (mkCheckerArgs spj_source input_ref (rr_stdout_path user_result)
       (default (from_data (W:=E) []) expected_ref) checker_program) iso cg);
  let case_ac := user_ac && accepted in
  let points := if case_ac then pcp else fzero in
  mem ← lift (memory_kb (rr_run user_result));
  out ← lift_ext (sb_preview (rr_stdout_path user_result));
  err ← lift_ext (sb_preview (rr_stderr_path user_result));
  mret (mkTally
    (t_cases acc ++ [mkCase (tc_case_no tc) (if case_ac then "AC" else "WA")
       (reported_run_time_ms (Some (rr_run user_result))) mem points out err])
    (if case_ac then t_all_ac acc else false)
    (if case_ac then fadd (t_total acc) points else t_total acc)).

(** The locals of the [finally] clause: the user program and the checker. *)
Notation locals := (option nat * option nat)%type (only parsing).

(** The body of the [try]: an early verdict, or the compile metrics and the tally. *)
Definition spj_body (payload : JudgePayload) (tcs : list TestCaseData) (key source spj_source : string)
    (iso : IsolationConfig) (cg : CgroupConfig) (client checker_client : nat) :
    io (locals * JW E) (JudgeResultOut + (Z * Z) * Tally) :=
  let problem := pl_problem payload in
  program ← up (acquire KProgram (sb_prepare client (mkPrepare key source None None false) iso cg));
  _ ← set_locals (λ l, (Some program.1, l.2));
  let cm := compile_metrics_from_process (Some (pg_compile program.2)) in
  if negb (pg_compiled program.2) then
    mret (inl (error_verdict (pl_submission_id payload)
                 ("用户程序编译失败: " +:+ _compile_failure_text program.2)))
  else
    checker ← up (acquire KProgram (sb_prepare checker_client
      (mkPrepare sb_testlib_id spj_source (Some _CHECKER_COMPILE_LIMITS) None true) iso cg));
    _ ← set_locals (λ l, (l.1, Some checker.1));
    if negb (pg_compiled checker.2) then
      mret (inl (error_verdict (pl_submission_id payload)
                   ("SPJ checker 编译失败: " +:+ _compile_failure_text checker.2)))
    else
      pcp ← per_case_points problem (length tcs);
      tally ← up (foreach tcs empty_tally
                (spj_case problem spj_source iso cg client program.1 checker.1 pcp));
      mret (inr (cm, tally)).

Definition spj_finally (client checker_client : nat) (l : locals) : io (JW E) () :=
  _ ← release_opt KProgram l.2;
  _ ← release_opt KProgram l.1;
  _ ← release KClient client;
  release KClient checker_client.

Definition spj_verdict (submission_id : string) (cm : Z * Z) (t : Tally) : JudgeResultOut :=
  let rm := run_metrics_from_cases (t_cases t) in
  mkResult submission_id "COMPLETED" (Some (if t_all_ac t then "AC" else "WA")) (t_total t) rm.1 rm.2
    cm.1 cm.2 None false (t_cases t) None 0.

Definition judge_spj (payload : JudgePayload) : io (JW E) JudgeResultOut :=
  language_cfg ← getitem "language" (pl_language payload);
  source ← getitem "source" (pl_source payload);
  tcs ← getitem "test_cases" (pl_test_cases payload);
  spj_cfg ← get_dict (pl_spj payload) (mkSpj None);
  let spj_source := opt_str_or (spj_source spj_cfg) "" in
  if negb (str_truthy spj_source) then mret (error_verdict (pl_submission_id payload) "缺少 SPJ checker 源码")
  else
    languages_config ← languages_of language_cfg "main";
    key ← language_key language_cfg;
    isolation ← build_isolation_config;
    let cgroup := build_cgroup_config in
    client ← create_sandbox_client languages_config;
    checker_client ← create_sandbox_client [TestlibChecker];
    r ← try_finally_locals (None, None)
          (spj_body payload tcs key source spj_source isolation cgroup client checker_client)
          (spj_finally client checker_client);
    match r with
    | inl verdict => mret verdict
    | inr (cm, t) => mret (spj_verdict (pl_submission_id payload) cm t)
    end.

(** ** The tally *)
Definition spj_entry (pcp : f64) (tc : TestCaseData) (c : CaseResult) : Prop :=
  c_case_no c = tc_case_no tc ∧
  ((c_result c = "AC" ∧ c_points c = pcp) ∨ (c_result c = "WA" ∧ c_points c = fzero)).

(** A tally agrees with its entries, which stand in the relation [P] with the
    test cases. *)
Definition tally_ok (P : TestCaseData → CaseResult → Prop) (tcs : list TestCaseData) (t : Tally) : Prop :=
  Forall2 P tcs (t_cases t) ∧ t_all_ac t = forallb is_AC (t_cases t) ∧
  t_total t = fsum (map c_points (filter (λ c, is_AC c = true) (t_cases t))).

Lemma tally_snoc P tcs t tc c :
  tally_ok P tcs t → P tc c →
  tally_ok P (tcs ++ [tc])
    (mkTally (t_cases t ++ [c]) (if is_AC c then t_all_ac t else false)
       (if is_AC c then fadd (t_total t) (c_points c) else t_total t)).
Proof.
  intros (H1 & H2 & H3) Hc. split_and!; simpl.
  - apply Forall2_app; [done|]. constructor; [done|constructor].
  - rewrite forallb_app, <-H2. simpl. destruct (is_AC c); by rewrite ?andb_true_r, ?andb_false_r.
  - rewrite filter_app, map_app, filter_cons, filter_nil. destruct (is_AC c).
    + rewrite decide_True by done. simpl. rewrite fsum_snoc. by rewrite H3.
    + rewrite decide_False by done. simpl. by rewrite app_nil_r.
Qed.

Lemma spj_case_entry problem src iso cg client p ch pcp acc tc w acc' w' :
  spj_case problem src iso cg client p ch pcp acc tc w = (Ret acc', w') →
  ∃ c, spj_entry pcp tc c ∧
    acc' = mkTally (t_cases acc ++ [c]) (if is_AC c then t_all_ac acc else false)
             (if is_AC c then fadd (t_total acc) (c_points c) else t_total acc).
Proof.
  unfold spj_case. intros Hr. inv_runs. injection Hr as <- <-.
  set (ok := status_eqb (rr_status a1) StAC && a2).
  exists (mkCase (tc_case_no tc) (if ok then "AC" else "WA") (reported_run_time_ms (Some (rr_run a1))) a3
    (if ok then pcp else fzero) a4 a5).
  destruct ok; (split; [|reflexivity]); (split; [done|]); [by left|by right].
Qed.

Lemma spj_loop_ok problem src iso cg client p ch pcp tcs w t w' :
  foreach tcs empty_tally (spj_case problem src iso cg client p ch pcp) w = (Ret t, w') → tally_ok (spj_entry pcp) tcs t.
Proof.
  intros Hr. eapply (foreach_Ret_inv (tally_ok (spj_entry pcp))); [| |exact Hr].
  - by split_and!; [constructor|..].
  - intros pre tc acc w0 acc' w1 Hacc Hc. apply spj_case_entry in Hc as (c & Hc & ->).
    by apply tally_snoc.
Qed.
End SpjMode.

(** ** Properties *)
Section spj_properties.
Context {E : Type} `{!DataEnv E, !SandboxApi E, !SandboxLaws E, !JudgeEnv}.
Implicit Types (s : gset (Kind * nat)).

Lemma spj_body_tally payload tcs key source src iso cg c1 c2 lw cm t lw' :
  spj_body payload tcs key source src iso cg c1 c2 lw = (Ret (inr (cm, t)), lw') →
  ∃ p, pb_points (pl_problem payload) = Some p ∧
    tally_ok (spj_entry (fdiv p (f_of_Z (Z.max (Z.of_nat (length tcs)) 1)))) tcs t.
Proof.
  unfold spj_body. intros Hr. inv_runs.
  destruct (negb (pg_compiled a.2)); [done|]. inv_runs.
  destruct (negb (pg_compiled a1.2)); [done|]. inv_runs. injection Hr as <- <- <-.
  apply up_Ret_inv in Hm4 as [Hm4 _]. apply spj_loop_ok in Hm4.
  revert Hm3. unfold per_case_points. destruct (pb_points (pl_problem payload)) as [p|]; [|done].
  intros [= <- _]. by exists p.
Qed.

(** C10. A completed special-judge run: one entry per test case, in order, each AC
    with an equal share of the points or WA with none; the score is the sum of
    the shares of the AC entries and the verdict is AC exactly when every entry
    is.  (A run that exceeded a limit is reported as WA too.) *)
Theorem spj_result_shape payload w r w'
  (Hrun : judge_spj payload w = (Ret r, w')) (Hdone : r_status r = "COMPLETED") :
  ∃ tcs p, pl_test_cases payload = Some tcs ∧ pb_points (pl_problem payload) = Some p ∧
    let share := fdiv p (f_of_Z (Z.max (Z.of_nat (length tcs)) 1)) in
    Forall2 (spj_entry share) tcs (r_cases r) ∧
    r_score r = fsum (map c_points (filter (λ c, is_AC c = true) (r_cases r))) ∧
    (r_result r = Some "AC" ↔ Forall (λ c, c_result c = "AC") (r_cases r)).
Proof.
  unfold judge_spj in Hrun. inv_runs.
  assert (∃ tcs, pl_test_cases payload = Some tcs ∧ a1 = tcs) as (tcs & Htcs & ->).
  { destruct (pl_test_cases payload) as [tcs|]; [|done]. injection Hm1 as <- _. eauto. }
  exists tcs. destruct (negb _); [by injection Hrun as <- _|]. inv_runs.
  apply finally_locals_Ret_inv in Hm8 as (l & wb & Hb & _).
  destruct a7 as [v|[cm t]]; injection Hrun as <- _.
  { exfalso. unfold spj_body in Hb. inv_runs. destruct (negb _); [by injection Hb as <- _|]. inv_runs.
    destruct (negb _); [by injection Hb as <- _|]. by inv_runs. }
  apply spj_body_tally in Hb as (p & Hp & H1 & H2 & H3). exists p. split_and!; [done..|].
  simpl. split; [done|]. split; [done|]. rewrite H2. destruct (forallb is_AC (t_cases t)) eqn:Hall.
  - split; [|done]. intros _. rewrite forallb_forall in Hall. apply Forall_forall.
    intros c Hc. apply String.eqb_eq, Hall. by apply list_elem_of_In.
  - split; [done|]. intros Hf. apply not_true_iff_false in Hall. destruct Hall.
    apply forallb_forall. intros c Hc%list_elem_of_In. eapply Forall_forall in Hf; [|done].
    by apply String.eqb_eq.
Qed.

(** *** Resources *)
Definition held_opt (k : Kind) (o : option nat) : gset (Kind * nat) :=
  match o with Some n => {[(k, n)]} | None => ∅ end.

Lemma neutral_spj_case problem src iso cg client p ch pcp acc tc :
  neutral (E:=E) (spj_case problem src iso cg client p ch pcp acc tc).
Proof.
  unfold spj_case. repeat (apply neutral_bind; [auto with neutral|intros ?]). auto with neutral.
Qed.

Definition spj_held s (l : option nat * option nat) s' : Prop :=
  s' = held_opt KProgram l.1 ∪ held_opt KProgram l.2 ∪ s ∧
  (∀ n, l.1 = Some n → ∀ k, (k, n) ∉ s) ∧ (∀ n, l.2 = Some n → ∀ k, (k, n) ∉ s) ∧
  (∀ n m, l.1 = Some n → l.2 = Some m → n ≠ m).

Lemma stepsL_per_case {L} (l : L) s (problem : ProblemConfig) (n : nat) (Q : outcome f64 → L → gset (Kind * nat) → Prop) :
  (∀ o, Q o l s) → stepsL (E:=E) l s (per_case_points problem n) Q.
Proof.
  intros HQ. unfold per_case_points. apply stepsL_bind.
  destruct (pb_points problem); [apply stepsL_ret; by apply stepsL_ret|by apply stepsL_raise].
Qed.

Lemma spj_body_steps s payload tcs key source src iso cg c1 c2 :
  stepsL (None, None) s (spj_body payload tcs key source src iso cg c1 c2) (λ _ l s', spj_held s l s').
Proof.
  unfold spj_body. apply stepsL_bind, stepsL_up, steps_acquire.
  { intros e. split_and!; [set_solver|done..]. }
  intros n prog Hn. apply stepsL_bind, stepsL_set. simpl.
  assert (spj_held s (Some n, None) ({[(KProgram, n)]} ∪ s)) as Hh1.
  { split_and!; simpl; [set_solver|by intros ? [= <-]|done|done]. }
  apply stepsL_if; intros _; [by apply stepsL_ret|].
  apply stepsL_bind, stepsL_up, steps_acquire; [done|].
  intros m chk Hm. apply stepsL_bind, stepsL_set. simpl.
  assert (spj_held s (Some n, Some m) ({[(KProgram, m)]} ∪ ({[(KProgram, n)]} ∪ s))) as Hh2.
  { split_and!; simpl; [set_solver|by intros ? [= <-]| |].
    - intros ? [= <-] k. specialize (Hm k). set_solver.
    - intros ? ? [= <-] [= <-] ->. apply (Hm KProgram). set_solver. }
  apply stepsL_if; intros _; [by apply stepsL_ret|].
  apply stepsL_bind, stepsL_per_case. intros [pcp|e]; [|done].
  apply stepsL_bind, stepsL_up, neutral_steps.
  - apply neutral_foreach. intros. apply neutral_spj_case.
  - intros [t|e]; [by apply stepsL_ret|done].
Qed.

Lemma spj_finally_steps s client cc l s' :
  (∀ k, (k, client) ∉ s) → (∀ k, (k, cc) ∉ ({[(KClient, client)]} ∪ s : gset (Kind * nat))) →
  spj_held ({[(KClient, cc)]} ∪ ({[(KClient, client)]} ∪ s)) l s' →
  steps s' (spj_finally client cc l) (λ o s2, o = Ret () ∧ s2 = s).
Proof.
  intros Hc Hcc (-> & H1 & H2 & H3). destruct l as [p ch]. simpl in *. unfold spj_finally.
  pose proof (Hcc KClient) as Hcc'. pose proof (Hc KClient) as Hc'.
  assert (steps (held_opt KProgram p ∪ ({[(KClient, cc)]} ∪ ({[(KClient, client)]} ∪ s)))
    (_ ← release_opt KProgram p; _ ← release KClient client; release KClient cc) (λ o s2, o = Ret () ∧ s2 = s)) as Hrest.
  { apply steps_bind, steps_close_opt. destruct p as [p|]; simpl.
    - split; [set_solver|]. specialize (H1 p eq_refl KProgram).
      apply steps_bind, steps_close; [set_solver|]. apply steps_close; [set_solver|]. split; [done|]. set_solver.
    - apply steps_bind, steps_close; [set_solver|]. apply steps_close; [set_solver|]. split; [done|]. set_solver. }
  apply steps_bind, steps_close_opt. destruct ch as [m|]; simpl in *.
  - split; [set_solver|]. specialize (H2 m eq_refl KProgram).
    replace (_ ∖ {[(KProgram, m)]}) with (held_opt KProgram p ∪ ({[(KClient, cc)]} ∪ ({[(KClient, client)]} ∪ s)) : gset (Kind * nat)).
    + exact Hrest.
    + destruct p as [p|]; simpl; [specialize (H3 p m eq_refl eq_refl); assert ((KProgram, p) ≠ (KProgram, m)) by congruence|]; set_solver.
  - replace (held_opt KProgram p ∪ ∅ ∪ _) with (held_opt KProgram p ∪ ({[(KClient, cc)]} ∪ ({[(KClient, client)]} ∪ s)) : gset (Kind * nat)) by set_solver.
    exact Hrest.
Qed.

Lemma judge_spj_steps `{!ClientsStart E} s payload : steps s (judge_spj payload) (λ _ s', s' = s).
Proof.
  unfold judge_spj.
  apply steps_bind, neutral_steps; [apply neutral_getitem|]. intros [language|e]; [|done].
  apply steps_bind, neutral_steps; [apply neutral_getitem|]. intros [source|e]; [|done].
  apply steps_bind, neutral_steps; [apply neutral_getitem|]. intros [tcs|e]; [|done].
  apply steps_bind, neutral_steps.
  { destruct (pl_spj payload) as [[d|]|]; [apply neutral_ret|apply neutral_raise|apply neutral_ret]. }
  intros [cfg|e]; [|done]. apply steps_if; [by apply steps_ret|].
  apply steps_bind, neutral_steps; [apply neutral_languages|]. intros [langs|e]; [|done].
  apply steps_bind, neutral_steps; [apply neutral_language_key|]. intros [key|e]; [|done].
  apply steps_bind, neutral_steps; [apply neutral_isolation|]. intros [iso|e]; [|done].
  apply steps_bind, create_client_steps; [done|]. intros client Hc.
  apply steps_bind, create_client_total. intros cc Hcc. apply steps_bind, steps_finally.
  eapply stepsL_mono; [apply spj_body_steps|]. intros o l s1 Hl.
  eapply steps_mono; [by apply spj_finally_steps|]. intros o2 s2 [-> ->].
  destruct o as [[v|[cm t]]|e]; [by apply steps_ret|by apply steps_ret|done].
Qed.

(** The special-judge mode releases what it acquires, when the sandbox
    clients can be created: both clients and the prepared programs are closed
    exactly once, on every path. *)
Theorem spj_releases `{!ClientsStart E} payload (w : JW E) s (Hw : holds s w) :
  holds s (judge_spj payload w).2.
Proof. by destruct (judge_spj_steps s payload w Hw) as (s' & H1 & ->). Qed.
End spj_properties.
