(* ===== verification/InteractiveMode.v ===== *)
(** The INTERACTIVE judge mode: app/modules/judge/modes/interactive.py. *)
From S2P Require Import Prelude PyFloat PyText PyStr Sandbox Schemas ResultMapper Scoring Checker.
From S2P Require Import JudgeConfig FileCache LanguageConfig DataLoader Runtime SandboxConfig CaseBuilder ModeBase SpjMode.
Open Scope Z_scope.

(** ** Pure parts *)

Definition case_limits (tc : TestCaseData) (problem : ProblemConfig) : JudgeLimits :=
  let cpu := z_or (tc_time_limit_ms tc) (pb_time_limit_ms problem) in
  mkLimits cpu (cpu * 5) (z_or (tc_memory_limit_kb tc) (pb_memory_limit_kb problem) * 1024) 256
    (Some (z_or (tc_output_limit_bytes tc) (z_or (pb_output_limit_bytes problem) (8 * 1024 * 1024)))).

Definition interactor_limits (cfg : InteractorConfig) (problem : ProblemConfig) : JudgeLimits :=
  let cpu := z_or (it_time_limit_ms cfg) (pb_time_limit_ms problem * 2) in
  mkLimits cpu (cpu * 2) (z_or (it_memory_limit_kb cfg) (pb_memory_limit_kb problem) * 1024) 256 None.

Definition input_content (ref : DataRef) : InputContent :=
  match dr_path ref with
  | Some p => if str_truthy p then FromPath p
              else match dr_data ref with DBytes bs => FromBytes bs | DStr t => FromText t | DNone => FromText [] end
  | None => match dr_data ref with DBytes bs => FromBytes bs | DStr t => FromText t | DNone => FromText [] end
  end.

(** The results of the two tasks. *)
Record Holder := mkHolder { h_user : option RunResult; h_interactor : option RunResult }.

Definition put_result (h : Holder) (who : Who) (r : option RunResult) : Holder :=
  match who with User => mkHolder r (h_interactor h) | Interactor => mkHolder (h_user h) r end.

(** [_try_run_user] and [_try_run_interactor]: an exception of the run becomes
    [None]; without a user program there is nothing to run. *)
Definition try_run (has_program : bool) (who : Who) (raw : outcome RunResult) : outcome (option RunResult) :=
  if negb has_program && bool_decide (who = User) then Ret None
  else match raw with
       | Ret r => Ret (Some r)
       | Raise e => if is_exception e then Ret None else Raise e
       end.

(** [for future in done: holder[futures[future]] = future.result()] *)
Definition collect_done (has_program : bool) (done_ : list (Who * outcome RunResult)) (h : Holder) : outcome Holder :=
  foldl (λ acc d, h ← acc; r ← try_run has_program d.1 d.2; mret (put_result h d.1 r)) (Ret h) done_.

Definition still_pending (pending : list Who) (done_ : list (Who * outcome RunResult)) : list Who :=
  filter (λ w, w ∉ map fst done_) pending.

Definition should_release_fifos (h : Holder) (done_ : list (Who * outcome RunResult)) : bool :=
  (match h_user h with Some u => negb (status_eqb (rr_status u) StAC) | None => false end)
  || bool_decide (Interactor ∈ map fst done_).

Definition timeout_seconds (problem : ProblemConfig) : f64 :=
  fmax (fdiv (f_of_Z (pb_time_limit_ms problem * 5)) (f_of_Z 1000)) (f_of_Z 10).

Definition interactive_status (h : Holder) : string :=
  match h_user h, h_interactor h with
  | Some u, Some i =>
    if negb (status_eqb (rr_status u) StAC) then to_oj_result (rr_status u)
    else if negb (status_eqb (rr_status i) StAC) then to_oj_result (rr_status i)
    else if negb (pr_exit_code (rr_run i) =? 0) then "WA"
    else "AC"
  | _, _ => "SE"
  end.

(** ** The locals of the [finally] clause; [None] for a descriptor is [-1]. *)
Record Locals := mkLocals {
  l_fd_AB : option nat;
  l_fd_BA : option nat;
  l_user_program : option nat;
  l_interactor_program : option nat;
}.
Definition set_fd_AB (o : option nat) (l : Locals) := mkLocals o (l_fd_BA l) (l_user_program l) (l_interactor_program l).
Definition set_fd_BA (o : option nat) (l : Locals) := mkLocals (l_fd_AB l) o (l_user_program l) (l_interactor_program l).
Definition set_user_program (o : option nat) (l : Locals) := mkLocals (l_fd_AB l) (l_fd_BA l) o (l_interactor_program l).
Definition set_interactor_program (o : option nat) (l : Locals) := mkLocals (l_fd_AB l) (l_fd_BA l) (l_user_program l) o.

(** What the loop accumulates: the tally and the compile metrics. *)
Record Progress := mkProgress { g_tally : Tally; g_ct : Z; g_cm : Z }.

Definition add_case (p : Progress) (c : CaseResult) (ac : bool) (points : f64) : Progress :=
  mkProgress (mkTally (t_cases (g_tally p) ++ [c]) (if ac then t_all_ac (g_tally p) else false)
    (if ac then fadd (t_total (g_tally p)) points else t_total (g_tally p))) (g_ct p) (g_cm p).

(** The entry of a program that does not compile. *)
Definition failed_entry (tc : TestCaseData) (verdict message : string) : CaseResult :=
  mkCase (tc_case_no tc) verdict 0 0 fzero [] (to_text message).

Section InteractiveMode.
Context {E : Type} `{!DataEnv E, !SandboxApi E, !InteractApi E, !JudgeEnv}.
Notation LW := (Locals * JW E)%type.

Definition close_AB : io LW () :=
  l ← get_locals;
  match l_fd_AB l with
  | Some fd => _ ← up (release KFd fd); set_locals (set_fd_AB None)
  | None => mret ()
  end.
Definition close_BA : io LW () :=
  l ← get_locals;
  match l_fd_BA l with
  | Some fd => _ ← up (release KFd fd); set_locals (set_fd_BA None)
  | None => mret ()
  end.

(** The [try] around the two waits. *)
Definition wait_both (problem : ProblemConfig) (has_program : bool) : io LW Holder :=
  done_ ← up (lift_ext (ix_wait [User; Interactor] (timeout_seconds problem)));
  h ← lift (collect_done has_program done_ (mkHolder None None));
  let release_fifos := should_release_fifos h done_ in
  _ ← when release_fifos (_ ← close_AB; close_BA);
  let pending := still_pending [User; Interactor] done_ in
  more ← (if bool_decide (pending = []) then mret (h, [])
          else
            more_done ← up (lift_ext (ix_wait pending
              (if release_fifos then f_of_Z 1 else timeout_seconds problem)));
            h' ← lift (collect_done has_program more_done h);
            mret (h', still_pending pending more_done));
  _ ← when (negb (bool_decide (more.2 = []))) (_ ← close_AB; close_BA);
  mret more.1.

(** Running the two programs of one case and reading the verdict. *)
Definition interact (problem : ProblemConfig) (icfg : InteractorConfig) (iso : IsolationConfig) (cg : CgroupConfig)
    (dir : nat) (user_program : option nat) (interactor_program : nat) (pcp : f64) (tc : TestCaseData)
    (acc : Progress) : io LW Progress :=
  _ ← up (lift_ext (ix_submit dir
        ((λ p, mkRunPaths p "interactor_to_user.fifo" "user_to_interactor.fifo" "user.stderr"
                 (case_limits tc problem) false []) <$> user_program)
        (mkRunPaths interactor_program "user_to_interactor.fifo" "interactor_to_user.fifo" "interactor.stderr"
           (interactor_limits icfg problem) true [0; 1]) iso cg));
  h ← try_finally (wait_both problem (bool_decide (is_Some user_program))) (up (lift_ext ix_shutdown));
  stderr ← up (lift_ext (ix_read dir "interactor.stderr"));
  let interactor_stderr_text :=
    match stderr with Some bs => take 4096 (universal_newlines (utf8_decode bs)) | None => [] end in
  let status_str := interactive_status h in
  let user_ac := String.eqb status_str "AC" in
  let points := if user_ac then pcp else fzero in
  mem ← match h_user h with Some u => lift (memory_kb (rr_run u)) | None => mret 0 end;
  mret (add_case acc
    (mkCase (tc_case_no tc) status_str
       (match h_user h with Some u => reported_run_time_ms (Some (rr_run u)) | None => 0 end) mem points
       (match h_user h with Some u => take 2048 (default [] (rr_stdout u)) | None => [] end)
       interactor_stderr_text)
    user_ac points).

(** Preparing the user program in the working directory of the case. *)
Definition prepare_user (source : string) (user_key : option string) (iso : IsolationConfig) (cg : CgroupConfig)
    (dir : nat) (user_client : option nat) : io LW (option (nat * Program)) :=
  match user_client, user_key with
  | Some client, Some key =>
    if str_truthy source then
      p ← up (acquire KProgram (sb_prepare client (mkPrepare key source None (Some dir) false) iso cg));
      _ ← set_locals (set_user_program (Some p.1));
      mret (Some p)
    else mret None
  | _, _ => mret None
  end.

(** The compile metrics keep their peak over the cases. *)
Definition record_compile (user : option (nat * Program)) (acc : Progress) : Progress :=
  match user with
  | Some p =>
    let cm := compile_metrics_from_process (Some (pg_compile p.2)) in
    mkProgress (g_tally acc) (if g_ct acc <? cm.1 then cm.1 else g_ct acc)
      (if g_cm acc <? cm.2 then cm.2 else g_cm acc)
  | None => acc
  end.

Definition user_failed (user : option (nat * Program)) : bool :=
  match user with Some p => negb (pg_compiled p.2) | None => false end.

(** The rest of the [try] of one case. *)
Definition run_prepared (problem : ProblemConfig) (icfg : InteractorConfig) (interactor_source interactor_key : string)
    (iso : IsolationConfig) (cg : CgroupConfig) (dir interactor_client : nat) (pcp : f64) (tc : TestCaseData)
    (user : option (nat * Program)) (acc : Progress) : io LW Progress :=
  if user_failed user then
    msg ← match user with Some p => lift (attr_message (pg_compile p.2)) | None => mret "" end;
    mret (add_case acc (failed_entry tc "CE" msg) false fzero)
  else
    inter ← up (acquire KProgram (sb_prepare interactor_client
               (mkPrepare interactor_key interactor_source None (Some dir) false) iso cg));
    _ ← set_locals (set_interactor_program (Some inter.1));
    if negb (pg_compiled inter.2) then
      msg ← lift (attr_message (pg_compile inter.2));
      mret (add_case acc (failed_entry tc "IE" msg) false fzero)
    else interact problem icfg iso cg dir (fst <$> user) inter.1 pcp tc acc.

(** The body of the [try] of one case. *)
Definition case_body (problem : ProblemConfig) (icfg : InteractorConfig) (source interactor_source : string)
    (user_key : option string) (interactor_key : string) (iso : IsolationConfig) (cg : CgroupConfig)
    (dir : nat) (user_client : option nat) (interactor_client : nat) (pcp : f64) (tc : TestCaseData)
    (acc : Progress) : io LW Progress :=
  user ← prepare_user source user_key iso cg dir user_client;
  run_prepared problem icfg interactor_source interactor_key iso cg dir interactor_client pcp tc user
    (record_compile user acc).

Definition case_finally (dir : nat) (user_client : option nat) (interactor_client : nat) (l : Locals) :
    io (JW E) () :=
  _ ← release_opt KFd (l_fd_AB l);
  _ ← release_opt KFd (l_fd_BA l);
  _ ← release_opt KProgram (l_interactor_program l);
  _ ← release_opt KProgram (l_user_program l);
  _ ← release_opt KClient user_client;
  _ ← release KClient interactor_client;
  release KDir dir.

(** One round of the loop over the test cases. *)
Definition interactive_case (problem : ProblemConfig) (icfg : InteractorConfig) (source interactor_source : string)
    (languages : option (list LanguageSpec)) (user_key : option string)
    (interactor_languages : list LanguageSpec) (interactor_key : string)
    (iso : IsolationConfig) (cg : CgroupConfig) (pcp : f64) (acc : Progress) (tc : TestCaseData) :
    io (JW E) Progress :=
  input_ref ← resolve_input_ref tc;
  dir ← acquire KDir ix_mkdtemp;
  _ ← lift_ext (ix_write_input dir.1 (input_content input_ref));
  _ ← lift_ext (ix_mkfifo dir.1 "user_to_interactor.fifo");
  _ ← lift_ext (ix_mkfifo dir.1 "interactor_to_user.fifo");
  fd_AB ← acquire KFd (ix_open dir.1 "user_to_interactor.fifo");
  fd_BA ← acquire KFd (ix_open dir.1 "interactor_to_user.fifo");
  user_client ← match languages with
                | Some ls => c ← create_sandbox_client ls; mret (Some c)
                | None => mret None
                end;
  interactor_client ← create_sandbox_client interactor_languages;
  try_finally_locals (mkLocals (Some fd_AB.1) (Some fd_BA.1) None None)
    (case_body problem icfg source interactor_source user_key interactor_key iso cg dir.1 user_client
       interactor_client pcp tc acc)
    (case_finally dir.1 user_client interactor_client).

Definition interactive_overall (t : Tally) : string :=
  if t_all_ac t then "AC"
  else match filter (λ r, is_failure r = true) (map c_result (t_cases t)) with
       | r :: _ => r
       | [] => "WA"
       end.

Definition interactive_verdict (submission_id : string) (p : Progress) : JudgeResultOut :=
  let t := g_tally p in
  let rm := run_metrics_from_cases (t_cases t) in
  mkResult submission_id "COMPLETED" (Some (interactive_overall t)) (t_total t) rm.1 rm.2
    (g_ct p) (g_cm p) None false (t_cases t) None 0.

Definition judge_interactive (payload : JudgePayload) : io (JW E) JudgeResultOut :=
  let problem := pl_problem payload in
  source ← getitem "source" (pl_source payload);
  tcs ← getitem "test_cases" (pl_test_cases payload);
  icfg ← get_dict (pl_interactor payload) (mkInteractor None None None None);
  let language_cfg := default None (pl_language payload) in
  let interactor_source := opt_str_or (it_source icfg) "" in
  if negb (str_truthy interactor_source) then mret (error_verdict (pl_submission_id payload) "缺少交互器源码")
  else
    languages ← match language_cfg with
                | Some l => ls ← lift (build_languages_config l "main"); mret (Some ls)
                | None => mret None
                end;
    interactor_language ← getitem "language" (it_language icfg);
    interactor_languages ← lift (build_languages_config interactor_language "interactor");
    isolation ← build_isolation_config;
    let cgroup := build_cgroup_config in
    pcp ← per_case_points problem (length tcs);
    p ← foreach tcs (mkProgress empty_tally 0 0)
          (interactive_case problem icfg source interactor_source languages (lg_key <$> language_cfg)
             interactor_languages (lg_key interactor_language) isolation cgroup pcp);
    mret (interactive_verdict (pl_submission_id payload) p).
End InteractiveMode.

(** ** The shape of the result *)
Definition interactive_entry (pcp : f64) (tc : TestCaseData) (c : CaseResult) : Prop :=
  c_case_no c = tc_case_no tc ∧ c_result c ≠ "SKIPPED" ∧ c_points c = (if is_AC c then pcp else fzero).

Lemma interactive_status_AC h :
  interactive_status h = "AC" ↔
  ∃ u i, h_user h = Some u ∧ h_interactor h = Some i ∧
    rr_status u = StAC ∧ rr_status i = StAC ∧ pr_exit_code (rr_run i) = 0.
Proof.
  unfold interactive_status. destruct (h_user h) as [u|], (h_interactor h) as [i|]; try naive_solver.
  unfold status_eqb. case_bool_decide as Hu; simpl.
  2:{ rewrite to_oj_result_AC. naive_solver. }
  case_bool_decide as Hi; simpl; [|rewrite to_oj_result_AC; naive_solver].
  destruct (Z.eqb_spec (pr_exit_code (rr_run i)) 0); simpl; naive_solver.
Qed.

Lemma to_oj_not_skipped st : to_oj_result st ≠ "SKIPPED".
Proof. by destruct st. Qed.

Lemma interactive_status_not_skipped h : interactive_status h ≠ "SKIPPED".
Proof.
  unfold interactive_status. destruct (h_user h), (h_interactor h); try done.
  repeat (case_match; [apply to_oj_not_skipped || done|]). done.
Qed.

Section shape.
Context {E : Type} `{!DataEnv E, !SandboxApi E, !InteractApi E, !JudgeEnv}.

(** Every round adds one entry of the test case. *)
Definition one_more (pcp : f64) (tc : TestCaseData) (acc acc' : Progress) : Prop :=
  ∃ c, interactive_entry pcp tc c ∧ g_tally acc' =
    mkTally (t_cases (g_tally acc) ++ [c]) (if is_AC c then t_all_ac (g_tally acc) else false)
      (if is_AC c then fadd (t_total (g_tally acc)) (c_points c) else t_total (g_tally acc)).

Lemma failed_entry_more pcp tc v msg acc acc0 :
  v = "CE" ∨ v = "IE" → g_tally acc = g_tally acc0 →
  one_more pcp tc acc0 (add_case acc (failed_entry tc v msg) false fzero).
Proof.
  intros Hv Heq. exists (failed_entry tc v msg). unfold add_case. simpl. rewrite Heq.
  destruct Hv as [-> | ->]; done.
Qed.

Lemma interact_more problem icfg iso cg dir up_ ip pcp tc acc (lw : Locals * JW E) acc' lw' :
  interact problem icfg iso cg dir up_ ip pcp tc acc lw = (Ret acc', lw') → one_more pcp tc acc acc'.
Proof.
  unfold interact. intros Hr. inv_runs. injection Hr as <- _.
  eexists (mkCase _ _ _ _ _ _ _). split; [|reflexivity].
  split; [done|]. split; [apply interactive_status_not_skipped|done].
Qed.

Lemma case_body_more problem icfg source src ukey ikey iso cg dir uc ic pcp tc acc (lw : Locals * JW E) acc' lw' :
  case_body problem icfg source src ukey ikey iso cg dir uc ic pcp tc acc lw = (Ret acc', lw') →
  one_more pcp tc acc acc'.
Proof.
  unfold case_body. intros (user & lw1 & _ & Hr)%bind_Ret_inv. revert Hr.
  assert (g_tally (record_compile user acc) = g_tally acc) as Heq by by destruct user.
  revert Heq. generalize (record_compile user acc). intros acc0 Heq. unfold run_prepared.
  destruct (user_failed user); intros Hr; inv_runs.
  - injection Hr as <- _. apply failed_entry_more; [by left|done].
  - destruct (negb _); inv_runs.
    + injection Hr as <- _. apply failed_entry_more; [by right|done].
    + apply interact_more in Hr as (c & Hc & Ht). exists c. split; [done|]. by rewrite Ht, Heq.
Qed.

Lemma interactive_loop_ok problem icfg source src ls ukey ils ikey iso cg pcp tcs (w : JW E) p w' :
  foreach tcs (mkProgress empty_tally 0 0)
    (interactive_case problem icfg source src ls ukey ils ikey iso cg pcp) w = (Ret p, w') →
  tally_ok (interactive_entry pcp) tcs (g_tally p).
Proof.
  intros Hr. eapply (foreach_Ret_inv (λ l p, tally_ok (interactive_entry pcp) l (g_tally p))); [| |exact Hr].
  - by split_and!; [constructor|..].
  - intros pre tc acc w0 acc' w1 Hacc Hc. unfold interactive_case in Hc. inv_runs.
    apply finally_locals_Ret_inv in Hc as (l & wb & Hb & _).
    apply case_body_more in Hb as (c & Hc & ->). by apply tally_snoc.
Qed.

Lemma overall_eq pcp tcs t :
  tally_ok (interactive_entry pcp) tcs t → interactive_overall t = compute_overall_result false (t_cases t).
Proof.
  intros (H1 & H2 & _). unfold interactive_overall, compute_overall_result. rewrite H2. clear H2.
  assert (Forall (λ c, c_result c ≠ "SKIPPED") (t_cases t)) as Hns.
  { clear -H1. induction H1 as [|tc c l k Hc _ IH]; constructor; [by destruct Hc as (_ & ? & _)|done]. }
  clear H1. induction Hns as [|c l Hc Hl IH]; [done|]. simpl.
  rewrite filter_cons. unfold is_AC in *. destruct (String.eqb_spec (c_result c) "AC") as [Hac|Hac]; simpl.
  - rewrite decide_False by by rewrite Hac. rewrite Hac. simpl. exact IH.
  - assert (is_failure (c_result c) = true) as ->; [|by rewrite decide_True].
    unfold is_failure. apply String.eqb_neq in Hac, Hc. by rewrite Hac, Hc.
Qed.

(** C9. A completed interactive run: one entry per test case, in order, worth an
    equal share of the points when it is AC and nothing otherwise; the score is
    the sum of those shares, and the verdict is the one the other modes compute:
    the first failing entry, AC when there is none. *)
Theorem interactive_result_shape payload (w : JW E) r w'
  (Hrun : judge_interactive payload w = (Ret r, w')) (Hdone : r_status r = "COMPLETED") :
  ∃ tcs p, pl_test_cases payload = Some tcs ∧ pb_points (pl_problem payload) = Some p ∧
    let share := fdiv p (f_of_Z (Z.max (Z.of_nat (length tcs)) 1)) in
    Forall2 (interactive_entry share) tcs (r_cases r) ∧
    r_score r = fsum (map c_points (filter (λ c, is_AC c = true) (r_cases r))) ∧
    r_result r = Some (compute_overall_result false (r_cases r)).
Proof.
  unfold judge_interactive in Hrun. inv_runs.
  assert (∃ tcs, pl_test_cases payload = Some tcs ∧ a0 = tcs) as (tcs & Htcs & ->).
  { destruct (pl_test_cases payload) as [tcs|]; [|done]. injection Hm0 as <- _. eauto. }
  exists tcs. destruct (negb _); [by injection Hrun as <- _|]. inv_runs. injection Hrun as <- _.
  match goal with H : per_case_points _ _ _ = _ |- _ => rename H into Hpcp end.
  match goal with H : foreach _ _ _ _ = _ |- _ => apply interactive_loop_ok in H; rename H into Ht end.
  revert Hpcp. unfold per_case_points. destruct (pb_points (pl_problem payload)) as [p|]; [|done].
  intros [= <- _]. exists p. split; [done|]. split; [done|]. simpl. pose proof Ht as (H1 & _ & H3).
  split; [exact H1|]. split; [exact H3|]. f_equal. by eapply overall_eq.
Qed.
End shape.

(** An interactive case is accepted exactly when both programs finished, both
    within their limits, and the interactor exited with code 0; an error of the
    user program takes precedence over one of the interactor. *)
Theorem interactive_accept h :
  (interactive_status h = "AC" ↔
   ∃ u i, h_user h = Some u ∧ h_interactor h = Some i ∧
     rr_status u = StAC ∧ rr_status i = StAC ∧ pr_exit_code (rr_run i) = 0) ∧
  (∀ u i, h_user h = Some u → h_interactor h = Some i → rr_status u ≠ StAC →
     interactive_status h = to_oj_result (rr_status u)).
Proof.
  split; [apply interactive_status_AC|]. intros u i Hu Hi Hne. unfold interactive_status.
  rewrite Hu, Hi. unfold status_eqb. by rewrite bool_decide_false.
Qed.

(** ** Resources *)

(** The host operations that precede the [try] of a case do not raise. *)
Class HostOk E `{!InteractApi E} : Prop := {
  ix_write_ok d c (e : E) : ∃ e', ix_write_input d c e = (Ret (), e');
  ix_mkfifo_ok d n (e : E) : ∃ e', ix_mkfifo d n e = (Ret (), e');
  ix_open_ok d n (e : E) : ∃ e', ix_open d n e = (Ret (), e');
}.

Section resources.
Context {E : Type} `{!DataEnv E, !SandboxApi E, !SandboxLaws E, !InteractApi E, !JudgeEnv}.
Implicit Types (s base : gset (Kind * nat)).

Lemma held_opt_notin k k' n o : (∀ m, o = Some m → m ≠ n) → (k, n) ∉ held_opt k' o.
Proof. intros Ho. destruct o as [m|]; simpl; [|set_solver]. specialize (Ho m eq_refl). set_solver. Qed.

Lemma steps_close_head (k : Kind) (o : option nat) (A : gset (Kind * nat)) (Q : outcome () → _ → Prop) :
  (∀ n, o = Some n → (k, n) ∉ A) → Q (Ret ()) A → steps (E:=E) (held_opt k o ∪ A) (release_opt k o) Q.
Proof.
  intros Hn HQ. apply steps_close_opt. destruct o as [n|]; simpl.
  - split; [set_solver|]. specialize (Hn n eq_refl).
    by replace (({[(k, n)]} ∪ A) ∖ {[(k, n)]}) with A by set_solver.
  - by replace (∅ ∪ A) with A by set_solver.
Qed.

(** The handles of the locals, and what the body of a case holds. *)
Definition nums (l : Locals) : list nat :=
  omap id [l_fd_AB l; l_fd_BA l; l_interactor_program l; l_user_program l].
Definition iheld base (l : Locals) s : Prop :=
  s = held_opt KFd (l_fd_AB l) ∪ (held_opt KFd (l_fd_BA l) ∪
        (held_opt KProgram (l_interactor_program l) ∪ (held_opt KProgram (l_user_program l) ∪ base))) ∧
  NoDup (nums l) ∧ Forall (λ n, ∀ k, (k, n) ∉ base) (nums l).

Lemma iheld_in base l s n :
  iheld base l s → n ∈ nums l → ∃ k, (k, n) ∈ s.
Proof.
  intros (-> & _) Hn. unfold nums in Hn. destruct l as [[a|] [b|] [u|] [i|]]; simpl in *;
    set_unfold in Hn; destruct_or?; subst; ((exists KFd; set_solver) || (exists KProgram; set_solver)).
Qed.

(** A new program. *)
Lemma iheld_new base (l l' : Locals) s (n : nat) :
  iheld base l s → (∀ k, (k, n) ∉ s) → (∀ k, (k, n) ∉ base) → nums l' ≡ₚ n :: nums l →
  (held_opt KFd (l_fd_AB l') ∪ (held_opt KFd (l_fd_BA l') ∪
        (held_opt KProgram (l_interactor_program l') ∪ (held_opt KProgram (l_user_program l') ∪ base)))
   = {[(KProgram, n)]} ∪ s) →
  iheld base l' ({[(KProgram, n)]} ∪ s).
Proof.
  intros Hl Hs Hb Hp Heq. split; [done|]. rewrite Hp. destruct Hl as (-> & Hnd & Hall) eqn:He. split.
  - constructor; [|done]. intros Hin. destruct (iheld_in base l _ n (conj eq_refl (conj Hnd Hall)) Hin) as [k Hk].
    by apply (Hs k).
  - by constructor.
Qed.

Lemma nums_AB l : nums (set_fd_AB None l) `sublist_of` nums l.
Proof. destruct l as [[a|] [b|] [u|] [i|]]; simpl; repeat constructor; apply sublist_nil_l || reflexivity. Qed.
Lemma nums_BA l : nums (set_fd_BA None l) `sublist_of` nums l.
Proof. destruct l as [[a|] [b|] [u|] [i|]]; simpl; repeat constructor; apply sublist_nil_l || reflexivity. Qed.

Lemma iheld_close_AB base l s n :
  iheld base l s → l_fd_AB l = Some n → (KFd, n) ∈ s ∧ iheld base (set_fd_AB None l) (s ∖ {[(KFd, n)]}).
Proof.
  intros (-> & Hnd & Hall) Hn. rewrite Hn. simpl. split; [set_solver|]. split.
  - simpl. unfold nums in *. rewrite Hn in *. simpl in *.
    apply NoDup_cons in Hnd as [Hni _]. apply Forall_cons in Hall as [Hb _]. specialize (Hb KFd).
    assert ((KFd, n) ∉ held_opt KFd (l_fd_BA l)).
    { apply held_opt_notin. intros m Hm ->. apply Hni. rewrite Hm. simpl. set_solver. }
    destruct (l_interactor_program l), (l_user_program l); simpl; set_solver.
  - split; [by eapply sublist_NoDup; [|apply nums_AB]|].
    eapply Forall_sublist; [apply nums_AB|done].
Qed.

Lemma iheld_close_BA base l s n :
  iheld base l s → l_fd_BA l = Some n → (KFd, n) ∈ s ∧ iheld base (set_fd_BA None l) (s ∖ {[(KFd, n)]}).
Proof.
  intros (-> & Hnd & Hall) Hn. rewrite Hn. simpl. split; [set_solver|]. split.
  - simpl. unfold nums in *. rewrite Hn in *.
    assert ((KFd, n) ∉ held_opt KFd (l_fd_AB l)).
    { apply held_opt_notin. intros m Hm ->. rewrite Hm in Hnd. simpl in Hnd.
      apply NoDup_cons in Hnd as [Hni _]. set_solver. }
    assert ((KFd, n) ∉ base). { eapply Forall_forall in Hall; [apply Hall|]. destruct (l_fd_AB l); simpl; set_solver. }
    destruct (l_interactor_program l), (l_user_program l); simpl; set_solver.
  - split; [by eapply sublist_NoDup; [|apply nums_BA]|].
    eapply Forall_sublist; [apply nums_BA|done].
Qed.

(** The body keeps what it holds in step with the locals. *)
Definition keepsL {A} base (m : io (Locals * JW E) A) : Prop :=
  ∀ l s, iheld base l s → stepsL l s m (λ _ l' s', iheld base l' s' ∧ l_user_program l' = l_user_program l ∧
    l_interactor_program l' = l_interactor_program l).

Lemma keepsL_ret {A} base (a : A) : keepsL base (mret a).
Proof. intros l s Hl. by apply stepsL_ret. Qed.
Lemma keepsL_lift {A} base (o : outcome A) : keepsL base (lift o).
Proof. intros l s Hl w Hw. by exists s. Qed.
Lemma keepsL_ext {A} base (m : io E A) : keepsL base (up (lift_ext m)).
Proof. intros l s Hl. by apply stepsL_up, steps_lift. Qed.
Lemma keepsL_bind {A B} base (m : io (Locals * JW E) A) (f : A → io (Locals * JW E) B) :
  keepsL base m → (∀ a, keepsL base (f a)) → keepsL base (m ≫= f).
Proof.
  intros Hm Hf l s Hl. apply stepsL_bind. eapply stepsL_mono; [by apply Hm|].
  intros [a|e] l' s' (H1 & H2 & H3); [|done]. eapply stepsL_mono; [by apply Hf|].
  intros o l2 s2 (K1 & K2 & K3). split_and!; congruence || done.
Qed.
Lemma keepsL_if {A} base (b : bool) (m1 m2 : io (Locals * JW E) A) :
  keepsL base m1 → keepsL base m2 → keepsL base (if b then m1 else m2).
Proof. by destruct b. Qed.
Lemma keepsL_close base : keepsL base (_ ← close_AB; close_BA).
Proof.
  apply keepsL_bind; [|intros _]; intros l s Hl; unfold close_AB, close_BA;
    apply stepsL_bind, stepsL_get.
  - destruct (l_fd_AB l) as [n|] eqn:Hn; [|by apply stepsL_ret].
    destruct (iheld_close_AB base l s n Hl Hn) as [Hin Hl'].
    apply stepsL_bind, stepsL_up, steps_close; [done|]. by apply stepsL_set.
  - destruct (l_fd_BA l) as [n|] eqn:Hn; [|by apply stepsL_ret].
    destruct (iheld_close_BA base l s n Hl Hn) as [Hin Hl'].
    apply stepsL_bind, stepsL_up, steps_close; [done|]. by apply stepsL_set.
Qed.
Lemma keepsL_when base b (m : io (Locals * JW E) ()) : keepsL base m → keepsL base (when b m).
Proof. intros. by apply keepsL_if; [|apply keepsL_ret]. Qed.
Lemma keepsL_finally {A} base (m : io (Locals * JW E) A) fin :
  keepsL base m → keepsL base fin → keepsL base (try_finally m fin).
Proof.
  intros Hm Hf l s Hl w Hw. destruct (Hm l s Hl w Hw) as (s1 & H1 & K1 & K2 & K3).
  unfold try_finally. destruct (m (l, w)) as [o [l1 w1]]. simpl in *.
  destruct (Hf l1 s1 K1 w1 H1) as (s2 & H2 & J1 & J2 & J3). exists s2.
  destruct (fin (l1, w1)) as [[[]|e] [l2 w2]]; simpl in *; split_and!; congruence || done.
Qed.
Hint Resolve keepsL_ret keepsL_lift keepsL_ext keepsL_bind keepsL_if keepsL_close keepsL_when keepsL_finally : keepsL.

Lemma keepsL_interact base problem icfg iso cg dir up_ ip pcp tc acc :
  keepsL base (interact problem icfg iso cg dir up_ ip pcp tc acc).
Proof.
  unfold interact. apply keepsL_bind; [apply keepsL_ext|]. intros _. apply keepsL_bind.
  - apply keepsL_finally; [|apply keepsL_ext]. unfold wait_both.
    apply keepsL_bind; [apply keepsL_ext|]. intros d. apply keepsL_bind; [apply keepsL_lift|]. intros h.
    apply keepsL_bind; [auto with keepsL|]. intros _. apply keepsL_bind; [|auto with keepsL].
    apply keepsL_if; [apply keepsL_ret|]. apply keepsL_bind; [apply keepsL_ext|]. auto with keepsL.
  - intros h. apply keepsL_bind; [apply keepsL_ext|]. intros se.
    apply keepsL_bind; [|auto with keepsL]. destruct (h_user h); auto with keepsL.
Qed.

(** Preparing a program: it joins what the body holds. *)
Lemma stepsL_user {B} base (l : Locals) s (m : io E Program) (f : nat * Program → io (Locals * JW E) B)
    (Q : outcome B → Locals → gset (Kind * nat) → Prop) :
  iheld base l s → l_user_program l = None → (∀ e, Q (Raise e) l s) →
  (∀ p s', iheld base (set_user_program (Some p.1) l) s' → stepsL (set_user_program (Some p.1) l) s' (f p) Q) →
  stepsL l s (p ← up (acquire KProgram m); _ ← set_locals (set_user_program (Some p.1)); f p) Q.
Proof.
  intros Hl Hnone He Hf. apply stepsL_bind, stepsL_up, steps_acquire; [done|].
  intros n p Hn. apply stepsL_bind, stepsL_set, Hf. eapply iheld_new; [done|done| | |].
  - intros k. destruct Hl as (-> & _). specialize (Hn k). set_solver.
  - destruct l as [[a|] [b|] [u|] [i|]]; simpl in *; try done; unfold nums; simpl; solve_Permutation.
  - destruct Hl as (-> & _). destruct l as [a b u i]; simpl in *. subst u. simpl. set_solver.
Qed.
Lemma stepsL_inter {B} base (l : Locals) s (m : io E Program) (f : nat * Program → io (Locals * JW E) B)
    (Q : outcome B → Locals → gset (Kind * nat) → Prop) :
  iheld base l s → l_interactor_program l = None → (∀ e, Q (Raise e) l s) →
  (∀ p s', iheld base (set_interactor_program (Some p.1) l) s' →
     stepsL (set_interactor_program (Some p.1) l) s' (f p) Q) →
  stepsL l s (p ← up (acquire KProgram m); _ ← set_locals (set_interactor_program (Some p.1)); f p) Q.
Proof.
  intros Hl Hnone He Hf. apply stepsL_bind, stepsL_up, steps_acquire; [done|].
  intros n p Hn. apply stepsL_bind, stepsL_set, Hf. eapply iheld_new; [done|done| | |].
  - intros k. destruct Hl as (-> & _). specialize (Hn k). set_solver.
  - destruct l as [[a|] [b|] [u|] [i|]]; simpl in *; try done; unfold nums; simpl; solve_Permutation.
  - destruct Hl as (-> & _). destruct l as [a b u i]; simpl in *. subst i. simpl. set_solver.
Qed.

Lemma stepsL_keeps {A} base (l : Locals) s (m : io (Locals * JW E) A) :
  keepsL base m → iheld base l s → stepsL l s m (λ _ l' s', iheld base l' s').
Proof. intros Hm Hl. eapply stepsL_mono; [by apply Hm|]. by intros o l' s' (? & _). Qed.

Lemma run_prepared_steps base problem icfg src ikey iso cg dir ic pcp tc user acc (l : Locals) s :
  iheld base l s → l_interactor_program l = None →
  stepsL l s (run_prepared problem icfg src ikey iso cg dir ic pcp tc user acc) (λ _ l' s', iheld base l' s').
Proof.
  intros Hl Hi. unfold run_prepared. apply stepsL_if; intros _.
  - apply stepsL_keeps; [|done]. apply keepsL_bind; [destruct user|]; auto with keepsL.
  - eapply stepsL_inter; [done..|]. intros p s' Hl'. apply stepsL_keeps; [|done].
    apply keepsL_if; [auto with keepsL|apply keepsL_interact].
Qed.

Lemma prepare_user_steps base source ukey iso cg dir uc (l : Locals) s :
  iheld base l s → l_user_program l = None → l_interactor_program l = None →
  stepsL l s (prepare_user (E:=E) source ukey iso cg dir uc)
    (λ o l' s', iheld base l' s' ∧ l_interactor_program l' = None).
Proof.
  intros Hl Hu Hi. unfold prepare_user. destruct uc as [c|]; [|by apply stepsL_ret].
  destruct ukey as [key|]; [|by apply stepsL_ret]. apply stepsL_if; intros _; [|by apply stepsL_ret].
  eapply stepsL_user; [done..|]. intros p s' Hl'. by apply stepsL_ret.
Qed.

Lemma case_body_steps base problem icfg source src ukey ikey iso cg dir uc ic pcp tc acc (l : Locals) s :
  iheld base l s → l_user_program l = None → l_interactor_program l = None →
  stepsL l s (case_body problem icfg source src ukey ikey iso cg dir uc ic pcp tc acc)
    (λ _ l' s', iheld base l' s').
Proof.
  intros Hl Hu Hi. unfold case_body. apply stepsL_bind.
  eapply stepsL_mono; [by apply prepare_user_steps|]. intros [user|e] l' s' [Hl' Hi']; [|done].
  by apply run_prepared_steps.
Qed.

(** The clients, the directory and what was held before the case. *)
Definition case_base (uc : option nat) (ic dir : nat) s : gset (Kind * nat) :=
  held_opt KClient uc ∪ (held_opt KClient (Some ic) ∪ (held_opt KDir (Some dir) ∪ s)).

Lemma case_finally_steps (uc : option nat) (ic dir : nat) (l : Locals) s s' :
  iheld (case_base uc ic dir s) l s' → (∀ n, uc = Some n → n ≠ ic ∧ ∀ k, (k, n) ∉ s) →
  (∀ k, (k, ic) ∉ s) → (∀ k, (k, dir) ∉ s) →
  steps s' (case_finally dir uc ic l) (λ o s2, o = Ret () ∧ s2 = s).
Proof.
  intros (-> & Hnd & Hall) Huc Hic Hdir. unfold case_finally.
  assert (∀ n, n ∈ nums l → ∀ k, (k, n) ∉ case_base uc ic dir s) as Hb.
  { intros n Hn k. eapply Forall_forall in Hall; [apply Hall|exact Hn]. }
  unfold nums in Hb, Hnd. destruct l as [ab ba up_ ip]. simpl in *.
  apply steps_bind, steps_close_head.
  { intros n ->. simpl in *. apply NoDup_cons in Hnd as [Hni _]. pose proof (Hb n ltac:(set_solver) KFd).
    assert ((KFd, n) ∉ held_opt KFd ba).
    { apply held_opt_notin. intros m -> ->. apply Hni. set_solver. }
    destruct ip, up_; simpl; set_solver. }
  apply steps_bind, steps_close_head.
  { intros n ->. pose proof (Hb n ltac:(destruct ab; simpl; set_solver) KFd). destruct ip, up_; simpl; set_solver. }
  apply steps_bind, steps_close_head.
  { intros n ->. pose proof (Hb n ltac:(destruct ab, ba; simpl; set_solver) KProgram).
    assert ((KProgram, n) ∉ held_opt KProgram up_); [|set_solver].
    apply held_opt_notin. intros m -> ->. destruct ab, ba; simpl in Hnd;
      repeat (apply NoDup_cons in Hnd as [? Hnd]); set_solver. }
  apply steps_bind, steps_close_head.
  { intros n ->. apply Hb. destruct ab, ba, ip; simpl; set_solver. }
  apply steps_bind, steps_close_head.
  { intros n ->. destruct (Huc n eq_refl) as [Hne Hn]. specialize (Hn KClient). simpl. set_solver. }
  apply steps_bind. change (release KClient ic) with (release_opt (E:=E) KClient (Some ic)).
  apply steps_close_head.
  { intros n [= <-]. specialize (Hic KClient). simpl. set_solver. }
  change (release KDir dir) with (release_opt (E:=E) KDir (Some dir)).
  apply steps_close_head; [|done]. intros n [= <-]. apply Hdir.
Qed.

(** *** The calls before the [try] *)

(** None of them raises. *)
Definition setup_ok : Prop := HostOk E ∧ ClientsStart E.

(** The outcome of a run is known where its postcondition is proved. *)
Lemma steps_know {A} s (m : io (JW E) A) (Q : outcome A → gset (Kind * nat) → Prop) :
  steps s m (λ o s', (∃ w, (m w).1 = o) → Q o s') → steps s m Q.
Proof. intros Hm w Hw. destruct (Hm w Hw) as (s' & H1 & H2). exists s'. split; [done|]. apply H2. by exists w. Qed.

Lemma lift_raises {A} (m : io E A) x : (∃ w : JW E, (lift_ext m w).1 = Raise x) → ∃ e, (m e).1 = Raise x.
Proof. intros [w Hw]. exists (jw_ext w). unfold lift_ext in Hw. by destruct (m (jw_ext w)). Qed.
Lemma acquire_raises {A} k (m : io E A) x : (∃ w : JW E, (acquire k m w).1 = Raise x) → ∃ e, (m e).1 = Raise x.
Proof.
  intros [w Hw]. apply lift_raises. exists w. unfold acquire, mbind, io_bind in Hw.
  destruct (lift_ext m w) as [[a|y] w1]; [done|by injection Hw as ->].
Qed.
Lemma client_raises ls x : (∃ w : JW E, (create_sandbox_client ls w).1 = Raise x) → ¬ setup_ok.
Proof. intros [w Hw] [_ Hc]. destruct (create_client_ok ls w) as (n & w' & Hr). by rewrite Hr in Hw. Qed.

(** How a case ends: with what was held before, or, after an exception of one of
    the calls before the [try], with the handles opened so far too, the first ones of
    the directory, the two descriptors and the user's client. *)
Definition setup_kinds : list Kind := [KDir; KFd; KFd; KClient].
Definition case_end {A} s (o : outcome A) (s' : gset (Kind * nat)) : Prop :=
  match o with
  | Ret _ => s' = s
  | Raise _ => ∃ hs : list (Kind * nat), s' = list_to_set hs ∪ s ∧ map fst hs `prefix_of` setup_kinds ∧
      Forall (λ h, h ∉ s) hs ∧ (setup_ok → hs = [])
  end.

Lemma case_end_same {A} s (o : outcome A) : case_end s o s.
Proof. destruct o; [done|]. exists []. split_and!; [set_solver|apply prefix_nil|constructor|done]. Qed.

Lemma case_end_lost {A} s x s' (hs : list (Kind * nat)) :
  s' = list_to_set hs ∪ s → map fst hs `prefix_of` setup_kinds → Forall (λ h, h ∉ s) hs → ¬ setup_ok →
  case_end (A:=A) s (Raise x) s'.
Proof. intros H1 H2 H3 H4. by exists hs. Qed.

Lemma interactive_case_steps problem icfg source src ls ukey ils ikey iso cg pcp acc tc s :
  steps s (interactive_case problem icfg source src ls ukey ils ikey iso cg pcp acc tc) (case_end s).
Proof.
  unfold interactive_case.
  apply steps_bind, neutral_steps; [apply neutral_input|]. intros [ref|e]; [|apply case_end_same].
  apply steps_bind, steps_acquire; [intros e; apply case_end_same|]. intros dir [] Hdir.
  assert (∀ x, ¬ setup_ok → case_end (A:=Progress) s (Raise x) ({[(KDir, dir)]} ∪ s)) as Hlost1.
  { intros x Hn. apply (case_end_lost _ _ _ [(KDir, dir)]); [set_solver|by exists [KFd; KFd; KClient]|by repeat constructor|done]. }
  apply steps_bind, steps_know, steps_lift. intros [[]|x] Hx.
  2:{ apply Hlost1. apply lift_raises in Hx as [e He]. simpl in He; intros [Ho _]; destruct (ix_write_ok dir (input_content ref) e) as [e' He']. by rewrite He' in He. }
  apply steps_bind, steps_know, steps_lift. intros [[]|x] Hx2.
  2:{ apply Hlost1. apply lift_raises in Hx2 as [e He]. simpl in He; intros [Ho _]; destruct (ix_mkfifo_ok dir "user_to_interactor.fifo" e) as [e' He']. by rewrite He' in He. }
  apply steps_bind, steps_know, steps_lift. intros [[]|x] Hx3.
  2:{ apply Hlost1. apply lift_raises in Hx3 as [e He]. simpl in He; intros [Ho _]; destruct (ix_mkfifo_ok dir "interactor_to_user.fifo" e) as [e' He']. by rewrite He' in He. }
  clear Hx Hx2 Hx3. apply steps_bind, steps_know, steps_acquire.
  { intros x Hx. apply Hlost1. apply acquire_raises in Hx as [e He]. simpl in He; intros [Ho _]; destruct (ix_open_ok dir "user_to_interactor.fifo" e) as [e' He']. by rewrite He' in He. }
  intros ab [] Hab _. apply steps_bind, steps_know, steps_acquire.
  { intros x Hx. apply acquire_raises in Hx as [e He]. apply (case_end_lost _ _ _ [(KDir, dir); (KFd, ab)]).
    - set_solver.
    - by exists [KFd; KClient].
    - specialize (Hab KFd). repeat constructor; set_solver.
    - simpl in He; intros [Ho _]; destruct (ix_open_ok dir "interactor_to_user.fifo" e) as [e' He']. by rewrite He' in He. }
  intros ba [] Hba _. simpl.
  assert (∀ x, ¬ setup_ok → case_end (A:=Progress) s (Raise x) ({[(KFd, ba)]} ∪ ({[(KFd, ab)]} ∪ ({[(KDir, dir)]} ∪ s)))) as Hlost3.
  { intros x Hn. apply (case_end_lost _ _ _ [(KDir, dir); (KFd, ab); (KFd, ba)]); [set_solver|by exists [KClient]| |done].
    specialize (Hab KFd). specialize (Hba KFd). repeat constructor; set_solver. }
  apply steps_bind.
  eapply (steps_mono _ _ (λ o s', match o with
    | Ret uc => s' = held_opt KClient uc ∪ ({[(KFd, ba)]} ∪ ({[(KFd, ab)]} ∪ ({[(KDir, dir)]} ∪ s))) ∧
                ∀ n, uc = Some n → ∀ k, (k, n) ∉ ({[(KFd, ba)]} ∪ ({[(KFd, ab)]} ∪ ({[(KDir, dir)]} ∪ s)) : gset (Kind * nat))
    | Raise x => case_end (A:=Progress) s (Raise x) s' end)).
  { destruct ls as [ls|]; [|apply steps_ret; split; [simpl; set_solver|done]].
    apply steps_bind, steps_know, create_client_steps.
    - intros x Hx. apply Hlost3. by eapply client_raises.
    - intros n Hn _. apply steps_ret. split; [done|]. by intros ? [= <-]. }
  intros [uc|x] s'; [|done]. intros [-> Huc].
  apply steps_bind, steps_know, create_client_steps.
  { intros x Hx%client_raises. destruct uc as [u|].
    - apply (case_end_lost (A:=Progress) _ x _ [(KDir, dir); (KFd, ab); (KFd, ba); (KClient, u)]); [set_solver|by exists []| |done].
      specialize (Hab KFd). specialize (Hba KFd). specialize (Huc u eq_refl KClient). repeat constructor; set_solver.
    - apply (case_end_lost (A:=Progress) _ x _ [(KDir, dir); (KFd, ab); (KFd, ba)]); [set_solver|by exists [KClient]| |done].
      specialize (Hab KFd). specialize (Hba KFd). repeat constructor; set_solver. }
  intros ic Hic _. apply steps_finally.
  eapply stepsL_mono.
  - apply (case_body_steps (case_base uc ic dir s)); [|done..].
    assert (ab ≠ dir) by (intros ->; apply (Hab KDir); set_solver).
    assert (ba ≠ dir ∧ ba ≠ ab) as [? ?] by (split; intros ->; [apply (Hba KDir)|apply (Hba KFd)]; set_solver).
    split; [simpl; unfold case_base; simpl; set_solver|]. split.
    + unfold nums. simpl. repeat constructor; set_solver.
    + assert (∀ n, uc = Some n → n ≠ ab ∧ n ≠ ba) as Hne.
      { intros n ->. split; intros ->; apply (Huc _ eq_refl KFd); set_solver. }
      assert (ic ≠ ab ∧ ic ≠ ba) as [? ?] by (split; intros ->; apply (Hic KFd); set_solver).
      unfold nums, case_base. simpl. repeat constructor; intros k.
      * specialize (Hab k). destruct uc as [u|]; simpl; [destruct (Hne u eq_refl)|]; set_solver.
      * specialize (Hba k). destruct uc as [u|]; simpl; [destruct (Hne u eq_refl)|]; set_solver.
  - intros o l s' Hl. eapply steps_mono; [apply (case_finally_steps _ _ _ _ s _ Hl)|].
    + intros n ->. split.
      * intros ->. apply (Hic KClient). simpl. set_solver.
      * intros k. specialize (Huc n eq_refl k). set_solver.
    + intros k. specialize (Hic k). set_solver.
    + intros k. specialize (Hdir k). set_solver.
    + intros o2 s2 [-> ->]. apply case_end_same.
Qed.

Lemma steps_foreach {X B} s (l : list X) (acc : B) (body : B → X → io (JW E) B) :
  (∀ acc x, steps s (body acc x) (case_end s)) → steps s (foreach l acc body) (case_end s).
Proof.
  intros Hb. revert acc. induction l as [|x l IH]; intros acc; simpl; [by apply steps_ret|].
  apply steps_bind. eapply steps_mono; [apply Hb|]. intros [b|e] s' Hs'; [|exact Hs'].
  simpl in Hs'. subst s'. apply IH.
Qed.

Lemma judge_interactive_steps s payload : steps s (judge_interactive payload) (case_end s).
Proof.
  assert (∀ e, case_end (A:=JudgeResultOut) s (Raise e) s) as Hsame by (intros e; apply case_end_same).
  unfold judge_interactive.
  apply steps_bind, neutral_steps; [apply neutral_getitem|]. intros [source|e]; [|done].
  apply steps_bind, neutral_steps; [apply neutral_getitem|]. intros [tcs|e]; [|done].
  apply steps_bind, neutral_steps.
  { destruct (pl_interactor payload) as [[d|]|]; [apply neutral_ret|apply neutral_raise|apply neutral_ret]. }
  intros [cfg|e]; [|done]. apply steps_if; [by apply steps_ret|].
  apply steps_bind, neutral_steps.
  { destruct (default None (pl_language payload)); [|apply neutral_ret].
    apply neutral_bind; [apply neutral_lift_outcome|intros; apply neutral_ret]. }
  intros [ls|e]; [|done]. apply steps_bind, neutral_steps; [apply neutral_getitem|]. intros [il|e]; [|done].
  apply steps_bind, neutral_steps; [apply neutral_lift_outcome|]. intros [ils|e]; [|done].
  apply steps_bind, neutral_steps; [apply neutral_isolation|]. intros [iso|e]; [|done].
  apply steps_bind, neutral_steps.
  { unfold per_case_points. apply neutral_bind; [|intros; apply neutral_ret].
    destruct (pb_points (pl_problem payload)); [apply neutral_ret|apply neutral_raise]. }
  intros [pcp|e]; [|done]. apply steps_bind. eapply steps_mono.
  { apply steps_foreach. intros. apply interactive_case_steps. }
  intros [p|e] s' Hs'; [|exact Hs']. simpl in Hs'. subst s'. by apply steps_ret.
Qed.

(** C6. What the interactive mode releases, whatever the host, the sandbox, the tasks
    and the waits do (closing does not raise): every handle it closes is one it
    holds, closed once - a FIFO descriptor by the early release or by the [finally]
    clause, never by both. A run that returns has released all it acquired: for every
    test case the two descriptors, the programs, the clients and the directory. So
    has a run that raises, except when the exception comes from a call before the
    [try] of a case: then what this case had opened by then stays behind - the first
    ones of its directory, its two descriptors and the user's client, and never a
    program or the interactor's client. *)
Theorem interactive_releases payload (w : JW E) s (Hw : holds s w) :
  ∃ s', holds s' (judge_interactive payload w).2 ∧
    match (judge_interactive payload w).1 with
    | Ret _ => s' = s
    | Raise _ => ∃ hs : list (Kind * nat), s' = list_to_set hs ∪ s ∧ map fst hs `prefix_of` [KDir; KFd; KFd; KClient] ∧
        Forall (λ h, h ∉ s) hs ∧ (HostOk E ∧ ClientsStart E → hs = [])
    end.
Proof. exact (judge_interactive_steps s payload w Hw). Qed.
End resources.
