(* ===== verification/Orchestrator.v ===== *)
(** The judge entry points: app/modules/judge/modes/__init__.py (the registry),
    app/modules/judge/orchestrator.py and app/modules/judge/tasks.py. *)
From S2P Require Import Prelude PyFloat PyText PyStr Sandbox Schemas ResultMapper Scoring JudgeConfig.
From S2P Require Import FileCache LanguageConfig DataLoader Runtime SandboxConfig CaseBuilder ModeBase StandardMode SpjMode.
From S2P Require Import InteractiveMode.
Open Scope Z_scope.

(** [time.monotonic()]: reading the clock does not raise. *)
Class Clock (E : Type) := { monotonic : E → f64 * E }.

(** The two pydantic models of the task.  [model_validate] answers the text of the
    [ValidationError], or the dictionary as this development reads it;
    [validate_result] is [JudgeResultOut.model_validate(result).model_dump()]. *)
Class Pydantic (Raw : Type) := {
  raw_is_dict : Raw → bool;
  raw_submission_id : Raw → option string;     (* [str(payload.get("submission_id"))], [None] when falsy *)
  model_validate : Raw → string + JudgePayload;
  validate_result : JudgeResultOut → outcome JudgeResultOut;
}.

Section Orchestrator.
Context {E : Type} `{!DataEnv E, !SandboxApi E, !InteractApi E, !JudgeEnv, !Clock E}.

Definition read_clock : io (JW E) f64 :=
  lift_ext (λ e, let '(t, e') := monotonic e in (Ret t, e')).

(** [MODE_REGISTRY] and its [get(judge_mode, MODE_REGISTRY["STANDARD"])] *)
Definition MODE_REGISTRY (judge_mode : string) : option (JudgePayload → io (JW E) JudgeResultOut) :=
  if String.eqb judge_mode "STANDARD" then Some judge_standard
  else if String.eqb judge_mode "SPECIAL_JUDGE" then Some judge_spj
  else if String.eqb judge_mode "INTERACTIVE" then Some judge_interactive
  else None.
Definition mode_of (judge_mode : string) : JudgePayload → io (JW E) JudgeResultOut :=
  default judge_standard (MODE_REGISTRY judge_mode).

Definition elapsed_ms (t_start now : f64) : Z := f_trunc (fmul (fsub now t_start) (f_of_Z 1000)).

Definition set_wall_time (t : Z) (r : JudgeResultOut) : JudgeResultOut :=
  mkResult (r_submission_id r) (r_status r) (r_result r) (r_score r) (r_time_ms r) (r_memory_kb r)
    (r_compile_time_ms r) (r_compile_memory_kb r) (r_compile_output r) (r_compile_error r) (r_cases r)
    (r_error r) t.

Definition _build_failed_result (payload : JudgePayload) (exc : exn) (t_start : f64) : io (JW E) JudgeResultOut :=
  now ← read_clock;
  mret (mkResult (pl_submission_id payload) "FAILED" None fzero 0 0 0 0 None false [] (Some (exn_str exc))
    (elapsed_ms t_start now)).

Definition judge (payload : JudgePayload) : io (JW E) JudgeResultOut :=
  let judge_mode := default "STANDARD" (pl_judge_mode payload) in
  t_start ← read_clock;
  result_payload ← try_except (mode_of judge_mode payload) is_exception
                     (λ exc, _build_failed_result payload exc t_start);
  now ← read_clock;
  mret (set_wall_time (elapsed_ms t_start now) result_payload).

(** ** tasks.py *)
Definition _failed_result (submission_id error : string) : JudgeResultOut :=
  result_defaults (if str_truthy submission_id then submission_id else "?") "FAILED" (Some error).

Definition execute_judge {Raw} `{!Pydantic Raw} (payload : Raw) : io (JW E) JudgeResultOut :=
  let submission_id := if raw_is_dict payload then default "?" (raw_submission_id payload) else "?" in
  match model_validate payload with
  | inl exc => mret (_failed_result submission_id ("invalid payload: " +:+ exc))
  | inr p => result ← judge p; lift (validate_result result)
  end.

(** ** What every mode returns *)
Definition good_result (payload : JudgePayload) (r : JudgeResultOut) : Prop :=
  r_submission_id r = pl_submission_id payload ∧
  ((r_status r = "COMPLETED" ∧ r_error r = None ∧ is_Some (r_result r)) ∨
   (r_status r = "FAILED" ∧ is_Some (r_error r) ∧ r_result r = None ∧ r_score r = fzero ∧ r_cases r = [])).

Lemma error_verdict_good payload msg : good_result payload (error_verdict (pl_submission_id payload) msg).
Proof. split; [done|]. right. by split_and!. Qed.

Lemma standard_good payload (w : JW E) r w' : judge_standard payload w = (Ret r, w') → good_result payload r.
Proof.
  unfold judge_standard. intros Hr. inv_runs.
  match type of Hr with context [if ?b then _ else _] => destruct b end.
  { injection Hr as <- _. apply error_verdict_good. }
  inv_runs. apply finally_locals_Ret_inv in Hr as (l & wb & Hb & _). unfold run_batch in Hb. inv_runs.
  unfold lift in Hb. injection Hb as Hv _. revert Hv. unfold batch_verdict.
  destruct (raw_results _ _ _ _) as [raw|]; [|done]. simpl.
  destruct (if has_batch _ then _ else _) as [cs sc]. intros Hv.
  repeat match type of Hv with (_ ≫= _) = _ => progress (simpl in Hv) end.
  destruct (if negb _ then mret "CE" else _) as [ov|]; [|done]. simpl in Hv.
  destruct (if opt_str_truthy _ then _ else _) as [co|]; [|done]. injection Hv as <-.
  split; [done|]. left. by split_and!; [..|eexists].
Qed.

Lemma spj_good payload (w : JW E) r w' : judge_spj payload w = (Ret r, w') → good_result payload r.
Proof.
  unfold judge_spj. intros Hr. inv_runs.
  match type of Hr with context [if ?b then _ else _] => destruct b end.
  { injection Hr as <- _. apply error_verdict_good. }
  inv_runs. match goal with H : try_finally_locals _ _ _ _ = _ |- _ =>
    apply finally_locals_Ret_inv in H as (l & wb & Hb & _) end.
  match type of Hr with match ?x with _ => _ end _ = _ => destruct x as [v|[cm t]] end; injection Hr as <- _.
  - unfold spj_body in Hb. inv_runs. destruct (negb _).
    { injection Hb as <- _. apply error_verdict_good. }
    inv_runs. destruct (negb _); [injection Hb as <- _; apply error_verdict_good|]. by inv_runs.
  - split; [done|]. left. by split_and!; [..|eexists].
Qed.

Lemma interactive_good payload (w : JW E) r w' : judge_interactive payload w = (Ret r, w') → good_result payload r.
Proof.
  unfold judge_interactive. intros Hr. inv_runs.
  match type of Hr with context [if ?b then _ else _] => destruct b end.
  { injection Hr as <- _. apply error_verdict_good. }
  inv_runs. injection Hr as <- _. split; [done|]. left. by split_and!; [..|eexists].
Qed.

Lemma mode_good m payload (w : JW E) r w' : mode_of m payload w = (Ret r, w') → good_result payload r.
Proof.
  unfold mode_of, MODE_REGISTRY. repeat case_match; simpl;
    eauto using standard_good, spj_good, interactive_good.
Qed.

Lemma good_wall payload r t : good_result payload r → good_result payload (set_wall_time t r).
Proof. done. Qed.

Lemma read_clock_run (w : JW E) : ∃ t w', read_clock w = (Ret t, w').
Proof. unfold read_clock, lift_ext. destruct (monotonic (jw_ext w)) as [t e]. eauto. Qed.

(** What the entry point answers, from what the mode does. *)
Lemma judge_run payload (w : JW E) :
  ∃ t w0, read_clock w = (Ret t, w0) ∧
    match mode_of (default "STANDARD" (pl_judge_mode payload)) payload w0 with
    | (Ret r, _) => ∃ ms w', judge payload w = (Ret (set_wall_time ms r), w')
    | (Raise e, w1) =>
      if is_exception e
      then ∃ ms w', judge payload w = (Ret (set_wall_time ms
             (mkResult (pl_submission_id payload) "FAILED" None fzero 0 0 0 0 None false [] (Some (exn_str e)) 0)), w')
      else judge payload w = (Raise e, w1)
    end.
Proof.
  destruct (read_clock_run w) as (t & w0 & Ht). exists t, w0. split; [done|].
  unfold judge. rewrite (run_ret _ _ _ _ _ Ht).
  destruct (mode_of _ payload w0) as [[r|e] w1] eqn:Hm.
  - destruct (read_clock_run w1) as (t2 & w2 & Ht2). eexists _, _.
    rewrite (run_ret _ _ _ r w1) by (unfold try_except; by rewrite Hm).
    by rewrite (run_ret _ _ _ _ _ Ht2).
  - destruct (is_exception e) eqn:He.
    + destruct (read_clock_run w1) as (t2 & w2 & Ht2). destruct (read_clock_run w2) as (t3 & w3 & Ht3).
      eexists _, _. erewrite run_ret.
      2:{ unfold try_except. rewrite Hm, He. unfold _build_failed_result. by rewrite (run_ret _ _ _ _ _ Ht2). }
      by rewrite (run_ret _ _ _ _ _ Ht3).
    + erewrite run_raise; [done|]. unfold try_except. by rewrite Hm, He.
Qed.

Lemma judge_good payload (w : JW E) :
  match judge payload w with
  | (Ret r, _) => good_result payload r
  | (Raise e, _) => is_exception e = false
  end.
Proof.
  destruct (judge_run payload w) as (t & w0 & _ & Hj).
  destruct (mode_of _ payload w0) as [[r|e] w1] eqn:Hm.
  - destruct Hj as (ms & w' & ->). by apply good_wall, (mode_good _ _ _ _ _ Hm).
  - destruct (is_exception e) eqn:He; [|by rewrite Hj].
    destruct Hj as (ms & w' & ->). split; [done|]. right. by split_and!; [|eexists|..].
Qed.

(** C1. The judge always answers: for every payload, judge mode, sandbox behaviour
    and data error the entry point returns a result for that submission, either
    COMPLETED with a verdict or FAILED with an error message, no verdict, no
    score and no cases; only an exception that [except Exception] lets through
    (an interrupt) escapes. *)
Theorem judge_always_answers payload (w : JW E) :
  match judge payload w with
  | (Ret r, _) => good_result payload r
  | (Raise e, _) => is_exception e = false
  end.
Proof. apply judge_good. Qed.

(** The Celery task: an invalid payload is answered with FAILED and nothing
    runs; on a valid one, a result that validates as it is (or a normalised one)
    is returned, and no exception of the judging escapes. *)
Theorem execute_judge_answers {Raw} `{!Pydantic Raw} (payload : Raw) (w : JW E)
  (Hval : ∀ r, ∃ r', validate_result r = Ret r' ∧ r_status r' = r_status r ∧ r_submission_id r' = r_submission_id r) :
  match model_validate payload, execute_judge payload w with
  | inl exc, (o, w') => w' = w ∧ ∃ sid, o = Ret (_failed_result sid ("invalid payload: " +:+ exc))
  | inr p, (Ret r, _) => r_submission_id r = pl_submission_id p ∧ (r_status r = "COMPLETED" ∨ r_status r = "FAILED")
  | inr p, (Raise e, _) => is_exception e = false
  end.
Proof.
  unfold execute_judge. destruct (model_validate payload) as [exc|p]; [by split; [|eexists]|].
  pose proof (judge_good p w) as Hj. destruct (judge p w) as [[r|e] w1] eqn:Hr.
  - rewrite (run_ret _ _ _ _ _ Hr). unfold lift. destruct (Hval r) as (r' & -> & Hst & Hsid).
    destruct Hj as [Hs Hc]. rewrite Hsid, Hst. split; [done|]. naive_solver.
  - by rewrite (run_raise _ _ _ _ _ Hr).
Qed.
End Orchestrator.
