(* ===== verification/JudgeWitness.v ===== *)
(** A concrete sandbox, host and payload, the properties of the judge modes at
    them, and the resources two of the modes lose when a sandbox client cannot be
    created. *)
From S2P Require Import Prelude PyFloat PyText PyStr Sandbox Schemas ResultMapper Scoring JudgeConfig.
From S2P Require Import FileCache LanguageConfig DataLoader Runtime SandboxConfig CaseBuilder ModeBase StandardMode SpjMode.
From S2P Require Import InteractiveMode Orchestrator.
Open Scope Z_scope.

(** ** The external state: the number of clients started so far *)
Definition inline_ref (t : text) : DataRef := mkDataRef None (DStr t) None t.

#[export] Instance example_data : DataEnv nat := {|
  storage_ready _ := true;
  set_storage_ready e := e;
  get_storage := mret ();
  get_path := None;
  cache_resolve _ _ := mret None;
  exists_path _ := mret false;
  from_path _ := raise (FileNotFoundError "open");
  from_data := inline_ref;
|}.

Definition process (st : Status) : ProcessResult := mkProcess st (Some 12) (Some 20) (Some 4096) 0 (Some "").
Definition finished : RunResult := mkRun StAC (process StAC) "out" "err" (Some []).

(** A sandbox that accepts the first case of a batch and lets the second time
    out; [limit]: how many clients it can start. *)
Definition example_sandbox (limit : option nat) : SandboxApi nat := {|
  sb_client _ e := if match limit with Some l => (l <=? e)%nat | None => false end
                   then (Raise (OtherError "SandboxError" "no worker"), e) else (Ret (), S e);
  sb_register_callback := None;
  sb_cache_configure _ _ _ := mret ();
  sb_run_cases _ args := mret (mkBatch (process StAC)
    [mkSandboxCase StAC (inline_ref [49]) (Some (inline_ref [49])) (process StAC) (inline_ref []);
     mkSandboxCase StTLE (inline_ref []) (Some (inline_ref [50])) (process StTLE) (inline_ref [])] None);
  sb_prepare _ _ _ _ := mret (mkProgram true (process StAC) None);
  sb_run _ _ _ _ := mret finished;
  sb_run_checker _ _ _ _ := mret true;
  sb_preview _ := mret [];
  sb_testlib_id := "testlib";
  sb_close _ _ := mret ();
  sb_files _ := ∅;
|}.

#[export] Instance ok_sandbox : SandboxApi nat := example_sandbox None.
#[export] Instance example_judge_env : JudgeEnv := {|
  je_module_configs := ∅; je_fallback := default_judge_settings; je_worker_concurrency := 4; je_debug := true;
|}.
#[export] Instance example_interact : InteractApi nat := {|
  ix_mkdtemp := mret ();
  ix_write_input _ _ := mret ();
  ix_mkfifo _ _ := mret ();
  ix_open _ _ := mret ();
  ix_submit _ _ _ _ _ := mret ();
  ix_wait pending _ := mret (map (λ w, (w, Ret finished)) pending);
  ix_shutdown := mret ();
  ix_read _ _ := mret None;
|}.
#[export] Instance example_clock : Clock nat := {| monotonic e := (fzero, e) |}.

#[export] Instance ok_laws : SandboxLaws nat.
Proof. split. intros k n e. by exists e. Qed.
Lemma one_client_laws : SandboxLaws (SandboxApi0 := example_sandbox (Some 1%nat)) nat.
Proof. split. intros k n e. by exists e. Qed.
#[export] Instance ok_clients : ClientsStart nat.
Proof. split; [intros; by eexists|done|done]. Qed.
#[export] Instance ok_host : HostOk nat.
Proof. split; intros; by eexists. Qed.

(** ** Payloads *)
Definition cpp : LanguageConfigIn := mkLanguage "cpp17" (Some "g++ {source} -o {exe}") (Some "{exe}") None.
Definition tc_of (no : Z) : TestCaseData :=
  mkTestCase no (Some (f_of_Z 50)) None None None (Some [49]) (Some [49]) None None None None None None None.
Definition tests : list TestCaseData := [tc_of 1; tc_of 2; tc_of 3].
Definition problem (points : f64) : ProblemConfig := mkProblem "P1" 1000 262144 (Some points) None None.
Definition payload (mode : string) (points : f64) : JudgePayload :=
  mkPayload "s1" (Some mode) (problem points) (Some (Some cpp)) (Some "int main(){}") (Some tests)
    (Some (Some (mkSpj (Some "checker")))) (Some (Some (mkInteractor (Some "interactor") (Some cpp) None None))).
Definition start : JW nat := mkJW 0%nat (mkFlags false false false) [] 0%nat.

Lemma start_holds : holds ∅ start.
Proof. split; [done|]. intros k n. set_solver. Qed.

Definition batch : BatchResult := mkBatch (process StAC)
  [mkSandboxCase StAC (inline_ref [49]) (Some (inline_ref [49])) (process StAC) (inline_ref []);
   mkSandboxCase StTLE (inline_ref []) (Some (inline_ref [50])) (process StTLE) (inline_ref [])] None.
Definition verdict (points : f64) : JudgeResultOut :=
  match batch_verdict ∅ "s1" (problem points) tests batch with
  | Ret r => r
  | Raise _ => error_verdict "" ""
  end.

Lemma verdict_run points : batch_verdict ∅ "s1" (problem points) tests batch = Ret (verdict points).
Proof. reflexivity. Qed.

(** ** Witnesses *)
Lemma acm_first_failure_witness :
  (Forall (λ c, is_AC c = true) (r_cases (verdict (f_of_Z 100))) ∧ length (r_cases (verdict (f_of_Z 100))) = 2%nat) ∨
  ∃ pre f post, r_cases (verdict (f_of_Z 100)) = pre ++ f :: post ∧ Forall (λ c, is_AC c = true) pre ∧
    is_failure (c_result f) = true ∧ Forall skipped post ∧
    length (r_cases (verdict (f_of_Z 100))) = 3%nat ∧
    r_score (verdict (f_of_Z 100)) = fsum (map c_points pre) ∧
    ∃ p, pb_points (problem (f_of_Z 100)) = Some p ∧
      r_result (verdict (f_of_Z 100)) =
        Some (if fge (r_score (verdict (f_of_Z 100))) p then "AC" else c_result f).
Proof. apply (acm_first_failure ∅ "s1" (problem (f_of_Z 100)) tests batch); reflexivity. Defined.

Lemma standard_accept_sound_witness :
  pr_status (br_compile batch) = StAC ∧ r_compile_error (verdict fzero) = false ∧
  ((∃ p, pb_points (problem fzero) = Some p ∧ fge (r_score (verdict fzero)) p = true) ∨
   Forall (λ c, c_result c = "AC" ∨ c_result c = "SKIPPED") (r_cases (verdict fzero))).
Proof. apply (standard_accept_sound ∅ "s1" (problem fzero) tests batch); reflexivity. Defined.

Lemma zero_points_accepts_witness : r_result (verdict fzero) = Some "AC".
Proof. apply (zero_points_accepts ∅ "s1" (problem fzero) tests batch); try reflexivity. repeat constructor. Defined.

Lemma standard_releases_witness : holds ∅ (judge_standard (payload "STANDARD" (f_of_Z 100)) start).2.
Proof. apply standard_releases, start_holds. Defined.

Definition result_of (o : outcome JudgeResultOut * JW nat) : JudgeResultOut :=
  match o.1 with Ret r => r | Raise _ => error_verdict "" "" end.

Lemma spj_result_shape_witness :
  let r := result_of (judge_spj (payload "SPECIAL_JUDGE" (f_of_Z 100)) start) in
  ∃ tcs p, Some tests = Some tcs ∧ Some (f_of_Z 100) = Some p ∧
    let share := fdiv p (f_of_Z (Z.max (Z.of_nat (length tcs)) 1)) in
    Forall2 (spj_entry share) tcs (r_cases r) ∧
    r_score r = fsum (map c_points (filter (λ c, is_AC c = true) (r_cases r))) ∧
    (r_result r = Some "AC" ↔ Forall (λ c, c_result c = "AC") (r_cases r)).
Proof.
  apply (spj_result_shape (payload "SPECIAL_JUDGE" (f_of_Z 100)) start _
    (judge_spj (payload "SPECIAL_JUDGE" (f_of_Z 100)) start).2); vm_compute; reflexivity.
Defined.

Lemma spj_releases_witness : holds ∅ (judge_spj (payload "SPECIAL_JUDGE" (f_of_Z 100)) start).2.
Proof. apply spj_releases, start_holds. Defined.

Lemma interactive_result_shape_witness :
  let r := result_of (judge_interactive (payload "INTERACTIVE" (f_of_Z 100)) start) in
  ∃ tcs p, Some tests = Some tcs ∧ Some (f_of_Z 100) = Some p ∧
    let share := fdiv p (f_of_Z (Z.max (Z.of_nat (length tcs)) 1)) in
    Forall2 (interactive_entry share) tcs (r_cases r) ∧
    r_score r = fsum (map c_points (filter (λ c, is_AC c = true) (r_cases r))) ∧
    r_result r = Some (compute_overall_result false (r_cases r)).
Proof.
  apply (interactive_result_shape (payload "INTERACTIVE" (f_of_Z 100)) start _
    (judge_interactive (payload "INTERACTIVE" (f_of_Z 100)) start).2); vm_compute; reflexivity.
Defined.

Lemma interactive_releases_witness :
  holds ∅ (judge_interactive (payload "INTERACTIVE" (f_of_Z 100)) start).2 ∧
  ∃ s' hs, holds s' (judge_interactive (SandboxApi0 := example_sandbox (Some 1%nat)) (payload "INTERACTIVE" (f_of_Z 100)) start).2 ∧
    s' = list_to_set hs ∪ ∅ ∧ map fst hs `prefix_of` [KDir; KFd; KFd; KClient].
Proof.
  split.
  - destruct (interactive_releases (payload "INTERACTIVE" (f_of_Z 100)) start ∅ start_holds) as (s' & H1 & H2).
    revert H1 H2. destruct (judge_interactive (payload "INTERACTIVE" (f_of_Z 100)) start) as [o w'] eqn:Hr.
    assert (∃ r, o = Ret r) as [r ->] by (apply (f_equal fst) in Hr; vm_compute in Hr; by eexists).
    simpl. intros H1 ->. exact H1.
  - destruct (interactive_releases (SandboxApi0 := example_sandbox (Some 1%nat)) (SandboxLaws0 := one_client_laws)
      (payload "INTERACTIVE" (f_of_Z 100)) start ∅ start_holds) as (s' & H1 & H2).
    revert H1 H2.
    destruct (judge_interactive (SandboxApi0 := example_sandbox (Some 1%nat)) (payload "INTERACTIVE" (f_of_Z 100)) start) as [o w'] eqn:Hr.
    assert (∃ e, o = Raise e) as [e ->] by (apply (f_equal fst) in Hr; vm_compute in Hr; by eexists).
    simpl. intros H1 (hs & H2 & H3 & _). exists s', hs. split; [exact H1|]. split; [exact H2|exact H3].
Defined.

#[export] Instance example_pydantic : Pydantic (string + JudgePayload) := {|
  raw_is_dict p := if p is inr _ then true else false;
  raw_submission_id p := match p with inr p => Some (pl_submission_id p) | inl _ => None end;
  model_validate p := p;
  validate_result := Ret;
|}.

Definition raw_payload : string + JudgePayload := inr (payload "STANDARD" (f_of_Z 100)).

Lemma execute_judge_answers_witness :
  match model_validate raw_payload, execute_judge raw_payload start with
  | inl exc, (o, w') => w' = start ∧ ∃ sid, o = Ret (_failed_result sid ("invalid payload: " +:+ exc))
  | inr p, (Ret r, _) => r_submission_id r = pl_submission_id p ∧ (r_status r = "COMPLETED" ∨ r_status r = "FAILED")
  | inr p, (Raise e, _) => is_exception e = false
  end.
Proof. exact (execute_judge_answers raw_payload start (λ r, ex_intro _ r (conj eq_refl (conj eq_refl eq_refl)))). Defined.

(** ** Resources lost before the [try] *)

(** The special-judge and the interactive mode create their sandbox clients
    (and the interactive mode its descriptors and its directory) before the [try]
    whose [finally] releases them: when the second client of a special-judge run
    cannot be started the first one is never closed, and when the client of an
    interactive case cannot be started its two descriptors and its directory stay
    behind, although the judge answers FAILED as if nothing was open. *)
Theorem client_failure_leaks :
  ledger (jw_trace (judge (SandboxApi0 := example_sandbox (Some 1%nat))
            (payload "SPECIAL_JUDGE" (f_of_Z 100)) start).2) = Some {[(KClient, 0%nat)]} ∧
  ledger (jw_trace (judge (SandboxApi0 := example_sandbox (Some 0%nat))
            (payload "INTERACTIVE" (f_of_Z 100)) start).2) =
    Some {[(KDir, 0%nat); (KFd, 1%nat); (KFd, 2%nat)]}.
Proof. split; vm_compute; reflexivity. Qed.
