(* ===== verification/PyList.v ===== *)
(** * PyList: [list.sort(key=...)] and keyed look-ups the components share

    Python's sort is stable; on a total preorder of the keys an insertion sort
    that inserts before the first strictly greater element computes the same
    list. *)
From S2P Require Import Prelude PyStr.

Section sort_by.
Context {A : Type} (leb : A → A → bool).

Fixpoint insert_by (x : A) (l : list A) : list A :=
  match l with
  | [] => [x]
  | y :: l' => if leb x y then x :: l else y :: insert_by x l'
  end.

(** [l.sort(key=...)], [leb x y] being [key(x) <= key(y)]. *)
Definition sort_by (l : list A) : list A := foldr insert_by [] l.

Lemma insert_by_perm x l : insert_by x l ≡ₚ x :: l.
Proof.
  induction l as [|y l IH]; simpl; [done|]. destruct (leb x y); [done|].
  rewrite IH. by rewrite Permutation_swap.
Qed.

Lemma sort_by_perm l : sort_by l ≡ₚ l.
Proof. induction l as [|x l IH]; simpl; [done|]. by rewrite insert_by_perm, IH. Qed.

Context (Htot : ∀ x y, leb x y = true ∨ leb y x = true)
        (Htrans : ∀ x y z, leb x y = true → leb y z = true → leb x z = true).

Lemma insert_by_sorted x l :
  StronglySorted leb l → StronglySorted leb (insert_by x l).
Proof.
  induction 1 as [|y l Hs IH Hy]; simpl; [by repeat constructor|].
  destruct (leb x y) eqn:Hle.
  - constructor; [by constructor|]. constructor; [by rewrite Hle|].
    eapply Forall_impl; [exact Hy|]. intros z Hz. simpl in *.
    apply Is_true_eq_left. apply Is_true_eq_true in Hz. eauto.
  - constructor; [done|]. rewrite insert_by_perm. constructor; [|done].
    destruct (Htot x y) as [H1|H1]; [congruence|by rewrite H1].
Qed.

Lemma sort_by_sorted l : StronglySorted leb (sort_by l).
Proof. induction l; simpl; [constructor|by apply insert_by_sorted]. Qed.
End sort_by.

(** Comparison of key tuples, component by component. *)
Definition lex_leb {A} (eqb leb : A → A → bool) (rest : bool) (a b : A) : bool :=
  if eqb a b then rest else leb a b.

(** A dict built from a list of keyed values, [{key(x): x for x in l}]: the last
    value of a key wins. *)
Definition dict_of {A} (key : A → string) (l : list A) : gmap string A :=
  foldl (λ d x, <[key x := x]> d) ∅ l.

Section dict_of.
Context {A : Type} (key : A → string).

Lemma foldl_dict_lookup l (d : gmap string A) k :
  NoDup (map key l) →
  foldl (λ d x, <[key x := x]> d) d l !! k =
    match list_find (λ x, key x = k) l with
    | Some (_, x) => Some x
    | None => d !! k
    end.
Proof.
  revert d. induction l as [|x l IH]; intros d Hnd; simpl; [done|].
  apply NoDup_cons in Hnd as [Hx Hnd]. rewrite IH by done.
  destruct (decide (key x = k)) as [<-|Hne].
  - destruct (list_find _ l) as [[i y]|] eqn:Hf; simpl; [|by rewrite lookup_insert_eq].
    apply list_find_Some in Hf as (Hy & Hk & _). destruct Hx. rewrite <-Hk.
    apply list_elem_of_fmap. exists y. split; [done|]. by eapply list_elem_of_lookup_2.
  - rewrite lookup_insert_ne by done. by destruct (list_find _ l) as [[i y]|].
Qed.

Lemma dict_of_Some l k x :
  NoDup (map key l) → dict_of key l !! k = Some x ↔ x ∈ l ∧ key x = k.
Proof.
  intros Hnd. unfold dict_of. rewrite foldl_dict_lookup by done.
  destruct (list_find _ l) as [[i y]|] eqn:Hf.
  - apply list_find_Some in Hf as (Hy & Hk & _). apply list_elem_of_lookup_2 in Hy. split.
    + by intros [= <-].
    + intros [Hx Hkx]. f_equal.
      apply list_elem_of_lookup in Hx as [a Ha], Hy as [b Hb].
      assert (a = b) as ->; [|congruence].
      eapply NoDup_lookup; [exact Hnd|rewrite list_lookup_fmap, Ha; simpl; reflexivity|].
      rewrite list_lookup_fmap, Hb. simpl. congruence.
  - rewrite lookup_empty. split; [done|]. intros [Hx Hk].
    apply list_find_None in Hf. rewrite Forall_forall in Hf. by destruct (Hf x Hx).
Qed.

Lemma elem_of_dom_foldl l (d : gmap string A) k :
  k ∈ dom (foldl (λ d x, <[key x := x]> d) d l) ↔ k ∈ dom d ∨ k ∈ map key l.
Proof.
  revert d. induction l as [|x l IH]; intros d; simpl; [set_solver|].
  rewrite IH, dom_insert. set_solver.
Qed.

Lemma elem_of_dom_dict l k : k ∈ dom (dict_of key l) ↔ k ∈ map key l.
Proof. unfold dict_of. rewrite elem_of_dom_foldl. set_solver. Qed.

Lemma dict_of_lookup_Some l k x : dict_of key l !! k = Some x → key x = k ∧ x ∈ l.
Proof.
  unfold dict_of. assert (∀ (d : gmap string A), (∀ k x, d !! k = Some x → key x = k ∧ x ∈ l) →
    ∀ l', (∀ x, x ∈ l' → x ∈ l) →
    foldl (λ d x, <[key x := x]> d) d l' !! k = Some x → key x = k ∧ x ∈ l) as Hg.
  { intros d Hd l'. revert d Hd. induction l' as [|y l' IH]; intros d Hd Hsub; simpl; [apply Hd|].
    apply IH; [|set_solver]. intros k' x' Hl.
    apply lookup_insert_Some in Hl as [[<- <-]|[_ Hl]]; [split; [done|set_solver]|by apply Hd]. }
  apply Hg; [|done]. intros k' x'. by rewrite lookup_empty.
Qed.
End dict_of.

(** [dict.fromkeys] of a list without duplicates. *)
Lemma foldl_fromkeys_app {A} `{EqDecision A} (l seen : list A) :
  NoDup (seen ++ l) → foldl fromkeys_step seen l = seen ++ l.
Proof.
  revert seen. induction l as [|x l IH]; intros seen Hnd; simpl; [by rewrite app_nil_r|].
  unfold fromkeys_step. apply NoDup_app in Hnd as Hsplit. destruct Hsplit as (_ & Hd & _).
  rewrite decide_False by (intros Hx; apply (Hd x Hx); left).
  rewrite IH; rewrite <-(assoc_L (++)); done.
Qed.

Lemma fromkeys_id {A} `{EqDecision A} (l : list A) : NoDup l → fromkeys l = l.
Proof. apply (foldl_fromkeys_app l []). Qed.
