(* ===== verification/ModuleSpecs.v ===== *)
(** * ModuleSpecs: the plug-in module system

    [src/app/platform/module/spec.py] and [discovery.py]: the declarations a
    module makes, the scan for manifests, and the order the modules load in.
    What the interpreter's import machinery answers (which packages exist, what
    a manifest's [module] attribute is, what importing one does) is the class
    [Importlib]. *)
From S2P Require Import Prelude PyText PyStr PyFloat PyList.

(** ** spec.py *)
Record RouteSpec := mkRouteSpec {
  rs_version : string; rs_router : string; rs_prefix : string;
  rs_tags : list string; rs_order : Z }.

Record BeatScheduleSpec := mkBeatScheduleSpec {
  bs_name : string; bs_task : string; bs_schedule : f64 }.

Record ConfigModelSpec := mkConfigModelSpec {
  cm_import_path : string; cm_prefix : string; cm_load_from_db : bool }.

Record ServiceRegistration := mkServiceRegistration {
  sr_interface : string; sr_implementation : string }.

Record ModuleSpec := mkModuleSpec {
  ms_name : string;
  ms_enabled : bool;
  ms_enabled_key : string;
  ms_routes : list RouteSpec;
  ms_models : list string;
  ms_tasks : list string;
  ms_beat_schedules : list BeatScheduleSpec;
  ms_startup_hooks : list string;
  ms_shutdown_hooks : list string;
  ms_order : Z;
  ms_config_model : string;
  ms_config_from_db : bool;
  ms_services : list ServiceRegistration;
  ms_event_handlers : list string;
  ms_depends_on : list string }.

(** The dataclass defaults: [ModuleSpec(name=...)]. *)
Definition ModuleSpec_default (name : string) : ModuleSpec :=
  mkModuleSpec name true "" [] [] [] [] [] [] 100 "" false [] [] [].

(** [path.partition(":")] *)
Fixpoint partition (c : ascii) (s : string) : string * bool * string :=
  match s with
  | EmptyString => (EmptyString, false, EmptyString)
  | String a s' =>
      if Ascii.eqb a c then (EmptyString, true, s')
      else let '(h, found, t) := partition c s' in (String a h, found, t)
  end.

Class Importlib (IW Obj : Type) := {
  (** [importlib.import_module] *)
  import_module : string → io IW Obj;
  (** [getattr(value, part)]: raises [AttributeError] *)
  getattr : Obj → string → io IW Obj;
  (** [getattr(package, "__path__", None)] *)
  package_path : Obj → option (list string);
  (** [pkgutil.walk_packages(paths, prefix)]: the names found and [ispkg] *)
  walk_packages : list string → string → io IW (list (string * bool));
  (** [importlib.util.find_spec(name) is not None] *)
  find_spec : string → io IW bool;
  (** [isinstance(x, ModuleSpec)] *)
  as_ModuleSpec : Obj → option ModuleSpec }.

Section import_string.
Context `{Importlib IW Obj}.

Definition import_string (path : string) : io IW Obj :=
  let '(module_path, separator, attr) := partition ":"%char path in
  if negb separator || negb (str_truthy module_path) || negb (str_truthy attr) then
    raise (ValueError ("Import path must use 'module:attribute' format: " +:+ path))
  else
    module ← import_module module_path;
    foreach (split_on "."%char attr) module getattr.
End import_string.

(** ** discovery.py

    [MWorld]: the environment variables, the [functools.cache] of the loaded
    specs and the interpreter. *)
Record MWorld (IW : Type) := mkMWorld {
  environ : gmap string string;
  specs_cache : gmap (list string) (list ModuleSpec);
  interp : IW }.
Arguments mkMWorld {IW}. Arguments environ {IW}. Arguments specs_cache {IW}. Arguments interp {IW}.

Definition with_interp {IW A} (m : io IW A) : io (MWorld IW) A :=
  λ w, let '(o, i) := m (interp w) in (o, mkMWorld (environ w) (specs_cache w) i).

(** [[item.strip() for item in s.split(",") if item.strip()]] *)
Definition comma_list (s : string) : list string :=
  filter (λ x, str_truthy x = true) (map str_strip (split_on ","%char s)).

Definition getenv (env : gmap string string) (name : string) : string := default "" (env !! name).

Definition _env_name_set (env : gmap string string) (name : string) : gset string :=
  list_to_set (comma_list (getenv env name)).

Definition _is_module_enabled (env : gmap string string) (spec : ModuleSpec) : bool :=
  let disabled := _env_name_set env "HEI_DISABLED_MODULES" in
  let enabled := _env_name_set env "HEI_ENABLED_MODULES" in
  if decide (ms_name spec ∈ disabled) then false
  else if decide (ms_name spec ∈ enabled) then true
  else ms_enabled spec.

Definition _resolve_package_names (env : gmap string string) (package_name : string) : list string :=
  foldl (λ names item, if decide (item ∈ names) then names else names ++ [item])
    (comma_list package_name) (comma_list (getenv env "HEI_MODULE_PACKAGES")).

(** *** The topological sort *)

(** The local variables of [_topological_sort] that [visit] changes; [path] is
    the set object the calls of one root share. *)
Record TopoState := mkTopo {
  ts_visited : gset string;
  ts_path : gset string;
  ts_result : list ModuleSpec }.

Section topo.
(** The order in which iterating over a set yields its elements: only the text
    of the error depends on it. *)
Context (set_iter : gset string → list string).

Definition circular (path : gset string) (name : string) : exn :=
  ValueError ("Circular module dependency: " +:+ join " -> " (set_iter path)
              +:+ " -> " +:+ name).

(** [visit]; the recursion is bounded by [fuel], which
    [topological_sort_total] shows is never used up. *)
Fixpoint visit (fuel : nat) (by_name : gmap string ModuleSpec) (name : string)
    : io TopoState () :=
  match fuel with
  | O => raise (OtherError "OutOfFuel" "")
  | S fuel =>
      st ← get;
      if decide (name ∈ ts_visited st) then mret ()
      else if decide (name ∈ ts_path st) then raise (circular (ts_path st) name)
      else match by_name !! name with
           | None => modify (λ st, mkTopo ({[name]} ∪ ts_visited st) (ts_path st) (ts_result st))
           | Some spec =>
               _ ← modify (λ st, mkTopo (ts_visited st) ({[name]} ∪ ts_path st) (ts_result st));
               _ ← foreach (ms_depends_on spec) () (λ _ dep, visit fuel by_name dep);
               modify (λ st, mkTopo ({[name]} ∪ ts_visited st) (ts_path st ∖ {[name]})
                               (ts_result st ++ [spec]))
           end
  end.

Definition spec_leb (a b : ModuleSpec) : bool :=
  lex_leb Z.eqb Z.leb (str_leb (ms_name a) (ms_name b)) (ms_order a) (ms_order b).

Definition visit_roots (fuel : nat) (by_name : gmap string ModuleSpec) (specs : list ModuleSpec)
    : io TopoState () :=
  foreach specs () (λ _ spec,
    st ← get;
    if decide (ms_name spec ∈ ts_visited st) then mret ()
    else
      (* visit(spec.name, set()): a new path *)
      _ ← modify (λ st, mkTopo (ts_visited st) ∅ (ts_result st));
      visit fuel by_name (ms_name spec)).

Definition _topological_sort (specs : list ModuleSpec) : outcome (list ModuleSpec) :=
  let by_name := dict_of ms_name specs in
  match visit_roots (S (size by_name)) by_name specs (mkTopo ∅ ∅ []) with
  | (Raise e, _) => Raise e
  | (Ret _, st) =>
      let result := ts_result st in
      let remaining := filter (λ s, ms_name s ∉ map ms_name result) specs in
      Ret (result ++ sort_by spec_leb remaining)
  end.

(** *** The scan *)
Context `{Importlib IW Obj}.

Definition _iter_module_manifest_names (package_name : string) : io IW (list string) :=
  package ← (import_module package_name : io IW Obj);
  match package_path package with
  | None => mret []
  | Some package_paths =>
      infos ← walk_packages (Obj:=Obj) package_paths (package_name +:+ ".");
      names ← foreach infos [] (λ (names : list string) (info : string * bool),
        if negb info.2 then mret names
        else
          let manifest_name := info.1 +:+ ".module" in
          found ← find_spec (Obj:=Obj) manifest_name;
          mret (match found with true => names ++ [manifest_name] | false => names end));
      mret (sorted (fromkeys names))
  end.

(** [getattr(manifest, "module", None)] and [isinstance(_, ModuleSpec)]. *)
Definition manifest_spec (manifest : Obj) : io IW (option ModuleSpec) :=
  try_except (o ← getattr manifest "module"; mret (as_ModuleSpec o))
    (λ e, match e with AttributeError _ => true | _ => false end)
    (λ _, mret None).

(** One iteration of the loop over the manifests: [specs] and [seen]. *)
Definition load_step (env : gmap string string) (acc : list ModuleSpec * gset string)
    (manifest_name : string) : io IW (list ModuleSpec * gset string) :=
  manifest ← (import_module manifest_name : io IW Obj);
  m ← manifest_spec manifest;
  match m with
  | None => raise (TypeError (manifest_name +:+ ".module must be a ModuleSpec instance"))
  | Some module_spec =>
      let '(specs, seen) := acc in
      if decide (ms_name module_spec ∈ seen) then
        raise (ValueError ("Duplicate module name: " +:+ ms_name module_spec))
      else if negb (_is_module_enabled env module_spec) then mret (specs, seen)
      else mret (specs ++ [module_spec], {[ms_name module_spec]} ∪ seen)
  end.

Definition load_uncached (env : gmap string string) (package_names : list string)
    : io IW (list ModuleSpec) :=
  manifest_names ← foreach package_names [] (λ acc package_name,
    names ← _iter_module_manifest_names package_name; mret (acc ++ names));
  acc ← foreach manifest_names ([], ∅) (load_step env);
  lift (_topological_sort acc.1).

(** [@cache]: a result is kept under its arguments, an exception is not. *)
Definition _load_module_specs_cached (package_names : list string)
    : io (MWorld IW) (list ModuleSpec) :=
  w ← get;
  match specs_cache w !! package_names with
  | Some specs => mret specs
  | None =>
      specs ← with_interp (load_uncached (environ w) package_names);
      _ ← modify (λ w, mkMWorld (environ w) (<[package_names := specs]> (specs_cache w)) (interp w));
      mret specs
  end.

Definition load_module_specs (package_name : string) : io (MWorld IW) (list ModuleSpec) :=
  w ← get;
  _load_module_specs_cached (_resolve_package_names (environ w) package_name).
End topo.
