(* ===== verification/ModuleProofs.v ===== *)
(** * ModuleProofs: the load order of the modules

    [_topological_sort] is proved total (the recursion of [visit] is bounded),
    to return a dependency-first permutation of the modules, and to raise
    exactly when the declared dependencies have a cycle; and the loader's result
    is put together from that. *)
From S2P Require Import Prelude PyText PyStr PyFloat PyList ModuleSpecs.

(** [a] declares a dependency on [b]. *)
Definition edge (bn : gmap string ModuleSpec) (a b : string) : Prop :=
  ∃ s, bn !! a = Some s ∧ b ∈ ms_depends_on s.

(** Every dependency that is a module comes before the module that declares it. *)
Definition deps_first (known : gset string) (l : list ModuleSpec) : Prop :=
  ∀ pre s post, l = pre ++ s :: post →
    ∀ d, d ∈ ms_depends_on s → d ∈ known → d ∈ map ms_name pre.

Lemma deps_first_snoc known l s :
  deps_first known l →
  (∀ d, d ∈ ms_depends_on s → d ∈ known → d ∈ map ms_name l) →
  deps_first known (l ++ [s]).
Proof.
  intros Hl Hs pre x post Heq d Hd Hk.
  destruct post as [|y post _] using rev_ind.
  - apply app_inj_2 in Heq as [-> [= ->]]; [|done]. by apply Hs.
  - rewrite app_comm_cons, (assoc_L (++)) in Heq. apply app_inj_2 in Heq as [Heq _]; [|done].
    by eapply Hl.
Qed.

Section visit.
Context (set_iter : gset string → list string) (bn : gmap string ModuleSpec).
Context (Hkey : ∀ k s, bn !! k = Some s → ms_name s = k).

(** The invariant of the traversal. *)
Record topo_ok (st : TopoState) : Prop := {
  tk_known : Forall (λ s, bn !! ms_name s = Some s ∧ ms_name s ∈ ts_visited st) (ts_result st);
  tk_nodup : NoDup (map ms_name (ts_result st));
  tk_done : ∀ n, n ∈ ts_visited st → n ∈ dom bn → n ∈ map ms_name (ts_result st);
  tk_order : deps_first (dom bn) (ts_result st);
  tk_disj : ts_path st ## ts_visited st;
  tk_path : ts_path st ⊆ dom bn }.

Definition cyclic : Prop := ∃ n, tc (edge bn) n n.

(** What a visit of [name] from [st] establishes. *)
Definition visit_post (name : string) (st : TopoState) (o : outcome ()) (st' : TopoState) : Prop :=
  match o with
  | Ret _ => topo_ok st' ∧ ts_path st' = ts_path st ∧ ts_visited st ⊆ ts_visited st' ∧
             name ∈ ts_visited st'
  | Raise e => (∃ m, e = ValueError m) ∧ cyclic
  end.

Lemma topo_ok_missing st name :
  topo_ok st → bn !! name = None → name ∉ ts_path st →
  topo_ok (mkTopo ({[name]} ∪ ts_visited st) (ts_path st) (ts_result st)).
Proof.
  intros [Hk Hn Hd Ho Hj Hp] Hname Hnp. split; simpl; try done.
  - eapply Forall_impl; [exact Hk|]. set_solver.
  - intros n [Hn'%elem_of_singleton|Hn']%elem_of_union Hdom; [subst n|by apply Hd].
    by apply elem_of_dom in Hdom as [s Hs]; rewrite Hname in Hs.
  - set_solver.
Qed.

Lemma topo_ok_push st name spec :
  topo_ok st → bn !! name = Some spec → name ∉ ts_visited st →
  topo_ok (mkTopo (ts_visited st) ({[name]} ∪ ts_path st) (ts_result st)).
Proof.
  intros [Hk Hn Hd Ho Hj Hp] Hname Hnv. split; simpl; try done; [set_solver|].
  apply elem_of_dom_2 in Hname. set_solver.
Qed.

Lemma topo_ok_append st name spec :
  topo_ok st → bn !! name = Some spec → name ∈ ts_path st →
  (∀ d, d ∈ ms_depends_on spec → d ∈ ts_visited st) →
  topo_ok (mkTopo ({[name]} ∪ ts_visited st) (ts_path st ∖ {[name]}) (ts_result st ++ [spec])).
Proof.
  intros [Hk Hn Hd Ho Hj Hp] Hname Hnp Hdeps.
  assert (ms_name spec = name) as Hsn by eauto. split; simpl.
  - apply Forall_app. split; [|by constructor; [rewrite Hsn; set_solver|]].
    eapply Forall_impl; [exact Hk|]. set_solver.
  - rewrite map_app. apply NoDup_app. split_and!; [done| |apply NoDup_singleton].
    intros n (s & -> & Hs)%list_elem_of_fmap Hin. rewrite Forall_forall in Hk.
    destruct (Hk s Hs) as [_ Hv]. apply list_elem_of_singleton in Hin. rewrite Hin, Hsn in Hv.
    set_solver.
  - intros n [Hv%elem_of_singleton|Hv]%elem_of_union Hdom; rewrite map_app; apply elem_of_app.
    + right. simpl. rewrite Hsn, Hv. set_solver.
    + left. by apply Hd.
  - apply deps_first_snoc; [done|]. intros d Hd' Hdom. apply Hd; [by apply Hdeps|done].
  - set_solver.
  - set_solver.
Qed.

(** Enough fuel: every nested call adds a module to the path. *)
Lemma visit_spec fuel name st :
  (size bn < fuel + size (ts_path st))%nat → topo_ok st →
  (∀ p, p ∈ ts_path st → tc (edge bn) p name) →
  wp (visit set_iter fuel bn name) (visit_post name st) st.
Proof.
  revert name st. induction fuel as [|fuel IH]; intros name st Hfuel Hok Hpath.
  { pose proof (subseteq_size _ _ (tk_path _ Hok)) as Hsz. rewrite size_dom in Hsz. lia. }
  simpl. apply wp_bind. unfold wp, get. simpl. case_decide as Hv.
  { by unfold visit_post; simpl. }
  case_decide as Hp.
  { unfold visit_post; simpl. split; [by eexists|]. exists name. by apply Hpath. }
  destruct (bn !! name) as [spec|] eqn:Hname.
  2:{ unfold visit_post; simpl. split_and!; [by apply topo_ok_missing|done|set_solver|set_solver]. }
  pose proof (topo_ok_push _ _ _ Hok Hname Hv) as Hok1.
  set (st1 := mkTopo (ts_visited st) ({[name]} ∪ ts_path st) (ts_result st)) in *.
  apply wp_bind, wp_modify. fold st1. apply wp_bind. eapply wp_mono.
  - apply (wp_foreach (λ pre _ st', topo_ok st' ∧ ts_path st' = ts_path st1 ∧
             ts_visited st ⊆ ts_visited st' ∧ ∀ d, d ∈ pre → d ∈ ts_visited st')
             (λ e _, (∃ m, e = ValueError m) ∧ cyclic) (ms_depends_on spec) []).
    { split_and!; [done|done|done|set_solver]. }
    intros pre dep post [] st' Hsplit (Hok' & Hp' & Hv' & Hpre). simpl in Hsplit.
    assert (edge bn name dep) as Hedge by (exists spec; split; [done|rewrite Hsplit; set_solver]).
    eapply wp_mono; [apply IH|].
    + rewrite Hp'. unfold st1; simpl. rewrite size_union by set_solver.
      rewrite size_singleton. lia.
    + done.
    + rewrite Hp'. intros p [Hpp%elem_of_singleton|Hpp]%elem_of_union; [subst p; by apply tc_once|].
      eapply tc_r; [by apply Hpath|done].
    + intros [[]|e] st'' Hpost; [|done]. destruct Hpost as (? & Hp'' & Hv'' & Hd).
      split_and!; [done|congruence|set_solver|]. set_solver.
  - intros [[]|e] st' Hpost; [|exact Hpost]. destruct Hpost as (Hok' & Hp' & Hv' & Hd).
    apply wp_modify. unfold visit_post; simpl. split_and!.
    + apply topo_ok_append; [done|done|rewrite Hp'; unfold st1; set_solver|done].
    + rewrite Hp'. unfold st1; simpl. set_solver.
    + set_solver.
    + set_solver.
Qed.

Lemma visit_roots_spec fuel specs st :
  (size bn < fuel)%nat → topo_ok st →
  wp (visit_roots set_iter fuel bn specs)
    (λ o st', match o with
              | Ret _ => topo_ok st' ∧ ∀ s, s ∈ specs → ms_name s ∈ ts_visited st'
              | Raise e => (∃ m, e = ValueError m) ∧ cyclic
              end) st.
Proof.
  intros Hfuel Hok. unfold visit_roots. eapply wp_mono.
  - apply (wp_foreach (λ pre _ st', topo_ok st' ∧ ∀ s, s ∈ pre → ms_name s ∈ ts_visited st')
             (λ e _, (∃ m, e = ValueError m) ∧ cyclic) specs []); [set_solver|].
    intros pre s post [] st' _ [Hok' Hpre]. apply wp_bind. unfold wp, get. simpl.
    case_decide as Hv.
    { simpl. split; [done|]. set_solver. }
    apply wp_bind, wp_modify. eapply wp_mono; [apply visit_spec|].
    + cbn [ts_path]. rewrite size_empty. lia.
    + destruct Hok'. by split.
    + set_solver.
    + intros [[]|e] st'' Hpost; [|done]. destruct Hpost as (? & _ & Hv'' & Hs).
      split; [done|]. simpl in Hv''.
      set_solver.
  - by intros [[]|e] st'.
Qed.
End visit.

Lemma topo_ok_init bn : topo_ok bn (mkTopo ∅ ∅ []).
Proof.
  split; simpl; [constructor|constructor|set_solver| |set_solver|set_solver].
  intros pre s post Heq. by destruct pre.
Qed.

(** The modules the traversal keeps are those it was given: the list of the
    remaining ones is always empty. *)
Lemma topo_ok_complete bn st specs :
  topo_ok bn st → (∀ s, s ∈ specs → ms_name s ∈ ts_visited st) →
  (∀ s, s ∈ specs → ms_name s ∈ dom bn) →
  filter (λ s, ms_name s ∉ map ms_name (ts_result st)) specs = [].
Proof.
  intros Hok Hv Hd. destruct (filter _ specs) as [|s l] eqn:Hf; [done|].
  assert (s ∈ filter (λ s, ms_name s ∉ map ms_name (ts_result st)) specs) as Hs by (rewrite Hf; set_solver).
  apply list_elem_of_filter in Hs as [Hn Hs]. destruct Hn. apply (tk_done _ _ Hok); auto.
Qed.

(** *** The two directions of an order on indices *)
Definition before (l : list ModuleSpec) (a b : string) : Prop :=
  ∃ i j s t, l !! i = Some s ∧ l !! j = Some t ∧ ms_name s = a ∧ ms_name t = b ∧ (i < j)%nat.

Lemma index_unique l i j s t :
  NoDup (map ms_name l) → l !! i = Some s → l !! j = Some t → ms_name s = ms_name t → i = j.
Proof.
  intros Hnd Hi Hj Hst. apply (NoDup_lookup _ _ _ (ms_name s) Hnd); rewrite list_lookup_fmap.
  - by rewrite Hi.
  - rewrite Hj, Hst. done.
Qed.

Lemma before_trans l a b c :
  NoDup (map ms_name l) → before l a b → before l b c → before l a c.
Proof.
  intros Hnd (i & j & s & t & Hi & Hj & Hs & Ht & Hij) (j' & k & t' & u & Hj' & Hk & Ht' & Hu & Hjk).
  assert (j = j') as <- by (eapply index_unique; [done|exact Hj|exact Hj'|congruence]).
  exists i, k, s, u. split_and!; try done. lia.
Qed.

Lemma before_irrefl l a : NoDup (map ms_name l) → ¬ before l a a.
Proof.
  intros Hnd (i & j & s & t & Hi & Hj & Hs & Ht & Hij).
  assert (i = j); [|lia]. eapply index_unique; [done|exact Hi|exact Hj|congruence].
Qed.

Lemma deps_first_before known l s d :
  deps_first known l → s ∈ l → d ∈ ms_depends_on s → d ∈ known → before l d (ms_name s).
Proof.
  intros Ho Hs Hd Hk. apply list_elem_of_split in Hs as (pre & post & ->).
  specialize (Ho pre s post eq_refl d Hd Hk).
  apply list_elem_of_fmap in Ho as (t & -> & Ht). apply list_elem_of_lookup in Ht as [i Hi].
  exists i, (length pre), t, s. split_and!; [|by apply list_lookup_middle|done|done|by eapply lookup_lt_Some].
  by apply lookup_app_l_Some.
Qed.

Lemma edge_tc_source bn a b : tc (edge bn) a b → a ∈ dom bn.
Proof. intros Hab. inversion Hab as [? ? (s & Hs & _)|? ? ? (s & Hs & _)]; by eapply elem_of_dom_2. Qed.

Lemma edge_tc_before bn l a b :
  NoDup (map ms_name l) → deps_first (dom bn) l → (∀ k s, bn !! k = Some s → ms_name s = k ∧ s ∈ l) →
  tc (edge bn) a b → b ∈ dom bn → before l b a.
Proof.
  intros Hnd Ho Hbn. assert (∀ x y, edge bn x y → y ∈ dom bn → before l y x) as Hedge.
  { intros x y (s & Hs & Hd) Hy. destruct (Hbn _ _ Hs) as [<- Hin]. by eapply deps_first_before. }
  induction 1 as [x y Hxy|x y z Hxy Hyz IH]; intros Hdom; [by apply Hedge|].
  assert (y ∈ dom bn) as Hy by (by eapply edge_tc_source).
  eapply before_trans; [done|by apply IH|by apply Hedge].
Qed.

(** *** The sort *)
Section sort.
Context (set_iter : gset string → list string).

Lemma topo_run specs :
  NoDup (map ms_name specs) →
  match _topological_sort set_iter specs with
  | Ret out => out ≡ₚ specs ∧ deps_first (dom (dict_of ms_name specs)) out
  | Raise e => (∃ m, e = ValueError m) ∧ cyclic (dict_of ms_name specs)
  end.
Proof.
  intros Hnd. unfold _topological_sort. set (bn := dict_of ms_name specs).
  assert (∀ k s, bn !! k = Some s → ms_name s = k) as Hkey.
  { intros k s Hs. by apply dict_of_lookup_Some in Hs as [? _]. }
  pose proof (visit_roots_spec set_iter bn Hkey (S (size bn)) specs (mkTopo ∅ ∅ [])
                ltac:(lia) (topo_ok_init bn)) as Hrun.
  unfold wp in Hrun. destruct (visit_roots _ _ _ _ _) as [[[]|e] st]; [|exact Hrun].
  destruct Hrun as [Hok Hv]. simpl in Hok, Hv.
  assert (∀ s, s ∈ specs → ms_name s ∈ dom bn) as Hdom.
  { intros s Hs. apply elem_of_dom_dict. apply list_elem_of_fmap. eauto. }
  rewrite (topo_ok_complete bn) by done. simpl. rewrite app_nil_r.
  split; [|by apply tk_order].
  destruct Hok as [Hk Hn Hd _ _ _]. apply NoDup_Permutation.
  - by apply (NoDup_fmap_1 ms_name).
  - by apply (NoDup_fmap_1 ms_name).
  - intros s. rewrite Forall_forall in Hk. split; intros Hs.
    + destruct (Hk s Hs) as [Hb _]. by apply dict_of_Some in Hb as [? _].
    + specialize (Hd _ (Hv _ Hs) (Hdom _ Hs)). apply list_elem_of_fmap in Hd as (t & Heq & Ht).
      destruct (Hk t Ht) as [Hb _]. unfold bn in Hb. rewrite <-Heq in Hb.
      apply dict_of_Some in Hb as [Hts _]; [|done].
      assert (s = t) as ->; [|done].
      assert (bn !! ms_name s = Some s) as H1 by (by apply dict_of_Some).
      assert (bn !! ms_name s = Some t) as H2 by (by apply dict_of_Some). congruence.
Qed.

(** C11. The load order of the modules: when [_topological_sort] returns, its
    list is a rearrangement of the modules it was given (none lost, none twice)
    in which every dependency that is a module precedes the modules that
    declare it; otherwise it raises [ValueError]. In particular the recursion
    always ends. *)
Theorem topological_sort_correct specs :
  NoDup (map ms_name specs) →
  match _topological_sort set_iter specs with
  | Ret out => out ≡ₚ specs ∧ deps_first (list_to_set (map ms_name specs)) out
  | Raise e => ∃ m, e = ValueError m
  end.
Proof.
  intros Hnd. pose proof (topo_run specs Hnd) as Hrun.
  destruct (_topological_sort _ _) as [out|e]; [|by destruct Hrun].
  destruct Hrun as [Hp Ho]. split; [done|]. intros pre s post Heq d Hd Hk.
  apply (Ho pre s post Heq d Hd). apply elem_of_dom_dict. set_solver.
Qed.

(** C12. The circular-dependency error is exact: [_topological_sort] raises if and
    only if some module depends on itself through declared dependencies. *)
Theorem topological_sort_cycle specs :
  NoDup (map ms_name specs) →
  (∃ e, _topological_sort set_iter specs = Raise e) ↔
  ∃ n, tc (edge (dict_of ms_name specs)) n n.
Proof.
  intros Hnd. pose proof (topo_run specs Hnd) as Hrun. split.
  - intros [e He]. rewrite He in Hrun. by destruct Hrun.
  - intros [n Hn]. destruct (_topological_sort _ _) as [out|e]; [|eauto].
    destruct Hrun as [Hp Ho]. assert (NoDup (map ms_name out)) as Hnd'.
    { rewrite (Permutation_map ms_name Hp). done. }
    destruct (before_irrefl out n Hnd'). eapply edge_tc_before; [done|done| |exact Hn|].
    + intros k s Hs. apply dict_of_lookup_Some in Hs as [? ?]. by rewrite Hp.
    + by eapply edge_tc_source.
Qed.
End sort.

(** *** The loader *)
Section load.
Context (set_iter : gset string → list string) `{Importlib IW Obj}.

(** What the callers of [load_module_specs] rely on. *)
Definition loaded_ok (env : gmap string string) (specs : list ModuleSpec) : Prop :=
  NoDup (map ms_name specs) ∧ Forall (λ s, _is_module_enabled env s = true) specs ∧
  deps_first (list_to_set (map ms_name specs)) specs.

Lemma load_step_ok env acc m i acc' i' :
  NoDup (map ms_name acc.1) ∧ Forall (λ s, _is_module_enabled env s = true) acc.1 ∧
    acc.2 = list_to_set (map ms_name acc.1) →
  load_step env acc m i = (Ret acc', i') →
  NoDup (map ms_name acc'.1) ∧ Forall (λ s, _is_module_enabled env s = true) acc'.1 ∧
    acc'.2 = list_to_set (map ms_name acc'.1).
Proof.
  destruct acc as [specs seen]. simpl. intros (Hnd & Hen & ->) Hrun. unfold load_step in Hrun.
  inv_runs. case_match; [|discriminate]. case_decide; [discriminate|].
  destruct (_is_module_enabled env _) eqn:Hb; simpl in Hrun; injection Hrun as <- <-; simpl; [|done].
  rewrite map_app. split_and!.
  - apply NoDup_app. split_and!; [done|set_solver|apply NoDup_singleton].
  - apply Forall_app. split; [done|]. by constructor.
  - set_solver.
Qed.

Lemma load_uncached_ok env names i specs i' :
  load_uncached set_iter env names i = (Ret specs, i') → loaded_ok env specs.
Proof.
  intros Hrun. unfold load_uncached in Hrun. inv_runs.
  match goal with Hl : foreach _ _ (load_step env) _ = (Ret ?a, _) |- _ =>
    assert (NoDup (map ms_name a.1) ∧ Forall (λ s, _is_module_enabled env s = true) a.1 ∧
      a.2 = list_to_set (map ms_name a.1)) as (Hnd & Hen & _) end.
  { eapply (foreach_Ret_inv (λ _ acc, NoDup (map ms_name acc.1) ∧
      Forall (λ s, _is_module_enabled env s = true) acc.1 ∧ acc.2 = list_to_set (map ms_name acc.1)));
      [| |eassumption]; [split_and!; [constructor|constructor|done]|].
    intros ? ? ? ? ? ? Hacc. by eapply load_step_ok. }
  pose proof (topo_run set_iter _ Hnd) as Hsort. unfold lift in Hrun.
  destruct (_topological_sort _ _) as [out|e]; [|discriminate]. injection Hrun as <- <-.
  destruct Hsort as [Hp Ho]. split_and!.
  - by rewrite (Permutation_map ms_name Hp).
  - by rewrite Hp.
  - intros pre s post Heq d Hd Hk. apply (Ho pre s post Heq d Hd). apply elem_of_dom_dict.
    rewrite <-(Permutation_map ms_name Hp). set_solver.
Qed.

Definition cache_ok (w : MWorld IW) : Prop :=
  ∀ names specs, specs_cache w !! names = Some specs → loaded_ok (environ w) specs.

Lemma load_module_specs_inv package_name w :
  cache_ok w →
  let '(o, w') := load_module_specs set_iter package_name w in
  cache_ok w' ∧ environ w' = environ w ∧
  match o with Ret specs => loaded_ok (environ w) specs | Raise _ => True end.
Proof.
  intros Hw. unfold load_module_specs, _load_module_specs_cached.
  unfold mbind, io_bind, get, mret, io_ret. destruct (specs_cache w !! _) as [specs|] eqn:Hc; [by eauto|].
  unfold with_interp. destruct (load_uncached _ _ _ _) as [[specs|e] i'] eqn:Hl; simpl.
  - apply load_uncached_ok in Hl. split_and!; [|done|done].
    intros names specs'. simpl. intros [[<- <-]|[_ Hs]]%lookup_insert_Some; [done|by eapply Hw].
  - split_and!; [|done|done]. intros names specs' Hs. by eapply Hw.
Qed.

(** C13. What [load_module_specs] returns, freshly loaded or from its
    [functools.cache], has pairwise distinct names, holds only modules the
    environment enables, and lists dependencies first; and a failed load leaves
    nothing in the cache that does not have these properties. *)
Theorem load_module_specs_ok package_name w :
  cache_ok w →
  let '(o, w') := load_module_specs set_iter package_name w in
  cache_ok w' ∧ environ w' = environ w ∧
  match o with Ret specs => loaded_ok (environ w) specs | Raise _ => True end.
Proof. exact (load_module_specs_inv package_name w). Qed.
End load.
