(* ===== verification/ModuleLoader.v ===== *)
(** * ModuleLoader: what the loaded modules contribute

    [src/app/platform/module/loader.py], [hooks.py], [router.py], [services.py]
    and the service registry of [src/app/platform/interfaces/__init__.py]. Calling
    a hook, awaiting its result and FastAPI's [APIRouter] are the class
    [ModuleApi]. *)
From S2P Require Import Prelude PyText PyStr PyFloat PyList ModuleSpecs.

Class ModuleApi (IW Obj Router : Type) := {
  (** [hook()] *)
  call_hook : Obj → io IW Obj;
  isawaitable : Obj → bool;
  await_obj : Obj → io IW ();
  (** [isinstance(x, APIRouter)] *)
  is_APIRouter : Obj → bool;
  new_APIRouter : Router;
  (** [api_router.include_router(router, prefix=, tags=)] *)
  include_router : Router → Obj → string → list string → io IW Router }.

Section loader.
Context `{Importlib IW Obj} `{!ModuleApi IW Obj Router}.

(** ** loader.py *)
Definition import_modules (module_paths : list string) : io IW () :=
  foreach module_paths () (λ _ p, _ ← (import_module p : io IW Obj); mret ()).

Definition load_declared_models (module_specs : list ModuleSpec) : io IW () :=
  foreach module_specs () (λ _ s, import_modules (ms_models s)).

Definition load_declared_tasks (module_specs : list ModuleSpec) : io IW () :=
  foreach module_specs () (λ _ s, import_modules (ms_tasks s)).

(** ** hooks.py *)
Definition _run_hooks (hooks : list string) : io IW () :=
  foreach hooks () (λ _ hook_path,
    hook ← (import_string hook_path : io IW Obj);
    result ← call_hook hook;
    when (isawaitable result) (await_obj result)).

Definition run_startup_hooks (module_specs : list ModuleSpec) : io IW () :=
  foreach module_specs () (λ _ s, _run_hooks (ms_startup_hooks s)).

Definition run_shutdown_hooks (module_specs : list ModuleSpec) : io IW () :=
  foreach (reverse module_specs) () (λ _ s, _run_hooks (ms_shutdown_hooks s)).

Definition run_event_handlers (module_specs : list ModuleSpec) : io IW () :=
  foreach module_specs () (λ _ s, _run_hooks (ms_event_handlers s)).

(** ** router.py *)
Definition slash : ascii := "/"%char.

Definition _join_prefixes (parts : list string) : string :=
  let normalized := map (strip_char slash)
    (filter (λ p, str_truthy p && str_truthy (strip_char slash p) = true) parts) in
  "/" +:+ join "/" normalized.

(** [key=lambda item: (item[1].version, item[1].order, item[0].order, item[0].name)] *)
Definition route_leb (a b : ModuleSpec * RouteSpec) : bool :=
  lex_leb String.eqb str_leb
    (lex_leb Z.eqb Z.leb
       (lex_leb Z.eqb Z.leb (str_leb (ms_name a.1) (ms_name b.1)) (ms_order a.1) (ms_order b.1))
       (rs_order a.2) (rs_order b.2))
    (rs_version a.2) (rs_version b.2).

Definition route_specs (module_specs : list ModuleSpec) : list (ModuleSpec * RouteSpec) :=
  sort_by route_leb (module_specs ≫= λ m, map (pair m) (ms_routes m)).

Definition build_api_router (module_specs : list ModuleSpec) : io IW Router :=
  foreach (route_specs module_specs) (new_APIRouter (IW:=IW) (Obj:=Obj)) (λ api_router item,
    let '(module_spec, route_spec) := item in
    route_router ← (import_string (rs_router route_spec) : io IW Obj);
    if negb (is_APIRouter (IW:=IW) (Router:=Router) route_router) then
      raise (TypeError (ms_name module_spec +:+ " route " +:+ rs_router route_spec
                        +:+ " is not an APIRouter"))
    else
      let prefix := _join_prefixes ["/api"; rs_version route_spec; rs_prefix route_spec] in
      include_router api_router route_router prefix (rs_tags route_spec)).
End loader.

(** [collect_beat_schedule]: the dict of the schedules, in insertion order. *)
Definition beat_entry : Type := string * (string * f64).

Definition add_schedule (schedule : list beat_entry) (item : BeatScheduleSpec) : outcome (list beat_entry) :=
  if decide (bs_name item ∈ map fst schedule) then
    Raise (ValueError ("Duplicate Celery beat schedule name: " +:+ bs_name item))
  else Ret (schedule ++ [(bs_name item, (bs_task item, bs_schedule item))]).

Definition fold_outcome {A B} (f : B → A → outcome B) (acc : B) (l : list A) : outcome B :=
  foldl (λ o x, o ≫= λ b, f b x) (Ret acc) l.

Definition collect_beat_schedule (module_specs : list ModuleSpec) : outcome (list beat_entry) :=
  fold_outcome (λ schedule m, fold_outcome add_schedule schedule (ms_beat_schedules m)) [] module_specs.

(** ** interfaces: the service registry *)
Section registry.
Context {Impl : Type}.

Definition Registry : Type := gmap string Impl.

Definition register (interface : string) (impl : Impl) : io Registry () :=
  modify (λ r, <[interface := impl]> r).

Definition resolve (interface : string) : io Registry Impl :=
  r ← get;
  match r !! interface with
  | None => raise (RuntimeError ("'" +:+ interface +:+ "' not registered"))
  | Some impl => mret impl
  end.

Definition register_audit_queue : Impl → io Registry () := register "audit_queue".
Definition register_config_reader : Impl → io Registry () := register "config_reader".
Definition register_data_scope_resolver : Impl → io Registry () := register "data_scope_resolver".
Definition register_account_lookup : Impl → io Registry () := register "account_lookup".
End registry.

(** [services.register_services]: every declared service, module by module; an
    import that fails leaves the services registered before it. *)
Section services.
Context `{Importlib IW Obj}.

Definition on_interp {A} (m : io IW A) : io (IW * gmap string Obj) A :=
  λ w, let '(o, i) := m w.1 in (o, (i, w.2)).
Definition on_registry {A} (m : io (gmap string Obj) A) : io (IW * gmap string Obj) A :=
  λ w, let '(o, r) := m w.2 in (o, (w.1, r)).

Definition register_service (svc : ServiceRegistration) : io (IW * gmap string Obj) () :=
  impl ← on_interp (import_string (sr_implementation svc));
  on_registry (register (sr_interface svc) impl).

Definition register_services (module_specs : list ModuleSpec) : io (IW * gmap string Obj) () :=
  foreach module_specs () (λ _ spec,
    foreach (ms_services spec) () (λ _ svc, register_service svc)).
End services.

(** ** Lemmas *)
Lemma fold_outcome_raise {A B} (f : B → A → outcome B) e l :
  foldl (λ o x, o ≫= λ b, f b x) (Raise e) l = Raise e.
Proof. by induction l. Qed.

Lemma fold_outcome_cons {A B} (f : B → A → outcome B) acc x l :
  fold_outcome f acc (x :: l) = f acc x ≫= λ b, fold_outcome f b l.
Proof. unfold fold_outcome. simpl. destruct (f acc x); simpl; [done|apply fold_outcome_raise]. Qed.

Lemma fold_outcome_app {A B} (f : B → A → outcome B) acc l k :
  fold_outcome f acc (l ++ k) = fold_outcome f acc l ≫= λ b, fold_outcome f b k.
Proof.
  revert acc. induction l as [|x l IH]; intros acc; [done|].
  rewrite <-app_comm_cons, !fold_outcome_cons. destruct (f acc x); simpl; [apply IH|done].
Qed.

Definition entry_of (item : BeatScheduleSpec) : beat_entry :=
  (bs_name item, (bs_task item, bs_schedule item)).

Lemma collect_concat specs acc :
  fold_outcome (λ schedule m, fold_outcome add_schedule schedule (ms_beat_schedules m)) acc specs =
  fold_outcome add_schedule acc (specs ≫= ms_beat_schedules).
Proof.
  revert acc. induction specs as [|m specs IH]; intros acc; [done|].
  rewrite fold_outcome_cons. simpl. rewrite fold_outcome_app.
  destruct (fold_outcome add_schedule acc (ms_beat_schedules m)); simpl; [apply IH|done].
Qed.

Lemma add_schedule_dup acc x :
  bs_name x ∈ map fst acc →
  add_schedule acc x = Raise (ValueError ("Duplicate Celery beat schedule name: " +:+ bs_name x)).
Proof. intros Hin. unfold add_schedule. by rewrite decide_True. Qed.

Lemma add_schedule_new acc x :
  bs_name x ∉ map fst acc → add_schedule acc x = Ret (acc ++ [entry_of x]).
Proof. intros Hin. unfold add_schedule. by rewrite decide_False. Qed.

Lemma add_schedules_spec items acc :
  NoDup (map fst acc) →
  match fold_outcome add_schedule acc items with
  | Ret out => out = acc ++ map entry_of items ∧ NoDup (map fst out)
  | Raise e => (∃ n, e = ValueError ("Duplicate Celery beat schedule name: " +:+ n)) ∧
               ¬ NoDup (map fst acc ++ map bs_name items)
  end.
Proof.
  revert acc. induction items as [|x items IH]; intros acc Hnd.
  { by rewrite app_nil_r. }
  rewrite fold_outcome_cons. destruct (decide (bs_name x ∈ map fst acc)) as [Hin|Hin].
  { rewrite add_schedule_dup by done. simpl. split; [by eexists|].
    intros (_ & Hd & _)%NoDup_app. apply (Hd _ Hin). simpl. left. }
  rewrite add_schedule_new by done. simpl.
  assert (NoDup (map fst (acc ++ [entry_of x]))) as Hnd'.
  { rewrite map_app. apply NoDup_app. split_and!; [done|set_solver|apply NoDup_singleton]. }
  specialize (IH _ Hnd'). destruct (fold_outcome _ _ items).
  - destruct IH as [-> ?]. split; [by rewrite <-(assoc_L (++))|done].
  - destruct IH as [He Hd]. split; [done|]. intros Hn. apply Hd.
    by rewrite map_app, <-(assoc_L (++)).
Qed.

(** The celery beat schedule is collected exactly: it holds every declared
    entry once, module by module in declaration order, when the schedule names
    are pairwise distinct; a repeated name anywhere raises [ValueError]. *)
Lemma collect_beat_schedule_dec specs :
  let items := specs ≫= ms_beat_schedules in
  (NoDup (map bs_name items) ∧ collect_beat_schedule specs = Ret (map entry_of items)) ∨
  (¬ NoDup (map bs_name items) ∧
   ∃ n, collect_beat_schedule specs = Raise (ValueError ("Duplicate Celery beat schedule name: " +:+ n))).
Proof.
  intros items. unfold collect_beat_schedule. rewrite collect_concat. fold items.
  pose proof (add_schedules_spec items [] (NoDup_nil_2)) as Hs.
  destruct (fold_outcome _ _ _).
  - left. destruct Hs as [-> Hn]. simpl in *. split; [|done].
    by rewrite map_map in Hn.
  - right. destruct Hs as [[n ->] Hd]. eauto.
Qed.

(** The slash-separated segments of a prefix. *)
Lemma lex_leb_total {A} (eqb leb : A → A → bool) r1 r2 a b :
  (∀ x y, eqb x y = eqb y x) → (∀ x y, leb x y = true ∨ leb y x = true) →
  r1 = true ∨ r2 = true → lex_leb eqb leb r1 a b = true ∨ lex_leb eqb leb r2 b a = true.
Proof. intros Hs Ht Hr. unfold lex_leb. rewrite (Hs b a). destruct (eqb a b); auto. Qed.

Lemma lex_leb_trans {A} (eqb leb : A → A → bool) (r1 r2 r3 : bool) a b c :
  (∀ x y, eqb x y = true ↔ x = y) → (∀ x y z, leb x y = true → leb y z = true → leb x z = true) →
  (∀ x y, leb x y = true → leb y x = true → x = y) →
  (r1 = true → r2 = true → r3 = true) →
  lex_leb eqb leb r1 a b = true → lex_leb eqb leb r2 b c = true → lex_leb eqb leb r3 a c = true.
Proof.
  intros He Ht Ha Hr. unfold lex_leb.
  destruct (eqb a b) eqn:H1, (eqb b c) eqn:H2, (eqb a c) eqn:H3;
    rewrite ?He in *; subst; auto; intros Hx Hy; try (by eauto);
    try (apply not_true_iff_false in H1; rewrite He in H1);
    try (apply not_true_iff_false in H2; rewrite He in H2);
    try (apply not_true_iff_false in H3; rewrite He in H3); naive_solver.
Qed.

Lemma String_eqb_sym x y : String.eqb x y = String.eqb y x.
Proof. apply String.eqb_sym. Qed.

Lemma route_leb_total a b : route_leb a b = true ∨ route_leb b a = true.
Proof.
  unfold route_leb.
  repeat (apply lex_leb_total; [apply String_eqb_sym || apply Z.eqb_sym|intros; apply str_leb_total || lia|]).
  apply str_leb_total.
Qed.

Lemma route_leb_trans a b c : route_leb a b = true → route_leb b c = true → route_leb a c = true.
Proof.
  unfold route_leb.
  apply lex_leb_trans; [apply String.eqb_eq|apply str_leb_trans|apply str_leb_antisym|].
  do 2 (apply lex_leb_trans; [apply Z.eqb_eq|intros; lia|intros; lia|]). apply str_leb_trans.
Qed.

(** The routes are mounted in the order (version, route order, module order,
    module name), and every declared route is mounted exactly once. *)
Theorem route_specs_sorted specs :
  StronglySorted route_leb (route_specs specs) ∧
  route_specs specs ≡ₚ (specs ≫= λ m, map (pair m) (ms_routes m)).
Proof.
  split; [apply sort_by_sorted; [apply route_leb_total|apply route_leb_trans]|apply sort_by_perm].
Qed.
