(* ===== verification/ModuleWitness.v ===== *)
(** * ModuleWitness: the module system on concrete module sets *)
From S2P Require Import Prelude PyText PyStr PyFloat PyList ModuleSpecs ModuleProofs ModuleLoader.

Module ModDemo.
Definition dep (name : string) (deps : list string) : ModuleSpec :=
  mkModuleSpec name true "" [] [] [] [] [] [] 100 "" false [] [] deps.

(** The judge needs storage and audit, audit needs storage; "mail" is no module. *)
Definition mod_judge := dep "judge" ["storage"; "audit"; "mail"].
Definition mod_audit := dep "audit" ["storage"].
Definition mod_storage := dep "storage" [].
Definition loop_a := dep "a" ["b"].
Definition loop_b := dep "b" ["a"].

Inductive obj := OPkg | OManifest (s : ModuleSpec) | OSpec (s : ModuleSpec) | ONone.

Definition manifest_of (name : string) : option ModuleSpec :=
  if decide (name = "app.modules.audit.module") then Some mod_audit
  else if decide (name = "app.modules.judge.module") then Some mod_judge
  else if decide (name = "app.modules.storage.module") then Some mod_storage
  else None.

#[global] Instance demo_import : Importlib () obj := {
  import_module := λ name, mret (match manifest_of name with Some s => OManifest s | None => OPkg end);
  getattr := λ o a, match o with
                    | OManifest s => if decide (a = "module") then mret (OSpec s) else raise (AttributeError a)
                    | _ => raise (AttributeError a)
                    end;
  package_path := λ o, match o with OPkg => Some ["/srv/app/modules"] | _ => None end;
  walk_packages := λ _ prefix, mret [(prefix +:+ "judge", true); (prefix +:+ "storage", true);
                                     (prefix +:+ "audit", true); (prefix +:+ "util", false)];
  find_spec := λ name, mret (if manifest_of name then true else false);
  as_ModuleSpec := λ o, match o with OSpec s => Some s | _ => None end }.

Definition env : gmap string string := {["HEI_MODULE_PACKAGES" := " app.modules ,"]}.
Definition world : MWorld () := mkMWorld env ∅ ().
End ModDemo.
Import ModDemo.

Lemma topological_sort_correct_witness :
  _topological_sort elements [mod_judge; mod_audit; mod_storage] = Ret [mod_storage; mod_audit; mod_judge] ∧
  [mod_storage; mod_audit; mod_judge] ≡ₚ [mod_judge; mod_audit; mod_storage] ∧
  deps_first (list_to_set (map ms_name [mod_judge; mod_audit; mod_storage])) [mod_storage; mod_audit; mod_judge].
Proof.
  split; [vm_compute; reflexivity|].
  exact (topological_sort_correct elements [mod_judge; mod_audit; mod_storage] ltac:(decide_eval)).
Defined.

Lemma topological_sort_cycle_witness :
  ∃ e, _topological_sort elements [loop_a; loop_b] = Raise e.
Proof.
  apply (proj2 (topological_sort_cycle elements [loop_a; loop_b] ltac:(decide_eval))).
  exists "a". apply (tc_l _ _ "b"); [|apply tc_once].
  - exists loop_a. split; [vm_compute; reflexivity|left].
  - exists loop_b. split; [vm_compute; reflexivity|left].
Defined.

Lemma load_module_specs_ok_witness :
  let '(o, w') := load_module_specs elements (Obj:=obj) "app.modules" world in
  o = Ret [mod_storage; mod_audit; mod_judge] ∧
  cache_ok w' ∧ environ w' = environ world ∧ loaded_ok env [mod_storage; mod_audit; mod_judge].
Proof.
  assert (cache_ok world) as Hw.
  { intros names specs Hl. change (specs_cache world) with (∅ : gmap (list string) (list ModuleSpec)) in Hl.
    rewrite lookup_empty in Hl. discriminate. }
  pose proof (load_module_specs_ok elements (Obj:=obj) "app.modules" world Hw) as Hok.
  assert ((load_module_specs elements (Obj:=obj) "app.modules" world).1 =
          Ret [mod_storage; mod_audit; mod_judge]) as Hr by (vm_compute; reflexivity).
  revert Hr Hok. destruct (load_module_specs elements (Obj:=obj) "app.modules" world) as [o w'].
  cbn [fst]. intros -> (Hc & He & Hl). exact (conj eq_refl (conj Hc (conj He Hl))).
Defined.
