(* ===== verification/Events.v ===== *)
(** * Events: the framework's event bus ([src/app/platform/events.py])

    The subscribers of an event are a list object that the loop of [emit]
    iterates while handlers run: a handler that subscribes to the event being
    emitted extends the list under the loop. The iteration is therefore by
    index, on the list as it is at each step. *)
From S2P Require Import Prelude.

(** A handler: calling it gives a result, which may have to be awaited. *)
Class EventApi (W H R : Type) := {
  subscribers : W → gmap string (list H);
  set_subscribers : gmap string (list H) → W → W;
  call_handler : H → io W R;
  is_awaitable : R → bool;
  await_result : R → io W ();
  (** Assignment and look-up of the module variable [_subscribers]. *)
  subscribers_set : ∀ s w, subscribers (set_subscribers s w) = s }.

Section events.
Context `{EventApi W H R}.

(** [_subscribers.setdefault(event_name, []).append(handler)] *)
Definition subscribe (event_name : string) (handler : H) : io W () :=
  modify (λ w, set_subscribers
    (<[event_name := default [] (subscribers w !! event_name) ++ [handler]]> (subscribers w)) w).

(** The body of the loop: an [Exception] is logged. *)
Definition run_handler (handler : H) : io W () :=
  try_except
    (result ← call_handler handler;
     when (is_awaitable (H:=H) result) (await_result (H:=H) result))
    is_exception (λ _, mret ()).

(** [for handler in _subscribers.get(event_name, [])], from index [i]. *)
Fixpoint emit_from (fuel : nat) (event_name : string) (i : nat) : io W () :=
  match fuel with
  | O => raise (OtherError "OutOfFuel" "")
  | S fuel =>
      w ← get;
      match default [] (subscribers w !! event_name) !! i with
      | None => mret ()
      | Some handler => _ ← run_handler handler; emit_from fuel event_name (S i)
      end
  end.

Definition emit (fuel : nat) (event_name : string) : io W () := emit_from fuel event_name 0.

(** [emit_sync]: the same, but an awaitable result is only warned about. *)
Definition run_handler_sync (handler : H) : io W () :=
  try_except (_ ← call_handler handler; mret ()) is_exception (λ _, mret ()).

Fixpoint emit_sync_from (fuel : nat) (event_name : string) (i : nat) : io W () :=
  match fuel with
  | O => raise (OtherError "OutOfFuel" "")
  | S fuel =>
      w ← get;
      match default [] (subscribers w !! event_name) !! i with
      | None => mret ()
      | Some handler => _ ← run_handler_sync handler; emit_sync_from fuel event_name (S i)
      end
  end.

Definition emit_sync (fuel : nat) (event_name : string) : io W () := emit_sync_from fuel event_name 0.

(** A handler that leaves the subscribers of [ev] alone and raises no
    [BaseException]. *)
Definition well_behaved (ev : string) (h : H) : Prop :=
  ∀ w, default [] (subscribers (run_handler h w).2 !! ev) = default [] (subscribers w !! ev) ∧
       (run_handler h w).1 = Ret ().

Lemma emit_from_spec fuel ev i hs w :
  default [] (subscribers w !! ev) = hs → Forall (well_behaved ev) hs →
  (length hs - i < fuel)%nat →
  emit_from fuel ev i w = (Ret (), foldl (λ w h, (run_handler h w).2) w (drop i hs)).
Proof.
  intros Hs Hb. revert i w Hs. induction fuel as [|fuel IH]; intros i w Hs Hf; [lia|].
  simpl. unfold mbind at 1, io_bind at 1, get. rewrite Hs. destruct (hs !! i) as [h|] eqn:Hi.
  - rewrite (drop_S _ h) by done. simpl.
    assert (well_behaved ev h) as Hw by (by eapply Forall_lookup_1).
    destruct (Hw w) as [Hk Hr]. destruct (run_handler h w) as [o w'] eqn:Hrun.
    simpl in Hk, Hr. subst o.
    rewrite (run_ret _ _ _ _ _ Hrun). cbn [snd]. apply (IH (S i) w'); [by rewrite Hk|]. apply lookup_lt_Some in Hi. lia.
  - rewrite drop_ge by (by apply lookup_ge_None). done.
Qed.

(** [emit] isolates the subscribers from one another: when no handler
    subscribes or unsubscribes for the event being emitted, every handler runs
    exactly once, in the order of subscription, in the world the previous ones
    left, whatever [Exception]s the others raise, and [emit] itself returns. *)
Theorem emit_runs_all fuel ev w :
  Forall (well_behaved ev) (default [] (subscribers w !! ev)) →
  (length (default [] (subscribers w !! ev)) < fuel)%nat →
  emit fuel ev w =
    (Ret (), foldl (λ w h, (run_handler h w).2) w (default [] (subscribers w !! ev))).
Proof. intros Hb Hf. unfold emit. by rewrite (emit_from_spec _ _ _ _ _ eq_refl Hb) by lia. Qed.

(** A handler subscribed last runs last. *)
Lemma subscribe_lookup ev h w :
  default [] (subscribers (subscribe ev h w).2 !! ev) = default [] (subscribers w !! ev) ++ [h].
Proof. simpl. by rewrite subscribers_set, lookup_insert_eq. Qed.
End events.

(** ** A bus whose handlers are numbers: the even ones raise, each leaves a trace *)
Module Demo.
Definition world : Type := gmap string (list nat) * list nat.

#[global, refine] Instance demo_api : EventApi world nat () := {
  subscribers := fst;
  set_subscribers := λ s w, (s, w.2);
  call_handler := λ h w,
    ((if Nat.even h then Raise (ValueError "boom") else Ret ()), (w.1, w.2 ++ [h]));
  is_awaitable := λ _, false;
  await_result := λ _, mret () }.
Proof. done. Defined.

Definition start : world := ({["e" := [1; 2; 3]%nat]}, []).
End Demo.

Lemma emit_runs_all_witness :
  emit (W:=Demo.world) (H:=nat) (R:=()) 4 "e" Demo.start = (Ret (), (fst Demo.start, [1; 2; 3]%nat)).
Proof.
  refine (eq_trans (emit_runs_all (W:=Demo.world) (H:=nat) (R:=()) 4 "e" Demo.start _ _) _).
  - apply Forall_forall. intros h _ w. unfold run_handler, try_except, mbind, io_bind. simpl.
    destruct (Nat.even h); simpl; split; reflexivity.
  - vm_compute. lia.
  - vm_compute. reflexivity.
Defined.
