(* ===== verification/SessionStore.v ===== *)
(** * SessionStore: the login sessions

    [src/app/core/security/session.py] with the key builders of
    [src/app/platform/cache/keys.py]. The Redis client is the class [RedisApi]
    (what the code calls) with the documented behaviour of its commands in
    [RedisLaws]; a session is stored as the JSON text of its payload, represented
    here by the payload itself. Each coroutine is modelled as it runs alone. *)
From S2P Require Import Prelude PyText PyStr PyList.
Open Scope Z_scope.

(** ** keys.py *)
Definition login_token_key (token : string) : string := "login:token:" +:+ token.
Definition login_account_tokens_key (account_type account_id : string) : string :=
  "login:account:" +:+ account_type +:+ ":" +:+ account_id.
Definition login_tokens_key : string := "login:tokens".
Definition login_failure_account_key (account_type account : string) : string :=
  "login:failure:account:" +:+ account_type +:+ ":" +:+ account.
Definition login_failure_ip_key (account_type ip : string) : string :=
  "login:failure:ip:" +:+ account_type +:+ ":" +:+ ip.
Definition login_lock_account_key (account_type account : string) : string :=
  "login:lock:account:" +:+ account_type +:+ ":" +:+ account.
Definition login_lock_ip_key (account_type ip : string) : string :=
  "login:lock:ip:" +:+ account_type +:+ ":" +:+ ip.
Definition password_reset_token_key (token : string) : string := "password:reset:" +:+ token.
Definition captcha_key (captcha_id : string) : string := "captcha:" +:+ captcha_id.
Definition password_crypto_key (key_id : string) : string := "password:crypto:" +:+ key_id.
Definition cache_key (name : string) : string := "Cache:" +:+ name.
Definition permission_resource_cache_key : string := cache_key "permission-resource".
Definition permission_resource_method_cache_key : string := cache_key "permission-resource-method".
Definition banner_interaction_delta_key : string := "banner:interaction:deltas".

(** ** The payload *)
Record PermissionGrantPayload := mkGrant {
  g_permission_key : string; g_data_scope : string; g_custom_scope_dept_ids : list string;
  g_effect : string; g_source_type : string; g_source_id : string }.

Record SessionPayload := mkSession {
  s_token : string;
  s_account_id : string;
  s_account_type : string;
  s_role_ids : list string;
  s_dept_ids : list string;
  s_group_ids : list string;
  s_resource_ids : list string;
  s_button_codes : list string;
  s_permission_keys : list string;
  s_permission_grants : list PermissionGrantPayload;
  s_client_ip : option string;
  s_user_agent : option string;
  s_remember_me : bool;
  s_password_expired : bool;
  s_device_label : option string;
  s_login_at : option string;
  s_last_active_at : option string;
  s_expires_at : option string }.

(** [SessionPayload(token=, account_id=, account_type=)] *)
Definition SessionPayload_default (token account_id account_type : string) : SessionPayload :=
  mkSession token account_id account_type [] [] [] [] [] [] [] None None true false None None None None.

Definition set_last_active (t : string) (p : SessionPayload) : SessionPayload :=
  mkSession (s_token p) (s_account_id p) (s_account_type p) (s_role_ids p) (s_dept_ids p)
    (s_group_ids p) (s_resource_ids p) (s_button_codes p) (s_permission_keys p)
    (s_permission_grants p) (s_client_ip p) (s_user_agent p) (s_remember_me p)
    (s_password_expired p) (s_device_label p) (s_login_at p) (Some t) (s_expires_at p).

(** A stored text: [json.dumps(asdict(p))], or a text from which
    [SessionPayload( **json.loads(text))] raises [e]. *)
Inductive raw :=
| Stored (p : SessionPayload)
| Unreadable (text : string) (e : exn).

Definition raw_truthy (v : raw) : bool :=
  match v with Stored _ => true | Unreadable t _ => str_truthy t end.

(** [SessionPayload( **json.loads(raw_text))] *)
Definition load_session (v : raw) : outcome SessionPayload :=
  match v with Stored p => Ret p | Unreadable _ e => Raise e end.

(** ** Settings of [settings.auth] the store reads *)
Record AuthSettings := mkAuthSettings {
  token_ttl_seconds : Z; token_ttl_short_seconds : Z; session_idle_timeout_seconds : Z }.

(** ** The Redis client *)
Inductive Cmd :=
| CSetex (key : string) (ttl : Z) (v : raw)
| CSadd (key member : string).

Class RedisApi (R : Type) := {
  (** [get_redis() is not None] *)
  redis_ready : R → bool;
  (** Whether the client has [pipeline] and [mget]. *)
  has_pipeline : bool;
  has_mget : bool;
  r_get : string → io R (option raw);
  r_setex : string → Z → raw → io R ();
  r_sadd : string → string → io R ();
  r_srem : string → list string → io R ();
  r_smembers : string → io R (list string);
  r_delete : list string → io R ();
  r_mget : list string → io R (list (option raw));
  (** A pipeline of [smembers] and one of writes. *)
  pipe_smembers : list string → io R (list (list string));
  pipe_write : list Cmd → io R () }.

(** Times are microseconds since [datetime.min]. *)
Class SessionClock (R : Type) := {
  now_utc : io R Z;
  isoformat : Z → string;
  (** [datetime.fromisoformat], a naive result read as UTC; [None]: [ValueError] *)
  fromisoformat : string → option Z }.

Section store.
Context `{RedisApi R} `{!SessionClock R} (settings : AuthSettings).

Definition _get_required_redis : io R () :=
  r ← get;
  if redis_ready r then mret ()
  else raise (RuntimeError "Redis is required for session store").

(** [datetime.min.replace(tzinfo=UTC)] is time 0. *)
Definition _parse_datetime_or_epoch (value : option string) : Z :=
  match value with
  | None => 0
  | Some v => if str_truthy v then default 0 (fromisoformat v) else 0
  end.

(** [set] *)
Definition store_set (payload : SessionPayload) (ttl_seconds : Z) : io R () :=
  _ ← _get_required_redis;
  _ ← r_setex (login_token_key (s_token payload)) ttl_seconds (Stored payload);
  _ ← r_sadd (login_account_tokens_key (s_account_type payload) (s_account_id payload)) (s_token payload);
  r_sadd login_tokens_key (s_token payload).

(** [_check_idle_timeout]: it is not a coroutine, and the [redis.delete] and
    [redis.srem] it calls return coroutines nobody awaits: no command is sent. *)
Definition _check_idle_timeout (session : SessionPayload) : io R (option SessionPayload) :=
  let idle_timeout := session_idle_timeout_seconds settings in
  if (idle_timeout <=? 0) || negb (opt_str_truthy (s_last_active_at session)) then
    mret (Some session)
  else
    let last_active := _parse_datetime_or_epoch (s_last_active_at session) in
    now ← now_utc;
    mret (if now - last_active >? idle_timeout * 1000000 then None else Some session).

(** [get] *)
Definition store_get (token : string) : io R (option SessionPayload) :=
  _ ← _get_required_redis;
  raw ← r_get (login_token_key token);
  match raw with
  | None => mret None
  | Some v =>
      if negb (raw_truthy v) then mret None
      else session ← lift (load_session v); _check_idle_timeout session
  end.

(** [touch] *)
Definition touch (token : string) : io R () :=
  try_except
    (_ ← _get_required_redis;
     raw ← r_get (login_token_key token);
     match raw with
     | None => mret ()
     | Some v =>
         if negb (raw_truthy v) then mret ()
         else
           data ← lift (load_session v);
           now ← now_utc;
           let data' := set_last_active (isoformat now) data in
           let ttl := if s_remember_me data' then token_ttl_seconds settings
                      else token_ttl_short_seconds settings in
           r_setex (login_token_key token) ttl (Stored data')
     end)
    is_exception (λ _, mret ()).

Definition _smembers_many (keys : list string) : io R (list (list string)) :=
  match keys with
  | [] => mret []
  | _ =>
      if negb has_pipeline then
        foreach keys [] (λ rows key, row ← r_smembers key; mret (rows ++ [row]))
      else pipe_smembers keys
  end.

Definition _get_many (keys : list string) : io R (list (option raw)) :=
  match keys with
  | [] => mret []
  | _ =>
      if negb has_mget then
        foreach keys [] (λ rows key, v ← r_get key; mret (rows ++ [v]))
      else r_mget keys
  end.

Definition account_key (target : string * string) : string :=
  login_account_tokens_key target.1 target.2.

(** [get_accounts_tokens]; the dict is an association list in the order of the
    distinct targets. *)
Definition get_accounts_tokens (targets : list (string * string))
    : io R (list ((string * string) * list string)) :=
  _ ← _get_required_redis;
  let unique_targets := fromkeys targets in
  match unique_targets with
  | [] => mret []
  | _ =>
      rows ← _smembers_many (map account_key unique_targets);
      if decide (length rows = length unique_targets) then mret (zip unique_targets rows)
      else raise (ValueError "zip() argument 2 is of another length than argument 1")
  end.

Definition dict_get {K V} `{EqDecision K} (d : list (K * V)) (k : K) (default_ : V) : V :=
  match list_find (λ kv, kv.1 = k) d with Some (_, kv) => kv.2 | None => default_ end.

Definition get_account_tokens (account_type account_id : string) : io R (list string) :=
  token_map ← get_accounts_tokens [(account_type, account_id)];
  mret (dict_get token_map (account_type, account_id) []).

Definition list_tokens : io R (list string) :=
  _ ← _get_required_redis;
  r_smembers login_tokens_key.

Definition list_sessions_by_tokens (tokens : list string) : io R (list SessionPayload) :=
  let unique_tokens := fromkeys tokens in
  acc ← foreach unique_tokens ([], []) (λ acc token,
    session ← store_get token;
    mret (match session with
          | Some s => (acc.1 ++ [s], acc.2)
          | None => (acc.1, acc.2 ++ [token])
          end));
  _ ← when (negb (bool_decide (acc.2 = [])))
        (_ ← _get_required_redis; r_srem login_tokens_key acc.2);
  mret acc.1.

Definition login_leb (a b : SessionPayload) : bool :=
  _parse_datetime_or_epoch (s_login_at a) <=? _parse_datetime_or_epoch (s_login_at b).

Definition list_account_sessions (account_type account_id : string) : io R (list SessionPayload) :=
  tokens ← get_account_tokens account_type account_id;
  sessions ← list_sessions_by_tokens tokens;
  mret (sort_by login_leb sessions).

Definition _delete_keys (keys : list string) : io R () :=
  let unique_keys := fromkeys keys in
  match unique_keys with
  | [] => mret ()
  | _ =>
      try_except (r_delete unique_keys)
        (λ e, match e with TypeError _ => true | _ => false end)
        (λ _, foreach unique_keys () (λ _ key, r_delete [key]))
  end.

(** [delete] *)
Definition store_delete (token : string) : io R () :=
  _ ← _get_required_redis;
  payload ← store_get token;
  _ ← _delete_keys [login_token_key token];
  _ ← r_srem login_tokens_key [token];
  match payload with
  | Some p => r_srem (login_account_tokens_key (s_account_type p) (s_account_id p)) [token]
  | None => mret ()
  end.

Definition prune_excess_sessions (account_type account_id : string) (max_sessions : Z) : io R () :=
  if max_sessions <=? 0 then mret ()
  else
    sessions ← list_account_sessions account_type account_id;
    if Z.of_nat (length sessions) <=? max_sessions then mret ()
    else
      let excess := take (length sessions - Z.to_nat max_sessions) sessions in
      foreach excess () (λ _ session, store_delete (s_token session)).

(** [delete_accounts_sessions]; [set_iter] is the order in which Python iterates
    over the sets of keys and tokens. *)
Definition delete_accounts_sessions (set_iter : gset string → list string)
    (targets : list (string * string)) : io R () :=
  _ ← _get_required_redis;
  let unique_targets := fromkeys targets in
  match unique_targets with
  | [] => mret ()
  | _ =>
      token_map ← get_accounts_tokens unique_targets;
      let all_tokens := concat (map snd token_map) in
      let keys : gset string :=
        list_to_set (map login_token_key all_tokens) ∪ list_to_set (map account_key unique_targets) in
      _ ← when (negb (bool_decide (keys = ∅))) (_delete_keys (set_iter keys));
      let tokens : gset string := list_to_set all_tokens in
      when (negb (bool_decide (tokens = ∅))) (r_srem login_tokens_key (set_iter tokens))
  end.

Definition delete_account_sessions (set_iter : gset string → list string)
    (account_type account_id : string) : io R () :=
  delete_accounts_sessions set_iter [(account_type, account_id)].

(** [_set_sessions]: the commands of one update, piped or one by one. *)
Definition update_cmds (u : SessionPayload * string) : list Cmd :=
  let '(refreshed, token) := u in
  [CSetex (login_token_key token) (token_ttl_seconds settings) (Stored refreshed);
   CSadd (login_account_tokens_key (s_account_type refreshed) (s_account_id refreshed)) token;
   CSadd login_tokens_key token].

Definition run_cmd (c : Cmd) : io R () :=
  match c with CSetex k ttl v => r_setex k ttl v | CSadd k m => r_sadd k m end.

Definition _set_sessions (updates : list (SessionPayload * string)) : io R () :=
  match updates with
  | [] => mret ()
  | _ =>
      if negb has_pipeline then
        foreach updates () (λ _ u, foreach (update_cmds u) () (λ _ c, run_cmd c))
      else pipe_write (updates ≫= update_cmds)
  end.

(** [refresh_accounts_sessions]: the factories are coroutines of the caller. *)
Definition refresh_accounts_sessions (targets : list (string * string))
    (payload_factories : list ((string * string) * (string → io R SessionPayload))) : io R () :=
  let unique_targets :=
    filter (λ t, t ∈ map fst payload_factories) (fromkeys targets) in
  match unique_targets with
  | [] => mret ()
  | _ =>
      _ ← _get_required_redis;
      token_map ← get_accounts_tokens unique_targets;
      let token_targets : list (string * (string * string)) :=
        unique_targets ≫= λ target, map (λ token, (token, target)) (dict_get token_map target []) in
      match token_targets with
      | [] => mret ()
      | _ =>
          existing_sessions ← _get_many (map (λ tt, login_token_key tt.1) token_targets);
          if decide (length existing_sessions = length token_targets) then
            updates ← foreach (zip token_targets existing_sessions) [] (λ updates item,
              let '((token, target), existing) := item in
              match existing with
              | None => mret updates
              | Some v =>
                  if negb (raw_truthy v) then mret updates
                  else
                    let factory := dict_get payload_factories target
                      (λ _, raise (KeyError target.1)) in
                    refreshed ← factory token;
                    mret (updates ++ [(refreshed, token)])
              end);
            _set_sessions updates
          else raise (ValueError "zip() argument 2 is of another length than argument 1")
      end
  end.

Definition refresh_account_sessions (account_type account_id : string)
    (payload_factory : string → io R SessionPayload) : io R () :=
  refresh_accounts_sessions [(account_type, account_id)] [((account_type, account_id), payload_factory)].
End store.
