(* ===== verification/SessionProofs.v ===== *)
(** * SessionProofs: what the session store keeps

    The documented behaviour of the Redis commands is the class [RedisLaws]: a
    key space of strings with a time to live and one of sets, where a missing
    set is empty. The theorems are proved against it; [SessionWitness] gives an
    implementation. *)
From S2P Require Import Prelude PyText PyStr PyList SessionStore.
Open Scope Z_scope.

Definition is_type_error (e : exn) : Prop := ∃ m, e = TypeError m.

Class RedisLaws (R : Type) `{RedisApi R, !SessionClock R} := {
  strings : R → gmap string (raw * Z);
  members : R → string → gset string;
  (** [delete] takes several keys; a single-key client raises [TypeError]. *)
  multi_delete : bool;
  law_get k r : members r k = ∅ → r_get k r = (Ret (fst <$> strings r !! k), r);
  law_setex k ttl v r : 0 < ttl → ∃ r', r_setex k ttl v r = (Ret (), r') ∧
    redis_ready r' = redis_ready r ∧
    strings r' = <[k := (v, ttl)]> (strings r) ∧
    ∀ k', members r' k' = if decide (k' = k) then ∅ else members r k';
  law_sadd k m r : strings r !! k = None → ∃ r', r_sadd k m r = (Ret (), r') ∧
    redis_ready r' = redis_ready r ∧ strings r' = strings r ∧
    ∀ k', members r' k' = if decide (k' = k) then {[m]} ∪ members r k' else members r k';
  law_srem k ms r : strings r !! k = None → ∃ r', r_srem k ms r = (Ret (), r') ∧
    redis_ready r' = redis_ready r ∧ strings r' = strings r ∧
    ∀ k', members r' k' = if decide (k' = k) then members r k' ∖ list_to_set ms else members r k';
  law_smembers k r : strings r !! k = None → ∃ l, r_smembers k r = (Ret l, r) ∧
    NoDup l ∧ ∀ x, x ∈ l ↔ x ∈ members r k;
  law_delete ks r : ks ≠ [] →
    if multi_delete || bool_decide (length ks = 1%nat) then
      ∃ r', r_delete ks r = (Ret (), r') ∧ redis_ready r' = redis_ready r ∧
        (∀ k, strings r' !! k = if decide (k ∈ ks) then None else strings r !! k) ∧
        (∀ k, members r' k = if decide (k ∈ ks) then ∅ else members r k)
    else ∃ e, r_delete ks r = (Raise (TypeError e), r);
  law_pipe_smembers ks r : Forall (λ k, strings r !! k = None) ks → ∃ ls, pipe_smembers ks r = (Ret ls, r) ∧
    Forall2 (λ k l, NoDup l ∧ ∀ x, x ∈ l ↔ x ∈ members r k) ks ls;
  law_mget ks r : Forall (λ k, members r k = ∅) ks →
    r_mget ks r = (Ret (map (λ k, fst <$> strings r !! k) ks), r);
  (** A pipeline of writes is the writes one after another. *)
  law_pipe_write cs r r' :
    foreach cs () (λ _ c, run_cmd c) r = (Ret (), r') → pipe_write cs r = (Ret (), r');
  (** Reading the clock changes nothing. *)
  clock : R → Z;
  law_now r : now_utc r = (Ret (clock r), r) }.

Section proofs.
Context `{RedisLaws R} (settings : AuthSettings).
Implicit Types (r : R) (p : SessionPayload) (t : string).

(** The keys of the sessions hold strings, those of the indexes sets. *)
Record keys_ok r : Prop := {
  ko_token : ∀ t, members r (login_token_key t) = ∅;
  ko_tokens : strings r !! login_tokens_key = None;
  ko_account : ∀ a b, strings r !! login_account_tokens_key a b = None }.

Record usable r : Prop := { us_ready : redis_ready r = true; us_keys : keys_ok r }.

Lemma token_key_inj t t' : login_token_key t = login_token_key t' → t = t'.
Proof. unfold login_token_key. simpl. by intros [= Heq]. Qed.
Lemma token_key_tokens t : login_token_key t ≠ login_tokens_key.
Proof. done. Qed.
Lemma token_key_account t a b : login_token_key t ≠ login_account_tokens_key a b.
Proof. done. Qed.
Lemma account_key_tokens a b : login_account_tokens_key a b ≠ login_tokens_key.
Proof. done. Qed.
Hint Resolve token_key_tokens token_key_account account_key_tokens : core.
Hint Extern 1 (_ ≠ _) => (symmetry; solve [apply token_key_tokens|apply token_key_account|apply account_key_tokens]) : core.

(** *** Single commands keep the store usable *)
Lemma setex_token t ttl v r :
  usable r → 0 < ttl → ∃ r', r_setex (login_token_key t) ttl v r = (Ret (), r') ∧ usable r' ∧
    strings r' = <[login_token_key t := (v, ttl)]> (strings r) ∧ ∀ k, members r' k = members r k.
Proof.
  intros [Hr [Ht Hi Ha]] Httl. destruct (law_setex (login_token_key t) ttl v r Httl) as (r' & Hrun & Hr' & Hs & Hm).
  exists r'. assert (∀ k, members r' k = members r k) as Hmm.
  { intros k. rewrite Hm. case_decide as Hk; [|done]. by rewrite Hk, Ht. }
  split_and!; [done| |done|done]. split; [congruence|]. split.
  - intros t'. by rewrite Hmm.
  - by rewrite Hs, lookup_insert_ne.
  - intros a b. by rewrite Hs, lookup_insert_ne.
Qed.

(** A set command on an index key. *)
Definition index_key (k : string) : Prop := k = login_tokens_key ∨ ∃ a b, k = login_account_tokens_key a b.

Lemma index_key_strings k r : keys_ok r → index_key k → strings r !! k = None.
Proof. intros [Ht Hi Ha] [->|(a & b & ->)]; auto. Qed.

Lemma index_key_token k t : index_key k → login_token_key t ≠ k.
Proof. intros [->|(a & b & ->)]; auto. Qed.

Lemma usable_members r r' k f :
  usable r → index_key k → redis_ready r' = redis_ready r → strings r' = strings r →
  (∀ k', members r' k' = if decide (k' = k) then f (members r k') else members r k') → usable r'.
Proof.
  intros [Hr [Ht Hi Ha]] Hk Hr' Hs Hm. split; [congruence|]. split.
  - intros t. rewrite Hm. rewrite decide_False by (by apply index_key_token). done.
  - by rewrite Hs.
  - intros a b. by rewrite Hs.
Qed.

Lemma sadd_index k m r :
  usable r → index_key k → ∃ r', r_sadd k m r = (Ret (), r') ∧ usable r' ∧ strings r' = strings r ∧
    ∀ k', members r' k' = if decide (k' = k) then {[m]} ∪ members r k' else members r k'.
Proof.
  intros Hu Hk. destruct (law_sadd k m r) as (r' & Hrun & Hr' & Hs & Hm).
  { apply index_key_strings; [apply Hu|done]. }
  exists r'. split_and!; try done. by eapply (usable_members r r' k (λ s, {[m]} ∪ s)).
Qed.

Lemma srem_index k ms r :
  usable r → index_key k → ∃ r', r_srem k ms r = (Ret (), r') ∧ usable r' ∧ strings r' = strings r ∧
    ∀ k', members r' k' = if decide (k' = k) then members r k' ∖ list_to_set ms else members r k'.
Proof.
  intros Hu Hk. destruct (law_srem k ms r) as (r' & Hrun & Hr' & Hs & Hm).
  { apply index_key_strings; [apply Hu|done]. }
  exists r'. split_and!; try done. by eapply (usable_members r r' k (λ s, s ∖ list_to_set ms)).
Qed.

Lemma get_token t r : usable r → r_get (login_token_key t) r = (Ret (fst <$> strings r !! login_token_key t), r).
Proof. intros [_ [Ht _ _]]. by apply law_get. Qed.

Lemma required_run r : usable r → _get_required_redis r = (Ret (), r).
Proof. intros [Hr _]. unfold _get_required_redis, mbind, io_bind, get. by rewrite Hr. Qed.

(** *** Removing keys *)
Definition removed (ks : list string) r r' : Prop :=
  (∀ k, strings r' !! k = if decide (k ∈ ks) then None else strings r !! k) ∧
  (∀ k, members r' k = if decide (k ∈ ks) then ∅ else members r k).

Lemma removed_usable ks r r' :
  usable r → redis_ready r' = redis_ready r → removed ks r r' → usable r'.
Proof.
  intros [Hr [Ht Hi Ha]] Hr' [Hs Hm]. split; [congruence|]. split.
  - intros t. rewrite Hm. by case_decide.
  - rewrite Hs. by case_decide.
  - intros a b. rewrite Hs. by case_decide.
Qed.

Lemma removed_app ks ks' r r' r'' : removed ks r r' → removed ks' r' r'' → removed (ks ++ ks') r r''.
Proof.
  intros [Hs Hm] [Hs' Hm']. split; intros k; rewrite ?Hs', ?Hm', ?Hs, ?Hm;
    repeat case_decide; set_solver.
Qed.

Lemma delete_one_by_one ks r :
  usable r → ∃ r', foreach ks () (λ _ key, r_delete [key]) r = (Ret (), r') ∧ usable r' ∧ removed ks r r'.
Proof.
  revert r. induction ks as [|k ks IH]; intros r Hu.
  { exists r. split_and!; try done. }
  pose proof (law_delete [k] r ltac:(done)) as Hd. rewrite orb_true_r in Hd.
  destruct Hd as (r1 & Hrun & Hr1 & Hrm). pose proof (removed_usable [k] r r1 Hu Hr1 Hrm) as Hu1.
  destruct (IH r1 Hu1) as (r2 & Hrun2 & Hu2 & Hrm2). exists r2. simpl.
  rewrite (run_ret _ _ _ _ _ Hrun). split_and!; [done|done|].
  change (k :: ks) with ([k] ++ ks). by eapply removed_app.
Qed.

Lemma delete_keys_run ks r :
  usable r → ∃ r', _delete_keys ks r = (Ret (), r') ∧ usable r' ∧ removed ks r r'.
Proof.
  intros Hu. unfold _delete_keys. assert (∀ r', removed (fromkeys ks) r r' → removed ks r r') as Hfk.
  { intros r' [Hs Hm]. split; intros k; rewrite ?Hs, ?Hm; apply decide_ext, elem_of_fromkeys. }
  destruct (fromkeys ks) as [|k0 ks0] eqn:Hks.
  { exists r. split_and!; [done|done|]. by apply Hfk. }
  rewrite <-Hks in *. pose proof (law_delete (fromkeys ks) r ltac:(by rewrite Hks)) as Hd.
  unfold try_except. destruct (multi_delete || _).
  - destruct Hd as (r1 & -> & Hr1 & Hrm). exists r1.
    split_and!; [done|by eapply removed_usable|by apply Hfk].
  - destruct Hd as [e ->]. destruct (delete_one_by_one (fromkeys ks) r Hu) as (r1 & -> & Hu1 & Hrm).
    exists r1. split_and!; [done|done|by apply Hfk].
Qed.

(** *** [get] *)
Definition idle_expired (now : Z) p : bool :=
  negb ((session_idle_timeout_seconds settings <=? 0) || negb (opt_str_truthy (s_last_active_at p))) &&
  (now - _parse_datetime_or_epoch (s_last_active_at p) >? session_idle_timeout_seconds settings * 1000000).

Lemma check_idle_run p r :
  _check_idle_timeout settings p r = (Ret (if idle_expired (clock r) p then None else Some p), r).
Proof.
  unfold _check_idle_timeout, idle_expired.
  destruct ((session_idle_timeout_seconds settings <=? 0) || _); simpl; [done|].
  by rewrite (run_ret _ _ _ _ _ (law_now r)).
Qed.

Lemma store_get_run t r :
  usable r →
  store_get settings t r =
    match strings r !! login_token_key t with
    | None => (Ret None, r)
    | Some (Stored p, _) => (Ret (if idle_expired (clock r) p then None else Some p), r)
    | Some (Unreadable x e, _) => if str_truthy x then (Raise e, r) else (Ret None, r)
    end.
Proof.
  intros Hu. unfold store_get. rewrite (run_ret _ _ _ _ _ (required_run r Hu)).
  rewrite (run_ret _ _ _ _ _ (get_token t r Hu)).
  destruct (strings r !! _) as [[[p|x e] ttl]|]; simpl; [apply check_idle_run| |done].
  by destruct (str_truthy x).
Qed.

(** The texts under the tokens are sessions (or empty). *)
Definition readable r : Prop :=
  ∀ t x e ttl, strings r !! login_token_key t = Some (Unreadable x e, ttl) → x = "".

(** What the store holds for a token, whatever its age. *)
Definition stored_at r t : option SessionPayload :=
  match strings r !! login_token_key t with Some (Stored p, _) => Some p | _ => None end.

Definition live_at r t : option SessionPayload :=
  p ← stored_at r t; if idle_expired (clock r) p then None else Some p.

Lemma store_get_live t r :
  usable r → readable r → store_get settings t r = (Ret (live_at r t), r).
Proof.
  intros Hu Hrd. rewrite store_get_run by done. unfold live_at, stored_at.
  destruct (strings r !! login_token_key t) as [[[p|x e] ttl]|] eqn:Hs; simpl; [done| |done].
  by rewrite (Hrd _ _ _ _ Hs).
Qed.

(** *** [set] *)
Lemma store_set_run p ttl r :
  usable r → 0 < ttl → ∃ r', store_set p ttl r = (Ret (), r') ∧ usable r' ∧
    strings r' = <[login_token_key (s_token p) := (Stored p, ttl)]> (strings r) ∧
    ∀ k, members r' k =
      if decide (k = login_tokens_key ∨ k = login_account_tokens_key (s_account_type p) (s_account_id p))
      then {[s_token p]} ∪ members r k else members r k.
Proof.
  intros Hu Httl. unfold store_set. rewrite (run_ret _ _ _ _ _ (required_run r Hu)).
  destruct (setex_token (s_token p) ttl (Stored p) r Hu Httl) as (r1 & Hr1 & Hu1 & Hs1 & Hm1).
  rewrite (run_ret _ _ _ _ _ Hr1).
  destruct (sadd_index (login_account_tokens_key (s_account_type p) (s_account_id p)) (s_token p) r1 Hu1)
    as (r2 & Hr2 & Hu2 & Hs2 & Hm2); [right; eauto|].
  rewrite (run_ret _ _ _ _ _ Hr2).
  destruct (sadd_index login_tokens_key (s_token p) r2 Hu2) as (r3 & Hr3 & Hu3 & Hs3 & Hm3); [by left|].
  exists r3. split_and!; [done|done|congruence|]. intros k. rewrite Hm3, Hm2, Hm1.
  repeat case_decide; naive_solver.
Qed.

(** [set] then [get]: a stored session is read back as it was written (unless
    the idle timeout already applies), its token is in the global index and in
    the index of its account, and no other session and no other index entry
    changes. *)
Theorem session_set_get p ttl r :
  usable r → 0 < ttl →
  ∃ r', store_set p ttl r = (Ret (), r') ∧ usable r' ∧
    store_get settings (s_token p) r' =
      (Ret (if idle_expired (clock r') p then None else Some p), r') ∧
    s_token p ∈ members r' login_tokens_key ∧
    s_token p ∈ members r' (login_account_tokens_key (s_account_type p) (s_account_id p)) ∧
    (∀ t, t ≠ s_token p → strings r' !! login_token_key t = strings r !! login_token_key t) ∧
    (∀ k t, t ≠ s_token p → t ∈ members r' k ↔ t ∈ members r k).
Proof.
  intros Hu Httl. destruct (store_set_run p ttl r Hu Httl) as (r' & Hrun & Hu' & Hs & Hm).
  exists r'. split_and!; [done|done| | | | |].
  - rewrite store_get_run by done. by rewrite Hs, lookup_insert_eq.
  - rewrite Hm, decide_True by auto. set_solver.
  - rewrite Hm, decide_True by auto. set_solver.
  - intros t Ht. rewrite Hs, lookup_insert_ne; [done|]. by intros ?%token_key_inj.
  - intros k t Ht. rewrite Hm. case_decide; set_solver.
Qed.

(** *** [delete] *)
(** The indexes [delete] takes the token out of. *)
Definition indexes_of r t : list string :=
  login_tokens_key ::
  match live_at r t with
  | Some p => [login_account_tokens_key (s_account_type p) (s_account_id p)]
  | None => []
  end.

Lemma store_delete_run t r :
  usable r → readable r → ∃ r', store_delete settings t r = (Ret (), r') ∧ usable r' ∧ readable r' ∧
    (∀ k, strings r' !! k = if decide (k = login_token_key t) then None else strings r !! k) ∧
    (∀ k, members r' k =
       if decide (k ∈ indexes_of r t) then members r k ∖ {[t]} else members r k).
Proof.
  intros Hu Hrd. unfold store_delete. rewrite (run_ret _ _ _ _ _ (required_run r Hu)).
  rewrite (run_ret _ _ _ _ _ (store_get_live t r Hu Hrd)).
  destruct (delete_keys_run [login_token_key t] r Hu) as (r1 & Hr1 & Hu1 & Hs1 & Hm1).
  rewrite (run_ret _ _ _ _ _ Hr1).
  destruct (srem_index login_tokens_key [t] r1 Hu1) as (r2 & Hr2 & Hu2 & Hs2 & Hm2); [by left|].
  rewrite (run_ret _ _ _ _ _ Hr2).
  assert (∀ k, strings r2 !! k = if decide (k = login_token_key t) then None else strings r !! k) as Hs.
  { intros k. rewrite Hs2, Hs1. apply decide_ext. set_solver. }
  assert (∀ k, members r1 k = members r k) as Hm1'.
  { intros k. rewrite Hm1. case_decide as Hk; [|done]. apply list_elem_of_singleton in Hk as ->.
    by rewrite (ko_token r (us_keys r Hu)). }
  assert (∀ r3, strings r3 = strings r2 → readable r3) as Hread.
  { intros r3 Heq t' x e ttl'. rewrite Heq, Hs. case_decide; [done|]. apply Hrd. }
  destruct (live_at r t) as [p|] eqn:Hl.
  - unfold indexes_of. rewrite Hl.
    destruct (srem_index (login_account_tokens_key (s_account_type p) (s_account_id p)) [t] r2 Hu2)
      as (r3 & Hr3 & Hu3 & Hs3 & Hm3); [right; eauto|].
    exists r3. split_and!; [done|done|auto|by rewrite Hs3|]. intros k. rewrite Hm3, Hm2, Hm1'.
    repeat case_decide; set_solver.
  - unfold indexes_of. rewrite Hl. exists r2. split_and!; [done|done|auto|done|]. intros k. rewrite Hm2, Hm1'.
    repeat case_decide; set_solver.
Qed.

(** [delete] removes a session: its text is gone, its token is out of the
    global index and, when [get] still answers the session, out of the index of
    its account; nothing else changes. *)
Theorem session_delete t r :
  usable r → readable r →
  ∃ r', store_delete settings t r = (Ret (), r') ∧ usable r' ∧
    store_get settings t r' = (Ret None, r') ∧
    t ∉ members r' login_tokens_key ∧
    (∀ p, store_get settings t r = (Ret (Some p), r) →
       t ∉ members r' (login_account_tokens_key (s_account_type p) (s_account_id p))) ∧
    (∀ t', t' ≠ t → strings r' !! login_token_key t' = strings r !! login_token_key t') ∧
    (∀ k t', t' ≠ t → t' ∈ members r' k ↔ t' ∈ members r k).
Proof.
  intros Hu Hrd. destruct (store_delete_run t r Hu Hrd) as (r' & Hrun & Hu' & Hrd' & Hs & Hm).
  exists r'. split_and!; [done|done| | | | |].
  - rewrite store_get_run by done. by rewrite Hs, decide_True.
  - rewrite Hm, decide_True by left. set_solver.
  - intros p Hp. rewrite store_get_live in Hp by done. injection Hp as Hp.
    rewrite Hm, decide_True by (unfold indexes_of; rewrite Hp; set_solver). set_solver.
  - intros t' Ht'. rewrite Hs, decide_False; [done|]. by intros ?%token_key_inj.
  - intros k t' Ht'. rewrite Hm. case_decide; set_solver.
Qed.

(** An idle session is not deleted: when the idle timeout is exceeded, [get]
    answers [None] but leaves the store exactly as it was — the session's text
    and both index entries stay — and even an explicit [delete] afterwards
    leaves the token in the index of its account. *)
Theorem idle_session_not_deleted p t ttl r :
  usable r → strings r !! login_token_key t = Some (Stored p, ttl) →
  idle_expired (clock r) p = true → readable r →
  store_get settings t r = (Ret None, r) ∧
  ∃ r', store_delete settings t r = (Ret (), r') ∧
    members r' (login_account_tokens_key (s_account_type p) (s_account_id p)) =
    members r (login_account_tokens_key (s_account_type p) (s_account_id p)).
Proof.
  intros Hu Hs Hidle Hrd. split; [by rewrite store_get_run, Hs, Hidle by done|].
  destruct (store_delete_run t r Hu Hrd) as (r' & Hrun & _ & _ & _ & Hm).
  exists r'. split; [done|]. rewrite Hm, decide_False; [done|].
  unfold indexes_of, live_at, stored_at. rewrite Hs. simpl. rewrite Hidle.
  by intros ?%list_elem_of_singleton.
Qed.
End proofs.
