(* ===== verification/SessionIndex.v ===== *)
(** * SessionIndex: the operations over many sessions

    Listing, pruning and deleting the sessions of accounts, through the account
    indexes. *)
From S2P Require Import Prelude PyText PyStr PyList SessionStore SessionProofs.
Open Scope Z_scope.

Section index.
Context `{RedisLaws R} (settings : AuthSettings).
Implicit Types (r : R) (p : SessionPayload) (t : string).

(** [l] lists the members of the set at [k]. *)
Definition lists r (k : string) (l : list string) : Prop := NoDup l ∧ ∀ x, x ∈ l ↔ x ∈ members r k.

Lemma smembers_each ks r :
  usable r → Forall index_key ks → ∀ acc, ∃ ls,
    foreach ks acc (λ rows key, row ← r_smembers key; mret (rows ++ [row])) r = (Ret (acc ++ ls), r) ∧
    Forall2 (lists r) ks ls.
Proof.
  intros Hu. induction 1 as [|k ks Hk _ IH]; intros acc; simpl.
  { exists []. by rewrite app_nil_r. }
  destruct (law_smembers k r) as (l & Hrun & Hl); [by apply index_key_strings; [apply Hu|]|].
  destruct (IH (acc ++ [l])) as (ls & Hls & Hf). exists (l :: ls). split; [|by constructor].
  assert ((row ← r_smembers k; mret (acc ++ [row])) r = (Ret (acc ++ [l]), r)) as Hstep.
  { by rewrite (run_ret _ _ _ _ _ Hrun). }
  rewrite (run_ret _ _ _ _ _ Hstep), Hls. by rewrite <-(assoc_L (++)).
Qed.

Lemma smembers_many_run ks r :
  usable r → Forall index_key ks → ∃ ls, _smembers_many ks r = (Ret ls, r) ∧ Forall2 (lists r) ks ls.
Proof.
  intros Hu Hks. unfold _smembers_many. destruct ks as [|k ks]; [by exists []|].
  destruct has_pipeline; simpl negb; cbv iota.
  - apply law_pipe_smembers. eapply Forall_impl; [exact Hks|].
    intros k' Hk'. by apply index_key_strings; [apply Hu|].
  - by destruct (smembers_each (k :: ks) r Hu Hks []) as (ls & Hls & Hf); exists ls.
Qed.

Lemma account_key_index (target : string * string) : index_key (account_key target).
Proof. right. by exists target.1, target.2. Qed.

Lemma get_accounts_tokens_run targets r :
  usable r → ∃ ls, get_accounts_tokens targets r = (Ret (zip (fromkeys targets) ls), r) ∧
    Forall2 (λ target, lists r (account_key target)) (fromkeys targets) ls.
Proof.
  intros Hu. unfold get_accounts_tokens. rewrite (run_ret _ _ _ _ _ (required_run r Hu)).
  destruct (fromkeys targets) as [|x l] eqn:Hfk; [by exists []|]. rewrite <-Hfk.
  destruct (smembers_many_run (map account_key (fromkeys targets)) r Hu) as (ls & Hrun & Hf).
  { apply Forall_forall. intros k (y & -> & _)%list_elem_of_fmap. apply account_key_index. }
  exists ls. rewrite (run_ret _ _ _ _ _ Hrun).
  pose proof (Forall2_length _ _ _ Hf) as Hlen. rewrite length_map in Hlen.
  rewrite decide_True by done. split; [done|]. exact (proj1 (Forall2_fmap_l _ _ _ _) Hf).
Qed.

Lemma get_account_tokens_run a b r :
  usable r → ∃ l, get_account_tokens a b r = (Ret l, r) ∧ lists r (login_account_tokens_key a b) l.
Proof.
  intros Hu. unfold get_account_tokens.
  destruct (get_accounts_tokens_run [(a, b)] r Hu) as (ls & Hrun & Hf).
  assert (fromkeys [(a, b)] = [(a, b)]) as Hfk by done. rewrite Hfk in *.
  destruct ls as [|l ls]; inversion Hf as [|? ? ? ? Hl Hnil]; subst. inversion Hnil; subst.
  exists l. rewrite (run_ret _ _ _ _ _ Hrun). split; [|done].
  unfold dict_get. simpl. by rewrite decide_True.
Qed.

(** *** [delete_accounts_sessions] *)
Context (set_iter : gset string → list string) (set_iter_elem : ∀ s x, x ∈ set_iter s ↔ x ∈ s).

Lemma elem_of_concat_snd (targets : list (string * string)) ls r x :
  Forall2 (λ target, lists r (account_key target)) targets ls →
  x ∈ concat (map snd (zip targets ls)) ↔ ∃ tg, tg ∈ targets ∧ x ∈ members r (account_key tg).
Proof.
  induction 1 as [|tg l targets ls [_ Hl] _ IH]; simpl; [set_solver|].
  rewrite elem_of_app, IH, Hl. set_solver.
Qed.

Lemma srem_tokens_run (tokens : list string) r :
  usable r →
  ∃ r', when (negb (bool_decide (list_to_set (C:=gset string) tokens = ∅)))
          (r_srem login_tokens_key (set_iter (list_to_set tokens))) r = (Ret (), r') ∧
    usable r' ∧ strings r' = strings r ∧
    ∀ k, members r' k = if decide (k = login_tokens_key) then members r k ∖ list_to_set tokens
                        else members r k.
Proof.
  intros Hu. case_bool_decide as Hemp; simpl.
  - exists r. split_and!; [done|done|done|]. intros k. case_decide; [|done]. rewrite Hemp. set_solver.
  - destruct (srem_index login_tokens_key (set_iter (list_to_set tokens)) r Hu)
      as (r' & Hr' & Hu' & Hs' & Hm'); [by left|].
    exists r'. split_and!; [done|done|done|]. intros k. rewrite Hm'. case_decide; [|done].
    f_equal. apply set_eq. intros y. by rewrite elem_of_list_to_set, set_iter_elem.
Qed.

(** The keys [delete_accounts_sessions] removes: the sessions of the tokens and
    the indexes of the accounts, never the set of all tokens. *)
Lemma elem_of_accounts_keys tokens targets k :
  k ∈ (list_to_set (map login_token_key tokens) ∪ list_to_set (map account_key targets) : gset string) ↔
  (∃ t, k = login_token_key t ∧ t ∈ tokens) ∨ (∃ tg, k = account_key tg ∧ tg ∈ targets).
Proof. rewrite elem_of_union, !elem_of_list_to_set, !list_elem_of_fmap. set_solver. Qed.

Lemma accounts_keys_index tokens targets :
  login_tokens_key ∉
    (list_to_set (map login_token_key tokens) ∪ list_to_set (map account_key targets) : gset string).
Proof.
  rewrite elem_of_accounts_keys. intros [(t & Heq & _)|(tg & Heq & _)]; [by destruct (token_key_tokens t)|].
  by destruct (account_key_tokens tg.1 tg.2).
Qed.

(** The token is in the index of one of the accounts. *)
Definition logged_out r (targets : list (string * string)) t : Prop :=
  ∃ tg, tg ∈ targets ∧ t ∈ members r (account_key tg).

Lemma delete_accounts_sessions_run targets r :
  usable r →
  ∃ r', delete_accounts_sessions set_iter targets r = (Ret (), r') ∧ usable r' ∧
    (∀ tg, tg ∈ targets → members r' (account_key tg) = ∅) ∧
    (∀ a b, login_account_tokens_key a b ∉ map account_key targets →
       members r' (login_account_tokens_key a b) = members r (login_account_tokens_key a b)) ∧
    (∀ t, logged_out r targets t → strings r' !! login_token_key t = None ∧ t ∉ members r' login_tokens_key) ∧
    (∀ t, ¬ logged_out r targets t →
       strings r' !! login_token_key t = strings r !! login_token_key t ∧
       (t ∈ members r' login_tokens_key ↔ t ∈ members r login_tokens_key)).
Proof.
  intros Hu. unfold delete_accounts_sessions. rewrite (run_ret _ _ _ _ _ (required_run r Hu)).
  assert (∀ tg, tg ∈ targets ↔ tg ∈ fromkeys targets) as Hfk by (intros; by rewrite elem_of_fromkeys).
  destruct (fromkeys targets) as [|x l] eqn:Hft.
  { exists r. unfold logged_out. split_and!; [done|done| |done| |done]; setoid_rewrite Hfk; set_solver. }
  rewrite <-Hft in *. destruct (get_accounts_tokens_run (fromkeys targets) r Hu) as (ls & Hrun & Hf).
  rewrite (run_ret _ _ _ _ _ Hrun). assert (fromkeys (fromkeys targets) = fromkeys targets) as Hidem.
  { apply fromkeys_id, fromkeys_NoDup. }
  rewrite Hidem in *. pose proof (λ x, elem_of_concat_snd _ _ _ x Hf) as Hall.
  set (all_tokens := concat (map snd (zip (fromkeys targets) ls))) in *.
  set (keys := list_to_set (map login_token_key all_tokens) ∪
               list_to_set (map account_key (fromkeys targets)) : gset string).
  assert (∀ k, k ∈ keys ↔ (∃ t, k = login_token_key t ∧ t ∈ all_tokens) ∨
                          (∃ tg, k = account_key tg ∧ tg ∈ targets)) as Hkeys.
  { intros k. unfold keys. rewrite elem_of_accounts_keys. by setoid_rewrite Hfk. }
  assert (keys ≠ ∅) as Hne.
  { intros Hk. assert (account_key x ∈ keys) as Hx; [|rewrite Hk in Hx; set_solver].
    apply Hkeys. right. exists x. split; [done|]. apply Hfk. rewrite Hft. left. }
  rewrite (bool_decide_false (keys = ∅)) by done. cbn [negb when].
  destruct (delete_keys_run (set_iter keys) r Hu) as (r1 & Hr1 & Hu1 & Hs1 & Hm1).
  rewrite (run_ret _ _ _ _ _ Hr1).
  destruct (srem_tokens_run all_tokens r1 Hu1) as (r2 & Hr2 & Hu2 & Hs2 & Hm2).
  exists r2. assert (∀ k, strings r2 !! k = if decide (k ∈ keys) then None else strings r !! k) as Hs.
  { intros k. rewrite Hs2, Hs1. apply decide_ext, set_iter_elem. }
  assert (login_tokens_key ∉ keys) as Hnk by apply accounts_keys_index.
  assert (members r1 login_tokens_key = members r login_tokens_key) as Hm1'.
  { by rewrite Hm1, decide_False by (by rewrite set_iter_elem). }
  split_and!; [done|done| | | |].
  - intros tg Htg. rewrite Hm2, decide_False by apply account_key_tokens.
    rewrite Hm1, decide_True; [done|]. apply set_iter_elem, Hkeys. eauto.
  - intros a b Hab. rewrite Hm2, decide_False by apply account_key_tokens. rewrite Hm1, decide_False; [done|].
    rewrite set_iter_elem, Hkeys. intros [(t & Heq & _)|(tg & Heq & Htg)]; [by destruct (token_key_account t a b)|].
    apply Hab. rewrite Heq. apply list_elem_of_fmap. eauto.
  - intros t (tg & Htg & Ht). assert (t ∈ all_tokens) as Hin by (apply Hall; exists tg; by rewrite <-Hfk).
    split.
    + rewrite Hs, decide_True; [done|]. apply Hkeys. eauto.
    + rewrite Hm2, decide_True by done. set_solver.
  - intros t Hnt. assert (t ∉ all_tokens) as Hnin.
    { rewrite Hall. intros (tg & Htg & Ht). apply Hnt. exists tg. by rewrite Hfk. }
    split.
    + rewrite Hs, decide_False; [done|]. rewrite Hkeys.
      intros [(t' & ->%token_key_inj & ?)|(tg & Heq & _)]; [done|].
      by destruct (token_key_account t tg.1 tg.2).
    + rewrite Hm2, decide_True, Hm1' by done. set_solver.
Qed.

(** C18. [delete_accounts_sessions] logs the given accounts out completely: every
    token their indexes held is gone, its session cannot be read any more, the
    account indexes are empty, and the sessions and index entries of all other
    tokens are untouched. *)
Theorem delete_accounts_sessions_spec targets r :
  usable r →
  ∃ r', delete_accounts_sessions set_iter targets r = (Ret (), r') ∧ usable r' ∧
    (∀ tg, tg ∈ targets → members r' (account_key tg) = ∅) ∧
    (∀ tg t, tg ∈ targets → t ∈ members r (account_key tg) →
       store_get settings t r' = (Ret None, r') ∧ t ∉ members r' login_tokens_key) ∧
    (∀ t, (∀ tg, tg ∈ targets → t ∉ members r (account_key tg)) →
       strings r' !! login_token_key t = strings r !! login_token_key t ∧
       (t ∈ members r' login_tokens_key ↔ t ∈ members r login_tokens_key)).
Proof.
  intros Hu. destruct (delete_accounts_sessions_run targets r Hu) as (r' & Hr & Hu' & Hm & _ & Hout & Hin).
  exists r'. split_and!; [done|done|done| |].
  - intros tg t Htg Ht. destruct (Hout t) as [Hs Hn]; [by exists tg|]. split; [|done].
    by rewrite store_get_run, Hs.
  - intros t Ht. apply Hin. intros (tg & Htg & Hx). by apply (Ht tg).
Qed.
End index.

(** ** The sessions of an account, oldest first, and the limit on their number *)
Section prune.
Context `{RedisLaws R} (settings : AuthSettings).
Implicit Types (r : R) (p : SessionPayload) (t : string).

(** The text under a token is the session of that token ([set] writes it so). *)
Definition consistent r : Prop :=
  ∀ t p, stored_at r t = Some p → s_token p = t.

Lemma sessions_loop tokens r acc :
  usable r → readable r →
  foreach tokens acc (λ acc token,
    session ← store_get settings token;
    mret (match session with
          | Some s => (acc.1 ++ [s], acc.2)
          | None => (acc.1, acc.2 ++ [token])
          end)) r =
  (Ret (acc.1 ++ omap (live_at settings r) tokens,
        acc.2 ++ filter (λ t, live_at settings r t = None) tokens), r).
Proof.
  intros Hu Hrd. revert acc. induction tokens as [|t tokens IH]; intros [ss stale]; simpl.
  { by rewrite !app_nil_r. }
  assert ((session ← store_get settings t;
           mret (match session with
                 | Some s => (ss ++ [s], stale)
                 | None => (ss, stale ++ [t])
                 end)) r =
          (Ret (match live_at settings r t with
                | Some s => (ss ++ [s], stale)
                | None => (ss, stale ++ [t])
                end), r)) as Hstep by (by rewrite (run_ret _ _ _ _ _ (store_get_live settings t r Hu Hrd))).
  rewrite (run_ret _ _ _ _ _ Hstep), IH. rewrite filter_cons.
  destruct (live_at settings r t); cbn [fst snd]; (case_decide; [try done|try done]);
    by rewrite <-(assoc_L (++)).
Qed.

Lemma list_sessions_run tokens r :
  usable r → readable r →
  ∃ r', list_sessions_by_tokens settings tokens r =
          (Ret (omap (live_at settings r) (fromkeys tokens)), r') ∧
    usable r' ∧ strings r' = strings r ∧
    ∀ k, k ≠ login_tokens_key → members r' k = members r k.
Proof.
  intros Hu Hrd. unfold list_sessions_by_tokens.
  rewrite (run_ret _ _ _ _ _ (sessions_loop (fromkeys tokens) r ([], []) Hu Hrd)). simpl.
  case_bool_decide as Hemp; simpl.
  - by exists r.
  - destruct (srem_index login_tokens_key (filter (λ t, live_at settings r t = None) (fromkeys tokens)) r Hu)
      as (r1 & Hr1 & Hu1 & Hs1 & Hm1); [by left|].
    exists r1. assert ((_ ← _get_required_redis;
      r_srem login_tokens_key (filter (λ t, live_at settings r t = None) (fromkeys tokens))) r = (Ret (), r1))
      as Hw by (by rewrite (run_ret _ _ _ _ _ (required_run r Hu))).
    rewrite (run_ret _ _ _ _ _ Hw). split_and!; [done|done|done|].
    intros k Hk. by rewrite Hm1, decide_False.
Qed.

Lemma login_leb_total a b : login_leb (R:=R) a b = true ∨ login_leb (R:=R) b a = true.
Proof. unfold login_leb. lia. Qed.
Lemma login_leb_trans a b c :
  login_leb (R:=R) a b = true → login_leb (R:=R) b c = true → login_leb (R:=R) a c = true.
Proof. unfold login_leb. lia. Qed.

Lemma list_account_sessions_run a b r :
  usable r → readable r →
  ∃ sessions r', list_account_sessions settings a b r = (Ret sessions, r') ∧
    usable r' ∧ strings r' = strings r ∧
    (∀ k, k ≠ login_tokens_key → members r' k = members r k) ∧
    StronglySorted (login_leb (R:=R)) sessions ∧
    ∃ tokens, NoDup tokens ∧ (∀ t, t ∈ tokens ↔ t ∈ members r (login_account_tokens_key a b)) ∧
      sessions ≡ₚ omap (live_at settings r) tokens.
Proof.
  intros Hu Hrd. unfold list_account_sessions.
  destruct (get_account_tokens_run a b r Hu) as (tokens & Hrun & Hnd & Hin).
  rewrite (run_ret _ _ _ _ _ Hrun).
  destruct (list_sessions_run tokens r Hu Hrd) as (r1 & Hr1 & Hu1 & Hs1 & Hm1).
  rewrite (run_ret _ _ _ _ _ Hr1). rewrite fromkeys_id by done.
  eexists _, r1. split_and!; [done|done|done|done| |].
  - apply sort_by_sorted; [apply login_leb_total|apply login_leb_trans].
  - exists tokens. split_and!; [done|done|]. apply sort_by_perm.
Qed.

(** Deleting the sessions of a list removes the texts and the index entries of
    their tokens only. *)
Lemma delete_each (sessions : list SessionPayload) r :
  usable r → readable r →
  ∃ r', foreach sessions () (λ _ session, store_delete settings (s_token session)) r = (Ret (), r') ∧
    usable r' ∧ readable r' ∧
    (∀ t, strings r' !! login_token_key t =
      if decide (t ∈ map s_token sessions) then None else strings r !! login_token_key t) ∧
    (∀ k, members r' k ⊆ members r k ∧ ∀ t, t ∉ map s_token sessions → t ∈ members r k → t ∈ members r' k).
Proof.
  revert r. induction sessions as [|s sessions IH]; intros r Hu Hrd; simpl; [by exists r|].
  destruct (store_delete_run settings (s_token s) r Hu Hrd) as (r1 & Hr1 & Hu1 & Hrd1 & Hs1 & Hm1).
  rewrite (run_ret _ _ _ _ _ Hr1). destruct (IH r1 Hu1 Hrd1) as (r2 & Hr2 & Hu2 & Hrd2 & Hs2 & Hm2).
  exists r2. split_and!; [done|done|done| |].
  2:{ intros k. destruct (Hm2 k) as [Hsub Hkeep]. specialize (Hm1 k).
      split; [etrans; [exact Hsub|]; rewrite Hm1; case_decide; set_solver|].
      intros t Ht Hin. apply Hkeep; [set_solver|]. rewrite Hm1. case_decide; set_solver. }
  intros t. rewrite Hs2, Hs1.
  destruct (decide (t = s_token s)) as [->|Hne].
  - rewrite (decide_True (P := s_token s ∈ _ :: _)) by left. by repeat case_decide.
  - rewrite (decide_False (P := login_token_key t = _)) by (by intros ?%token_key_inj).
    apply decide_ext. set_solver.
Qed.

Lemma omap_live_at_key r (tokens : list string) p :
  consistent r → p ∈ omap (live_at settings r) tokens → s_token p ∈ tokens ∧ stored_at r (s_token p) = Some p.
Proof.
  intros Hc (t & Ht & Hl)%list_elem_of_omap. unfold live_at in Hl.
  destruct (stored_at r t) as [q|] eqn:Hq; [|done]. simpl in Hl.
  destruct (idle_expired settings (clock r) q); [done|]. injection Hl as ->.
  by rewrite (Hc _ _ Hq).
Qed.

Lemma omap_live_NoDup r (tokens : list string) :
  consistent r → NoDup tokens → NoDup (map s_token (omap (live_at settings r) tokens)).
Proof.
  intros Hc. induction 1 as [|t tokens Ht _ IH]; simpl; [constructor|].
  destruct (live_at settings r t) as [p|] eqn:Hl; [|done]. simpl. constructor; [|done].
  assert (s_token p = t) as ->.
  { assert (p ∈ omap (live_at settings r) [t]) as Hp by (simpl; rewrite Hl; left).
    apply (omap_live_at_key r [t] p Hc) in Hp as [Hp _]. set_solver. }
  intros (q & Heq & Hq)%list_elem_of_fmap. apply (omap_live_at_key r tokens q Hc) in Hq as [Hq _].
  by rewrite <-Heq in Hq.
Qed.

(** What pruning does: [sessions] are the account's live sessions, oldest login
    first; the ones before the last [max_sessions] are deleted. *)
Lemma prune_run a b (max_sessions : Z) r :
  usable r → readable r → 0 < max_sessions →
  ∃ sessions r1 r' tokens,
    list_account_sessions settings a b r = (Ret sessions, r1) ∧
    StronglySorted (login_leb (R:=R)) sessions ∧
    NoDup tokens ∧ (∀ t, t ∈ tokens ↔ t ∈ members r (login_account_tokens_key a b)) ∧
    sessions ≡ₚ omap (live_at settings r) tokens ∧
    prune_excess_sessions settings a b max_sessions r = (Ret (), r') ∧ usable r' ∧ readable r' ∧
    let excess := take (length sessions - Z.to_nat max_sessions) sessions in
    (∀ t, strings r' !! login_token_key t =
      if decide (t ∈ map s_token excess) then None else strings r !! login_token_key t) ∧
    (∀ k, k ≠ login_tokens_key →
      members r' k ⊆ members r k ∧ ∀ t, t ∉ map s_token excess → t ∈ members r k → t ∈ members r' k).
Proof.
  intros Hu Hrd Hmax.
  destruct (list_account_sessions_run a b r Hu Hrd) as
    (sessions & r1 & Hr1 & Hu1 & Hs1 & Hm1 & Hsorted & tokens & Hnd & Htok & Hperm).
  set (n := (length sessions - Z.to_nat max_sessions)%nat).
  assert (readable r1) as Hrd1 by (unfold readable; by rewrite Hs1).
  destruct (delete_each (take n sessions) r1 Hu1 Hrd1) as (r2 & Hr2 & Hu2 & Hrd2 & Hs2 & Hm2).
  rewrite Hs1 in Hs2. exists sessions, r1, r2, tokens. cbv zeta. fold n.
  split_and!; [done..| |done|done|done|].
  - unfold prune_excess_sessions. destruct (max_sessions <=? 0) eqn:Hm; [lia|].
    rewrite (run_ret _ _ _ _ _ Hr1). destruct (_ <=? max_sessions) eqn:Hle; [|done].
    assert (n = 0%nat) as Hn0 by lia. rewrite Hn0 in Hr2. simpl in Hr2. by injection Hr2 as <-.
  - intros k Hk. rewrite <-(Hm1 k Hk). apply Hm2.
Qed.

(** Live sessions are stored under their own tokens, once. *)
Lemma live_sessions_stored r (tokens : list string) sessions :
  consistent r → NoDup tokens → sessions ≡ₚ omap (live_at settings r) tokens →
  NoDup (map s_token sessions) ∧ ∀ s, s ∈ sessions → stored_at r (s_token s) = Some s.
Proof.
  intros Hc Hnd Hperm. split.
  - rewrite (Permutation_map s_token Hperm). by apply omap_live_NoDup.
  - intros s Hs. rewrite Hperm in Hs. by apply (omap_live_at_key r tokens s Hc) in Hs as [_ ?].
Qed.

(** C19. [prune_excess_sessions] keeps exactly the newest [max_sessions] sessions
    of the account: with the account's sessions listed oldest login first, the
    ones before the last [max_sessions] can no longer be read, the last ones are
    all still stored as they were, and no other text in the store changes. *)
Theorem prune_keeps_newest a b (max_sessions : Z) r :
  usable r → readable r → consistent r → 0 < max_sessions →
  ∃ sessions r1 r',
    list_account_sessions settings a b r = (Ret sessions, r1) ∧
    StronglySorted (login_leb (R:=R)) sessions ∧
    prune_excess_sessions settings a b max_sessions r = (Ret (), r') ∧
    let excess := take (length sessions - Z.to_nat max_sessions) sessions in
    let kept := drop (length sessions - Z.to_nat max_sessions) sessions in
    Z.of_nat (length kept) ≤ max_sessions ∧
    (∀ s, s ∈ excess → stored_at r' (s_token s) = None) ∧
    (∀ s, s ∈ kept → stored_at r' (s_token s) = Some s) ∧
    (∀ t, t ∉ map s_token excess → strings r' !! login_token_key t = strings r !! login_token_key t).
Proof.
  intros Hu Hrd Hc Hmax.
  destruct (prune_run a b max_sessions r Hu Hrd Hmax) as
    (sessions & r1 & r' & tokens & Hr1 & Hsorted & Hnd & _ & Hperm & Hr & _ & _ & Hs & _).
  destruct (live_sessions_stored r tokens sessions Hc Hnd Hperm) as [Hdup Hst].
  set (n := (length sessions - Z.to_nat max_sessions)%nat) in *. cbv zeta in Hs.
  rewrite <-(take_drop n sessions), map_app in Hdup. apply NoDup_app in Hdup as (_ & Hdup & _).
  exists sessions, r1, r'. cbv zeta. fold n. split_and!; [done..|rewrite length_drop; lia| | |].
  - intros s Hin. unfold stored_at. rewrite Hs, decide_True; [done|]. apply list_elem_of_fmap; eauto.
  - intros s Hin. unfold stored_at. rewrite Hs, decide_False.
    + apply Hst. rewrite <-(take_drop n sessions). apply elem_of_app. by right.
    + intros Hx. apply (Hdup _ Hx). apply list_elem_of_fmap; eauto.
  - intros t Ht. by rewrite Hs, decide_False.
Qed.
End prune.
