(* ===== verification/SessionRefinement.v ===== *)
(** * SessionRefinement: the session store against a map of sessions

    What the callers of SessionStore rely on, without keys, texts and indexes: a map
    from tokens to sessions, and which account each token was issued to. Every
    operation on Redis is a step of this specification, also while Redis drops
    expired sessions and the clock moves between operations. The refresh is that of
    one account, by a function that does not touch the store. *)
From S2P Require Import Prelude PyText PyStr PyList SessionStore SessionProofs SessionIndex.
Open Scope Z_scope.

(** ** The specification *)
Record Sessions := mkSessions {
  a_sessions : gmap string SessionPayload;
  (** The account a token was issued to (by its index key), for ever. *)
  a_issued : gmap string string }.

Inductive SOp :=
| OSet (p : SessionPayload) (ttl : Z)
| OGet (t : string)
| OTouch (t : string)
| ODelete (t : string)
| OPrune (account_type account_id : string) (max_sessions : Z)
| OLogout (targets : list (string * string))
| ORefresh (account_type account_id : string) (payload : string → SessionPayload).

Definition account_of (p : SessionPayload) : string :=
  login_account_tokens_key (s_account_type p) (s_account_id p).

Section spec.
Context `{RedisLaws R} (settings : AuthSettings).
Implicit Types (r : R) (p : SessionPayload) (t k : string) (σ : gmap string SessionPayload) (a : Sessions).

(** The session [get] answers at the time [now]. *)
Definition live (now : Z) σ t : option SessionPayload :=
  p ← σ !! t; if idle_expired settings now p then None else Some p.

(** [l] lists the sessions of an account that are not idle. *)
Definition account_sessions (now : Z) σ k (l : list SessionPayload) : Prop :=
  NoDup l ∧ ∀ p, p ∈ l ↔ (∃ t, σ !! t = Some p) ∧ account_of p = k ∧ idle_expired settings now p = false.

(** The sessions of one account replaced. *)
Definition refresh_map (k : string) (f : string → SessionPayload) σ : gmap string SessionPayload :=
  map_imap (λ t p, Some (if decide (account_of p = k) then f t else p)) σ.

(** One operation at the time [now]: its answer and what it leaves. *)
Inductive session_spec (now : Z) : SOp → Sessions → option SessionPayload → Sessions → Prop :=
| spec_set p ttl σ issued :
    session_spec now (OSet p ttl) (mkSessions σ issued) None
      (mkSessions (<[s_token p := p]> σ) (<[s_token p := account_of p]> issued))
| spec_get t a : session_spec now (OGet t) a (live now (a_sessions a) t) a
| spec_touch t σ issued :
    session_spec now (OTouch t) (mkSessions σ issued) None
      (mkSessions (alter (set_last_active (isoformat now)) t σ) issued)
| spec_delete t σ issued :
    session_spec now (ODelete t) (mkSessions σ issued) None (mkSessions (delete t σ) issued)
| spec_prune_off x y n a : n ≤ 0 → session_spec now (OPrune x y n) a None a
| spec_prune x y n l σ issued :
    0 < n → StronglySorted (login_leb (R:=R)) l →
    account_sessions now σ (login_account_tokens_key x y) l →
    session_spec now (OPrune x y n) (mkSessions σ issued) None
      (mkSessions (filter (λ tp, tp.1 ∉ map s_token (take (length l - Z.to_nat n) l)) σ) issued)
| spec_logout targets σ issued :
    session_spec now (OLogout targets) (mkSessions σ issued) None
      (mkSessions (filter (λ tp, account_of tp.2 ∉ map account_key targets) σ) issued)
| spec_refresh x y f σ issued :
    session_spec now (ORefresh x y f) (mkSessions σ issued) None
      (mkSessions (refresh_map (login_account_tokens_key x y) f σ) issued).

(** A session lives for some time, and its token is new or was issued to the same
    account (tokens are random); a refresh keeps tokens and account. *)
Definition permitted a (op : SOp) : Prop :=
  match op with
  | OSet p ttl => 0 < ttl ∧ ∀ k, a_issued a !! s_token p = Some k → k = account_of p
  | ORefresh x y f => ∀ t, s_token (f t) = t ∧ account_of (f t) = login_account_tokens_key x y
  | _ => True
  end.

(** ** The implementation *)
Context (set_iter : gset string → list string).

Definition run_sop (op : SOp) : io R (option SessionPayload) :=
  match op with
  | OSet p ttl => _ ← store_set p ttl; mret None
  | OGet t => store_get settings t
  | OTouch t => _ ← touch settings t; mret None
  | ODelete t => _ ← store_delete settings t; mret None
  | OPrune x y n => _ ← prune_excess_sessions settings x y n; mret None
  | OLogout targets => _ ← delete_accounts_sessions set_iter targets; mret None
  | ORefresh x y f => _ ← refresh_account_sessions settings x y (λ t, mret (f t)); mret None
  end.

(** Redis represents the sessions: the texts under the tokens are the sessions, a
    session is in the index of its account, and an index has no tokens of others. *)
Record represents r a : Prop := {
  rp_usable : usable r;
  rp_readable : readable r;
  rp_sessions t : stored_at r t = a_sessions a !! t;
  rp_own t p : a_sessions a !! t = Some p → s_token p = t ∧ t ∈ members r (account_of p);
  rp_index x y t : t ∈ members r (login_account_tokens_key x y) →
    a_issued a !! t = Some (login_account_tokens_key x y) }.

(** A token in an index belongs to a session of that account, if to any. *)
Lemma rp_account r a t p x y :
  represents r a → a_sessions a !! t = Some p →
  (t ∈ members r (login_account_tokens_key x y) ↔ account_of p = login_account_tokens_key x y).
Proof.
  intros Hr Hp. destruct (rp_own r a Hr t p Hp) as [_ Hin]. split; [|by intros <-].
  intros Hx%(rp_index r a Hr). apply (rp_index r a Hr) in Hin. unfold account_of. congruence.
Qed.

Lemma stored_at_strings r r' t :
  strings r' !! login_token_key t = strings r !! login_token_key t → stored_at r' t = stored_at r t.
Proof. unfold stored_at. by intros ->. Qed.

(** A change that only drops sessions and index entries of dropped sessions. *)
Lemma represents_drop r r' a (keep : string * SessionPayload → Prop) `{∀ tp, Decision (keep tp)} :
  represents r a → usable r' →
  (∀ t p, a_sessions a !! t = Some p → keep (t, p) →
     strings r' !! login_token_key t = strings r !! login_token_key t ∧ t ∈ members r' (account_of p)) →
  (∀ t p, a_sessions a !! t = Some p → ¬ keep (t, p) → strings r' !! login_token_key t = None) →
  (∀ t, a_sessions a !! t = None →
     strings r' !! login_token_key t = strings r !! login_token_key t ∨ strings r' !! login_token_key t = None) →
  (∀ x y, members r' (login_account_tokens_key x y) ⊆ members r (login_account_tokens_key x y)) →
  represents r' (mkSessions (filter keep (a_sessions a)) (a_issued a)).
Proof.
  intros [Hu Hrd Hs Hown Hix] Hu' Hkeep Hdrop Hnone Hsub.
  assert (∀ t, strings r' !! login_token_key t = strings r !! login_token_key t ∨ strings r' !! login_token_key t = None)
    as Hcase.
  { intros t. destruct (a_sessions a !! t) as [p|] eqn:Hp; [|by apply Hnone].
    destruct (decide (keep (t, p))); [left; by eapply Hkeep|right; by eapply Hdrop]. }
  split; simpl; [done| | | |].
  - intros t x e ttl Ht. destruct (Hcase t) as [Heq|Heq]; rewrite Heq in Ht; [by eapply Hrd|done].
  - intros t. rewrite map_lookup_filter. destruct (a_sessions a !! t) as [p|] eqn:Hp; simpl.
    + case_guard as Hk; simpl.
      * rewrite (stored_at_strings r) by (by eapply Hkeep). by rewrite Hs, Hp.
      * unfold stored_at. by rewrite (Hdrop t p).
    + destruct (Hnone t Hp) as [Heq|Heq]; [by rewrite (stored_at_strings r), Hs, Hp|].
      unfold stored_at. by rewrite Heq.
  - intros t p [Hp Hk]%map_lookup_filter_Some. split; [by apply Hown|by eapply Hkeep].
  - intros x y t Ht. by apply Hix, Hsub.
Qed.

(** *** [touch] *)
Context (ttl_pos : 0 < token_ttl_seconds settings) (ttl_short_pos : 0 < token_ttl_short_seconds settings).

Lemma touch_run t r :
  usable r → readable r →
  ∃ r', touch settings t r = (Ret (), r') ∧ usable r' ∧ (∀ k, members r' k = members r k) ∧
    match stored_at r t with
    | Some p => ∃ ttl, strings r' =
        <[login_token_key t := (Stored (set_last_active (isoformat (clock r)) p), ttl)]> (strings r)
    | None => r' = r
    end.
Proof.
  intros Hu Hrd. unfold touch, try_except. rewrite (run_ret _ _ _ _ _ (required_run r Hu)).
  rewrite (run_ret _ _ _ _ _ (get_token t r Hu)). unfold stored_at.
  destruct (strings r !! login_token_key t) as [[[p|x e] ttl]|] eqn:Hst; simpl.
  - erewrite run_ret by reflexivity. rewrite (run_ret _ _ _ _ _ (law_now r)).
    set (ttl' := if s_remember_me p then _ else _).
    destruct (setex_token t ttl' (Stored (set_last_active (isoformat (clock r)) p)) r Hu) as (r' & -> & Hu' & Hs & Hm);
      [by unfold ttl'; destruct (s_remember_me p)|].
    exists r'. split_and!; [done..|]. by exists ttl'.
  - rewrite (Hrd _ _ _ _ Hst). exists r. by split_and!.
  - exists r. by split_and!.
Qed.

(** *** One operation *)
Definition simulates (op : SOp) r a : Prop :=
  ∃ out r' a', run_sop op r = (Ret out, r') ∧ session_spec (clock r) op a out a' ∧ represents r' a'.

Lemma returns_none (m : io R ()) r r' : m r = (Ret (), r') → (_ ← m; mret (None : option SessionPayload)) r = (Ret None, r').
Proof. intros Hm. by rewrite (run_ret _ _ _ _ _ Hm). Qed.

Lemma set_represents p ttl r σ issued :
  represents r (mkSessions σ issued) → permitted (mkSessions σ issued) (OSet p ttl) →
  ∃ r', store_set p ttl r = (Ret (), r') ∧
    represents r' (mkSessions (<[s_token p := p]> σ) (<[s_token p := account_of p]> issued)).
Proof.
  intros [Hu Hrd Hs Hown Hix] [Httl Hnew]. simpl in *.
  destruct (store_set_run p ttl r Hu Httl) as (r' & Hrun & Hu' & Hst & Hm).
  exists r'. split; [done|]. split; simpl; [done| | | |].
  - intros t x e ttl'. rewrite Hst, lookup_insert_Some. intros [[_ ?]|[_ Ht]]; [done|by eapply Hrd].
  - intros t. destruct (decide (t = s_token p)) as [->|Hne].
    + unfold stored_at. by rewrite Hst, !lookup_insert_eq.
    + rewrite lookup_insert_ne, <-Hs by done. apply stored_at_strings. rewrite Hst, lookup_insert_ne; [done|].
      by intros ?%token_key_inj.
  - intros t q. rewrite lookup_insert_Some, Hm. intros [[<- <-]|[Hne Hq]].
    + split; [done|]. rewrite decide_True by (by right). set_solver.
    + destruct (Hown t q Hq). split; [done|]. case_decide; set_solver.
  - intros x y t. rewrite Hm. assert (t ∈ members r (login_account_tokens_key x y) →
      <[s_token p:=account_of p]> issued !! t = Some (login_account_tokens_key x y)) as Hold.
    { intros Ht%Hix. destruct (decide (t = s_token p)) as [->|Hne]; [|by rewrite lookup_insert_ne].
      rewrite lookup_insert_eq. f_equal. symmetry. by apply Hnew. }
    case_decide as Hk; [|done]. rewrite elem_of_union, elem_of_singleton. intros [->|Ht]; [|by apply Hold].
    rewrite lookup_insert_eq. destruct Hk as [Hk|Hk]; [by destruct (account_key_tokens x y)|by rewrite Hk].
Qed.

Lemma simulate_set p ttl r a : represents r a → permitted a (OSet p ttl) → simulates (OSet p ttl) r a.
Proof.
  intros Hr Hp. destruct a as [σ issued]. destruct (set_represents p ttl r σ issued Hr Hp) as (r' & Hrun & Hr').
  eexists None, r', _. split_and!; [by apply returns_none|by constructor|done].
Qed.

Lemma simulate_get t r a : represents r a → simulates (OGet t) r a.
Proof.
  intros Hr. pose proof Hr as [Hu Hrd Hs _ _]. eexists _, r, a. split_and!; [by apply store_get_live| |done].
  assert (live_at settings r t = live (clock r) (a_sessions a) t) as ->; [|constructor].
  unfold live_at, live. by rewrite Hs.
Qed.

Lemma simulate_touch t r a : represents r a → simulates (OTouch t) r a.
Proof.
  intros Hr. pose proof Hr as [Hu Hrd Hs Hown Hix]. destruct a as [σ issued]. simpl in *.
  destruct (touch_run t r Hu Hrd) as (r' & Hrun & Hu' & Hm & Hst). rewrite Hs in Hst.
  eexists None, r', _. split_and!; [by apply returns_none|by constructor|].
  destruct (σ !! t) as [p|] eqn:Hp.
  2:{ subst r'. assert (alter (set_last_active (isoformat (clock r))) t σ = σ) as ->; [|done].
      apply map_eq. intros t'. destruct (decide (t' = t)) as [->|Hne]; [by rewrite lookup_alter_eq, Hp|].
      by rewrite lookup_alter_ne. }
  destruct Hst as [ttl Hst]. split; simpl; [done| | | |].
  - intros t' x e ttl'. rewrite Hst, lookup_insert_Some. intros [[_ [=]]|[_ Ht]]. by eapply Hrd.
  - intros t'. destruct (decide (t' = t)) as [->|Hne].
    + unfold stored_at. by rewrite Hst, lookup_insert_eq, lookup_alter_eq, Hp.
    + rewrite lookup_alter_ne, <-Hs by done. apply stored_at_strings. rewrite Hst, lookup_insert_ne; [done|].
      by intros ?%token_key_inj.
  - intros t' q. rewrite Hm, lookup_alter_Some. intros [(<- & q0 & Hq & ->)|[_ Hq]]; exact (Hown _ _ Hq).
  - intros x y t'. rewrite Hm. apply Hix.
Qed.

Lemma delete_as_filter t σ : delete t σ = filter (λ tp, tp.1 ≠ t) σ.
Proof.
  apply map_eq. intros t'. apply option_eq. intros q.
  rewrite lookup_delete_Some, map_lookup_filter_Some. simpl. naive_solver.
Qed.

Lemma simulate_delete t r a : represents r a → simulates (ODelete t) r a.
Proof.
  intros Hr. pose proof Hr as [Hu Hrd Hs Hown Hix]. destruct a as [σ issued]. simpl in *.
  destruct (store_delete_run settings t r Hu Hrd) as (r' & Hrun & Hu' & _ & Hst & Hm).
  eexists None, r', _. split_and!; [by apply returns_none|by constructor|].
  assert (delete t σ = filter (λ tp, tp.1 ≠ t) σ) as -> by apply delete_as_filter.
  assert (∀ t', t' ≠ t → strings r' !! login_token_key t' = strings r !! login_token_key t') as Hsame.
  { intros t' Hne. rewrite Hst, decide_False; [done|]. by intros ?%token_key_inj. }
  assert (strings r' !! login_token_key t = None) as Hgone by (by rewrite Hst, decide_True).
  apply (represents_drop r r' (mkSessions σ issued)); simpl; [done|done| | | |].
  - intros t' q Hq Hne. split; [by apply Hsame|]. destruct (Hown t' q Hq). rewrite Hm. case_decide; set_solver.
  - intros t' q Hq Heq. simpl in Heq. destruct (decide (t' = t)) as [->|]; [done|by destruct Heq].
  - intros t' _. destruct (decide (t' = t)) as [->|]; [by right|left; by apply Hsame].
  - intros x y. rewrite Hm. case_decide; set_solver.
Qed.

Context (set_iter_elem : ∀ s x, x ∈ set_iter s ↔ x ∈ s).

Lemma simulate_logout targets r a : represents r a → simulates (OLogout targets) r a.
Proof.
  intros Hr. pose proof Hr as [Hu Hrd Hs Hown Hix]. destruct a as [σ issued]. simpl in *.
  destruct (delete_accounts_sessions_run set_iter set_iter_elem targets r Hu)
    as (r' & Hrun & Hu' & Hempty & Hother & Hout & Hin).
  eexists None, r', _. split_and!; [by apply returns_none|by constructor|].
  assert (∀ t q, σ !! t = Some q → logged_out r targets t ↔ account_of q ∈ map account_key targets) as Hlo.
  { intros t q Hq. unfold logged_out. rewrite list_elem_of_fmap. split; intros (tg & H1 & H2).
    - exists tg. split; [|done]. by apply (rp_account r (mkSessions σ issued) t q tg.1 tg.2) in H2.
    - exists tg. split; [done|]. rewrite <-H1. by apply Hown. }
  assert (∀ t, logged_out r targets t ∨ ¬ logged_out r targets t) as Hdec.
  { intros t. destruct (decide (Exists (λ tg, t ∈ members r (account_key tg)) targets)) as [He|He];
      rewrite Exists_exists in He; [by left|by right]. }
  apply (represents_drop r r' (mkSessions σ issued)); simpl; [done|done| | | |].
  - intros t q Hq Hk. simpl in Hk. assert (¬ logged_out r targets t) as Hn by (by rewrite (Hlo t q Hq)).
    split; [by apply Hin|]. unfold account_of. rewrite Hother by done. by apply Hown.
  - intros t q Hq Hk. apply Hout, (Hlo t q Hq). simpl in Hk. by apply dec_stable.
  - intros t _. destruct (Hdec t) as [Hl|Hl]; [right; by apply Hout|left; by apply Hin].
  - intros x y. destruct (decide (login_account_tokens_key x y ∈ map account_key targets)) as [Hk|Hk];
      [|by rewrite Hother].
    apply list_elem_of_fmap in Hk as (tg & -> & Htg). rewrite Hempty by done. set_solver.
Qed.

Lemma simulate_prune x y n r a : represents r a → simulates (OPrune x y n) r a.
Proof.
  intros Hr. pose proof Hr as [Hu Hrd Hs Hown Hix]. destruct a as [σ issued]. simpl in *.
  destruct (decide (n ≤ 0)) as [Hn|Hn].
  { eexists None, r, _. split_and!; [apply returns_none|by apply spec_prune_off|done].
    unfold prune_excess_sessions. by rewrite (proj2 (Z.leb_le n 0)). }
  destruct (prune_run settings x y n r Hu Hrd ltac:(lia)) as
    (l & r1 & r' & tokens & _ & Hsorted & Hnd & Htok & Hperm & Hrun & Hu' & _ & Hst & Hm). cbv zeta in *.
  assert (consistent r) as Hc by (intros t p Hp; rewrite Hs in Hp; by apply Hown).
  destruct (live_sessions_stored settings r tokens l Hc Hnd Hperm) as [Hdup Hlst].
  set (ex := take (length l - Z.to_nat n) l) in *.
  assert (∀ p, p ∈ ex → p ∈ l) as Hexl by (intros p Hp%elem_of_take; destruct Hp as (i & Hi & _); by eapply list_elem_of_lookup_2).
  eexists None, r', _. split_and!; [by apply returns_none|apply (spec_prune _ x y n l); [lia|done|]|].
  - split; [by eapply NoDup_fmap_1|]. intros p. rewrite Hperm, list_elem_of_omap. unfold live_at. split.
    + intros (t & Ht%Htok & Hl). rewrite Hs in Hl. destruct (σ !! t) as [q|] eqn:Hq; [|done]. simpl in Hl.
      destruct (idle_expired settings (clock r) q) eqn:Hi; [done|]. injection Hl as ->.
      split_and!; [by exists t| |done]. by apply (rp_account r (mkSessions σ issued) t p x y).
    + intros ([t Ht] & Hacc & Hi). exists t. split.
      * apply Htok. by apply (rp_account r (mkSessions σ issued) t p x y).
      * rewrite Hs, Ht. simpl. by rewrite Hi.
  - fold ex. apply (represents_drop r r' (mkSessions σ issued)); simpl; [done|done| | | |].
    + intros t q Hq Hk. simpl in Hk. split; [by rewrite Hst, decide_False|].
      apply Hm; [apply account_key_tokens|done|by apply Hown].
    + intros t q Hq Hk. simpl in Hk. rewrite Hst, decide_True; [done|]. by apply dec_stable.
    + intros t _. rewrite Hst. case_decide; auto.
    + intros x' y'. apply Hm, account_key_tokens.
Qed.

(** *** Refreshing *)
Lemma get_many_run (tokens : list string) r :
  usable r → _get_many (map login_token_key tokens) r =
    (Ret (map (λ t, fst <$> strings r !! login_token_key t) tokens), r).
Proof.
  intros Hu. unfold _get_many. destruct (map login_token_key tokens) as [|k ks] eqn:Hk; [by destruct tokens|].
  cbv beta iota. rewrite <-Hk. destruct has_mget; cbn [negb].
  - rewrite law_mget; [by rewrite map_map|]. apply Forall_fmap, Forall_forall. intros t _. apply Hu.
  - enough (∀ acc, foreach (map login_token_key tokens) acc (λ rows key, v ← r_get key; mret (rows ++ [v])) r =
      (Ret (acc ++ map (λ t, fst <$> strings r !! login_token_key t) tokens), r)) as Hgen by apply Hgen.
    clear Hk. induction tokens as [|t tokens IH]; intros acc; simpl; [by rewrite app_nil_r|].
    assert ((v ← r_get (login_token_key t); mret (acc ++ [v])) r =
      (Ret (acc ++ [fst <$> strings r !! login_token_key t]), r)) as Hstep
      by (by rewrite (run_ret _ _ _ _ _ (get_token t r Hu))).
    rewrite (run_ret _ _ _ _ _ Hstep), IH. by rewrite <-(assoc_L (++)).
Qed.

(** The writes of a list of refreshed sessions are as many calls of [set]. *)
Definition set_all (ps : list SessionPayload) : io R () :=
  foreach ps () (λ _ p, store_set p (token_ttl_seconds settings)).

Lemma foreach_app_unit {A} (l k : list A) (body : () → A → io R ()) r :
  foreach (l ++ k) () body r = (_ ← foreach l () body; foreach k () body) r.
Proof.
  revert r. induction l as [|x l IH]; intros r; simpl; [done|]. unfold mbind, io_bind.
  destruct (body () x r) as [[[]|e] r1]; [|done]. by rewrite IH.
Qed.

Lemma update_is_set p r :
  usable r → foreach (update_cmds settings (p, s_token p)) () (λ _ c, run_cmd c) r =
             store_set p (token_ttl_seconds settings) r.
Proof.
  intros Hu. unfold store_set. rewrite (run_ret _ _ _ _ _ (required_run r Hu)). simpl.
  unfold mbind, io_bind. destruct (r_setex _ _ _ r) as [[u|e] r1]; [|done].
  destruct (r_sadd _ _ r1) as [[u1|e] r2]; [|done]. by destruct (r_sadd _ _ r2) as [[[]|e] r3].
Qed.

Lemma set_sessions_run ps r r' :
  usable r → set_all ps r = (Ret (), r') →
  _set_sessions settings (map (λ p, (p, s_token p)) ps) r = (Ret (), r').
Proof.
  intros Hu Hset. assert (foreach (map (λ p, (p, s_token p)) ps) ()
    (λ _ u, foreach (update_cmds settings u) () (λ _ c, run_cmd c)) r = (Ret (), r')) as Hseq.
  { revert r Hu Hset. induction ps as [|p ps IH]; intros r Hu Hset; [exact Hset|].
    destruct (store_set_run p (token_ttl_seconds settings) r Hu ttl_pos) as (r1 & Hr1 & Hu1 & _).
    unfold set_all in Hset. simpl foreach in Hset. rewrite (run_ret _ _ _ _ _ Hr1) in Hset.
    simpl map. cbn [foreach]. erewrite run_ret; [by apply IH|]. by rewrite update_is_set. }
  unfold _set_sessions. destruct (map _ ps) as [|u us] eqn:Hups; [exact Hseq|]. cbv beta iota. rewrite <-Hups in *. clear Hups.
  destruct has_pipeline; cbn [negb]; [|exact Hseq]. apply law_pipe_write. revert Hseq.
  generalize (map (λ p, (p, s_token p)) ps). clear. intros us. revert r.
  induction us as [|u us IH]; intros r; [done|]. simpl mbind. cbn [foreach].
  intros (v & r1 & Hu & Hus)%bind_Ret_inv. destruct v. rewrite foreach_app_unit.
  rewrite (run_ret _ _ _ _ _ Hu). by apply IH.
Qed.

(** Setting the refreshed sessions one after another. *)
Lemma set_all_represents (f : string → SessionPayload) k (tokens : list string) r a :
  represents r a → (∀ t, s_token (f t) = t ∧ account_of (f t) = k) →
  Forall (λ t, a_issued a !! t = Some k) tokens →
  ∃ r', set_all (map f tokens) r = (Ret (), r') ∧
    represents r' (mkSessions (foldl (λ σ t, <[t := f t]> σ) (a_sessions a) tokens) (a_issued a)).
Proof.
  intros Hr Hf Hiss. revert r a Hr Hiss. induction tokens as [|t tokens IH]; intros r [σ issued] Hr Hiss.
  { by exists r. }
  apply Forall_cons in Hiss as [Ht Hiss]. destruct (Hf t) as [Htok Hacc].
  assert (permitted (mkSessions σ issued) (OSet (f t) (token_ttl_seconds settings))) as Hp.
  { split; [done|]. rewrite Htok, Ht, Hacc. by intros k' [= <-]. }
  destruct (set_represents (f t) (token_ttl_seconds settings) r σ issued Hr Hp) as (r1 & Hset & Hr1).
  rewrite Htok, Hacc, (insert_id issued t k Ht) in Hr1.
  destruct (IH r1 (mkSessions (<[t:=f t]> σ) issued) Hr1 Hiss) as (r3 & Hall & Hr3). exists r3. split; [|exact Hr3].
  unfold set_all. simpl map. cbn [foreach]. by rewrite (run_ret _ _ _ _ _ Hset).
Qed.

Lemma foldl_insert_lookup (f : string → SessionPayload) (tokens : list string) σ t :
  foldl (λ σ t, <[t := f t]> σ) σ tokens !! t = if decide (t ∈ tokens) then Some (f t) else σ !! t.
Proof.
  revert σ. induction tokens as [|x tokens IH]; intros σ; simpl; [done|]. rewrite IH.
  destruct (decide (t = x)) as [->|Hne].
  - rewrite lookup_insert_eq. rewrite (decide_True (P := x ∈ _ :: _)) by left. by case_decide.
  - rewrite lookup_insert_ne by done. apply decide_ext. set_solver.
Qed.

Lemma foldl_insert_refresh (f : string → SessionPayload) k (tokens : list string) σ :
  (∀ t, t ∈ tokens ↔ ∃ p, σ !! t = Some p ∧ account_of p = k) →
  foldl (λ σ t, <[t := f t]> σ) σ tokens = refresh_map k f σ.
Proof.
  intros Htok. apply map_eq. intros t. rewrite foldl_insert_lookup. unfold refresh_map. rewrite map_lookup_imap.
  destruct (decide (t ∈ tokens)) as [Ht|Ht].
  - apply Htok in Ht as (p & -> & Hk). simpl. by rewrite decide_True.
  - destruct (σ !! t) as [p|] eqn:Hp; [|done]. simpl. rewrite decide_False; [done|]. intros Hk. apply Ht, Htok. by exists p.
Qed.

(** The tokens of an index that still have a session, refreshed. *)
Lemma refresh_updates (x y : string) (f : string → SessionPayload) (tokens : list string) r :
  readable r → ∀ acc,
  foreach (zip (map (λ t, (t, (x, y))) tokens) (map (λ t, fst <$> strings r !! login_token_key t) tokens)) acc
    (λ updates item,
       let '((token, target), existing) := item in
       match existing with
       | None => mret updates
       | Some v =>
           if negb (raw_truthy v) then mret updates
           else
             let factory := dict_get [((x, y), λ t, mret (f t))] target (λ _, raise (KeyError target.1)) in
             refreshed ← factory token; mret (updates ++ [(refreshed, token)])
       end) r =
  (Ret (acc ++ map (λ t, (f t, t)) (filter (λ t, is_Some (stored_at r t)) tokens)), r).
Proof.
  intros Hrd. induction tokens as [|t tokens IH]; intros acc; simpl; [by rewrite app_nil_r|].
  rewrite filter_cons.
  destruct (strings r !! login_token_key t) as [[[p|u e] ttl]|] eqn:Hs; simpl.
  - rewrite decide_True by (exists p; unfold stored_at; by rewrite Hs). unfold dict_get. simpl.
    rewrite decide_True by done. simpl. erewrite run_ret by reflexivity. rewrite IH. simpl. by rewrite <-(assoc_L (++)).
  - rewrite (Hrd _ _ _ _ Hs). simpl. rewrite decide_False by (unfold stored_at; rewrite Hs; by intros []).
    erewrite run_ret by reflexivity. apply IH.
  - rewrite decide_False by (unfold stored_at; rewrite Hs; by intros []). erewrite run_ret by reflexivity. apply IH.
Qed.

Lemma refresh_run x y (f : string → SessionPayload) r :
  usable r → readable r → (∀ t, s_token (f t) = t) →
  ∃ tokens, (∀ t, t ∈ tokens ↔ t ∈ members r (login_account_tokens_key x y)) ∧
    ∀ r', set_all (map f (filter (λ t, is_Some (stored_at r t)) tokens)) r = (Ret (), r') →
    refresh_account_sessions settings x y (λ t, mret (f t)) r = (Ret (), r').
Proof.
  intros Hu Hrd Hf. unfold refresh_account_sessions, refresh_accounts_sessions.
  change (fromkeys [(x, y)]) with [(x, y)]. rewrite filter_cons, filter_nil, decide_True by (simpl; set_solver).
  cbv beta iota zeta.
  rewrite (run_ret _ _ _ _ _ (required_run r Hu)).
  destruct (get_accounts_tokens_run [(x, y)] r Hu) as (ls & Hrun & Hls).
  change (fromkeys [(x, y)]) with [(x, y)] in *.
  destruct ls as [|l ls]; inversion Hls as [|? ? ? ? [Hnd Hl] Hnil]; subst. inversion Hnil; subst.
  exists l. split; [done|]. intros r' Hset. rewrite (run_ret _ _ _ _ _ Hrun).
  assert (([(x, y)] ≫= λ target, map (λ token, (token, target)) (dict_get (zip [(x, y)] [l]) target [])) =
          map (λ token, (token, (x, y))) l) as ->.
  { simpl. rewrite app_nil_r. unfold dict_get. simpl. by rewrite decide_True. }
  destruct (map (λ token, (token, (x, y))) l) as [|tt tts] eqn:Htt.
  { destruct l; [exact Hset|done]. }
  cbv beta iota zeta. rewrite <-Htt. clear Htt tt tts. rewrite map_map. simpl.
  rewrite (run_ret _ _ _ _ _ (get_many_run l r Hu)). rewrite decide_True by (by rewrite !length_map).
  rewrite (run_ret _ _ _ _ _ (refresh_updates x y f l r Hrd [])). simpl.
  assert (map (λ t, (f t, t)) (filter (λ t, is_Some (stored_at r t)) l) =
          map (λ p, (p, s_token p)) (map f (filter (λ t, is_Some (stored_at r t)) l))) as ->.
  { rewrite map_map. apply map_ext. intros t. by rewrite Hf. }
  by apply set_sessions_run.
Qed.

Lemma simulate_refresh x y f r a :
  represents r a → permitted a (ORefresh x y f) → simulates (ORefresh x y f) r a.
Proof.
  intros Hr Hf. pose proof Hr as [Hu Hrd Hs Hown Hix]. destruct a as [σ issued]. simpl in *.
  destruct (refresh_run x y f r Hu Hrd (λ t, proj1 (Hf t))) as (tokens & Hl & Hrun).
  destruct (set_all_represents f (login_account_tokens_key x y) (filter (λ t, is_Some (stored_at r t)) tokens)
    r (mkSessions σ issued) Hr Hf) as (r' & Hset & Hr').
  { apply Forall_forall. intros t [_ Ht]%list_elem_of_filter. by apply Hix, Hl. }
  eexists None, r', _. split_and!; [by apply returns_none, Hrun|by constructor|]. simpl in Hr'.
  rewrite (foldl_insert_refresh f (login_account_tokens_key x y)) in Hr'; [done|].
  intros t. rewrite list_elem_of_filter, Hl, Hs. simpl. split.
  - intros [[p Hp] Ht]. exists p. split; [done|]. by apply (rp_account r (mkSessions σ issued) t p x y).
  - intros (p & Hp & Hk). split; [by exists p|]. by apply (rp_account r (mkSessions σ issued) t p x y).
Qed.

Lemma simulate_op op r a : represents r a → permitted a op → simulates op r a.
Proof.
  intros Hr Hp. destruct op; [by apply simulate_set|by apply simulate_get|by apply simulate_touch
    |by apply simulate_delete|by apply simulate_prune|by apply simulate_logout|by apply simulate_refresh].
Qed.

(** *** Runs *)

(** What is observed: an operation at a time with its answer, the expiry of a
    session in Redis, and anything that leaves the stored data alone (time passing). *)
Inductive SEvent :=
| EOp (now : Z) (op : SOp) (out : option SessionPayload)
| EExpire (t : string)
| EOther.

Inductive store_step r : SEvent → R → Prop :=
| step_op op out r' : run_sop op r = (Ret out, r') → store_step r (EOp (clock r) op out) r'
| step_expire t r' :
    redis_ready r' = redis_ready r → strings r' = delete (login_token_key t) (strings r) →
    (∀ k, members r' k = members r k) → store_step r (EExpire t) r'
| step_other r' :
    redis_ready r' = redis_ready r → strings r' = strings r →
    (∀ k, members r' k = members r k) → store_step r EOther r'.

Inductive spec_step a : SEvent → Sessions → Prop :=
| abs_op now op out a' : session_spec now op a out a' → spec_step a (EOp now op out) a'
| abs_expire t : spec_step a (EExpire t) (mkSessions (delete t (a_sessions a)) (a_issued a))
| abs_other : spec_step a EOther a.

Inductive runs {S} (step : S → SEvent → S → Prop) : S → list SEvent → S → Prop :=
| runs_nil s : runs step s [] s
| runs_cons s e s1 evs s2 : step s e s1 → runs step s1 evs s2 → runs step s (e :: evs) s2.

(** Every session set in the run lives for some time and has a token of its account,
    and every refresh keeps tokens and account. *)
Fixpoint permitted_run (issued : gmap string string) (evs : list SEvent) : Prop :=
  match evs with
  | [] => True
  | EOp _ (OSet p ttl) _ :: evs =>
      permitted (mkSessions ∅ issued) (OSet p ttl) ∧ permitted_run (<[s_token p := account_of p]> issued) evs
  | EOp _ op _ :: evs => permitted (mkSessions ∅ issued) op ∧ permitted_run issued evs
  | _ :: evs => permitted_run issued evs
  end.

Lemma represents_expire r r' a t :
  represents r a → redis_ready r' = redis_ready r → strings r' = delete (login_token_key t) (strings r) →
  (∀ k, members r' k = members r k) → represents r' (mkSessions (delete t (a_sessions a)) (a_issued a)).
Proof.
  intros Hr Hrdy Hs Hm. pose proof Hr as [Hu Hrd Hst Hown Hix].
  assert (delete t (a_sessions a) = filter (λ tp, tp.1 ≠ t) (a_sessions a)) as -> by apply delete_as_filter.
  apply (represents_drop r); [done| | | | |].
  - destruct Hu as [Hready [Ht Hi Ha]]. split; [congruence|]. split.
    + intros t'. by rewrite Hm.
    + rewrite Hs, lookup_delete_None. by right.
    + intros x y. rewrite Hs, lookup_delete_None. by right.
  - intros t' q Hq Hne. simpl in Hne. rewrite Hs, lookup_delete_ne by (by intros <-%token_key_inj).
    split; [done|]. rewrite Hm. by apply Hown.
  - intros t' q Hq Hk. simpl in Hk. apply dec_stable in Hk as ->. by rewrite Hs, lookup_delete_eq.
  - intros t' _. rewrite Hs. destruct (decide (t' = t)) as [->|Hne]; [right; by rewrite lookup_delete_eq|left].
    rewrite lookup_delete_ne; [done|]. by intros <-%token_key_inj.
  - intros x y. by rewrite Hm.
Qed.

Lemma represents_other r r' a :
  represents r a → redis_ready r' = redis_ready r → strings r' = strings r →
  (∀ k, members r' k = members r k) → represents r' a.
Proof.
  intros [[Hready [Ht Hi Ha]] Hrd Hst Hown Hix] Hrdy Hs Hm.
  split; [split; [congruence|split]| | | |]; unfold readable, stored_at in *; intros; rewrite ?Hm, ?Hs in *; eauto.
Qed.

Lemma spec_issued now op a out a' evs :
  session_spec now op a out a' → permitted_run (a_issued a) (EOp now op out :: evs) →
  permitted a op ∧ permitted_run (a_issued a') evs.
Proof. intros Hspec. destruct Hspec; simpl; naive_solver. Qed.

Lemma store_step_simulated r e r' a evs :
  represents r a → store_step r e r' → permitted_run (a_issued a) (e :: evs) →
  ∃ a', spec_step a e a' ∧ represents r' a' ∧ permitted_run (a_issued a') evs.
Proof.
  intros Hr Hstep Hp. destruct Hstep as [op out r' Hrun|t r' H1 H2 H3|r' H1 H2 H3].
  - assert (permitted a op) as Hop by (destruct op; apply Hp).
    destruct (simulate_op op r a Hr Hop) as (out' & r'' & a' & Hrun' & Hspec & Hr').
    rewrite Hrun in Hrun'. injection Hrun' as <- <-. exists a'. split_and!; [by constructor|done|].
    by eapply spec_issued.
  - eexists. split_and!; [constructor|by eapply represents_expire|done].
  - exists a. split_and!; [constructor|by eapply represents_other|done].
Qed.

(** C17. The session store refines a map from tokens to sessions: start from a Redis
    that represents such a map (an empty one, for instance) and let sessions be
    written, read, touched, deleted, pruned, refreshed and logged out in any order, with
    Redis dropping expired sessions and time passing in between. Everything observed is a
    run of the specification, in which reading answers the session unless it is idle,
    touching changes its time of activity only, pruning keeps the newest sessions of one
    account, refreshing replaces the sessions an account has and creates none, and
    logging out removes the sessions of the named accounts and no others; and no
    permitted operation fails at the end of such a run. *)
Theorem sessions_refine evs r r' a :
  represents r a → runs store_step r evs r' → permitted_run (a_issued a) evs →
  ∃ a', runs spec_step a evs a' ∧ represents r' a' ∧
    ∀ op, permitted a' op → ∃ out r'', run_sop op r' = (Ret out, r'').
Proof.
  intros Hr Hruns. revert a Hr. induction Hruns as [r|r e r1 evs r2 Hstep _ IH]; intros a Hr Hp.
  - exists a. split_and!; [constructor|done|]. intros op Hop.
    destruct (simulate_op op r a Hr Hop) as (out & r'' & _ & Hrun & _). by exists out, r''.
  - destruct (store_step_simulated r e r1 a evs Hr Hstep Hp) as (a1 & Hs1 & Hr1 & Hp1).
    destruct (IH a1 Hr1 Hp1) as (a2 & Hruns & Hr2 & Hall). exists a2. split_and!; [by econstructor|done|done].
Qed.
End spec.
