(* ===== verification/SessionWitness.v ===== *)
(** * SessionWitness: a Redis key space that has the documented behaviour, and
    the session theorems on a concrete store *)
From S2P Require Import Prelude PyText PyStr PyList SessionStore SessionProofs SessionIndex SessionRefinement.
Open Scope Z_scope.

Module MemRedis.
Record db := mkDb { db_strings : gmap string (raw * Z); db_sets : gmap string (gset string); db_clock : Z }.

Definition db_members (d : db) (k : string) : gset string := default ∅ (db_sets d !! k).
Definition setex (k : string) (ttl : Z) (v : raw) (d : db) : db :=
  mkDb (<[k := (v, ttl)]> (db_strings d)) (delete k (db_sets d)) (db_clock d).
Definition sadd (k m : string) (d : db) : db :=
  mkDb (db_strings d) (<[k := {[m]} ∪ db_members d k]> (db_sets d)) (db_clock d).
Definition srem (k : string) (ms : list string) (d : db) : db :=
  mkDb (db_strings d) (<[k := db_members d k ∖ list_to_set ms]> (db_sets d)) (db_clock d).
Definition del (k : string) (d : db) : db :=
  mkDb (delete k (db_strings d)) (delete k (db_sets d)) (db_clock d).
Definition exec_cmd (c : Cmd) : db → db :=
  match c with CSetex k ttl v => setex k ttl v | CSadd k m => sadd k m end.

#[global] Instance mem_redis : RedisApi db := {
  redis_ready := λ _, true;
  has_pipeline := true;
  has_mget := true;
  r_get := λ k, gets (λ d, fst <$> db_strings d !! k);
  r_setex := λ k ttl v, modify (setex k ttl v);
  r_sadd := λ k m, modify (sadd k m);
  r_srem := λ k ms, modify (srem k ms);
  r_smembers := λ k, gets (λ d, elements (db_members d k));
  r_delete := λ ks, modify (λ d, foldl (λ d k, del k d) d ks);
  r_mget := λ ks, gets (λ d, map (λ k, fst <$> db_strings d !! k) ks);
  pipe_smembers := λ ks, gets (λ d, map (λ k, elements (db_members d k)) ks);
  pipe_write := λ cs, modify (λ d, foldl (λ d c, exec_cmd c d) d cs) }.

(** Times are written as decimal numbers of seconds here. *)
Definition iso_table : gmap string Z := {["t1" := 1000000]} ∪ {["t2" := 2000000]} ∪ {["t3" := 3000000]}.
#[global] Instance mem_clock : SessionClock db := {
  now_utc := gets db_clock;
  isoformat := λ z, if decide (z = 1000000) then "t1" else if decide (z = 2000000) then "t2" else "t3";
  fromisoformat := λ s, iso_table !! s }.

Lemma del_fold_strings ks d k :
  db_strings (foldl (λ d k, del k d) d ks) !! k = if decide (k ∈ ks) then None else db_strings d !! k.
Proof.
  revert d. induction ks as [|x ks IH]; intros d; [done|]. simpl. rewrite IH. unfold del at 1. simpl.
  destruct (decide (k = x)) as [->|Hne].
  - rewrite lookup_delete_eq. rewrite (decide_True (P := x ∈ _ :: _)) by left. by case_decide.
  - rewrite lookup_delete_ne by done. apply decide_ext. set_solver.
Qed.

Lemma del_fold_members ks d k :
  db_members (foldl (λ d k, del k d) d ks) k = if decide (k ∈ ks) then ∅ else db_members d k.
Proof.
  revert d. induction ks as [|x ks IH]; intros d; [done|]. simpl. rewrite IH. unfold del at 1, db_members at 1. simpl.
  destruct (decide (k = x)) as [->|Hne].
  - rewrite lookup_delete_eq. rewrite (decide_True (P := x ∈ _ :: _)) by left. by case_decide.
  - rewrite lookup_delete_ne by done. apply decide_ext. set_solver.
Qed.

#[global, refine] Instance mem_laws : RedisLaws db := {
  strings := db_strings; members := db_members; multi_delete := true; clock := db_clock }.
Proof.
  - done.
  - intros k ttl v r _. exists (setex k ttl v r). split_and!; [done|done|done|]. intros k'.
    unfold setex, db_members. simpl. case_decide as Hk.
    + by rewrite Hk, lookup_delete_eq.
    + by rewrite lookup_delete_ne.
  - intros k m r _. exists (sadd k m r). split_and!; [done|done|done|]. intros k'.
    unfold sadd, db_members. simpl. case_decide as Hk.
    + by rewrite Hk, lookup_insert_eq.
    + by rewrite lookup_insert_ne.
  - intros k ms r _. exists (srem k ms r). split_and!; [done|done|done|]. intros k'.
    unfold srem, db_members. simpl. case_decide as Hk.
    + by rewrite Hk, lookup_insert_eq.
    + by rewrite lookup_insert_ne.
  - intros k r _. exists (elements (db_members r k)). split_and!; [done|apply NoDup_elements|].
    intros x. apply elem_of_elements.
  - intros ks r _. simpl. eexists. split_and!; [done|done|apply del_fold_strings|apply del_fold_members].
  - intros ks r _. exists (map (λ k, elements (db_members r k)) ks). split; [done|].
    induction ks as [|k ks IH]; simpl; constructor; [|done].
    split; [apply NoDup_elements|intros x; apply elem_of_elements].
  - done.
  - intros cs r r' Hr. simpl. unfold modify. f_equal. revert r Hr.
    induction cs as [|c cs IH]; simpl; intros r; [by intros [= ->]|].
    destruct c; simpl; intros Hr; erewrite run_ret in Hr by reflexivity; by apply IH.
  - done.
Defined.
End MemRedis.
Import MemRedis.

Module SessDemo.
Definition settings := mkAuthSettings 14400 7200 0.
Definition idle_settings := mkAuthSettings 14400 7200 1.
Definition sess (t login : string) : SessionPayload :=
  mkSession t "7" "ADMIN" [] [] [] [] [] [] [] None None true false None (Some login) (Some login) None.
Definition fresh : db := mkDb ∅ ∅ 5000000.
(** Three logins of account 7. *)
Definition three : db :=
  ((store_set (sess "b" "t2") 60 ≫= λ _, store_set (sess "a" "t1") 60 ≫= λ _, store_set (sess "c" "t3") 60) fresh).2.
End SessDemo.
Import SessDemo.

Lemma usable_fresh : usable fresh.
Proof. split; [done|]. by split. Qed.

Lemma usable_three : usable three.
Proof.
  destruct (store_set_run (sess "b" "t2") 60 fresh usable_fresh ltac:(lia)) as (r1 & H1 & Hu1 & _).
  destruct (store_set_run (sess "a" "t1") 60 r1 Hu1 ltac:(lia)) as (r2 & H2 & Hu2 & _).
  destruct (store_set_run (sess "c" "t3") 60 r2 Hu2 ltac:(lia)) as (r3 & H3 & Hu3 & _).
  unfold three. rewrite (run_ret _ _ _ _ _ H1), (run_ret _ _ _ _ _ H2), H3. exact Hu3.
Qed.

Lemma three_strings :
  db_strings three =
  <[login_token_key "c" := (Stored (sess "c" "t3"), 60)]>
    (<[login_token_key "a" := (Stored (sess "a" "t1"), 60)]>
      (<[login_token_key "b" := (Stored (sess "b" "t2"), 60)]> ∅)).
Proof. reflexivity. Qed.

(** The only texts of [three] are the three sessions. *)
Lemma three_lookup t v ttl :
  strings three !! login_token_key t = Some (v, ttl) → ∃ l, v = Stored (sess t l).
Proof.
  change (strings three) with (db_strings three). rewrite three_strings.
  repeat (intros [[Hk Hv]|[_ Hl]]%lookup_insert_Some;
          [apply token_key_inj in Hk as <-; injection Hv as <- <-; by eexists|revert Hl]).
  by rewrite lookup_empty.
Qed.

Lemma readable_three : readable three.
Proof. intros t x e ttl Hs. by apply three_lookup in Hs as [? ?]. Qed.

Lemma consistent_three : consistent three.
Proof.
  intros t p Hs. unfold stored_at in Hs. destruct (strings three !! login_token_key t) as [[v ttl]|] eqn:Hl; [|done].
  apply three_lookup in Hl as [l ->]. by injection Hs as <-.
Qed.

Lemma session_set_get_witness :
  usable fresh ∧ 0 < 60 ∧
  ∃ r', store_set (sess "b" "t2") 60 fresh = (Ret (), r') ∧
    store_get SessDemo.settings "b" r' = (Ret (Some (sess "b" "t2")), r').
Proof.
  split; [exact usable_fresh|]. split; [lia|].
  destruct (session_set_get SessDemo.settings (sess "b" "t2") 60 fresh usable_fresh ltac:(lia))
    as (r' & Hr & _ & Hg & _).
  exists r'. split; [exact Hr|exact Hg].
Defined.

Lemma session_delete_witness :
  usable three ∧ readable three ∧
  ∃ r', store_delete SessDemo.settings "a" three = (Ret (), r') ∧
    store_get SessDemo.settings "a" r' = (Ret None, r') ∧
    "a" ∉ members r' (login_account_tokens_key "ADMIN" "7").
Proof.
  split; [exact usable_three|]. split; [exact readable_three|].
  destruct (session_delete SessDemo.settings "a" three usable_three readable_three)
    as (r' & Hr & _ & Hg & _ & Ha & _).
  exists r'. split; [exact Hr|]. split; [exact Hg|].
  exact (Ha (sess "a" "t1") ltac:(vm_compute; reflexivity)).
Defined.

Lemma idle_session_not_deleted_witness :
  store_get idle_settings "a" three = (Ret None, three) ∧
  ∃ r', store_delete idle_settings "a" three = (Ret (), r') ∧
    members r' (login_account_tokens_key "ADMIN" "7") =
    members three (login_account_tokens_key "ADMIN" "7").
Proof.
  exact (idle_session_not_deleted idle_settings (sess "a" "t1") "a" 60 three usable_three
           ltac:(vm_compute; reflexivity) ltac:(vm_compute; reflexivity) readable_three).
Defined.

Lemma delete_accounts_sessions_spec_witness :
  ∃ r', delete_accounts_sessions elements [("ADMIN", "7")] three = (Ret (), r') ∧
    store_get SessDemo.settings "a" r' = (Ret None, r').
Proof.
  destruct (delete_accounts_sessions_spec SessDemo.settings elements
              (λ s x, elem_of_elements s x) [("ADMIN", "7")] three usable_three)
    as (r' & Hr & _ & _ & Ht & _).
  exists r'. split; [exact Hr|].
  refine (proj1 (Ht ("ADMIN", "7") "a" _ _)); decide_eval.
Defined.

Lemma prune_keeps_newest_witness :
  ∃ sessions r1 r', list_account_sessions SessDemo.settings "ADMIN" "7" three = (Ret sessions, r1) ∧
    prune_excess_sessions SessDemo.settings "ADMIN" "7" 2 three = (Ret (), r') ∧
    Z.of_nat (length (drop (length sessions - 2) sessions)) ≤ 2.
Proof.
  destruct (prune_keeps_newest SessDemo.settings "ADMIN" "7" 2 three usable_three readable_three
              consistent_three ltac:(lia)) as (sessions & r1 & r' & Hl & _ & Hp & Hlen & _).
  exists sessions, r1, r'. split; [exact Hl|]. split; [exact Hp|exact Hlen].
Defined.

(** The oldest of the three logins is the one that goes. *)
Example prune_two :
  let '(o, r') := prune_excess_sessions SessDemo.settings "ADMIN" "7" 2 three in
  o = Ret () ∧ map (λ t, s_token <$> stored_at r' t) ["a"; "b"; "c"] = [None; Some "b"; Some "c"].
Proof. vm_compute. split; reflexivity. Qed.

Definition short_sess (t login : string) : SessionPayload :=
  mkSession t "7" "ADMIN" [] [] [] [] [] [] [] None None false false None (Some login) (Some login) None.

(** A session without "remember me": touching it gives it the short time to live, a
    refresh of its account the long one. *)
Example refresh_lengthens_short_session :
  let d := snd ((store_set (short_sess "a" "t1") 60 ≫= λ _, touch SessDemo.settings "a") fresh) in
  let d' := (refresh_account_sessions SessDemo.settings "ADMIN" "7" (λ t, mret (short_sess t "t9")) d).2 in
  (s_remember_me (short_sess "a" "t9"), snd <$> strings d !! login_token_key "a",
   snd <$> strings d' !! login_token_key "a") = (false, Some 7200, Some 14400).
Proof. vm_compute. reflexivity. Qed.

(** Three logins of account 7, a limit of two, a refresh, and a session that expires. *)
Definition demo_ops : list SOp :=
  [OSet (sess "b" "t2") 60; OSet (sess "a" "t1") 60; OSet (sess "c" "t3") 60; OPrune "ADMIN" "7" 2;
   ORefresh "ADMIN" "7" (λ t, sess t "t9"); OGet "a"].
Definition run_demo (op : SOp) (d : db) : db := (run_sop SessDemo.settings elements op d).2.
Definition demo_end : db := foldl (λ d op, run_demo op d) fresh demo_ops.

Lemma represents_fresh : represents fresh (mkSessions ∅ ∅).
Proof. split; [exact usable_fresh|by intros t|done|done|]. intros x y t Ht. by vm_compute in Ht. Qed.

Definition expire (t : string) (d : db) : db :=
  mkDb (delete (login_token_key t) (db_strings d)) (db_sets d) (db_clock d).

Lemma expire_step (d : db) t : store_step SessDemo.settings elements d (EExpire t) (expire t d).
Proof. apply step_expire; reflexivity. Qed.

Lemma sessions_refine_witness :
  ∃ a', runs (spec_step SessDemo.settings) (mkSessions ∅ ∅)
          (map (λ op, EOp 5000000 op None) demo_ops ++ [EExpire "b"]) a' ∧
        represents (expire "b" demo_end) a'.
Proof.
  destruct (sessions_refine SessDemo.settings elements (eq_refl : 0 < 14400) (eq_refl : 0 < 7200)
    (λ s x, elem_of_elements s x) (map (λ op, EOp 5000000 op None) demo_ops ++ [EExpire "b"])
    fresh (expire "b" demo_end) (mkSessions ∅ ∅) represents_fresh) as (a' & Hruns & Hr & _).
  - assert (∀ (d : db) op, db_clock d = 5000000 → run_sop SessDemo.settings elements op d = (Ret None, run_demo op d) →
      store_step SessDemo.settings elements d (EOp 5000000 op None) (run_demo op d)) as Hstep.
    { intros d op Hc Hrun. rewrite <-Hc. exact (step_op SessDemo.settings elements d op None (run_demo op d) Hrun). }
    do 6 (eapply runs_cons; [apply Hstep; vm_compute; reflexivity|]).
    eapply runs_cons; [apply expire_step|apply runs_nil].
  - vm_compute. repeat split; try reflexivity; intros k [=].
  - exists a'. exact (conj Hruns Hr).
Defined.
