(* ===== verification/Permissions.v ===== *)
(** * Permissions: the permission registry

    [src/app/core/security/permission_registry.py]: the scan of the application's
    routes for permission keys, the copy of the registry in Redis and the checks
    made against it. Routes and dependency trees are FastAPI objects, given here
    by the attributes the code reads. *)
From S2P Require Import Prelude PyText PyStr PyList SessionStore.

(** ** Names and paths *)
Definition slash : ascii := "/"%char.
Definition colon : ascii := ":"%char.
Definition bracket : ascii := "["%char.

(** [[a-z0-9*]] *)
Definition key_char (c : ascii) : bool := is_lower c || is_digit c || Ascii.eqb c "*"%char.

(** [PERMISSION_KEY_PATTERN.fullmatch]: at least two non-empty parts between
    colons. *)
Definition PERMISSION_KEY_PATTERN (key : string) : bool :=
  let parts := split_on colon key in
  (2 <=? length parts)%nat &&
  forallb (λ p, str_truthy p && forallb key_char (str_chars p)) parts.

(** [API_VERSION_PREFIX_PATTERN.sub("", s, count=1)]: what is left of the text
    after [/api/v<digits>], when a slash or the end follows the digits. *)
Fixpoint skip_digits (s : string) : string :=
  match s with
  | String c s' => if is_digit c then skip_digits s' else s
  | EmptyString => EmptyString
  end.

Definition strip_api_version (s : string) : string :=
  if startswith "/api/v" s then
    let rest := str_drop (String.length "/api/v") s in
    let tail := skip_digits rest in
    if (String.length tail <? String.length rest)%nat &&
       (negb (str_truthy tail) || startswith "/" tail)
    then tail else s
  else s.

(** [x or y] *)
Definition str_or (s d : string) : string := if str_truthy s then s else d.

Definition normalize_route_path (path : string) : string :=
  let normalized := str_or (str_strip path) "/" in
  if String.eqb normalized "/api" then "/"
  else str_or (strip_api_version normalized) "/".

(** The loop over the tags of [normalize_permission_route_path]. *)
Fixpoint strip_tag (tags : list string) (normalized : string) : string :=
  match tags with
  | [] => normalized
  | tag :: tags' =>
      let prefix := "/" +:+ tag in
      if String.eqb normalized prefix then "/"
      else if startswith (prefix +:+ "/") normalized then str_drop (String.length prefix) normalized
      else strip_tag tags' normalized
  end.

(** ** Routes *)
(** A callable with the metadata [require_permission] sets on it. *)
Record Callable := mkCallable { permission_meta : option (list (string * string)) }.

Inductive Dependant := mkDependant (call : option Callable) (dependencies : list Dependant).
Definition dep_call (d : Dependant) : option Callable := let 'mkDependant c _ := d in c.

Fixpoint _iter_dependant_calls (dependant : Dependant) : list Callable :=
  match dependant with
  | mkDependant _ deps =>
      (fix go (l : list Dependant) : list Callable :=
         match l with
         | [] => []
         | d :: l' => match dep_call d with Some c => [c] | None => [] end ++ _iter_dependant_calls d ++ go l'
         end) deps
  end.

(** The attributes of a route; [effective_candidates] is [None] when the object
    has no such callable. *)
Record RouteAttrs := mkRouteAttrs {
  rt_is_api : bool; rt_methods : option (list string); rt_path : string; rt_tags : list string;
  rt_summary : option string; rt_endpoint_name : string; rt_dependant : Dependant }.
Inductive Route := mkRoute (attrs : RouteAttrs) (effective_candidates : option (list Route)).
Definition attrs_of (r : Route) : RouteAttrs := let 'mkRoute a _ := r in a.

Definition _normalize_methods (route : RouteAttrs) : list string :=
  sorted (filter (λ m, m ≠ "HEAD" ∧ m ≠ "OPTIONS") (fromkeys (default [] (rt_methods route)))).

Definition normalize_permission_route_path (route : RouteAttrs) : string :=
  let normalized := normalize_route_path (rt_path route) in
  let route_tags := filter (λ t, str_truthy t = true) (map (strip_char slash) (rt_tags route)) in
  strip_tag route_tags normalized.

Definition RESOURCE_NAME_FALLBACK : string := "未定义接口名称".

Definition _resolve_route_name (route : RouteAttrs) : string :=
  if opt_str_truthy (rt_summary route) then default "" (rt_summary route)
  else str_or (rt_endpoint_name route) RESOURCE_NAME_FALLBACK.

(** [str(permission_meta.get("permission_key", "")).strip()] of one call, when it
    is a valid key. *)
Definition call_permission_key (c : Callable) : option string :=
  match permission_meta c with
  | None | Some [] => None
  | Some meta =>
      let permission_key := str_strip (dict_get meta "permission_key" "") in
      if negb (str_truthy permission_key) || negb (PERMISSION_KEY_PATTERN permission_key) then None
      else Some permission_key
  end.

Definition _extract_permission_key (route : RouteAttrs) : option string :=
  head (sorted (omap call_permission_key (_iter_dependant_calls (rt_dependant route)))).

Fixpoint candidates_of (route : Route) : list RouteAttrs :=
  match route with
  | mkRoute a cands =>
      if rt_is_api a then [a]
      else match cands with
           | None => []
           | Some l => (fix go (l : list Route) : list RouteAttrs :=
                          match l with [] => [] | r :: l' => candidates_of r ++ go l' end) l
           end
  end.

Definition _iter_api_route_candidates (routes : list Route) : list RouteAttrs := routes ≫= candidates_of.

(** ** The scan *)
Record PermissionResource := mkResource {
  pr_key : string; pr_name : string; pr_route_path : string; pr_method : string }.

Definition resource_text (r : PermissionResource) : string :=
  pr_key r +:+ "[" +:+ pr_name r +:+ "]".

(** The loop body: the resources found and the keys seen. *)
Definition scan_step (acc : list PermissionResource * gset string) (route : RouteAttrs)
    : list PermissionResource * gset string :=
  match _extract_permission_key route with
  | None => acc
  | Some permission_key =>
      match _normalize_methods route with
      | [] => acc
      | method :: _ =>
          if decide (permission_key ∈ acc.2) then acc
          else (acc.1 ++ [mkResource permission_key (_resolve_route_name route)
                            (normalize_permission_route_path route) method],
                {[permission_key]} ∪ acc.2)
      end
  end.

Definition scan_permission_registry (routes : list Route) : list PermissionResource :=
  sort_by (λ a b, str_leb (pr_key a) (pr_key b))
    (foldl scan_step ([], ∅) (_iter_api_route_candidates routes)).1.

(** ** The copy in Redis

    A stored text is the JSON of a list of strings or of a string map, or a text
    that iterating over [json.loads] of it raises for. *)
Inductive RegText :=
| JList (l : list string)
| JMap (m : list (string * string))
| JBad (text : string) (e : exn).

Definition reg_truthy (t : RegText) : bool :=
  match t with JBad s _ => str_truthy s | _ => true end.

(** [[str(item) for item in json.loads(raw_text)]]; iterating over an object
    yields its keys. *)
Definition reg_items (t : RegText) : outcome (list string) :=
  match t with JList l => Ret l | JMap m => Ret (map fst m) | JBad _ e => Raise e end.

Class RegistryRedis (W : Type) := {
  reg_ready : W → bool;
  reg_set : string → RegText → io W ();
  reg_get : string → io W (option RegText) }.

Section registry.
Context `{RegistryRedis W}.

Definition sync_permission_registry (routes : list Route) : io W (list PermissionResource) :=
  let resources := scan_permission_registry routes in
  match resources with
  | [] => raise (RuntimeError "Permission registry scan returned 0 resources; refusing to write Redis")
  | _ =>
      w ← get;
      if negb (reg_ready w) then raise (RuntimeError "Redis is required to sync permission registry")
      else
        let resource_values := map resource_text resources in
        let method_map := map (λ r, (resource_text r, pr_method r)) resources in
        _ ← reg_set permission_resource_cache_key (JList resource_values);
        _ ← reg_set permission_resource_method_cache_key (JMap method_map);
        mret resources
  end.

Definition list_permission_resources : io W (list string) :=
  w ← get;
  if negb (reg_ready w) then raise (RuntimeError "Redis is required to read permission registry")
  else
    raw ← reg_get permission_resource_cache_key;
    match raw with
    | None => raise (RuntimeError "Permission registry is not synced in Redis")
    | Some text =>
        if negb (reg_truthy text) then raise (RuntimeError "Permission registry is not synced in Redis")
        else lift (reg_items text)
    end.

(** [resource[:index] if index > -1 else resource], [index] the first bracket. *)
Fixpoint before_char (b : ascii) (s : string) : string :=
  match s with
  | EmptyString => EmptyString
  | String c s' => if Ascii.eqb c b then EmptyString else String c (before_char b s')
  end.
Definition before_bracket (s : string) : string := before_char bracket s.

Definition list_registered_permission_keys : io W (gset string) :=
  resources ← list_permission_resources;
  mret (list_to_set (map before_bracket resources)).

Definition ensure_registered_permission_keys (permission_keys : list string) : io W () :=
  let unique_permission_keys :=
    sorted (fromkeys (filter (λ k, str_truthy k = true) permission_keys)) in
  match unique_permission_keys with
  | [] => mret ()
  | _ =>
      registered ← list_registered_permission_keys;
      let missing := filter (λ k, k ∉ registered) unique_permission_keys in
      match missing with
      | [] => mret ()
      | _ => raise (BusinessError ("Permission is not registered in Redis: " +:+ join ", " missing))
      end
  end.

Definition ensure_registered_permission_key (permission_key : string) : io W () :=
  ensure_registered_permission_keys [permission_key].
End registry.

(** ** What the scan finds *)
(** The key a route contributes. *)
Definition scan_key (route : RouteAttrs) : option string :=
  match _normalize_methods route with [] => None | _ => _extract_permission_key route end.

Lemma scan_step_spec routes acc :
  NoDup (map pr_key acc.1) → acc.2 = list_to_set (map pr_key acc.1) →
  let res := foldl scan_step acc routes in
  NoDup (map pr_key res.1) ∧ res.2 = list_to_set (map pr_key res.1) ∧
  ∀ k, k ∈ map pr_key res.1 ↔ k ∈ map pr_key acc.1 ∨ ∃ r, r ∈ routes ∧ scan_key r = Some k.
Proof.
  revert acc. induction routes as [|r routes IH]; intros acc Hnd Hseen; simpl.
  { split_and!; [done|done|]. set_solver. }
  assert (NoDup (map pr_key (scan_step acc r).1) ∧
          (scan_step acc r).2 = list_to_set (map pr_key (scan_step acc r).1) ∧
          ∀ k, k ∈ map pr_key (scan_step acc r).1 ↔ k ∈ map pr_key acc.1 ∨ scan_key r = Some k)
    as (Hnd' & Hseen' & Hk').
  { unfold scan_step, scan_key. destruct (_extract_permission_key r) as [key|].
    2:{ destruct (_normalize_methods r); naive_solver. }
    destruct (_normalize_methods r) as [|m ms]; [naive_solver|].
    case_decide as Hin; simpl; [naive_solver set_solver|]. rewrite map_app. split_and!.
    - apply NoDup_app. split_and!; [done|set_solver|apply NoDup_singleton].
    - set_solver.
    - intros k. rewrite elem_of_app. simpl. set_solver. }
  destruct (IH _ Hnd' Hseen') as (H1 & H2 & H3). split_and!; [done|done|].
  intros k. rewrite H3, Hk'. set_solver.
Qed.

(** Every character of a text is the separator or in one of the parts. *)
Lemma split_on_chars co s c :
  c ∈ str_chars s → c = co ∨ ∃ p, p ∈ split_on co s ∧ c ∈ str_chars p.
Proof.
  unfold str_chars. induction s as [|a s IH]; simpl; [by intros ?%not_elem_of_nil|].
  intros [->|Hc]%elem_of_cons.
  - destruct (Ascii.eqb a co) eqn:Ha; [by left; apply Ascii.eqb_eq|]. right.
    destruct (split_on co s) as [|h t]; eexists; (split; [left|]); simpl; left.
  - destruct (IH Hc) as [?|(p & Hp & Hcp)]; [by left|]. right.
    destruct (Ascii.eqb a co); [exists p; split; [by right|done]|].
    destruct (split_on co s) as [|h t]; [by apply not_elem_of_nil in Hp|].
    apply elem_of_cons in Hp as [->|Hp]; [exists (String a h)|exists p]; simpl; set_solver.
Qed.

Lemma key_pattern_no_bracket key : PERMISSION_KEY_PATTERN key = true → str_in bracket key = false.
Proof.
  unfold PERMISSION_KEY_PATTERN. intros [_ Hp]%andb_true_iff. apply not_true_iff_false.
  unfold str_in. intros (c & Hc & Heq)%existsb_exists. apply Ascii.eqb_eq in Heq as <-.
  apply list_elem_of_In, (split_on_chars colon) in Hc as [?|(p & Hin & Hcp)]; [done|].
  rewrite forallb_forall in Hp. apply list_elem_of_In in Hin. specialize (Hp _ Hin).
  apply andb_true_iff in Hp as [_ Hp]. rewrite forallb_forall in Hp. apply list_elem_of_In in Hcp.
  by specialize (Hp _ Hcp).
Qed.

Lemma extract_valid route key : _extract_permission_key route = Some key → PERMISSION_KEY_PATTERN key = true.
Proof.
  unfold _extract_permission_key. intros Hh.
  assert (key ∈ omap call_permission_key (_iter_dependant_calls (rt_dependant route))) as Hin.
  { rewrite <-(sorted_perm (omap _ _)). destruct (sorted _); simplify_eq/=. left. }
  apply list_elem_of_omap in Hin as (c & _ & Hc). unfold call_permission_key in Hc.
  repeat case_match; simplify_eq/=.
  match goal with Hb : _ || _ = false |- _ => apply orb_false_iff in Hb as [_ Hb]; by apply negb_false_iff in Hb end.
Qed.

Lemma before_char_app b key rest :
  str_in b key = false → before_char b (key +:+ String b rest) = key.
Proof.
  unfold str_in. induction key as [|c key IH]; simpl; [by rewrite Ascii.eqb_refl|].
  intros [Hc Hk]%orb_false_iff. rewrite Ascii.eqb_sym, Hc. by rewrite IH.
Qed.

(** The registered key of a resource's text. *)
Lemma resource_key_of_text r : PERMISSION_KEY_PATTERN (pr_key r) = true → before_bracket (resource_text r) = pr_key r.
Proof. intros Hk. unfold resource_text. by apply before_char_app, key_pattern_no_bracket. Qed.

Lemma scan_facts routes :
  let out := scan_permission_registry routes in
  NoDup (map pr_key out) ∧
  StronglySorted (λ a b, str_leb (pr_key a) (pr_key b)) out ∧
  Forall (λ r, PERMISSION_KEY_PATTERN (pr_key r) = true) out ∧
  ∀ k, k ∈ map pr_key out ↔ ∃ r, r ∈ _iter_api_route_candidates routes ∧ scan_key r = Some k.
Proof.
  unfold scan_permission_registry. set (cands := _iter_api_route_candidates routes).
  destruct (scan_step_spec cands ([], ∅)) as (Hnd & _ & Hk); [constructor|done|].
  set (found := (foldl scan_step ([], ∅) cands).1) in *.
  set (srt := sort_by (λ a b, str_leb (pr_key a) (pr_key b)) found).
  assert (srt ≡ₚ found) as Hp by apply sort_by_perm.
  assert (∀ k, k ∈ map pr_key srt ↔ ∃ r, r ∈ cands ∧ scan_key r = Some k) as Hks.
  { intros k. rewrite (Permutation_map pr_key Hp), Hk. set_solver. }
  split_and!; [by rewrite (Permutation_map pr_key Hp)| | |done].
  - apply sort_by_sorted; intros; [apply str_leb_total|by eapply str_leb_trans].
  - apply Forall_forall. intros x Hx. assert (pr_key x ∈ map pr_key srt) as Hin by (apply list_elem_of_fmap; eauto).
    apply Hks in Hin as (r & _ & Hr). unfold scan_key in Hr.
    destruct (_normalize_methods r); [done|]. by eapply extract_valid.
Qed.

(** The scan is exact: it lists, in strict alphabetical order and once each,
    precisely the valid permission keys of the API routes that answer some
    method other than HEAD and OPTIONS. *)
Theorem scan_permission_registry_spec routes :
  let out := scan_permission_registry routes in
  NoDup (map pr_key out) ∧
  StronglySorted str_le (map pr_key out) ∧
  Forall (λ k, PERMISSION_KEY_PATTERN k = true) (map pr_key out) ∧
  ∀ k, k ∈ map pr_key out ↔ ∃ r, r ∈ _iter_api_route_candidates routes ∧ scan_key r = Some k.
Proof.
  intros out. destruct (scan_facts routes) as (Hnd & Hs & Hv & Hk). fold out in Hnd, Hs, Hv, Hk.
  split_and!; [done| | |done].
  - clear -Hs. induction Hs as [|x l _ IH Hx]; simpl; constructor; [done|].
    apply Forall_forall. intros y (r & -> & Hr)%list_elem_of_fmap. rewrite Forall_forall in Hx.
    apply Is_true_eq_true. by apply Hx.
  - apply Forall_forall. intros y (r & -> & Hr)%list_elem_of_fmap. rewrite Forall_forall in Hv. by apply Hv.
Qed.

Lemma StronglySorted_filter {A} (R : A → A → Prop) (P : A → Prop) `{∀ x, Decision (P x)} l :
  StronglySorted R l → StronglySorted R (filter P l).
Proof.
  induction 1 as [|x l _ IH Hx]; [constructor|]. rewrite filter_cons. case_decide; [|done].
  constructor; [done|]. by apply Forall_filter_sub.
Qed.

(** ** The registry in Redis *)
Class RegistryLaws (W : Type) `{RegistryRedis W} := {
  reg_docs : W → gmap string RegText;
  law_reg_set k v w : ∃ w', reg_set k v w = (Ret (), w') ∧ reg_ready w' = reg_ready w ∧
    reg_docs w' = <[k := v]> (reg_docs w);
  law_reg_get k w : reg_get k w = (Ret (reg_docs w !! k), w) }.

Section registry_laws.
Context `{RegistryLaws W}.

(** The registry holds the result of a scan of [routes]. *)
Definition synced (routes : list Route) (w : W) : Prop :=
  reg_ready w = true ∧
  reg_docs w !! permission_resource_cache_key =
    Some (JList (map resource_text (scan_permission_registry routes))).

Lemma sync_run routes w :
  reg_ready w = true → scan_permission_registry routes ≠ [] →
  ∃ w', sync_permission_registry routes w = (Ret (scan_permission_registry routes), w') ∧ synced routes w'.
Proof.
  intros Hr Hne. unfold sync_permission_registry. destruct (scan_permission_registry routes) as [|x l] eqn:Hs; [done|].
  rewrite <-Hs. rewrite (run_ret get _ w w w eq_refl), Hr. cbn [negb].
  destruct (law_reg_set permission_resource_cache_key
              (JList (map resource_text (scan_permission_registry routes))) w) as (w1 & H1 & Hr1 & Hd1).
  rewrite (run_ret _ _ _ _ _ H1).
  destruct (law_reg_set permission_resource_method_cache_key
              (JMap (map (λ r, (resource_text r, pr_method r)) (scan_permission_registry routes))) w1)
    as (w2 & H2 & Hr2 & Hd2).
  rewrite (run_ret _ _ _ _ _ H2). exists w2. split; [done|]. split; [congruence|].
  by rewrite Hd2, lookup_insert_ne, Hd1, lookup_insert_eq.
Qed.

Lemma registered_run routes w :
  synced routes w →
  list_registered_permission_keys w = (Ret (list_to_set (map pr_key (scan_permission_registry routes))), w).
Proof.
  intros [Hr Hd]. unfold list_registered_permission_keys, list_permission_resources.
  assert (list_permission_resources w = (Ret (map resource_text (scan_permission_registry routes)), w)) as Hl.
  { unfold list_permission_resources. rewrite (run_ret get _ w w w eq_refl), Hr. cbn [negb].
    by rewrite (run_ret _ _ _ _ _ (law_reg_get _ w)), Hd. }
  rewrite (run_ret _ _ _ _ _ Hl). unfold mret, io_ret. do 3 f_equal.
  destruct (scan_facts routes) as (_ & _ & Hv & _). rewrite map_map. apply map_ext_in.
  intros r Hr'. apply list_elem_of_In in Hr'. rewrite Forall_forall in Hv. by apply resource_key_of_text, Hv.
Qed.

Lemma ensure_run routes w keys :
  synced routes w →
  ensure_registered_permission_keys keys w =
    match filter (λ k, k ∉ map pr_key (scan_permission_registry routes))
            (sorted (fromkeys (filter (λ k, str_truthy k = true) keys))) with
    | [] => (Ret (), w)
    | missing => (Raise (BusinessError ("Permission is not registered in Redis: " +:+ join ", " missing)), w)
    end.
Proof.
  intros Hs. unfold ensure_registered_permission_keys.
  destruct (sorted _) as [|k0 ks0] eqn:Hu; [done|]. rewrite <-Hu.
  rewrite (run_ret _ _ _ _ _ (registered_run routes w Hs)).
  rewrite (list_filter_iff _ (λ k, k ∉ map pr_key (scan_permission_registry routes)))
    by (intros x; by rewrite elem_of_list_to_set).
  by destruct (filter (λ k, k ∉ map pr_key _) _).
Qed.

(** C14. Sync then check: after [sync_permission_registry] has written the scan to
    Redis, the keys read back are exactly the scanned ones — the names appended
    to them in the stored texts are cut off again — and
    [ensure_registered_permission_keys] accepts a list exactly when each of its
    non-empty keys was scanned; otherwise it raises [BusinessError] naming, in
    alphabetical order, all and only the missing ones. *)
Theorem permission_sync_ensure routes keys w :
  reg_ready w = true → scan_permission_registry routes ≠ [] →
  ∃ w', sync_permission_registry routes w = (Ret (scan_permission_registry routes), w') ∧
    list_registered_permission_keys w' =
      (Ret (list_to_set (map pr_key (scan_permission_registry routes))), w') ∧
    let ok := Forall (λ k, k = "" ∨ k ∈ map pr_key (scan_permission_registry routes)) keys in
    (ok → ensure_registered_permission_keys keys w' = (Ret (), w')) ∧
    (¬ ok → ∃ missing, ensure_registered_permission_keys keys w' =
       (Raise (BusinessError ("Permission is not registered in Redis: " +:+ join ", " missing)), w') ∧
       StronglySorted str_le missing ∧
       ∀ k, k ∈ missing ↔ k ∈ keys ∧ k ≠ "" ∧ k ∉ map pr_key (scan_permission_registry routes)).
Proof.
  intros Hr Hne. destruct (sync_run routes w Hr Hne) as (w' & Hrun & Hs). exists w'.
  split_and!; [done|by apply registered_run|].
  set (have := map pr_key (scan_permission_registry routes)).
  pose proof (ensure_run routes w' keys Hs) as He. fold have in He.
  set (missing := filter (λ k, k ∉ have) (sorted (fromkeys (filter (λ k, str_truthy k = true) keys)))) in *.
  assert (∀ k, k ∈ missing ↔ k ∈ keys ∧ k ≠ "" ∧ k ∉ have) as Hm.
  { intros k. unfold missing. rewrite list_elem_of_filter, sorted_perm, elem_of_fromkeys, list_elem_of_filter.
    destruct k; simpl; naive_solver. }
  intros ok. split.
  - intros Hok. rewrite He. destruct missing as [|k l]; [done|].
    assert (k ∈ keys ∧ k ≠ "" ∧ k ∉ have) as (Hk & Hnk & Hh) by (apply Hm; left).
    unfold ok in Hok. rewrite Forall_forall in Hok. by destruct (Hok k Hk).
  - intros Hok. exists missing. split_and!; [|by apply StronglySorted_filter, sorted_sorted|done].
    rewrite He. destruct missing as [|k l]; [|done]. destruct Hok. unfold ok. apply Forall_forall.
    intros k Hk. destruct (decide (k = "")); [by left|right]. destruct (decide (k ∈ have)); [done|].
    by assert (k ∈ []) as ?%not_elem_of_nil by (by apply Hm).
Qed.
End registry_laws.

(** ** A small application *)
Module PermDemo.
Definition needs (k : string) : Dependant :=
  mkDependant None [mkDependant (Some (mkCallable None)) [];
                    mkDependant (Some (mkCallable (Some [("permission_key", k)]))) []].
Definition route (path : string) (methods : list string) (k : string) : Route :=
  mkRoute (mkRouteAttrs true (Some methods) path ["judge"] (Some "List") "list_all" (needs k)) None.
Definition mounted : Route :=
  mkRoute (mkRouteAttrs false None "" [] None "" (mkDependant None []))
    (Some [route "/api/v1/judge/cases" ["HEAD"; "GET"] "judge:case:list";
           route "/api/v1/judge/bad" ["GET"] "Not A Key"]).
Definition app : list Route := [mounted; route "/api/v1/judge/run" ["POST"] " judge:run "].

Definition world : Type := gmap string RegText.
Definition empty : world := ∅.
#[global] Instance demo_redis : RegistryRedis world := {
  reg_ready := λ _, true; reg_set := λ k v, modify <[k := v]>; reg_get := λ k, gets (lookup k) }.
#[global, refine] Instance demo_laws : RegistryLaws world := { reg_docs := id }.
Proof.
  - intros k v w. by exists (<[k := v]> w).
  - done.
Defined.
End PermDemo.

Example scan_demo :
  map (λ r, (pr_key r, pr_route_path r, pr_method r)) (scan_permission_registry PermDemo.app) =
  [("judge:case:list", "/cases", "GET"); ("judge:run", "/run", "POST")].
Proof. vm_compute. reflexivity. Qed.

Lemma permission_sync_ensure_witness :
  ∃ w', sync_permission_registry PermDemo.app PermDemo.empty =
          (Ret (scan_permission_registry PermDemo.app), w') ∧
    ensure_registered_permission_keys ["judge:run"; ""] w' = (Ret (), w').
Proof.
  assert (reg_ready PermDemo.empty = true) as Hr by reflexivity.
  assert (scan_permission_registry PermDemo.app ≠ []) as Hne by (vm_compute; discriminate).
  destruct (permission_sync_ensure PermDemo.app ["judge:run"; ""] PermDemo.empty Hr Hne)
    as (w' & Hs & _ & Hok & _).
  exists w'. split; [exact Hs|]. apply Hok. decide_eval.
Defined.
