(* ===== verification/AccessControl.v ===== *)
(** * AccessControl: who may do what

    [src/app/core/security/permission.py], [account_type.py], [data_scope.py],
    the client address of [src/app/core/network/client_ip.py] and the request
    dependencies of [src/app/deps/auth.py]. *)
From S2P Require Import Prelude PyText PyStr PyList SessionStore SessionProofs SessionWitness.
Open Scope Z_scope.

(** ** permission.py and account_type.py *)
Definition WILDCARD : string := "*:*:*".

Definition has_permission (permissions : list string) (permission_code : string) : bool :=
  bool_decide (permission_code ∈ permissions) || bool_decide (WILDCARD ∈ permissions).

Inductive AccountType := ADMIN | PORTAL.
Definition account_type_value (t : AccountType) : string :=
  match t with ADMIN => "ADMIN" | PORTAL => "PORTAL" end.

Definition assert_account_type_allowed (actual : string) (expected : list AccountType) : outcome () :=
  if bool_decide (actual ∈ map account_type_value expected) then Ret ()
  else Raise (AuthorizationError ("Account type '" +:+ actual +:+ "' is not allowed")).

(** ** data_scope.py *)
Inductive DataScope := ALL | DEPT_AND_CHILD | DEPT | SELF | CUSTOM.
#[export] Instance DataScope_eq_dec : EqDecision DataScope.
Proof. solve_decision. Defined.

(** [DataScope(str(value))] *)
Definition DataScope_of (s : string) : outcome DataScope :=
  if String.eqb s "ALL" then Ret ALL
  else if String.eqb s "DEPT_AND_CHILD" then Ret DEPT_AND_CHILD
  else if String.eqb s "DEPT" then Ret DEPT
  else if String.eqb s "SELF" then Ret SELF
  else if String.eqb s "CUSTOM" then Ret CUSTOM
  else Raise (ValueError ("'" +:+ s +:+ "' is not a valid DataScope")).

Definition find_permission_grant (session : SessionPayload) (permission_key : string)
    : option PermissionGrantPayload :=
  snd <$> list_find (λ g, g_permission_key g = permission_key) (reverse (s_permission_grants session)).

Definition has_unrestricted_data_scope (session : SessionPayload) (permission_key : string) : outcome bool :=
  if bool_decide (WILDCARD ∈ s_permission_keys session) then Ret true
  else match find_permission_grant session permission_key with
       | None => Ret false
       | Some grant => scope ← DataScope_of (g_data_scope grant); mret (bool_decide (scope = ALL))
       end.

(** [sorted({str(v) for v in values if v})] *)
Definition _unique_ids (values : list string) : list string :=
  sorted (fromkeys (filter (λ v, str_truthy v = true) values)).

Lemma elem_of_unique_ids values x : x ∈ _unique_ids values ↔ x ≠ "" ∧ x ∈ values.
Proof.
  unfold _unique_ids. rewrite sorted_perm, elem_of_fromkeys, list_elem_of_filter.
  destruct x; simpl; naive_solver.
Qed.

Definition DataScope_value (s : DataScope) : string :=
  match s with
  | ALL => "ALL" | DEPT_AND_CHILD => "DEPT_AND_CHILD" | DEPT => "DEPT" | SELF => "SELF" | CUSTOM => "CUSTOM"
  end.

(** [DataScope(s)] is the member whose value is [s], or raises. *)
Lemma DataScope_of_cases s :
  (∃ sc, s = DataScope_value sc ∧ DataScope_of s = Ret sc) ∨
  ((∀ sc, s ≠ DataScope_value sc) ∧ ∃ e, DataScope_of s = Raise e).
Proof.
  unfold DataScope_of.
  repeat (match goal with |- context [String.eqb s ?v] =>
    destruct (String.eqb_spec s v) as [->|?]; [left; first
      [by exists ALL|by exists DEPT_AND_CHILD|by exists DEPT|by exists SELF|by exists CUSTOM]|] end).
  right. split; [intros []; done|eauto].
Qed.

Section data_scope.
(** The registered [data_scope_resolver]. *)
Context {W : Type} (resolver : option (list string → io W (list string))).

Definition list_dept_and_child_ids (dept_ids : list string) : io W (list string) :=
  match resolver with
  | None => raise (RuntimeError "'data_scope_resolver' not registered")
  | Some f => f dept_ids
  end.

Definition resolve_data_scope_dept_ids (session : SessionPayload) (permission_key : string)
    : io W (option (list string)) :=
  unrestricted ← lift (has_unrestricted_data_scope session permission_key);
  match unrestricted with
  | true => mret None
  | false =>
      let grant := find_permission_grant session permission_key in
      data_scope ← lift (match grant with Some g => DataScope_of (g_data_scope g) | None => Ret SELF end);
      let custom := match grant with Some g => g_custom_scope_dept_ids g | None => [] end in
      match data_scope with
      | ALL => mret None
      | DEPT => mret (Some (_unique_ids (s_dept_ids session)))
      | DEPT_AND_CHILD => ids ← list_dept_and_child_ids (s_dept_ids session); mret (Some ids)
      | CUSTOM => mret (Some (_unique_ids custom))
      | SELF => mret (Some [])
      end
  end.

(** Data scope is never widened by accident: [resolve_data_scope_dept_ids]
    answers [None] (no restriction) exactly for a session with the wildcard
    permission or whose last grant of the key says ALL; without a grant the
    answer is the empty list, and a CUSTOM or DEPT grant yields exactly its own
    non-empty ids. *)
Theorem data_scope_unrestricted session permission_key w :
  let run := resolve_data_scope_dept_ids session permission_key w in
  let grant := find_permission_grant session permission_key in
  (run.1 = Ret None ↔
     WILDCARD ∈ s_permission_keys session ∨ (∃ g, grant = Some g ∧ g_data_scope g = "ALL")) ∧
  (WILDCARD ∉ s_permission_keys session → grant = None → run.1 = Ret (Some [])) ∧
  (∀ g ids, WILDCARD ∉ s_permission_keys session → grant = Some g → g_data_scope g = "CUSTOM" →
     run.1 = Ret (Some ids) → ∀ x, x ∈ ids ↔ x ≠ "" ∧ x ∈ g_custom_scope_dept_ids g) ∧
  (∀ g ids, WILDCARD ∉ s_permission_keys session → grant = Some g → g_data_scope g = "DEPT" →
     run.1 = Ret (Some ids) → ∀ x, x ∈ ids ↔ x ≠ "" ∧ x ∈ s_dept_ids session).
Proof.
  intros run grant. unfold run, resolve_data_scope_dept_ids, has_unrestricted_data_scope. fold grant.
  case_bool_decide as Hw; [simpl; naive_solver|].
  destruct grant as [g|] eqn:Hg; [|simpl; naive_solver].
  destruct (DataScope_of_cases (g_data_scope g)) as [(sc & Hv & Ho)|(Hv & e & Ho)].
  - unfold mbind, outcome_bind, io_bind, lift, mret, io_ret, outcome_ret. rewrite Ho.
    destruct sc; simpl; simpl in Hv;
      try destruct (list_dept_and_child_ids _ w) as [[kids|e] w1]; simpl; (split_and!;
      [split; [intros ?; try discriminate; right; by exists g
              |intros [?|(g' & [= <-] & ?)]; [done|congruence]] | | |]);
      intros; simplify_eq/=; try congruence; apply elem_of_unique_ids.
  - unfold mbind, outcome_bind, io_bind, lift, mret, io_ret. rewrite Ho. simpl. split_and!; try done.
    split; [done|]. intros [?|(g' & [= <-] & Hall)]; [done|]. by destruct (Hv ALL).
Qed.
End data_scope.

(** ** client_ip.py

    [ipaddress.ip_address] and the membership test of a network are the class
    [IpAddress]: [None] stands for the [ValueError] of a text that is no address
    or network. *)
Class IpAddress (Ip Net : Type) := {
  ip_address : string → option Ip;
  ip_network : string → option Net;
  ip_in : Ip → Net → bool }.

(** What the code reads of a request. *)
Record Request := mkRequest {
  client_host : option string;
  header : string → option string }.

Section client_ip.
Context `{IpAddress Ip Net} (trusted_proxy_ips : list string).

Definition _first_header_ip (value : option string) : option string :=
  match value with
  | None => None
  | Some v =>
      if negb (str_truthy v) then None
      else
        let candidate := str_strip (default "" (head (split_on ","%char v))) in
        if str_truthy candidate then Some candidate else None
  end.

Definition trusted_item (remote : Ip) (remote_ip item : string) : bool :=
  match ip_network item with
  | Some net => ip_in remote net
  | None => String.eqb item remote_ip
  end.

Definition _is_trusted_proxy (remote_ip : string) : bool :=
  match trusted_proxy_ips with
  | [] => false
  | trusted =>
      if bool_decide ("*" ∈ trusted) then true
      else match ip_address remote_ip with
           | None => bool_decide (remote_ip ∈ trusted)
           | Some remote => existsb (trusted_item remote remote_ip) trusted
           end
  end.

Definition get_client_ip (request : Request) : option string :=
  let direct_ip := client_host request in
  if negb (opt_str_truthy direct_ip) || negb (_is_trusted_proxy (default "" direct_ip)) then direct_ip
  else match _first_header_ip (header request "x-real-ip") with
       | Some real_ip => Some real_ip
       | None =>
           let forwarded_for := header request "x-forwarded-for" in
           if opt_str_truthy forwarded_for then
             match _first_header_ip forwarded_for with Some ip => Some ip | None => direct_ip end
           else direct_ip
       end.

(** A forwarding header is believed only when the peer is a trusted proxy. *)
Lemma untrusted_headers_ignored request direct :
  client_host request = Some direct → _is_trusted_proxy direct = false →
  get_client_ip request = Some direct.
Proof.
  intros Hc Ht. unfold get_client_ip. rewrite Hc. simpl. rewrite Ht. by rewrite orb_true_r.
Qed.
End client_ip.

(** ** deps/auth.py

    The context variables of the request, and the touches handed to the event
    loop. *)
Record ReqCtx := mkReqCtx {
  account_id_ctx : option string;
  account_type_ctx : option string;
  touch_tasks : list string }.

Section auth.
Context `{RedisApi R} `{!SessionClock R} `{IpAddress Ip Net}.
Context (auth : AuthSettings) (session_bind_ip session_bind_user_agent : bool)
        (trusted_proxy_ips : list string)
        (** [asyncio.get_running_loop()] answers. *)
        (loop_running : bool).

Definition AuthW : Type := R * ReqCtx.

Definition on_store {A} (m : io R A) : io AuthW A :=
  λ w, let '(o, r) := m w.1 in (o, (r, w.2)).

Definition _validate_session_ip (request : Request) (session : SessionPayload) : outcome () :=
  if negb session_bind_ip then Ret ()
  else if negb (opt_str_truthy (s_client_ip session)) then Ret ()
  else
    let current_ip := get_client_ip trusted_proxy_ips request in
    if opt_str_truthy current_ip && bool_decide (current_ip ≠ s_client_ip session) then
      Raise (AuthenticationError "Session IP mismatch — token may have been stolen")
    else Ret ().

Definition _validate_session_user_agent (request : Request) (session : SessionPayload) : outcome () :=
  if negb session_bind_user_agent then Ret ()
  else if negb (opt_str_truthy (s_user_agent session)) then Ret ()
  else
    let current_ua := header request "user-agent" in
    if opt_str_truthy current_ua && bool_decide (current_ua ≠ s_user_agent session) then
      Raise (AuthenticationError "Session User-Agent mismatch")
    else Ret ().

(** The task runs later, on its own. *)
Definition _touch_session_background (token : string) : io AuthW () :=
  modify (λ w, if loop_running
               then (w.1, mkReqCtx (account_id_ctx w.2) (account_type_ctx w.2) (touch_tasks w.2 ++ [token]))
               else w).

Definition set_account (session : SessionPayload) : io AuthW () :=
  modify (λ w, (w.1, mkReqCtx (Some (s_account_id session)) (Some (s_account_type session))
                       (touch_tasks w.2))).

Definition get_current_session (request : Request) (authorization : option string) : io AuthW SessionPayload :=
  if negb (opt_str_truthy authorization) then raise (AuthenticationError "Missing authorization token")
  else
    let token := str_strip (default "" authorization) in
    session ← on_store (store_get auth token);
    match session with
    | None => raise (AuthenticationError "Invalid or expired token")
    | Some session =>
        _ ← lift (_validate_session_ip request session);
        _ ← lift (_validate_session_user_agent request session);
        _ ← _touch_session_background token;
        _ ← set_account session;
        mret session
    end.

Definition get_current_account (session : SessionPayload) : io AuthW SessionPayload :=
  _ ← set_account session; mret session.

(** The dependency [require_account_type] builds, its own dependencies
    resolved first as FastAPI does. *)
Definition require_account_type (account_types : list AccountType) (request : Request)
    (authorization : option string) : io AuthW SessionPayload :=
  session ← get_current_session request authorization;
  _ ← get_current_account session;
  _ ← lift (assert_account_type_allowed (s_account_type session) account_types);
  mret session.

Definition require_permission (permission_code : string) (request : Request)
    (authorization : option string) : io AuthW SessionPayload :=
  session ← get_current_session request authorization;
  _ ← get_current_account session;
  if negb (has_permission (s_permission_keys session) permission_code) then
    raise (AuthorizationError ("Permission denied: " +:+ permission_code))
  else mret session.
End auth.

Section auth_laws.
Context `{RedisLaws R} `{IpAddress Ip Net}.
Context (auth : AuthSettings) (bind_ip bind_ua : bool) (proxies : list string) (loop_running : bool).
Implicit Types (w : AuthW (R:=R)).

(** [get_current_session] answers a session of the store. *)
Lemma current_session_inv request authorization w s w' :
  usable w.1 → readable w.1 →
  get_current_session auth bind_ip bind_ua proxies loop_running request authorization w = (Ret s, w') →
  ∃ tok, authorization = Some tok ∧ str_truthy tok = true ∧
    live_at auth w.1 (str_strip tok) = Some s ∧
    _validate_session_ip bind_ip proxies request s = Ret () ∧
    _validate_session_user_agent bind_ua request s = Ret () ∧
    account_id_ctx w'.2 = Some (s_account_id s) ∧ w'.1 = w.1.
Proof.
  intros Hu Hrd. unfold get_current_session. destruct authorization as [tok|]; [|done]. simpl.
  destruct (str_truthy tok) eqn:Ht; [|done]. simpl. intros Hrun.
  apply bind_Ret_inv in Hrun as (o & w1 & Hg & Hrun).
  unfold on_store in Hg. rewrite store_get_live in Hg by done. injection Hg as <- <-.
  destruct (live_at auth w.1 (str_strip tok)) as [p|] eqn:Hl; [|done].
  apply bind_Ret_inv in Hrun as ([] & w2 & Hip & Hrun). injection Hip as Hip <-.
  apply bind_Ret_inv in Hrun as ([] & w3 & Hua & Hrun). injection Hua as Hua <-.
  unfold _touch_session_background, set_account, mbind, io_bind, modify, mret, io_ret in Hrun.
  injection Hrun as <- <-. exists tok. split_and!; try done. by destruct loop_running.
Qed.

(** C15. A request passes [require_permission] only with the token of a session
    that is stored and not idle, from an address and a user agent that the
    session's bindings accept (an address or agent the request does not give is
    not compared), and whose permissions contain the code or the wildcard; the
    store is only read. *)
Theorem require_permission_sound code request authorization w s w' :
  usable w.1 → readable w.1 →
  require_permission auth bind_ip bind_ua proxies loop_running code request authorization w = (Ret s, w') →
  (∃ tok, authorization = Some tok ∧ stored_at w.1 (str_strip tok) = Some s ∧
     idle_expired auth (clock w.1) s = false) ∧
  (code ∈ s_permission_keys s ∨ WILDCARD ∈ s_permission_keys s) ∧
  (bind_ip = true → opt_str_truthy (s_client_ip s) = true →
     opt_str_truthy (get_client_ip proxies request) = true → get_client_ip proxies request = s_client_ip s) ∧
  (bind_ua = true → opt_str_truthy (s_user_agent s) = true →
     opt_str_truthy (header request "user-agent") = true → header request "user-agent" = s_user_agent s) ∧
  account_id_ctx w'.2 = Some (s_account_id s) ∧ w'.1 = w.1.
Proof.
  intros Hu Hrd Hrun. unfold require_permission in Hrun.
  apply bind_Ret_inv in Hrun as (s0 & w1 & Hg & Hrun).
  apply current_session_inv in Hg as (tok & -> & _ & Hl & Hip & Hua & _ & Hst); [|done|done].
  apply bind_Ret_inv in Hrun as (s1 & w2 & Hacc & Hrun).
  unfold get_current_account, set_account, mbind, io_bind, modify, mret, io_ret in Hacc.
  injection Hacc as <- <-.
  destruct (has_permission (s_permission_keys s0) code) eqn:Hp; [|done]. injection Hrun as <- <-.
  unfold live_at in Hl. destruct (stored_at w.1 (str_strip tok)) as [p|] eqn:Hs; [|done]. simpl in Hl.
  destruct (idle_expired auth (clock w.1) p) eqn:Hi; [done|]. injection Hl as ->.
  split_and!; [by eexists| | | |done|done].
  - unfold has_permission in Hp. by apply orb_true_iff in Hp as [?%bool_decide_eq_true|?%bool_decide_eq_true]; [left|right].
  - intros -> Hb Hc. unfold _validate_session_ip in Hip. simpl in Hip. rewrite Hb, Hc in Hip. simpl in Hip.
    case_bool_decide as Hne; [done|]. destruct (decide (get_client_ip proxies request = s_client_ip s0)); done.
  - intros -> Hb Hc. unfold _validate_session_user_agent in Hua. simpl in Hua. rewrite Hb, Hc in Hua. simpl in Hua.
    case_bool_decide as Hne; [done|]. destruct (decide (header request "user-agent" = s_user_agent s0)); done.
Qed.
End auth_laws.

(** ** One stored session, bound to an address *)
Module AccDemo.
Import MemRedis.
Definition session : SessionPayload :=
  mkSession "tok" "7" "ADMIN" [] [] [] [] [] ["judge:run"] [] (Some "10.0.0.1") None true false None
    None None None.
Definition db1 : db := (store_set session 60 SessDemo.fresh).2.
Definition world : AuthW (R:=db) := (db1, mkReqCtx None None []).
Definition request : Request := mkRequest (Some "10.0.0.1") (λ _, None).
#[global] Instance demo_ip : IpAddress string string := {
  ip_address := Some; ip_network := Some; ip_in := String.eqb }.

Lemma usable_db1 : usable db1.
Proof.
  destruct (store_set_run session 60 SessDemo.fresh usable_fresh ltac:(lia)) as (r & Hr & Hu & _).
  unfold db1. by rewrite Hr.
Qed.
Lemma readable_db1 : readable db1.
Proof.
  intros t x e ttl Hs. change (db_strings db1 !! login_token_key t = Some (Unreadable x e, ttl)) in Hs.
  change (db_strings db1) with (<[login_token_key "tok" := (Stored session, 60)]> (∅ : gmap string (raw * Z))) in Hs.
  apply lookup_insert_Some in Hs as [[_ Hv]|[_ Hv]]; [discriminate|by rewrite lookup_empty in Hv].
Qed.
End AccDemo.
Import AccDemo.

Lemma require_permission_sound_witness :
  ∃ w', require_permission SessDemo.settings true false [] true "judge:run" request (Some " tok ") AccDemo.world
          = (Ret AccDemo.session, w') ∧
    ("judge:run" ∈ s_permission_keys AccDemo.session ∨ WILDCARD ∈ s_permission_keys AccDemo.session) ∧
    w'.1 = AccDemo.db1.
Proof.
  pose (w' := (require_permission SessDemo.settings true false [] true "judge:run" request (Some " tok ")
                 AccDemo.world).2).
  assert (require_permission SessDemo.settings true false [] true "judge:run" request (Some " tok ")
            AccDemo.world = (Ret AccDemo.session, w')) as Hrun by (vm_compute; reflexivity).
  exists w'. split; [exact Hrun|].
  destruct (require_permission_sound SessDemo.settings true false [] true "judge:run" request (Some " tok ")
              AccDemo.world AccDemo.session w' usable_db1 readable_db1 Hrun) as (_ & Hp & _ & _ & _ & Hst).
  exact (conj Hp Hst).
Defined.
