(* ===== verification/RateLimit.v ===== *)
(** * RateLimit: the sliding-window limiter ([src/app/middleware/rate_limit.py])

    A path is matched as the list of its code points; [nd] is the Unicode class
    of decimal digits that the regular expressions' digit class adds to the
    ASCII ones. Times are integers in ticks of a clock fine enough that
    [now - window_sec], exact on floats of this size, is exact here. The sorted
    set of Redis and the rest of the application are the class [RateEnv]. *)
From S2P Require Import Prelude PyText PyStr.
Open Scope Z_scope.

Definition tx (s : string) : text := to_text s.

(** The text after [pre], when the text starts with it. *)
Fixpoint after (pre s : text) : option text :=
  match pre, s with
  | [], _ => Some s
  | a :: pre', b :: s' => if a =? b then after pre' s' else None
  | _ :: _, [] => None
  end.

(** The text after the first of the alternatives that fits. *)
Definition after_one (alts : list string) (s : text) : option text :=
  head (omap (λ a, after (tx a) s) alts).

Section patterns.
Context (nd : Z → bool).

Definition digit (c : Z) : bool := in_range 48 57 c || nd c.

Fixpoint skip_nd (s : text) : text :=
  match s with c :: s' => if digit c then skip_nd s' else s | [] => [] end.

(** A path under [/api/v<digits>/]: what follows. No digit is a slash, so the
    greedy match is the only one. *)
Definition after_version (s : text) : option text :=
  match after (tx "/api/v") s with
  | None => None
  | Some rest =>
      let tail := skip_nd rest in
      if (length tail <? length rest)%nat then after (tx "/") tail else None
  end.

Definition side : list string := ["admin/"; "portal/"].

Definition and_then (o : option text) (f : text → option text) : option text :=
  match o with Some s => f s | None => None end.
Definition is_some (o : option text) : bool := match o with Some _ => true | None => false end.

Definition p_login (s : text) : bool :=
  is_some (and_then (and_then (after_version s) (after_one side)) (after (tx "login"))).
Definition p_register (s : text) : bool :=
  is_some (and_then (after_version s) (after (tx "portal/register"))).
Definition p_password (s : text) : bool :=
  is_some (and_then (and_then (after_version s) (after_one side)) (after_one ["forgot-password"; "reset-password"])).
Definition p_captcha (s : text) : bool :=
  is_some (and_then (and_then (after_version s) (after_one side)) (after (tx "captcha"))).
Definition p_any (s : text) : bool := is_some (after_version s).

Inductive Scope := ByIp | ByUser | Mix.
Record Rule := mkRule {
  rule_search : text → bool; rule_pattern : string; rule_limit : Z; rule_window : Z; rule_scope : Scope }.

Definition RATE_LIMIT_RULES : list Rule :=
  [mkRule p_login "^/api/v\d+/(admin|portal)/login" 10 60 ByIp;
   mkRule p_register "^/api/v\d+/portal/register" 5 60 ByIp;
   mkRule p_password "^/api/v\d+/(admin|portal)/(forgot-password|reset-password)" 5 60 ByIp;
   mkRule p_captcha "^/api/v\d+/(admin|portal)/captcha" 30 60 ByIp;
   mkRule p_any "^/api/v\d+/" 120 60 Mix].

Class RateEnv (W Resp : Type) := {
  rl_redis : W → bool;                   (* [get_redis() is not None] *)
  client_ip_ctx : W → option string;
  account_id_ctx : W → option string;
  ticks_per_second : Z;
  time_now : io W Z;                     (* [time.time()] *)
  (** The pipeline of [zadd], [zremrangebyscore key 0 hi], [zcard] and [expire]:
      the third result. *)
  zset_pipeline : string → Z → Z → Z → io W Z;
  call_next : io W Resp;
  too_many : Z → Resp }.                 (* the 429 response with its Retry-After *)

Section dispatch.
Context `{RateEnv W Resp}.

(** The two parts of [_increment_and_check]: other requests can run between the
    reading of the clock and the pipeline, which waits for Redis. *)
Definition count_at (key : string) (window_sec now : Z) : io W Z :=
  let window_start := now - window_sec * ticks_per_second (W:=W) (Resp:=Resp) in
  zset_pipeline (Resp:=Resp) key now window_start window_sec.
Definition _increment_and_check (key : string) (limit window_sec : Z) : io W Z :=
  now ← time_now (Resp:=Resp); count_at key window_sec now.

Definition ip_key (w : W) (pattern : string) : string :=
  "rl:ip:" +:+ opt_str_or (client_ip_ctx (Resp:=Resp) w) "unknown" +:+ ":" +:+ pattern.
Definition user_key (uid pattern : string) : string := "rl:user:" +:+ uid +:+ ":" +:+ pattern.

(** The key a rule counts under; [None]: the rule is passed over. *)
Definition rule_key (w : W) (r : Rule) : option string :=
  let uid := account_id_ctx (Resp:=Resp) w in
  match rule_scope r with
  | ByIp => Some (ip_key w (rule_pattern r))
  | ByUser => if opt_str_truthy uid then Some (user_key (default "" uid) (rule_pattern r)) else None
  | Mix => Some (if opt_str_truthy uid then user_key (default "" uid) (rule_pattern r)
                 else ip_key w (rule_pattern r))
  end.

(** The loop over the rules: [Some resp] is the early return, [None] the break
    or the end of the loop. *)
Fixpoint try_rules (rules : list Rule) (path : text) : io W (option Resp) :=
  match rules with
  | [] => mret None
  | r :: rules' =>
      if negb (rule_search r path) then try_rules rules' path
      else
        w ← get;
        match rule_key w r with
        | None => try_rules rules' path
        | Some key =>
            try_except
              (count ← _increment_and_check key (rule_limit r) (rule_window r);
               mret (if rule_limit r <? count then Some (too_many (W:=W) (rule_window r)) else None))
              is_exception (λ _, mret None)
        end
  end.

Definition dispatch (path : text) : io W Resp :=
  w ← get;
  if negb (rl_redis (Resp:=Resp) w) then call_next
  else
    early ← try_rules RATE_LIMIT_RULES path;
    match early with
    | Some resp => mret resp
    | None => call_next
    end.
End dispatch.
End patterns.

(** ** How many requests pass *)

(** The documented behaviour of the pipeline, which Redis executes at once; the
    clock may show anything after the epoch. *)
Class RateLaws (W Resp : Type) `{RateEnv W Resp} := {
  zset : W → string → gset Z;
  law_time : ∀ w, ∃ t w', time_now (Resp:=Resp) w = (Ret t, w') ∧ 0 < t ∧ zset w' = zset w;
  law_pipeline : ∀ key now hi window w, ∃ w',
    let left := filter (λ s, ¬ (0 ≤ s ≤ hi)) ({[now]} ∪ zset w key) in
    zset_pipeline (Resp:=Resp) key now hi window w = (Ret (Z.of_nat (size left)), w') ∧
    zset w' key = left }.

Section laws.
Context `{RateLaws W Resp} (key : string) (limit window_sec : Z).

Definition span : Z := window_sec * ticks_per_second (W:=W) (Resp:=Resp).

(** The history of the requests counted under [key], the latest counted first: the
    time each read and whether it passed; [reached] is a time that entries may
    have been dropped at, and [waiting] are the times read by requests whose
    pipeline has not been executed. Between requests other keys change, and Redis
    may drop entries that are older than the window. The history is [ordered] when
    the pipelines are executed in the order of the times read: the clock does not go
    back, and no request is overtaken between its two parts by a later one. *)
Inductive History (ordered : bool) : list (Z * bool) → list Z → Z → W → Prop :=
| hist_start w reached : zset w key = ∅ → History ordered [] [] reached w
| hist_env h waiting reached reached' w w' : History ordered h waiting reached w → reached ≤ reached' →
    zset w' key ⊆ zset w key → (∀ s, s ∈ zset w key → s ∉ zset w' key → s ≤ reached' - span) →
    History ordered h waiting reached' w'
| hist_read h waiting reached w now w' : History ordered h waiting reached w →
    time_now (Resp:=Resp) w = (Ret now, w') → History ordered h (now :: waiting) reached w'
| hist_count h waiting waiting' reached w now count w' : History ordered h waiting reached w →
    waiting ≡ₚ now :: waiting' → (ordered = true → reached ≤ now) →
    count_at (Resp:=Resp) key window_sec now w = (Ret count, w') →
    History ordered ((now, negb (limit <? count)) :: h) waiting' (Z.max reached now) w'.

Definition times (h : list (Z * bool)) : list Z := map fst h.

(** The admitted requests of the window that ends at [t]. *)
Definition passed (t : Z) (h : list (Z * bool)) : list (Z * bool) :=
  filter (λ e, e.2 = true ∧ t - span < e.1 ≤ t) h.







End laws.

(** ** A limiter whose clock shows what it is told *)
Module LimitDemo.
Record world := mkWorld { w_sets : gmap string (gset Z); w_times : list positive }.

Definition pipeline (key : string) (now hi window : Z) (w : world) : outcome Z * world :=
  let left := filter (λ s, ¬ (0 ≤ s ≤ hi)) ({[now]} ∪ default ∅ (w_sets w !! key)) : gset Z in
  (Ret (Z.of_nat (size left)), mkWorld (<[key := left]> (w_sets w)) (w_times w)).

#[global] Instance demo_env : RateEnv world string := {
  rl_redis := λ _, true;
  client_ip_ctx := λ _, Some "10.0.0.9";
  account_id_ctx := λ _, None;
  ticks_per_second := 1;
  time_now := λ w, (Ret (Zpos (default 1%positive (head (w_times w)))), mkWorld (w_sets w) (tail (w_times w)));
  zset_pipeline := pipeline;
  call_next := mret "ok";
  too_many := λ _, "429" }.

#[global, refine] Instance demo_laws : RateLaws world string := {
  zset := λ w key, default ∅ (w_sets w !! key) }.
Proof.
  - intros w. eexists _, _. split_and!; [reflexivity|done|reflexivity].
  - intros key now hi window w. eexists. split; [reflexivity|]. simpl. by rewrite lookup_insert_eq.
Defined.

Definition w0 (times : list positive) : world := mkWorld ∅ times.
Definition read (w : world) : world := (time_now (Resp:=string) w).2.
Definition count (limit now : Z) (w : world) : bool * world :=
  let '(o, w) := count_at (Resp:=string) "k" 60 now w in
  (match o with Ret n => negb (limit <? n) | Raise _ => true end, w).

Lemma demo_read ordered limit h waiting reached w now :
  History (Resp:=string) "k" limit 60 ordered h waiting reached w → head (w_times w) = Some now →
  History (Resp:=string) "k" limit 60 ordered h (Zpos now :: waiting) reached (read w).
Proof. intros Hh Ht. eapply hist_read; [exact Hh|]. simpl. by rewrite Ht. Qed.

Lemma demo_count ordered limit h waiting waiting' reached w now b w' :
  History (Resp:=string) "k" limit 60 ordered h waiting reached w → waiting ≡ₚ now :: waiting' →
  (ordered = true → reached ≤ now) → count limit now w = (b, w') →
  History (Resp:=string) "k" limit 60 ordered ((now, b) :: h) waiting' (Z.max reached now) w'.
Proof. intros Hh Hw Ho [= <- <-]. by eapply hist_count. Qed.
End LimitDemo.
Import LimitDemo.


(** Requests that read the same time share one member of the sorted set: with a
    limit of one both pass, although counted in order. *)
Theorem same_time_counted_once :
  ∃ w, History (Resp:=string) "k" 1 60 true [(101, true); (101, true)] [] 101 w.
Proof.
  set (w1 := (count 1 101 (read (w0 [101; 101]%positive))).2). exists (count 1 101 (read w1)).2.
  eapply (demo_count true 1 [(101, true)] [101] [] 101 (read w1) 101); [|reflexivity|lia|vm_compute; reflexivity].
  apply demo_read; [|reflexivity].
  eapply (demo_count true 1 [] [101] [] 0 (read (w0 [101; 101]%positive)) 101); [|reflexivity|lia|vm_compute; reflexivity].
  apply demo_read; [|reflexivity]. by apply hist_start.
Qed.

(** And a request overtaken between its two parts, or a clock that goes back, gets
    past the limit: with a limit of two, three requests of the same two seconds
    pass, the last one counted after a later request has emptied their window. *)
Theorem late_request_passes :
  ∃ w, History (Resp:=string) "k" 2 60 false [(102, true); (170, true); (101, true); (100, true)] [] 170 w ∧
    length (passed (W:=world) (Resp:=string) 60 110 [(102, true); (170, true); (101, true); (100, true)]) = 3%nat.
Proof.
  set (w1 := (count 2 100 (read (w0 [100; 101; 102; 170]%positive))).2). set (w2 := (count 2 101 (read w1)).2).
  set (w3 := read w2). set (w4 := (count 2 170 (read w3)).2). exists (count 2 102 w4).2. split; [|vm_compute; reflexivity].
  eapply (demo_count false 2 [(170, true); (101, true); (100, true)] [102] [] 170 w4 102); [|reflexivity|done|vm_compute; reflexivity].
  eapply (demo_count false 2 [(101, true); (100, true)] [170; 102] [102] 101 (read w3) 170); [|reflexivity|done|vm_compute; reflexivity].
  apply demo_read; [|reflexivity]. apply demo_read; [|reflexivity].
  eapply (demo_count false 2 [(100, true)] [101] [] 100 (read w1) 101); [|reflexivity|done|vm_compute; reflexivity].
  apply demo_read; [|reflexivity].
  eapply (demo_count false 2 [] [100] [] 0 (read (w0 [100; 101; 102; 170]%positive)) 100); [|reflexivity|done|vm_compute; reflexivity].
  apply demo_read; [|reflexivity]. by apply hist_start.
Qed.

(** The eleventh login attempt of an address within the minute is refused. *)
Example eleventh_login :
  let attempt w := dispatch (Resp:=string) (λ _, false) (tx "/api/v1/admin/login") w in
  let w0 := w0 [101; 102; 103; 104; 105; 106; 107; 108; 109; 110; 111]%positive in
  let w10 := Nat.iter 10 (λ w, (attempt w).2) w0 in
  (attempt w0).1 = Ret "ok" ∧ (attempt w10).1 = Ret "429".
Proof. vm_compute. split; reflexivity. Qed.
