(* ===== verification/Encoding.v ===== *)
(** * Encoding: base64, big-endian packing and CRC-32

    What the components use of Python's [base64], [struct] and [zlib] (the
    checksum). Bytes are integers of [0, 256). *)
From S2P Require Import Prelude PyText PyStr.
Open Scope Z_scope.

Definition is_byte (b : Z) : Prop := 0 ≤ b < 256.

(** ** Big-endian integers: [struct.pack(">I", n)] *)
Definition be32 (n : Z) : byte_list :=
  [Z.land (Z.shiftr n 24) 255; Z.land (Z.shiftr n 16) 255; Z.land (Z.shiftr n 8) 255; Z.land n 255].

(** [struct.pack]: a number out of range raises [struct.error]. *)
Definition pack_I (n : Z) : outcome byte_list :=
  if (0 <=? n) && (n <? 4294967296) then Ret (be32 n)
  else Raise (OtherError "struct.error" "argument out of range").

Definition unpack_I (bs : byte_list) : Z := foldl (λ a b, a * 256 + b) 0 bs.

Lemma land_255 n : Z.land n 255 = n `mod` 256.
Proof. change 255 with (Z.ones 8). by rewrite Z.land_ones by lia. Qed.

Lemma be32_eq n :
  be32 n = [(n `div` 16777216) `mod` 256; (n `div` 65536) `mod` 256; (n `div` 256) `mod` 256; n `mod` 256].
Proof. unfold be32. by rewrite !land_255, !Z.shiftr_div_pow2 by lia. Qed.

Lemma unpack_be32 n : 0 ≤ n < 4294967296 → unpack_I (be32 n) = n.
Proof. intros Hn. rewrite be32_eq. unfold unpack_I. simpl. Z.div_mod_to_equations. lia. Qed.

Lemma be32_bytes n : Forall is_byte (be32 n).
Proof. rewrite be32_eq. repeat constructor; apply Z.mod_pos_bound; lia. Qed.

(** ** base64 *)
Definition B64 : string := "ABCDEFGHIJKLMNOPQRSTUVWXYZabcdefghijklmnopqrstuvwxyz0123456789+/".
Definition b64_char (n : Z) : ascii := default "A"%char (str_chars B64 !! Z.to_nat n).
Definition pad : ascii := "="%char.

(** The four characters of three bytes, the fields taken bit by bit. *)
Fixpoint b64encode (bs : byte_list) : list ascii :=
  match bs with
  | a :: b :: c :: rest =>
      let n := Z.lor (Z.shiftl a 16) (Z.lor (Z.shiftl b 8) c) in
      b64_char (Z.shiftr n 18) :: b64_char (Z.land (Z.shiftr n 12) 63)
        :: b64_char (Z.land (Z.shiftr n 6) 63) :: b64_char (Z.land n 63) :: b64encode rest
  | [a; b] =>
      let n := Z.lor (Z.shiftl a 16) (Z.shiftl b 8) in
      [b64_char (Z.shiftr n 18); b64_char (Z.land (Z.shiftr n 12) 63);
       b64_char (Z.land (Z.shiftr n 6) 63); pad]
  | [a] =>
      let n := Z.shiftl a 16 in
      [b64_char (Z.shiftr n 18); b64_char (Z.land (Z.shiftr n 12) 63); pad; pad]
  | [] => []
  end.

(** The decoder of the alphabet; the reader of the encoded images. *)
Definition b64_value (c : ascii) : option Z :=
  match list_find (λ d, c = d) (str_chars B64) with Some (i, _) => Some (Z.of_nat i) | None => None end.

(** [binascii.a2b_base64] without strict mode, character by character: the
    position in the group of four, the bits left over, and the padding seen
    since the last data character. A character outside the alphabet is skipped;
    padding that completes a group ends the input. *)
Fixpoint a2b_go (cs : list ascii) (quad_pos left pads : Z) : outcome byte_list :=
  match cs with
  | [] =>
      if quad_pos =? 0 then Ret []
      else Raise (OtherError "binascii.Error" "Incorrect padding")
  | c :: cs' =>
      if decide (c = pad) then
        if (2 <=? quad_pos) && (4 <=? quad_pos + (pads + 1)) then Ret []
        else a2b_go cs' quad_pos left (if 2 <=? quad_pos then pads + 1 else pads)
      else
        match b64_value c with
        | None => a2b_go cs' quad_pos left pads
        | Some v =>
            if quad_pos =? 0 then a2b_go cs' 1 v 0
            else if quad_pos =? 1 then
              out ← a2b_go cs' 2 (Z.land v 15) 0;
              mret (Z.lor (Z.shiftl left 2) (Z.shiftr v 4) :: out)
            else if quad_pos =? 2 then
              out ← a2b_go cs' 3 (Z.land v 3) 0;
              mret (Z.lor (Z.shiftl left 4) (Z.shiftr v 2) :: out)
            else
              out ← a2b_go cs' 0 0 0;
              mret (Z.lor (Z.shiftl left 6) v :: out)
        end
  end.

(** [base64.b64decode(text)]: a text that is not ASCII raises [ValueError]. *)
Definition is_ascii (s : string) : bool := forallb (λ c, (N_of_ascii c <? 128)%N) (str_chars s).
Definition b64decode (s : string) : outcome byte_list :=
  if is_ascii s then a2b_go (str_chars s) 0 0 0
  else Raise (ValueError "string argument should contain only ASCII characters").

(** The alphabet is decoded character by character. *)
Definition b64_range : list Z := map Z.of_nat (seq 0 64).
Lemma b64_alphabet : Forall (λ v, b64_value (b64_char v) = Some v ∧ b64_char v ≠ pad) b64_range.
Proof. decide_eval. Qed.

Lemma b64_value_char v : 0 ≤ v < 64 → b64_value (b64_char v) = Some v ∧ b64_char v ≠ pad.
Proof.
  intros Hv. pose proof b64_alphabet as Ha. rewrite Forall_forall in Ha. apply Ha.
  apply list_elem_of_fmap. exists (Z.to_nat v). split; [lia|]. apply elem_of_seq. lia.
Qed.

Lemma lor_shift a b k : 0 ≤ k → 0 ≤ b < 2 ^ k → Z.lor (Z.shiftl a k) b = a * 2 ^ k + b.
Proof.
  intros Hk Hb. rewrite Z.shiftl_mul_pow2 by lia. rewrite <-Z.add_lor_land.
  assert (Z.land (a * 2 ^ k) b = 0) as Hand; [|lia].
  apply Z.bits_inj'. intros n Hn. rewrite Z.land_spec, Z.bits_0. destruct (decide (n < k)).
  - by rewrite Z.mul_pow2_bits_low by lia.
  - rewrite <-(Z.mod_small b (2 ^ k)) by lia. rewrite Z.mod_pow2_bits_high by lia. apply andb_false_r.
Qed.

Lemma land_63 n : Z.land n 63 = n `mod` 64.
Proof. change 63 with (Z.ones 6). by rewrite Z.land_ones by lia. Qed.

Lemma b64_triple a b c :
  is_byte a → is_byte b → is_byte c →
  Z.lor (Z.shiftl a 16) (Z.lor (Z.shiftl b 8) c) = a * 65536 + b * 256 + c.
Proof.
  unfold is_byte. intros Ha Hb Hc. rewrite (lor_shift b c 8) by (simpl; lia).
  rewrite (lor_shift a _ 16) by (simpl; lia). simpl. lia.
Qed.

Lemma b64_pair a b : is_byte a → is_byte b → Z.lor (Z.shiftl a 16) (Z.shiftl b 8) = a * 65536 + b * 256.
Proof.
  unfold is_byte. intros Ha Hb. rewrite (Z.shiftl_mul_pow2 b) by lia. change (2 ^ 8) with 256.
  rewrite (lor_shift a _ 16) by (simpl; lia). simpl. lia.
Qed.

(** The 6-bit fields of a 24-bit number. *)
Definition field (n k : Z) : Z := (n `div` k) `mod` 64.

Lemma field_range n k : 0 ≤ field n k < 64.
Proof. apply Z.mod_pos_bound. lia. Qed.

Lemma b64_fields n :
  0 ≤ n < 16777216 →
  [Z.shiftr n 18; Z.land (Z.shiftr n 12) 63; Z.land (Z.shiftr n 6) 63; Z.land n 63] =
  [field n 262144; field n 4096; field n 64; field n 1].
Proof.
  intros Hn. unfold field. rewrite !land_63, !Z.shiftr_div_pow2 by lia. simpl Z.pow.
  rewrite (Z.mod_small (n `div` 262144)) by (Z.div_mod_to_equations; lia). by rewrite Z.div_1_r.
Qed.

Ltac b64_step :=
  match goal with
  | |- context [b64_char ?v] =>
      let H := fresh in let Hp := fresh in
      destruct (b64_value_char v) as [H Hp]; [apply field_range|];
      cbn [a2b_go]; rewrite (decide_False (P := b64_char v = pad)) by exact Hp; rewrite H;
      cbn [Z.eqb Pos.eqb]; clear H Hp
  end.

Lemma b64_bytes a b c n :
  is_byte a → is_byte b → is_byte c → n = a * 65536 + b * 256 + c →
  [field n 262144 * 4 + field n 4096 `div` 16;
   (field n 4096 `mod` 16) * 16 + field n 64 `div` 4; (field n 64 `mod` 4) * 64 + field n 1] = [a; b; c].
Proof.
  unfold is_byte, field. intros Ha Hb Hc Hn.
  assert (n `div` 262144 = a `div` 4) as -> by (rewrite Hn; Z.div_mod_to_equations; lia).
  assert ((n `div` 4096) `mod` 64 = (a `mod` 4) * 16 + b `div` 16) as ->
    by (rewrite Hn; Z.div_mod_to_equations; lia).
  assert ((n `div` 64) `mod` 64 = (b `mod` 16) * 4 + c `div` 64) as ->
    by (rewrite Hn; Z.div_mod_to_equations; lia).
  assert ((n `div` 1) `mod` 64 = c `mod` 64) as -> by (rewrite Hn; Z.div_mod_to_equations; lia).
  assert ((a `div` 4) `mod` 64 = a `div` 4) as -> by (Z.div_mod_to_equations; lia).
  repeat f_equal; Z.div_mod_to_equations; lia.
Qed.

(** The bytes the decoder puts together from four fields. *)
Lemma a2b_fields n :
  Z.lor (Z.shiftl (field n 262144) 2) (Z.shiftr (field n 4096) 4) = field n 262144 * 4 + field n 4096 `div` 16 ∧
  Z.lor (Z.shiftl (Z.land (field n 4096) 15) 4) (Z.shiftr (field n 64) 2) =
    (field n 4096 `mod` 16) * 16 + field n 64 `div` 4 ∧
  Z.lor (Z.shiftl (Z.land (field n 64) 3) 6) (field n 1) = (field n 64 `mod` 4) * 64 + field n 1.
Proof.
  pose proof (field_range n 262144). pose proof (field_range n 4096).
  pose proof (field_range n 64). pose proof (field_range n 1).
  change 15 with (Z.ones 4). change 3 with (Z.ones 2).
  rewrite !Z.land_ones, !Z.shiftr_div_pow2 by lia. simpl Z.pow.
  rewrite !lor_shift; simpl; split_and?; try lia; Z.div_mod_to_equations; lia.
Qed.

(** Four data characters give three bytes and leave the decoder at a group's
    start. *)
Lemma a2b_group a b c rest :
  is_byte a → is_byte b → is_byte c →
  let n := a * 65536 + b * 256 + c in
  a2b_go (b64_char (field n 262144) :: b64_char (field n 4096) :: b64_char (field n 64)
          :: b64_char (field n 1) :: rest) 0 0 0 =
    (out ← a2b_go rest 0 0 0; mret (a :: b :: c :: out)).
Proof.
  intros Ha Hb Hc n. pose proof (b64_bytes a b c n Ha Hb Hc eq_refl) as Hbytes.
  destruct (a2b_fields n) as (H1 & H2 & H3). repeat b64_step. rewrite H1, H2, H3.
  injection Hbytes as -> -> ->. by destruct (a2b_go rest 0 0 0).
Qed.

Lemma b64_encoded a b c rest :
  is_byte a → is_byte b → is_byte c →
  let n := a * 65536 + b * 256 + c in
  b64encode (a :: b :: c :: rest) =
    b64_char (field n 262144) :: b64_char (field n 4096) :: b64_char (field n 64) :: b64_char (field n 1)
      :: b64encode rest.
Proof.
  intros Ha Hb Hc n. cbn [b64encode]. rewrite b64_triple by done. fold n.
  assert (0 ≤ n < 16777216) as Hn by (unfold n, is_byte in *; lia).
  pose proof (b64_fields n Hn) as Hf. by injection Hf as -> -> -> ->.
Qed.

(** The last group of one or two bytes, and its padding. *)
Lemma b64_one a : is_byte a → a2b_go (b64encode [a]) 0 0 0 = Ret [a].
Proof.
  intros Ha. pose proof (b64_bytes a 0 0 _ Ha ltac:(unfold is_byte; lia) ltac:(unfold is_byte; lia) eq_refl) as Hb.
  cbn [b64encode]. rewrite (Z.shiftl_mul_pow2 a 16) by lia. change (a * 2 ^ 16) with (a * 65536).
  replace (a * 65536 + 0 * 256 + 0) with (a * 65536) in Hb by lia.
  assert (0 ≤ a * 65536 < 16777216) as Hn by (unfold is_byte in *; lia).
  pose proof (b64_fields _ Hn) as Hf. injection Hf as -> -> _ _.
  destruct (a2b_fields (a * 65536)) as (H1 & _ & _).
  repeat b64_step. cbn [a2b_go]. rewrite !decide_True by done. cbn. rewrite H1. by injection Hb as -> _ _.
Qed.

Lemma b64_two a b : is_byte a → is_byte b → a2b_go (b64encode [a; b]) 0 0 0 = Ret [a; b].
Proof.
  intros Ha Hb'. pose proof (b64_bytes a b 0 _ Ha Hb' ltac:(unfold is_byte; lia) eq_refl) as Hb.
  cbn [b64encode]. rewrite b64_pair by done.
  replace (a * 65536 + b * 256 + 0) with (a * 65536 + b * 256) in Hb by lia.
  assert (0 ≤ a * 65536 + b * 256 < 16777216) as Hn by (unfold is_byte in *; lia).
  pose proof (b64_fields _ Hn) as Hf. injection Hf as -> -> -> _.
  destruct (a2b_fields (a * 65536 + b * 256)) as (H1 & H2 & _).
  repeat b64_step. cbn [a2b_go]. rewrite !decide_True by done. cbn. rewrite H1, H2. by injection Hb as -> -> _.
Qed.

Lemma a2b_encode bs : Forall is_byte bs → a2b_go (b64encode bs) 0 0 0 = Ret bs.
Proof.
  remember (length bs) as n eqn:Hn. revert bs Hn. induction (lt_wf n) as [n _ IH]. intros bs -> Hbs.
  destruct bs as [|a [|b [|c rest]]]; [done|..]; repeat (apply Forall_cons in Hbs as [? Hbs]).
  - by apply b64_one.
  - by apply b64_two.
  - rewrite b64_encoded, a2b_group by done. erewrite IH; [done| |done|done]. simpl. lia.
Qed.

(** The encoder writes ASCII. *)
Definition b64_text (bs : byte_list) : string := of_chars (b64encode bs).

Lemma b64_char_ascii : Forall (λ c, (N_of_ascii c <? 128)%N = true) (str_chars B64).
Proof. decide_eval. Qed.

Lemma b64encode_ascii bs : Forall (λ c, (N_of_ascii c <? 128)%N = true) (b64encode bs).
Proof.
  assert (∀ n, (N_of_ascii (b64_char n) <? 128)%N = true) as Hc.
  { intros n. unfold b64_char. destruct (str_chars B64 !! Z.to_nat n) as [c|] eqn:He; [|done].
    pose proof b64_char_ascii as Ha. rewrite Forall_forall in Ha. apply Ha. by eapply list_elem_of_lookup_2. }
  remember (length bs) as n eqn:Hn. revert bs Hn. induction (lt_wf n) as [n _ IH]. intros bs ->.
  destruct bs as [|a [|b [|c rest]]]; cbn [b64encode]; repeat constructor; try apply Hc.
  eapply IH; [|done]. simpl. lia.
Qed.

(** Decoding what [base64.b64encode] wrote gives the bytes back. *)
Lemma b64decode_encode bs : Forall is_byte bs → b64decode (b64_text bs) = Ret bs.
Proof.
  intros Hbs. unfold b64decode, is_ascii, b64_text. rewrite str_of_chars.
  assert (forallb (λ c, (N_of_ascii c <? 128)%N) (b64encode bs) = true) as ->.
  { apply forallb_forall. intros c Hc. apply list_elem_of_In in Hc.
    pose proof (b64encode_ascii bs) as Ha. rewrite Forall_forall in Ha. by apply Ha. }
  by apply a2b_encode.
Qed.

(** ** CRC-32: [zlib.crc32], the reflected polynomial bit by bit *)
Definition crc_bit (c : Z) : Z :=
  if Z.odd c then Z.lxor (Z.shiftr c 1) 3988292384 else Z.shiftr c 1.
Definition crc_byte (c b : Z) : Z := Nat.iter 8 crc_bit (Z.lxor c b).
Definition crc32 (bs : byte_list) : Z :=
  Z.lxor (foldl crc_byte 4294967295 bs) 4294967295.

Example crc32_check : crc32 (map (λ c, Z.of_N (N_of_ascii c)) (str_chars "123456789")) = 3421780262.
Proof. vm_compute. reflexivity. Qed.

(** Numbers below [2^32] are closed under the steps. *)
Definition word32 (n : Z) : Prop := 0 ≤ n < 4294967296.

Lemma lxor_word32 a b : word32 a → word32 b → word32 (Z.lxor a b).
Proof.
  unfold word32. intros Ha Hb. split; [apply Z.lxor_nonneg; lia|].
  destruct (decide (Z.lxor a b = 0)) as [->|Hne]; [lia|].
  change 4294967296 with (2 ^ 32). apply Z.log2_lt_pow2; [pose proof (proj2 (Z.lxor_nonneg a b)); lia|].
  assert (∀ x, 0 ≤ x < 4294967296 → Z.log2 x < 32) as Hl.
  { intros x Hx. destruct (decide (x = 0)) as [->|]; [done|]. apply Z.log2_lt_pow2; lia. }
  pose proof (Z.log2_lxor a b ltac:(lia) ltac:(lia)). specialize (Hl a Ha) as H1. specialize (Hl b Hb) as H2. lia.
Qed.

Lemma crc_bit_word32 c : word32 c → word32 (crc_bit c).
Proof.
  intros Hc. unfold crc_bit. assert (word32 (Z.shiftr c 1)) as Hs.
  { unfold word32 in *. rewrite Z.shiftr_div_pow2 by lia. simpl. Z.div_mod_to_equations. lia. }
  destruct (Z.odd c); [|done]. apply lxor_word32; [done|]. unfold word32. lia.
Qed.

Lemma crc32_range bs : Forall is_byte bs → word32 (crc32 bs).
Proof.
  intros Hbs. unfold crc32. apply lxor_word32; [|unfold word32; lia].
  assert (word32 4294967295) as H0 by (unfold word32; lia). revert H0. generalize 4294967295.
  induction Hbs as [|b bs Hb _ IH]; intros c Hc; [done|]. simpl foldl. apply IH. unfold crc_byte.
  assert (word32 (Z.lxor c b)) as Hx by (apply lxor_word32; [done|unfold is_byte, word32 in *; lia]).
  simpl. by repeat apply crc_bit_word32.
Qed.

(** ** [str.encode("utf-8")] and [bytes.decode("utf-8")] *)
Definition str_bytes (s : string) : byte_list := map (λ c, Z.of_N (N_of_ascii c)) (str_chars s).
Definition bytes_str (bs : byte_list) : string := of_chars (map (λ z, ascii_of_N (Z.to_N z)) bs).

(** The strict decoder refuses what the replacing decoder has to change. *)
Definition decode_utf8 (bs : byte_list) : outcome string :=
  if decide (utf8_encode (utf8_decode bs) = bs) then Ret (bytes_str bs)
  else Raise (ValueError "'utf-8' codec can't decode bytes").

Lemma bytes_str_bytes s : bytes_str (str_bytes s) = s.
Proof.
  unfold bytes_str, str_bytes. rewrite map_map. rewrite <-(of_str_chars s) at 2. f_equal.
  induction (str_chars s) as [|c l IH]; [done|]. simpl. rewrite IH, N2Z.id. by rewrite ascii_N_embedding.
Qed.

Lemma str_bytes_is_byte s : Forall is_byte (str_bytes s).
Proof.
  unfold str_bytes. induction (str_chars s) as [|c l IH]; constructor; [|done].
  unfold is_byte. pose proof (N_ascii_bounded c). lia.
Qed.

(** A string that is the encoding of a text decodes to itself. *)
Definition utf8_ok (s : string) : Prop := utf8_encode (utf8_decode (str_bytes s)) = str_bytes s.

Lemma decode_str_bytes s : utf8_ok s → decode_utf8 (str_bytes s) = Ret s.
Proof. intros Hs. unfold decode_utf8. by rewrite decide_True, bytes_str_bytes by done. Qed.

Lemma ascii_utf8_ok s : is_ascii s = true → utf8_ok s.
Proof.
  unfold is_ascii, utf8_ok, str_bytes. induction (str_chars s) as [|c l IH]; [done|].
  cbn [forallb map]. intros [Hc Hl]%andb_true_iff. apply N.ltb_lt in Hc. cbn [utf8_decode].
  rewrite (proj2 (in_range_true 0 127 _)) by lia. unfold utf8_encode. cbn [mbind list_bind].
  unfold utf8_encode_char at 1. rewrite (proj2 (Z.ltb_lt _ _)) by lia. simpl. f_equal. by apply IH.
Qed.

Lemma str_of_Z_ascii z : is_ascii (str_of_Z z) = true.
Proof.
  assert (∀ fuel z acc, 0 ≤ z → is_ascii acc = true → is_ascii (pos_digits fuel z acc) = true) as Hd.
  { intros fuel. induction fuel as [|fuel IH]; intros z0 acc Hz Hacc; [done|]. cbn [pos_digits].
    assert (0 ≤ z0 mod 10 < 10) as Hm by (by apply Z.mod_pos_bound).
    assert (is_ascii (String (ascii_of_N (Z.to_N (48 + z0 mod 10))) acc) = true) as Ha.
    { unfold is_ascii. cbn [str_chars String.list_ascii_of_string forallb]. apply andb_true_iff. split; [|exact Hacc].
      apply N.ltb_lt. rewrite N_ascii_embedding by lia. lia. }
    destruct (z0 <? 10); [done|]. apply IH; [by apply Z.div_pos|done]. }
  unfold str_of_Z. destruct (Z.ltb_spec z 0) as [Hn|Hp].
  - unfold is_ascii. cbn [str_chars String.list_ascii_of_string forallb]. apply (Hd _ _ ""); [lia|done].
  - by apply Hd.
Qed.

Lemma str_bytes_app a b : str_bytes (a +:+ b) = str_bytes a ++ str_bytes b.
Proof. unfold str_bytes. by rewrite str_chars_app, map_app. Qed.
