(* ===== verification/Settings.v ===== *)
(** * Settings: the settings the platform components read

    [src/app/core/config/settings.py]: each settings class is a record with the
    source's fields, and [..._default] the instance with the declared defaults
    (reading the environment and the .env files is pydantic's). *)
From S2P Require Import Prelude PyText PyStr PyFloat Encoding.
Open Scope Z_scope.

Record AppSettings := mkAppSettings {
  app_name : string; app_host : string; app_port : Z; app_debug : bool; app_workers : Z;
  app_worker_max : Z; app_process_role : string; app_config_crypto_key : string;
  app_timezone : string; app_trusted_proxy_ips : list string }.
Definition AppSettings_default : AppSettings :=
  mkAppSettings "hei-fastapi" "127.0.0.1" 8000 true 1 4 "all" "" "Asia/Shanghai" [].

Record AuditSettings := mkAuditSettings {
  operation_queue_size : Z; operation_shutdown_timeout_seconds : f64 }.
Definition AuditSettings_default : AuditSettings := mkAuditSettings 1000 (f_of_Z 5).

Record MailSettings := mkMailSettings {
  mail_host : string; mail_port : Z; mail_username : string; mail_password : string;
  mail_from_email : string; mail_from_name : string; mail_use_tls : bool; mail_timeout_seconds : f64;
  mail_password_reset_url : string }.
Definition MailSettings_default : MailSettings :=
  mkMailSettings "" 587 "" "" "" "hei-fastapi" true (f_of_Z 10)
    "http://localhost:5173/auth/forgot-password".

Record CorsSettings := mkCorsSettings {
  cors_allow_origins : list string; cors_allow_credentials : bool;
  cors_allow_methods : list string; cors_allow_headers : list string }.
Definition CorsSettings_default : CorsSettings :=
  mkCorsSettings
    ["http://localhost:5173"; "http://127.0.0.1:5173"; "http://localhost:5163";
     "http://127.0.0.1:5163"; "http://localhost:5174"; "http://127.0.0.1:5174"]
    true ["GET"; "POST"; "PUT"; "PATCH"; "DELETE"; "OPTIONS"]
    ["Authorization"; "Content-Type"; "X-Request-Id"; "Accept"; "Origin"].

(** [StorageProvider] of [enums.py]. *)
Inductive StorageProvider := LOCAL | MINIO | S3 | OSS.
#[export] Instance StorageProvider_eq_dec : EqDecision StorageProvider.
Proof. solve_decision. Defined.
Definition provider_value (p : StorageProvider) : string :=
  match p with LOCAL => "local" | MINIO => "minio" | S3 => "s3" | OSS => "oss" end.

(** [StorageProvider(value)] *)
Definition StorageProvider_of (s : string) : outcome StorageProvider :=
  if String.eqb s "local" then Ret LOCAL
  else if String.eqb s "minio" then Ret MINIO
  else if String.eqb s "s3" then Ret S3
  else if String.eqb s "oss" then Ret OSS
  else Raise (ValueError ("'" +:+ s +:+ "' is not a valid StorageProvider")).

Record StorageSettings := mkStorageSettings {
  st_provider : StorageProvider; st_bucket : string; st_endpoint : string; st_access_key : string;
  st_secret_key : string; st_region : string; st_use_ssl : bool; st_presign_expire_seconds : Z;
  st_base_url : string; st_public_path : string; st_local_root : string; st_upload_max_bytes : Z;
  st_upload_allowed_content_types : list string; st_upload_allowed_extensions : list string;
  st_upload_denied_extensions : list string; st_upload_category_max_length : Z;
  st_public_upload_enabled : bool }.
Definition StorageSettings_default : StorageSettings :=
  mkStorageSettings LOCAL "" "" "" "" "" false 3600 "" "/api/v1/files" "storage" (10 * 1024 * 1024)
    ["image/jpeg"; "image/png"; "image/webp"; "application/pdf"; "text/plain"; "video/mp4";
     "video/webm"; "video/quicktime"]
    [".jpg"; ".jpeg"; ".png"; ".webp"; ".pdf"; ".txt"; ".mp4"; ".webm"; ".mov"]
    [".exe"; ".bat"; ".cmd"; ".sh"; ".js"; ".html"; ".php"; ".py"; ".jar"] 64 false.

Record IdGeneratorSettings := mkIdGeneratorSettings { id_worker_id : Z; id_datacenter_id : Z }.
Definition IdGeneratorSettings_default : IdGeneratorSettings := mkIdGeneratorSettings 1 1.

Record ObservabilitySettings := mkObservabilitySettings {
  ob_enabled : bool; ob_service_name : string; ob_service_version : string; ob_environment : string;
  ob_log_enabled : bool; ob_log_level : string; ob_log_json : bool; ob_log_dir : string;
  ob_log_file_max_mb : Z; ob_metrics_enabled : bool; ob_metrics_path : string;
  ob_tracing_enabled : bool; ob_otlp_enabled : bool; ob_otlp_endpoint : string; ob_sample_ratio : f64;
  ob_celery_observability_enabled : bool; ob_http_client_observability_enabled : bool }.
Definition ObservabilitySettings_default : ObservabilitySettings :=
  mkObservabilitySettings false "hei-fastapi" "0.1.0" "dev" true "INFO" false "logs" 100 false "/metrics"
    false false "" (f_of_Z 1) false false.

Record PasswordPolicySettings := mkPasswordPolicySettings {
  pp_min_length : Z; pp_max_length : Z; pp_require_uppercase : bool; pp_require_lowercase : bool;
  pp_require_digit : bool; pp_require_special : bool; pp_expire_days : Z; pp_history_check_count : Z;
  pp_common_password_check : bool }.
Definition PasswordPolicySettings_default : PasswordPolicySettings :=
  mkPasswordPolicySettings 8 128 true true true true 90 5 true.

Record RedisSettings := mkRedisSettings { rd_url : string; rd_max_connections : Z }.
Definition RedisSettings_default : RedisSettings := mkRedisSettings "redis://localhost:6379/0" 1000.

Record CelerySettings := mkCelerySettings {
  ce_broker_url : string; ce_result_backend : string; ce_broker_visibility_timeout : Z; ce_worker_log_level : string;
  ce_log_dir : string; ce_log_file_max_mb : Z; ce_beat_log_level : string; ce_worker_pool : string;
  ce_worker_concurrency : Z; ce_worker_without_mingle : bool; ce_worker_without_gossip : bool;
  ce_worker_remote_control_enabled : bool; ce_worker_cancel_long_running_tasks_on_connection_loss : bool;
  ce_worker_prefetch_multiplier : Z; ce_worker_queues : string }.
Definition CelerySettings_default : CelerySettings :=
  mkCelerySettings "redis://127.0.0.1:6379/1" "" 3600 "INFO" "logs" 100 "INFO" "threads" 8 true true false true 1 "judge".

Record AuditAlertSettings := mkAuditAlertSettings {
  aa_enabled : bool; aa_webhook_url : string; aa_webhook_secret : string; aa_analysis_interval_seconds : Z;
  aa_alert_cooldown_seconds : Z; aa_rule_brute_force : bool; aa_rule_unusual_hours : bool; aa_rule_sensitive_ops : bool;
  aa_rule_bulk_delete : bool; aa_rule_ip_anomaly : bool; aa_brute_force_threshold : Z; aa_bulk_delete_threshold : Z;
  aa_ip_anomaly_threshold : Z }.
Definition AuditAlertSettings_default : AuditAlertSettings :=
  mkAuditAlertSettings false "" "" 300 1800 true true true true true 10 20 3.

(** ** The other enumerations of [enums.py]: members, values, [Enum(value)] *)
Inductive StatusEnum := ENABLED | DISABLED.
Inductive AccountStatusEnum := ACCOUNT_ENABLED | ACCOUNT_DISABLED | ACCOUNT_CANCELLED.
Inductive SysBizCategory := SYS | BIZ.
Definition status_value (s : StatusEnum) : string := match s with ENABLED => "ENABLED" | DISABLED => "DISABLED" end.
Definition account_status_value (s : AccountStatusEnum) : string :=
  match s with ACCOUNT_ENABLED => "ENABLED" | ACCOUNT_DISABLED => "DISABLED" | ACCOUNT_CANCELLED => "CANCELLED" end.
Definition category_value (c : SysBizCategory) : string := match c with SYS => "SYS" | BIZ => "BIZ" end.

(** ** The identifier generator's instance number
    ([src/app/platform/id_generator/snowflake.py]) *)
Definition _build_instance_id (s : IdGeneratorSettings) : Z :=
  let datacenter := Z.land (id_datacenter_id s) 31 in
  let worker := Z.land (id_worker_id s) 31 in
  Z.lor (Z.shiftl datacenter 5) worker.

(** The instance number fits the ten bits of a snowflake identifier whatever the
    settings hold, and determines both five-bit fields. *)
Lemma instance_id_fields s :
  0 ≤ _build_instance_id s < 1024 ∧
  _build_instance_id s `div` 32 = id_datacenter_id s `mod` 32 ∧
  _build_instance_id s `mod` 32 = id_worker_id s `mod` 32.
Proof.
  unfold _build_instance_id.
  change 31 with (Z.ones 5). rewrite !Z.land_ones by lia. change (2 ^ 5) with 32.
  set (d := id_datacenter_id s `mod` 32). set (k := id_worker_id s `mod` 32).
  assert (0 ≤ d < 32) by (apply Z.mod_pos_bound; lia).
  assert (0 ≤ k < 32) by (apply Z.mod_pos_bound; lia).
  rewrite lor_shift by (simpl; lia). change (2 ^ 5) with 32.
  split; [lia|]. split.
  - rewrite Z.div_add_l by lia. rewrite (Z.div_small k 32) by lia. lia.
  - rewrite Z.add_comm, Z.mod_add by lia. by rewrite (Z.mod_small k 32) by lia.
Qed.
