(* ===== verification/Drawing.v ===== *)
(** * Drawing: the pixels of the captcha image

    [_set_pixel], [_draw_line] and [_draw_glyph] of
    [src/app/core/security/transport.py]. The pixel buffer is the list of its
    bytes, three for each pixel, row by row. *)
From S2P Require Import Prelude PyText PyStr Encoding.
Open Scope Z_scope.

Definition Color : Type := Z * Z * Z.
Definition color_bytes (c : Color) : byte_list := let '(r, g, b) := c in [r; g; b].

(** [pixels[offset : offset + 3] = bytes(color)]: the slice is cut to the
    buffer. *)
Definition set_slice (pixels : byte_list) (offset : Z) (new : byte_list) : byte_list :=
  take (Z.to_nat offset) pixels ++ new ++ drop (Z.to_nat (offset + 3)) pixels.

Definition _set_pixel (pixels : byte_list) (width height x y : Z) (color : Color) : byte_list :=
  if (x <? 0) || (width <=? x) || (y <? 0) || (height <=? y) then pixels
  else set_slice pixels ((y * width + x) * 3) (color_bytes color).

(** ** The line *)
Section line.
Context (width height x2 y2 : Z) (color : Color) (dx dy sx sy : Z).

(** The [while True] loop; [line_fuel] shows how many rounds it takes. *)
Fixpoint line_loop (fuel : nat) (pixels : byte_list) (x1 y1 error : Z) : option byte_list :=
  match fuel with
  | O => None
  | S fuel =>
      let pixels := _set_pixel pixels width height x1 y1 color in
      if (x1 =? x2) && (y1 =? y2) then Some pixels
      else
        let e2 := 2 * error in
        let '(error, x1) := if dy <=? e2 then (error + dy, x1 + sx) else (error, x1) in
        let '(error, y1) := if e2 <=? dx then (error + dx, y1 + sy) else (error, y1) in
        line_loop fuel pixels x1 y1 error
  end.
End line.

Definition _draw_line (fuel : nat) (pixels : byte_list) (width height x1 y1 x2 y2 : Z) (color : Color)
    : option byte_list :=
  let dx := Z.abs (x2 - x1) in
  let dy := - Z.abs (y2 - y1) in
  let sx := if x1 <? x2 then 1 else -1 in
  let sy := if y1 <? y2 then 1 else -1 in
  line_loop width height x2 y2 color dx dy sx sy fuel pixels x1 y1 (dx + dy).

(** ** Glyphs *)
Definition GLYPH_ROWS : list (ascii * list string) :=
 [("2"%char, ["11110"; "00001"; "00001"; "11110"; "10000"; "10000"; "11111"]);
  ("3"%char, ["11110"; "00001"; "00001"; "01110"; "00001"; "00001"; "11110"]);
  ("4"%char, ["10001"; "10001"; "10001"; "11111"; "00001"; "00001"; "00001"]);
  ("5"%char, ["11111"; "10000"; "10000"; "11110"; "00001"; "00001"; "11110"]);
  ("6"%char, ["01111"; "10000"; "10000"; "11110"; "10001"; "10001"; "01110"]);
  ("7"%char, ["11111"; "00001"; "00010"; "00100"; "01000"; "01000"; "01000"]);
  ("8"%char, ["01110"; "10001"; "10001"; "01110"; "10001"; "10001"; "01110"]);
  ("9"%char, ["01110"; "10001"; "10001"; "01111"; "00001"; "00001"; "11110"]);
  ("A"%char, ["01110"; "10001"; "10001"; "11111"; "10001"; "10001"; "10001"]);
  ("B"%char, ["11110"; "10001"; "10001"; "11110"; "10001"; "10001"; "11110"]);
  ("C"%char, ["01111"; "10000"; "10000"; "10000"; "10000"; "10000"; "01111"]);
  ("D"%char, ["11110"; "10001"; "10001"; "10001"; "10001"; "10001"; "11110"]);
  ("E"%char, ["11111"; "10000"; "10000"; "11110"; "10000"; "10000"; "11111"]);
  ("F"%char, ["11111"; "10000"; "10000"; "11110"; "10000"; "10000"; "10000"]);
  ("G"%char, ["01111"; "10000"; "10000"; "10011"; "10001"; "10001"; "01111"]);
  ("H"%char, ["10001"; "10001"; "10001"; "11111"; "10001"; "10001"; "10001"]);
  ("J"%char, ["00111"; "00010"; "00010"; "00010"; "10010"; "10010"; "01100"]);
  ("K"%char, ["10001"; "10010"; "10100"; "11000"; "10100"; "10010"; "10001"]);
  ("L"%char, ["10000"; "10000"; "10000"; "10000"; "10000"; "10000"; "11111"]);
  ("M"%char, ["10001"; "11011"; "10101"; "10101"; "10001"; "10001"; "10001"]);
  ("N"%char, ["10001"; "11001"; "10101"; "10011"; "10001"; "10001"; "10001"]);
  ("P"%char, ["11110"; "10001"; "10001"; "11110"; "10000"; "10000"; "10000"]);
  ("Q"%char, ["01110"; "10001"; "10001"; "10001"; "10101"; "10010"; "01101"]);
  ("R"%char, ["11110"; "10001"; "10001"; "11110"; "10100"; "10010"; "10001"]);
  ("S"%char, ["01111"; "10000"; "10000"; "01110"; "00001"; "00001"; "11110"]);
  ("T"%char, ["11111"; "00100"; "00100"; "00100"; "00100"; "00100"; "00100"]);
  ("U"%char, ["10001"; "10001"; "10001"; "10001"; "10001"; "10001"; "01110"]);
  ("V"%char, ["10001"; "10001"; "10001"; "10001"; "01010"; "01010"; "00100"]);
  ("W"%char, ["10001"; "10001"; "10001"; "10101"; "10101"; "11011"; "10001"]);
  ("X"%char, ["10001"; "01010"; "00100"; "00100"; "00100"; "01010"; "10001"]);
  ("Y"%char, ["10001"; "01010"; "00100"; "00100"; "00100"; "00100"; "00100"]);
  ("Z"%char, ["11111"; "00001"; "00010"; "00100"; "01000"; "10000"; "11111"])].

(** [CAPTCHA_GLYPHS.get(char)] *)
Definition CAPTCHA_GLYPHS (char : ascii) : option (list string) :=
  snd <$> (snd <$> list_find (λ g, g.1 = char) GLYPH_ROWS).

Definition range (n : Z) : list Z := map Z.of_nat (seq 0 (Z.to_nat n)).

(** The coordinates the nested loops of [_draw_glyph] visit, in their order. *)
Definition cell_points (x y scale row_index column_index : Z) : list (Z * Z) :=
  range scale ≫= λ dy, map (λ dx, (x + column_index * scale + dx, y + row_index * scale + dy)) (range scale).

Definition row_points (x y scale row_index : Z) (row : string) : list (Z * Z) :=
  concat (imap (λ ci enabled,
    if Ascii.eqb enabled "1"%char then cell_points x y scale row_index (Z.of_nat ci) else [])
    (str_chars row)).

Definition glyph_points (glyph : list string) (x y scale : Z) : list (Z * Z) :=
  concat (imap (λ ri row, row_points x y scale (Z.of_nat ri) row) glyph).

Definition set_points (width height : Z) (color : Color) (pixels : byte_list) (ps : list (Z * Z)) : byte_list :=
  foldl (λ px p, _set_pixel px width height p.1 p.2 color) pixels ps.

Definition _draw_glyph (pixels : byte_list) (width height : Z) (char : ascii) (x y scale : Z)
    (color : Color) : byte_list :=
  match CAPTCHA_GLYPHS char with
  | None => pixels
  | Some glyph =>
      if decide (glyph = []) then pixels
      else set_points width height color pixels (glyph_points glyph x y scale)
  end.

(** ** The buffer keeps its shape *)
Record buffer_ok (width height : Z) (pixels : byte_list) : Prop := {
  bo_length : Z.of_nat (length pixels) = 3 * width * height;
  bo_bytes : Forall is_byte pixels }.

Definition color_ok (c : Color) : Prop := Forall is_byte (color_bytes c).

Lemma set_pixel_ok width height x y color pixels :
  color_ok color → buffer_ok width height pixels →
  buffer_ok width height (_set_pixel pixels width height x y color).
Proof.
  intros Hc [Hl Hb]. unfold _set_pixel.
  destruct ((x <? 0) || (width <=? x) || (y <? 0) || (height <=? y)) eqn:Hin; [done|].
  assert (0 ≤ x < width ∧ 0 ≤ y < height) as [Hx Hy] by lia.
  assert ((y * width + x) * 3 + 3 ≤ 3 * width * height) by nia. assert (0 ≤ (y * width + x) * 3) by nia.
  destruct color as [[r g] b]. unfold set_slice. split.
  - rewrite !length_app, length_take, length_drop. simpl. lia.
  - apply Forall_app. split; [by apply Forall_take|]. apply Forall_app. split; [done|by apply Forall_drop].
Qed.

Lemma set_points_ok width height color ps pixels :
  color_ok color → buffer_ok width height pixels →
  buffer_ok width height (set_points width height color pixels ps).
Proof.
  intros Hc. revert pixels. induction ps as [|p ps IH]; intros pixels Hb; [done|].
  simpl. by apply IH, set_pixel_ok.
Qed.

(** ** What the line visits

    [i] and [j] count the steps taken in the two directions. *)
Section line_points.
Context (D E : Z).

Definition step_ij (ij : Z * Z) : Z * Z :=
  let err := D * (1 + ij.2) - E * (1 + ij.1) in
  ((if - E <=? 2 * err then ij.1 + 1 else ij.1), (if 2 * err <=? D then ij.2 + 1 else ij.2)).

(** The offsets within the line's box, at most half a pixel off the ideal
    line. *)
Record on_line (ij : Z * Z) : Prop := {
  ol_i : 0 ≤ ij.1 ≤ D;
  ol_j : 0 ≤ ij.2 ≤ E;
  ol_half : 2 * Z.abs (D * ij.2 - E * ij.1) ≤ Z.max D E }.

(** The longer direction advances at every step. *)
Definition lead (ij : Z * Z) : Z := if E <=? D then ij.1 else ij.2.

Lemma step_on_line ij :
  on_line ij → ij ≠ (D, E) →
  on_line (step_ij ij) ∧ lead (step_ij ij) = lead ij + 1 ∧
  ij.1 ≤ (step_ij ij).1 ≤ ij.1 + 1 ∧ ij.2 ≤ (step_ij ij).2 ≤ ij.2 + 1.
Proof.
  destruct ij as [i j]. intros [Hi Hj Hh] Hne. simpl in *.
  assert (i = D → j < E) as HiD by (intros ->; destruct (decide (j = E)); [congruence|lia]).
  assert (j = E → i < D) as HjE by (intros ->; destruct (decide (i = D)); [congruence|lia]).
  assert (i = D → D * j - E * i ≤ - D) as HrD by (intros ->; specialize (HiD eq_refl); nia).
  assert (j = E → E ≤ D * j - E * i) as HrE by (intros ->; specialize (HjE eq_refl); nia).
  remember (D * j - E * i) as r eqn:Hr.
  assert (D * (1 + j) - E * (1 + i) = r + D - E) as Herr by lia.
  assert (D * (j + 1) - E * i = r + D ∧ D * j - E * (i + 1) = r - E ∧
          D * (j + 1) - E * (i + 1) = r + D - E) as (H1 & H2 & H3) by lia.
  unfold step_ij, lead. simpl. rewrite Herr.
  destruct (Z.leb_spec (- E) (2 * (r + D - E))) as [Hx|Hx],
           (Z.leb_spec (2 * (r + D - E)) D) as [Hy|Hy]; simpl.
  all: assert (- E ≤ 2 * (r + D - E) → i < D) by (intros; destruct (decide (i = D)); lia).
  all: assert (2 * (r + D - E) ≤ D → j < E) by (intros; destruct (decide (j = E)); lia).
  all: split_and!; [split; simpl; rewrite ?H1, ?H2, ?H3, <-?Hr; lia|destruct (Z.leb_spec E D); lia|lia|lia|lia|lia].
Qed.

Lemma on_line_end ij : on_line ij → lead ij = Z.max D E → ij = (D, E).
Proof.
  destruct ij as [i j]. intros [Hi Hj Hh] Hl. unfold lead in Hl. simpl in *.
  destruct (Z.leb_spec E D).
  - assert (i = D) as -> by lia. assert (j = E) as ->; [|done].
    destruct (decide (D = 0)); [lia|]. nia.
  - assert (j = E) as -> by lia. assert (i = D) as ->; [|done]. nia.
Qed.

Lemma on_line_start : 0 ≤ D → 0 ≤ E → on_line (0, 0).
Proof. intros. split; simpl; lia. Qed.

(** The points of [n] further steps. *)
Fixpoint path_from (n : nat) (ij : Z * Z) : list (Z * Z) :=
  ij :: match n with O => [] | S n => path_from n (step_ij ij) end.

Lemma path_from_length n ij : length (path_from n ij) = S n.
Proof. revert ij. induction n as [|n IH]; intros ij; [done|]. simpl. by rewrite IH. Qed.

Lemma lead_le ij : on_line ij → lead ij ≤ Z.max D E.
Proof. intros [Hi Hj _]. unfold lead. destruct (E <=? D); lia. Qed.

(** A path that has [Z.max D E - lead ij] steps left ends at the corner. *)
Lemma path_from_spec n ij :
  on_line ij → lead ij + Z.of_nat n = Z.max D E →
  Forall on_line (path_from n ij) ∧ last (path_from n ij) = Some (D, E) ∧
  ∀ k p q, path_from n ij !! k = Some p → path_from n ij !! S k = Some q →
    p.1 ≤ q.1 ≤ p.1 + 1 ∧ p.2 ≤ q.2 ≤ p.2 + 1 ∧ lead q = lead p + 1.
Proof.
  revert ij. induction n as [|n IH]; intros ij Hok Hn.
  - rewrite (on_line_end ij Hok) by lia. split_and!; [|done|by intros []].
    constructor; [|done]. by rewrite <-(on_line_end ij Hok) by lia.
  - assert (ij ≠ (D, E)) as Hne.
    { intros ->. unfold lead in Hn. simpl in Hn. destruct (Z.leb_spec E D); lia. }
    destruct (step_on_line ij Hok Hne) as (Hok' & Hl & H1 & H2).
    destruct (IH (step_ij ij) Hok' ltac:(lia)) as (Hall & Hlast & Hk). simpl. split_and!.
    + by constructor.
    + rewrite last_cons, Hlast. done.
    + intros [|k] p q; [|apply Hk].
      intros [= <-] Hq. assert (q = step_ij ij) as ->; [|done]. destruct n; by injection Hq as <-.
Qed.
End line_points.

Section line_spec.
Context (width height x0 y0 : Z) (color : Color) (D E sx sy : Z).

Definition line_pt (ij : Z * Z) : Z * Z := (x0 + sx * ij.1, y0 + sy * ij.2).

Lemma line_loop_spec n fuel ij pixels :
  (sx = 1 ∨ sx = -1) → (sy = 1 ∨ sy = -1) →
  on_line D E ij → lead D E ij + Z.of_nat n = Z.max D E → (n < fuel)%nat →
  line_loop width height (x0 + sx * D) (y0 + sy * E) color D (- E) sx sy fuel pixels
    (line_pt ij).1 (line_pt ij).2 (D * (1 + ij.2) - E * (1 + ij.1)) =
  Some (set_points width height color pixels (map line_pt (path_from D E n ij))).
Proof.
  intros Hsx Hsy. revert fuel ij pixels. induction n as [|n IH]; intros fuel ij pixels Hok Hn Hf;
    (destruct fuel as [|fuel]; [lia|]); cbn [line_loop].
  - rewrite (on_line_end D E ij Hok) by lia. simpl. by rewrite !Z.eqb_refl.
  - assert (ij ≠ (D, E)) as Hne.
    { intros ->. unfold lead in Hn. simpl in Hn. destruct (Z.leb_spec E D); lia. }
    destruct (step_on_line D E ij Hok Hne) as (Hok' & Hl & _).
    assert (((line_pt ij).1 =? x0 + sx * D) && ((line_pt ij).2 =? y0 + sy * E) = false) as ->.
    { apply not_true_iff_false. intros [H1 H2]%andb_true_iff. apply Hne. destruct ij as [i j]. simpl in *.
      f_equal; destruct Hsx, Hsy; nia. }
    specialize (IH fuel (step_ij D E ij) (_set_pixel pixels width height (line_pt ij).1 (line_pt ij).2 color)
                  Hok' ltac:(lia) ltac:(lia)).
    etransitivity; [|exact IH]. unfold step_ij, line_pt. destruct ij as [i j]. cbn [fst snd].
    destruct (- E <=? 2 * (D * (1 + j) - E * (1 + i))), (2 * (D * (1 + j) - E * (1 + i)) <=? D);
      cbn [fst snd]; f_equal; lia.
Qed.
End line_spec.

(** [_draw_line] terminates on every pair of end points, inside the image or
    not: its loop takes max(|x2-x1|, |y2-y1|) steps, and what it draws is a
    connected path from the first point to the last whose pixels stay in the
    bounding box and within half a pixel of the ideal line. *)
Lemma draw_line_path pixels width height x1 y1 x2 y2 color fuel :
  let dx := Z.abs (x2 - x1) in
  let dy := Z.abs (y2 - y1) in
  Z.max dx dy < Z.of_nat fuel →
  ∃ ps, _draw_line fuel pixels width height x1 y1 x2 y2 color =
          Some (set_points width height color pixels ps) ∧
    Z.of_nat (length ps) = Z.max dx dy + 1 ∧
    head ps = Some (x1, y1) ∧ last ps = Some (x2, y2) ∧
    (∀ k p q, ps !! k = Some p → ps !! S k = Some q →
       p ≠ q ∧ Z.abs (q.1 - p.1) ≤ 1 ∧ Z.abs (q.2 - p.2) ≤ 1) ∧
    (∀ p, p ∈ ps →
       Z.min x1 x2 ≤ p.1 ≤ Z.max x1 x2 ∧ Z.min y1 y2 ≤ p.2 ≤ Z.max y1 y2 ∧
       2 * Z.abs ((x2 - x1) * (p.2 - y1) - (y2 - y1) * (p.1 - x1)) ≤ Z.max dx dy).
Proof.
  intros dx dy Hfuel. set (sx := if x1 <? x2 then 1 else -1). set (sy := if y1 <? y2 then 1 else -1).
  assert (sx = 1 ∨ sx = -1) as Hsx by (unfold sx; destruct (x1 <? x2); auto).
  assert (sy = 1 ∨ sy = -1) as Hsy by (unfold sy; destruct (y1 <? y2); auto).
  assert (x2 = x1 + sx * dx) as Hx2 by (unfold sx, dx; destruct (Z.ltb_spec x1 x2); lia).
  assert (y2 = y1 + sy * dy) as Hy2 by (unfold sy, dy; destruct (Z.ltb_spec y1 y2); lia).
  assert (0 ≤ dx ∧ 0 ≤ dy) as [Hdx Hdy] by (unfold dx, dy; lia).
  pose proof (on_line_start dx dy Hdx Hdy) as Hst.
  set (n := Z.to_nat (Z.max dx dy)).
  assert (lead dx dy (0, 0) + Z.of_nat n = Z.max dx dy) as Hn.
  { unfold lead, n. simpl. destruct (dy <=? dx); lia. }
  destruct (path_from_spec dx dy n (0, 0) Hst Hn) as (Hall & Hlast & Hstep).
  exists (map (line_pt x1 y1 sx sy) (path_from dx dy n (0, 0))). split_and!.
  - pose proof (line_loop_spec width height x1 y1 color dx dy sx sy n fuel (0, 0) pixels Hsx Hsy Hst Hn
                  ltac:(unfold n; lia)) as Hrun.
    rewrite <-Hx2, <-Hy2 in Hrun. unfold line_pt in Hrun at 1 2. simpl in Hrun.
    unfold _draw_line. fold dx dy sx sy. rewrite <-Hrun. f_equal; lia.
  - rewrite length_map, path_from_length. unfold n. lia.
  - destruct n; simpl; unfold line_pt; simpl; do 2 f_equal; lia.
  - change (map ?f ?l) with (f <$> l). rewrite fmap_last, Hlast. simpl. unfold line_pt. simpl. congruence.
  - intros k p q Hp Hq. change (map ?f ?l) with (f <$> l) in Hp, Hq.
    apply list_lookup_fmap_Some in Hp as (a & -> & Ha), Hq as (b & -> & Hb).
    destruct (Hstep k a b Ha Hb) as (H1 & H2 & H3). destruct a as [i j], b as [i' j']. simpl in *.
    unfold lead in H3. simpl in H3. split_and!; [|destruct Hsx; nia|destruct Hsy; nia].
    intros [= Hi Hj]. destruct (dy <=? dx), Hsx, Hsy; nia.
  - intros p (a & -> & Ha)%list_elem_of_fmap. rewrite Forall_forall in Hall. destruct (Hall a Ha) as [Hi Hj Hh].
    destruct a as [i j]. simpl in *. split_and!.
    1-4: rewrite Hx2 || rewrite Hy2; destruct Hsx as [-> | ->], Hsy as [-> | ->]; lia.
    replace ((x2 - x1) * (y1 + sy * j - y1) - (y2 - y1) * (x1 + sx * i - x1))
      with (sx * sy * (dx * j - dy * i)) by (rewrite Hx2, Hy2; ring).
    destruct Hsx as [-> | ->], Hsy as [-> | ->]; lia.
Qed.

(** ** Reading a pixel back *)
Definition pixel_at (pixels : byte_list) (width x y : Z) : byte_list :=
  take 3 (drop (Z.to_nat ((y * width + x) * 3)) pixels).

Definition in_image (width height : Z) (p : Z * Z) : Prop := 0 ≤ p.1 < width ∧ 0 ≤ p.2 < height.

Lemma color_length c : length (color_bytes c) = 3%nat.
Proof. by destruct c as [[r g] b]. Qed.

Lemma take_drop_slice (pixels : byte_list) o new k :
  0 ≤ o → length new = 3%nat → o + 3 ≤ Z.of_nat (length pixels) → 0 ≤ k → k `mod` 3 = o `mod` 3 →
  take 3 (drop (Z.to_nat k) (set_slice pixels o new)) =
  if decide (k = o) then new else take 3 (drop (Z.to_nat k) pixels).
Proof.
  intros Ho Hn Hl Hk Hmod. unfold set_slice.
  assert (Z.to_nat k = Z.to_nat o ∨ Z.to_nat k + 3 ≤ Z.to_nat o ∨ Z.to_nat o + 3 ≤ Z.to_nat k)%nat as Hpos
    by (Z.div_mod_to_equations; lia).
  replace (Z.to_nat (o + 3)) with (Z.to_nat o + 3)%nat by lia.
  assert (k = o ↔ Z.to_nat k = Z.to_nat o) as Hko by lia. rewrite (decide_ext _ _ _ _ Hko).
  assert (Z.to_nat o + 3 ≤ length pixels)%nat as Hl' by lia. clear -Hpos Hn Hl'.
  revert Hpos Hl'. generalize (Z.to_nat k) (Z.to_nat o). intros i j Hpos Hl.
  assert (length (take j pixels) = j) as Ht by (rewrite length_take; lia).
  case_decide as Hij; [subst i|].
  - rewrite drop_app_length' by done. by rewrite take_app_length' by done.
  - destruct Hpos as [?|[Hlt|Hgt]]; [done| |].
    + rewrite drop_app_le, take_app_le by (rewrite ?length_drop; lia).
      apply list_eq. intros m. destruct (decide (m < 3)%nat).
      * rewrite !lookup_take_lt, !lookup_drop by lia. by rewrite lookup_take_lt by lia.
      * rewrite !lookup_take_ge by lia. done.
    + rewrite drop_app_ge, drop_app_ge by lia. rewrite drop_drop. do 2 f_equal. lia.
Qed.

Lemma pixel_set_pixel pixels width height x y color q :
  buffer_ok width height pixels → in_image width height q →
  pixel_at (_set_pixel pixels width height x y color) width q.1 q.2 =
  if decide ((x, y) = q) then color_bytes color else pixel_at pixels width q.1 q.2.
Proof.
  intros [Hl _] [Hq1 Hq2]. destruct q as [u v]. simpl in *. unfold _set_pixel, pixel_at.
  destruct ((x <? 0) || (width <=? x) || (y <? 0) || (height <=? y)) eqn:Hin.
  - rewrite decide_False; [done|]. intros [= -> ->]. lia.
  - assert (0 ≤ x < width ∧ 0 ≤ y < height) as [Hx Hy] by lia.
    rewrite take_drop_slice; [|nia|apply color_length|nia|nia|by rewrite !Z.mod_mul by lia].
    apply decide_ext. split; [|by intros [= -> ->]]. intros Heq.
    assert (y = v) as -> by nia. assert (x = u) as -> by nia. done.
Qed.

(** A pixel keeps the colour drawn last. *)
Lemma pixel_set_points pixels width height color ps q :
  color_ok color → buffer_ok width height pixels → in_image width height q →
  pixel_at (set_points width height color pixels ps) width q.1 q.2 =
  if decide (q ∈ ps) then color_bytes color else pixel_at pixels width q.1 q.2.
Proof.
  intros Hc Hb Hq. revert pixels Hb. induction ps as [|[x y] ps IH]; intros pixels Hb; [done|].
  unfold set_points. cbn [foldl]. etransitivity; [apply IH; by apply set_pixel_ok|].
  simpl. rewrite pixel_set_pixel by done.
  repeat case_decide; set_solver.
Qed.

(** ** Where a glyph is drawn *)
Lemma elem_of_range n z : z ∈ range n ↔ 0 ≤ z < n.
Proof.
  unfold range. change (map ?f ?l) with (f <$> l). rewrite list_elem_of_fmap. split.
  - intros (k & -> & Hk%elem_of_seq). lia.
  - intros Hz. exists (Z.to_nat z). rewrite elem_of_seq. lia.
Qed.

Lemma elem_of_concat_imap {A B} (f : nat → A → list B) (l : list A) b :
  b ∈ concat (imap f l) ↔ ∃ i a, l !! i = Some a ∧ b ∈ f i a.
Proof.
  rewrite list_elem_of_In, in_concat. setoid_rewrite <-list_elem_of_In. split.
  - intros (x & Hx & Hb). apply elem_of_lookup_imap_1 in Hx as (i & a & -> & Ha). eauto.
  - intros (i & a & Ha & Hb). exists (f i a). split; [|done]. by apply elem_of_lookup_imap_2.
Qed.

Lemma elem_of_cell_points x y scale ri ci p :
  p ∈ cell_points x y scale ri ci ↔
  x + ci * scale ≤ p.1 < x + (ci + 1) * scale ∧ y + ri * scale ≤ p.2 < y + (ri + 1) * scale.
Proof.
  unfold cell_points. rewrite list_elem_of_bind. split.
  - intros (dy & Hp & Hdy%elem_of_range). change (map ?f ?l) with (f <$> l) in Hp.
    apply list_elem_of_fmap in Hp as (dx & -> & Hdx%elem_of_range). simpl. lia.
  - intros [H1 H2]. exists (p.2 - (y + ri * scale)). rewrite elem_of_range. split; [|lia].
    change (map ?f ?l) with (f <$> l). apply list_elem_of_fmap. exists (p.1 - (x + ci * scale)).
    rewrite elem_of_range. split; [|lia]. destruct p. simpl. f_equal; lia.
Qed.

(** The cells of a glyph that are switched on. *)
Definition glyph_cell (glyph : list string) (ri ci : nat) : Prop :=
  ∃ row, glyph !! ri = Some row ∧ str_chars row !! ci = Some "1"%char.

Lemma elem_of_glyph_points glyph x y scale p :
  p ∈ glyph_points glyph x y scale ↔
  ∃ ri ci : nat, glyph_cell glyph ri ci ∧
    x + Z.of_nat ci * scale ≤ p.1 < x + (Z.of_nat ci + 1) * scale ∧
    y + Z.of_nat ri * scale ≤ p.2 < y + (Z.of_nat ri + 1) * scale.
Proof.
  unfold glyph_points. rewrite elem_of_concat_imap. split.
  - intros (ri & row & Hrow & Hp). unfold row_points in Hp.
    apply elem_of_concat_imap in Hp as (ci & e & He & Hp).
    destruct (Ascii.eqb_spec e "1"%char) as [->|]; [|by apply not_elem_of_nil in Hp].
    apply elem_of_cell_points in Hp. exists ri, ci. split; [|done]. by exists row.
  - intros (ri & ci & (row & Hrow & Hci) & Hp). exists ri, row. split; [done|].
    unfold row_points. apply elem_of_concat_imap. exists ci, "1"%char. split; [done|].
    simpl. by apply elem_of_cell_points.
Qed.

(** Every glyph of the table is seven rows of five columns. *)
Lemma glyph_table_shape :
  Forall (λ g : ascii * list string, length g.2 = 7%nat ∧ Forall (λ r, String.length r = 5%nat) g.2) GLYPH_ROWS.
Proof. decide_eval. Qed.

Lemma glyph_shape char glyph :
  CAPTCHA_GLYPHS char = Some glyph → length glyph = 7%nat ∧ Forall (λ r, String.length r = 5%nat) glyph.
Proof.
  unfold CAPTCHA_GLYPHS. intros Hg.
  destruct (list_find (λ g : ascii * list string, g.1 = char) GLYPH_ROWS) as [[i g]|] eqn:He; [|done].
  simpl in Hg. injection Hg as <-. apply list_find_Some in He as (He & _ & _).
  pose proof glyph_table_shape as Ha. rewrite Forall_lookup in Ha. apply (Ha i g He).
Qed.

Lemma glyph_in_box char glyph x y scale p :
  0 ≤ scale → CAPTCHA_GLYPHS char = Some glyph → p ∈ glyph_points glyph x y scale →
  x ≤ p.1 < x + 5 * scale ∧ y ≤ p.2 < y + 7 * scale.
Proof.
  intros Hs [Hl Hr]%glyph_shape Hp. apply elem_of_glyph_points in Hp as (ri & ci & (row & Hrow & Hci) & H1 & H2).
  pose proof (lookup_lt_Some _ _ _ Hrow). pose proof (lookup_lt_Some _ _ _ Hci) as Hci'.
  rewrite Forall_lookup in Hr. specialize (Hr ri row Hrow). rewrite length_str_chars in Hci'. nia.
Qed.

(** [_draw_line] with the fuel it needs. *)
Definition draw_line (pixels : byte_list) (width height x1 y1 x2 y2 : Z) (color : Color) : byte_list :=
  default pixels
    (_draw_line (S (Z.to_nat (Z.max (Z.abs (x2 - x1)) (Z.abs (y2 - y1))))) pixels width height x1 y1 x2 y2 color).

Lemma draw_line_points pixels width height x1 y1 x2 y2 color :
  ∃ ps, draw_line pixels width height x1 y1 x2 y2 color = set_points width height color pixels ps.
Proof.
  unfold draw_line. set (fuel := S _).
  destruct (draw_line_path pixels width height x1 y1 x2 y2 color fuel) as (ps & -> & _); [unfold fuel; lia|].
  by exists ps.
Qed.

(** [_draw_line] terminates on every pair of end points, inside the image or
    not: its loop takes max(|x2-x1|, |y2-y1|) steps, and what it draws is a
    connected path from the first point to the last whose pixels stay in the
    bounding box and within half a pixel of the ideal line. *)
Theorem draw_line_terminates pixels width height x1 y1 x2 y2 color fuel :
  let dx := Z.abs (x2 - x1) in
  let dy := Z.abs (y2 - y1) in
  Z.max dx dy < Z.of_nat fuel →
  ∃ ps, _draw_line fuel pixels width height x1 y1 x2 y2 color =
          Some (set_points width height color pixels ps) ∧
    Z.of_nat (length ps) = Z.max dx dy + 1 ∧
    head ps = Some (x1, y1) ∧ last ps = Some (x2, y2) ∧
    (∀ k p q, ps !! k = Some p → ps !! S k = Some q →
       p ≠ q ∧ Z.abs (q.1 - p.1) ≤ 1 ∧ Z.abs (q.2 - p.2) ≤ 1) ∧
    (∀ p, p ∈ ps →
       Z.min x1 x2 ≤ p.1 ≤ Z.max x1 x2 ∧ Z.min y1 y2 ≤ p.2 ≤ Z.max y1 y2 ∧
       2 * Z.abs ((x2 - x1) * (p.2 - y1) - (y2 - y1) * (p.1 - x1)) ≤ Z.max dx dy).
Proof. apply draw_line_path. Qed.

Lemma draw_line_terminates_witness :
  ∃ ps, _draw_line 6 (replicate 90 0) 6 5 0 0 5 2 (148, 163, 184) = Some (set_points 6 5 (148, 163, 184) (replicate 90 0) ps)
    ∧ Z.of_nat (length ps) = 6.
Proof.
  destruct (draw_line_terminates (replicate 90 0) 6 5 0 0 5 2 (148, 163, 184) 6 eq_refl)
    as (ps & H1 & H2 & _). by exists ps.
Defined.
