(* ===== verification/Png.v ===== *)
(** * Png: writing and reading the captcha image

    [_png_chunk] and the assembly of [_captcha_png_base64] of
    [src/app/core/security/transport.py], with a reader of the format against
    which they are proved. [zlib] is a parameter with its documented round trip. *)
From S2P Require Import Prelude PyText PyStr Encoding Drawing.
Open Scope Z_scope.

Class Zlib := {
  zlib_compress : byte_list → byte_list;          (* [zlib.compress(raw, 9)] *)
  zlib_decompress : byte_list → option byte_list }.

(** Decompression undoes compression, and the output is at most as long as
    zlib's [compressBound]. *)
Class ZlibLaws `{Zlib} : Prop := {
  zlib_roundtrip bs : Forall is_byte bs → zlib_decompress (zlib_compress bs) = Some bs;
  zlib_bytes bs : Forall is_byte bs → Forall is_byte (zlib_compress bs);
  zlib_bound bs : let n := Z.of_nat (length bs) in
    Z.of_nat (length (zlib_compress bs)) ≤ n + n / 4096 + n / 16384 + n / 33554432 + 13 }.

Definition chunk_type (s : string) : byte_list := str_bytes s.

Definition _png_chunk (chunk_type data : byte_list) : outcome byte_list :=
  len ← pack_I (Z.of_nat (length data));
  crc ← pack_I (Z.land (crc32 (chunk_type ++ data)) 4294967295);
  mret (len ++ chunk_type ++ data ++ crc).

Definition PNG_SIGNATURE : byte_list := [137; 80; 78; 71; 13; 10; 26; 10].

(** [struct.pack(">IIBBBBB", width, height, 8, 2, 0, 0, 0)] *)
Definition ihdr (width height : Z) : outcome byte_list :=
  w ← pack_I width; h ← pack_I height; mret (w ++ h ++ [8; 2; 0; 0; 0]).

(** The scan lines: a filter byte, then the row. *)
Definition scan_row (width : Z) (pixels : byte_list) (row : Z) : byte_list :=
  0 :: slice (row * width * 3) ((row + 1) * width * 3) pixels.
Definition scan_lines (width height : Z) (pixels : byte_list) : byte_list :=
  range height ≫= scan_row width pixels.

Section png.
Context `{Zlib}.

Definition png_bytes (width height : Z) (pixels : byte_list) : outcome byte_list :=
  header ← ihdr width height;
  c1 ← _png_chunk (chunk_type "IHDR") header;
  c2 ← _png_chunk (chunk_type "IDAT") (zlib_compress (scan_lines width height pixels));
  c3 ← _png_chunk (chunk_type "IEND") [];
  mret (PNG_SIGNATURE ++ c1 ++ c2 ++ c3).

(** ** The reader *)
Definition read_chunk (bs : byte_list) : option (byte_list * byte_list * byte_list) :=
  let n := Z.to_nat (unpack_I (take 4 bs)) in
  let kind := take 4 (drop 4 bs) in
  let data := take n (drop 8 bs) in
  let crc := take 4 (drop (8 + n) bs) in
  if bool_decide (12 + n ≤ length bs)%nat && (unpack_I crc =? crc32 (kind ++ data))
  then Some (kind, data, drop (12 + n) bs) else None.

Fixpoint unfilter (width : Z) (rows : nat) (raw : byte_list) : option byte_list :=
  match rows with
  | O => if decide (raw = []) then Some [] else None
  | S rows =>
      match raw with
      | 0 :: raw =>
          let n := Z.to_nat (3 * width) in
          app (take n raw) <$> unfilter width rows (drop n raw)
      | _ => None
      end
  end.

(** The width, the height and the pixels of an 8-bit RGB image. *)
Definition read_png (bs : byte_list) : option (Z * Z * byte_list) :=
  if decide (take 8 bs = PNG_SIGNATURE) then
    '(k1, header, rest) ← read_chunk (drop 8 bs);
    '(k2, data, rest) ← read_chunk rest;
    '(k3, tail, rest) ← read_chunk rest;
    if decide (k1 = chunk_type "IHDR" ∧ k2 = chunk_type "IDAT" ∧ k3 = chunk_type "IEND" ∧
               tail = [] ∧ rest = [] ∧ drop 8 header = [8; 2; 0; 0; 0]) then
      let width := unpack_I (take 4 header) in
      let height := unpack_I (take 4 (drop 4 header)) in
      raw ← zlib_decompress data;
      pixels ← unfilter width (Z.to_nat height) raw;
      Some (width, height, pixels)
    else None
  else None.
End png.

(** ** A written chunk is read back *)
Lemma pack_I_ret n : word32 n → pack_I n = Ret (be32 n).
Proof. unfold word32, pack_I. intros Hn. by rewrite (proj2 (Z.leb_le 0 n)), (proj2 (Z.ltb_lt n _)) by lia. Qed.

Lemma land_word32 n : word32 n → Z.land n 4294967295 = n.
Proof. intros Hn. change 4294967295 with (Z.ones 32). rewrite Z.land_ones by lia. by apply Z.mod_small. Qed.

Lemma png_chunk_ret kind data :
  Forall is_byte kind → Forall is_byte data → Z.of_nat (length data) < 4294967296 →
  _png_chunk kind data = Ret (be32 (Z.of_nat (length data)) ++ kind ++ data ++ be32 (crc32 (kind ++ data))).
Proof.
  intros Hk Hd Hl. unfold _png_chunk. rewrite (pack_I_ret (Z.of_nat _)) by (unfold word32; lia). cbn.
  assert (word32 (crc32 (kind ++ data))) as Hc by (apply crc32_range; by apply Forall_app).
  by rewrite land_word32, pack_I_ret.
Qed.

Lemma png_chunk_ok kind data :
  Forall is_byte kind → Forall is_byte data → Z.of_nat (length data) < 4294967296 →
  ∃ c, _png_chunk kind data = Ret c ∧ Forall is_byte c.
Proof.
  intros Hk Hd Hl. rewrite png_chunk_ret by done. eexists. split; [reflexivity|].
  repeat (apply Forall_app; split); try done; apply be32_bytes.
Qed.

Lemma be32_length n : length (be32 n) = 4%nat.
Proof. done. Qed.

(** The fields of a chunk, by position. *)
Lemma chunk_fields (l k d c r : byte_list) :
  length l = 4%nat → length k = 4%nat → length c = 4%nat →
  let bs := (l ++ k ++ d ++ c) ++ r in
  let n := length d in
  take 4 bs = l ∧ take 4 (drop 4 bs) = k ∧ take n (drop 8 bs) = d ∧
  take 4 (drop (8 + n) bs) = c ∧ drop (12 + n) bs = r ∧ (12 + n ≤ length bs)%nat.
Proof.
  intros Hl Hk Hc bs n.
  destruct l as [|l1 [|l2 [|l3 [|l4 [|]]]]]; try done. destruct k as [|k1 [|k2 [|k3 [|k4 [|]]]]]; try done.
  destruct c as [|c1 [|c2 [|c3 [|c4 [|]]]]]; try done. unfold bs, n. rewrite <-!app_assoc. cbn [app Nat.add]. split_and!; try done.
  - simpl. by apply take_app_length'.
  - cbn [drop]. by rewrite drop_app_length'.
  - cbn [drop]. change (c1 :: c2 :: c3 :: c4 :: r) with ([c1; c2; c3; c4] ++ r). rewrite app_assoc.
    change (S (S (S (S (length d))))) with (4 + length d)%nat.
    apply drop_app_length'. rewrite length_app. simpl. lia.
  - cbn [length]. rewrite !length_app. cbn [length]. lia.
Qed.

Lemma read_chunk_spec kind data rest c :
  length kind = 4%nat → Forall is_byte kind → Forall is_byte data → Z.of_nat (length data) < 4294967296 →
  _png_chunk kind data = Ret c → read_chunk (c ++ rest) = Some (kind, data, rest).
Proof.
  intros Hkl Hk Hd Hl Hc. rewrite png_chunk_ret in Hc by done.
  assert (c = be32 (Z.of_nat (length data)) ++ kind ++ data ++ be32 (crc32 (kind ++ data))) as -> by congruence.
  destruct (chunk_fields (be32 (Z.of_nat (length data))) kind data (be32 (crc32 (kind ++ data))) rest)
    as (H1 & H2 & H3 & H4 & H5 & H6); [done..|].
  unfold read_chunk. rewrite H1, unpack_be32, Nat2Z.id, H2, H3, H4, H5, bool_decide_true by (lia || done).
  rewrite unpack_be32, Z.eqb_refl by (apply crc32_range; by apply Forall_app). done.
Qed.

(** ** The scan lines *)
Lemma scan_lines_eq width pixels (height : nat) (k : nat) :
  0 ≤ width → Z.of_nat (length pixels) = 3 * width * Z.of_nat (k + height) →
  unfilter width height (map Z.of_nat (seq k height) ≫= scan_row width pixels) =
    Some (drop (Z.to_nat (Z.of_nat k * width * 3)) pixels).
Proof.
  intros Hw. revert k. induction height as [|h IH]; intros k Hl.
  - simpl. f_equal. symmetry. apply drop_ge. nia.
  - cbn [seq map]. rewrite bind_cons. unfold scan_row at 1, slice. cbn [app unfilter].
    set (n := Z.to_nat (3 * width)). set (o := Z.to_nat (Z.of_nat k * width * 3)).
    replace (Z.to_nat ((Z.of_nat k + 1) * width * 3 - Z.of_nat k * width * 3)) with n by (unfold n; lia).
    assert (length (take n (drop o pixels)) = n) as Htn by (rewrite length_take, length_drop; nia).
    rewrite take_app_length', drop_app_length' by done.
    rewrite (IH (S k)) by lia. simpl.
    replace (Z.to_nat (Z.of_nat (S k) * width * 3)) with (o + n)%nat by (unfold o, n; nia).
    by rewrite <-drop_drop, take_drop.
Qed.

Lemma unfilter_scan_lines width height pixels :
  0 ≤ width → 0 ≤ height → Z.of_nat (length pixels) = 3 * width * height →
  unfilter width (Z.to_nat height) (scan_lines width height pixels) = Some pixels.
Proof.
  intros Hw Hh Hl. unfold scan_lines, range.
  rewrite (scan_lines_eq width pixels (Z.to_nat height) 0) by lia. done.
Qed.

Lemma scan_lines_bytes width height pixels :
  Forall is_byte pixels → Forall is_byte (scan_lines width height pixels).
Proof.
  intros Hp. unfold scan_lines. apply Forall_bind, Forall_forall. intros row _. unfold scan_row, slice.
  constructor; [unfold is_byte; lia|]. by apply Forall_take, Forall_drop.
Qed.

Lemma scan_lines_length width height pixels :
  0 ≤ width → Z.of_nat (length (scan_lines width height pixels)) ≤ Z.max 0 height * (3 * width + 1).
Proof.
  intros Hw. unfold scan_lines, range. rewrite <-(Z2Nat.id (Z.max 0 height)) by lia.
  replace (Z.to_nat (Z.max 0 height)) with (Z.to_nat height) by lia.
  generalize 0%nat. induction (Z.to_nat height) as [|h IH]; intros k; [done|].
  cbn [seq map]. rewrite bind_cons, length_app. unfold scan_row at 1. cbn [length]. specialize (IH (S k)). unfold slice. rewrite length_take.
  replace ((Z.of_nat k + 1) * width * 3 - Z.of_nat k * width * 3) with (3 * width) by lia.
  assert (Z.of_nat (S h) * (3 * width + 1) = Z.of_nat h * (3 * width + 1) + (3 * width + 1)) by lia. lia.
Qed.

#[local] Opaque crc32 scan_lines _png_chunk read_chunk.

(** ** The whole image *)
Section roundtrip.
Context `{ZlibLaws}.

Lemma read_png_parts header data raw tail c1 c2 c3 :
  Forall is_byte header → Forall is_byte data → tail = [] →
  Z.of_nat (length header) < 4294967296 → Z.of_nat (length data) < 4294967296 →
  _png_chunk (chunk_type "IHDR") header = Ret c1 → _png_chunk (chunk_type "IDAT") data = Ret c2 →
  _png_chunk (chunk_type "IEND") tail = Ret c3 →
  drop 8 header = [8; 2; 0; 0; 0] → zlib_decompress data = Some raw →
  read_png (PNG_SIGNATURE ++ c1 ++ c2 ++ c3) =
    (pixels ← unfilter (unpack_I (take 4 header)) (Z.to_nat (unpack_I (take 4 (drop 4 header)))) raw;
     Some (unpack_I (take 4 header), unpack_I (take 4 (drop 4 header)), pixels)).
Proof.
  intros Hhb Hdb Ht Hhl Hdl H1 H2 H3 Hh Hz. pose proof (str_bytes_is_byte : ∀ s, Forall is_byte (chunk_type s)) as Hct.
  pose proof (read_chunk_spec (chunk_type "IHDR") header (c2 ++ c3) c1 eq_refl (Hct _) Hhb Hhl H1) as R1.
  pose proof (read_chunk_spec (chunk_type "IDAT") data c3 c2 eq_refl (Hct _) Hdb Hdl H2) as R2.
  assert (read_chunk c3 = Some (chunk_type "IEND", tail, [])) as R3.
  { rewrite <-(app_nil_r c3). apply read_chunk_spec; [done|apply Hct|by rewrite Ht|by rewrite Ht|done]. }
  unfold read_png. rewrite take_app_length', drop_app_length' by done. rewrite decide_True by done.
  rewrite R1. cbn [mbind option_bind]. rewrite R2. cbn [mbind option_bind]. rewrite R3.
  cbn [mbind option_bind]. rewrite decide_True by done. by rewrite Hz.
Qed.

Lemma ihdr_ret width height :
  word32 width → word32 height → ihdr width height = Ret (be32 width ++ be32 height ++ [8; 2; 0; 0; 0]).
Proof. intros Hw Hh. unfold ihdr. by rewrite (pack_I_ret width), (pack_I_ret height). Qed.

Lemma bind_outcome {A B} (o : outcome A) a (f : A → outcome B) : o = Ret a → (o ≫= f) = f a.
Proof. by intros ->. Qed.

Lemma png_bytes_parts width height pixels header data tail c1 c2 c3 :
  ihdr width height = Ret header → data = zlib_compress (scan_lines width height pixels) → tail = [] →
  _png_chunk (chunk_type "IHDR") header = Ret c1 → _png_chunk (chunk_type "IDAT") data = Ret c2 →
  _png_chunk (chunk_type "IEND") tail = Ret c3 →
  png_bytes width height pixels = Ret (PNG_SIGNATURE ++ c1 ++ c2 ++ c3).
Proof.
  intros Hh -> -> H1 H2 H3. unfold png_bytes.
  by rewrite (bind_outcome _ _ _ Hh), (bind_outcome _ _ _ H1), (bind_outcome _ _ _ H2), (bind_outcome _ _ _ H3).
Qed.

Lemma read_png_bytes width height pixels :
  0 ≤ width → 0 ≤ height → width < 32768 → height < 32768 → buffer_ok width height pixels →
  ∃ bs, png_bytes width height pixels = Ret bs ∧ Forall is_byte bs ∧ read_png bs = Some (width, height, pixels).
Proof.
  intros Hw Hh Hw' Hh' [Hl Hb].
  assert (ihdr width height = Ret (be32 width ++ be32 height ++ [8; 2; 0; 0; 0])) as Hi
    by (apply ihdr_ret; unfold word32; lia).
  remember (be32 width ++ be32 height ++ [8; 2; 0; 0; 0]) as header eqn:Hheader.
  assert (∃ data, data = zlib_compress (scan_lines width height pixels)) as [data Hdata] by eauto.
  pose proof (scan_lines_bytes width height pixels Hb) as Hsb.
  assert (Forall is_byte header) as Hhb.
  { rewrite Hheader. repeat (apply Forall_app; split); try apply be32_bytes. repeat constructor; lia. }
  assert (Forall is_byte data) as Hdb by (rewrite Hdata; by apply zlib_bytes).
  assert (Z.of_nat (length header) < 4294967296) as Hhl by by rewrite Hheader.
  assert (Z.of_nat (length data) < 4294967296) as Hdl.
  { pose proof (zlib_bound (scan_lines width height pixels)) as Hz. simpl in Hz. rewrite <-Hdata in Hz.
    pose proof (scan_lines_length width height pixels Hw). assert (Z.max 0 height * (3 * width + 1) < 3221225472) by nia.
    set (n := Z.of_nat (length (scan_lines width height pixels))) in *. Z.div_mod_to_equations. lia. }
  assert (∃ tail : byte_list, tail = []) as [tail Htail] by eauto.
  pose proof (str_bytes_is_byte : ∀ s, Forall is_byte (chunk_type s)) as Hct.
  destruct (png_chunk_ok (chunk_type "IHDR") header (Hct _) Hhb Hhl) as (c1 & H1 & Hb1).
  destruct (png_chunk_ok (chunk_type "IDAT") data (Hct _) Hdb Hdl) as (c2 & H2 & Hb2).
  destruct (png_chunk_ok (chunk_type "IEND") tail) as (c3 & H3 & Hb3); [apply Hct|by rewrite Htail|by rewrite Htail|].
  exists (PNG_SIGNATURE ++ c1 ++ c2 ++ c3). split_and!.
  - by apply (png_bytes_parts width height pixels header data tail).
  - apply Forall_app. split; [repeat constructor; lia|]. by repeat (apply Forall_app; split).
  - rewrite (read_png_parts header data (scan_lines width height pixels) tail c1 c2 c3); try done.
    + rewrite Hheader. change (take 4 (be32 width ++ ?l)) with (be32 width).
      change (take 4 (drop 4 (be32 width ++ be32 height ++ ?l))) with (be32 height).
      rewrite !unpack_be32 by lia. by rewrite unfilter_scan_lines.
    + by rewrite Hheader.
    + rewrite Hdata. by apply zlib_roundtrip.
Qed.
End roundtrip.
