(* ===== verification/Captcha.v ===== *)
(** * Captcha: captchas and password keys

    [src/app/core/security/transport.py] and [password.py]: the captcha whose
    hash is kept in Redis until one attempt is made, and the RSA key pair whose
    private half is kept for one decryption. bcrypt, RSA with its encodings, the
    random source and the Redis client are the class [TransportApi]. The captcha
    text is ASCII, so its characters are its bytes. *)
From S2P Require Import Prelude PyText PyStr Encoding Drawing Png SessionStore.
Open Scope Z_scope.

Class TransportApi (W Key : Type) := {
  tr_ready : W → bool;                               (* [get_redis() is not None] *)
  tr_setex : string → Z → string → io W ();
  tr_get : string → io W (option byte_list);
  tr_delete : string → io W ();
  randbelow : Z → io W Z;                            (* [secrets.randbelow] *)
  uuid4_hex : io W string;
  bcrypt_hashpw : byte_list → io W byte_list;        (* with [bcrypt.gensalt()] *)
  bcrypt_checkpw : byte_list → byte_list → outcome bool;
  py_lower : string → string;                        (* [str.lower] *)
  rsa_generate : io W Key;
  private_pem : Key → byte_list;
  public_der : Key → byte_list;
  load_pem : byte_list → outcome Key;
  rsa_decrypt : Key → byte_list → outcome byte_list }.

Definition is_value_error (e : exn) : bool :=
  match e with ValueError _ | JSONDecodeError _ => true | _ => false end.

(** ** html.escape *)
Definition dq : ascii := ascii_of_nat 34.
Definition html_escape (s : string) : string :=
  of_chars (str_chars s ≫= λ c,
    if Ascii.eqb c "&" then str_chars "&amp;"
    else if Ascii.eqb c "<" then str_chars "&lt;"
    else if Ascii.eqb c ">" then str_chars "&gt;"
    else if Ascii.eqb c dq then str_chars "&quot;"
    else if Ascii.eqb c "'" then str_chars "&#x27;"
    else [c]).

(** A literal of the source with its double quotes written as back quotes. *)
Definition lit (s : string) : string := replace_char "`" dq s.

Record CaptchaResponse := mkCaptchaResponse {
  cr_captcha_id : string; cr_image_base64 : string; cr_image_type : string }.
Record PasswordKeyResponse := mkPasswordKeyResponse { pk_key_id : string; pk_public_key : string }.

Definition CAPTCHA_ALPHABET : string := "23456789ABCDEFGHJKLMNPQRSTUVWXYZ".

Section transport.
Context `{TransportApi W Key} `{!Zlib}.

(** ** password.py *)
Definition hash_password (password : string) : io W string :=
  hashed ← bcrypt_hashpw (str_bytes password);
  lift (decode_utf8 hashed).

Definition verify_password (password hashed_password : string) : outcome bool :=
  match bcrypt_checkpw (str_bytes password) (str_bytes hashed_password) with
  | Ret b => Ret b
  | Raise e => if is_value_error e then Ret false else Raise e
  end.

Definition _required_redis (message : string) : io W () :=
  w ← get; if tr_ready w then mret () else raise (BusinessError message).

(** ** The SVG image *)
Definition svg_line (_ : nat) : io W string :=
  x1 ← randbelow 140; y1 ← randbelow 44; x2 ← randbelow 140; y2 ← randbelow 44;
  mret (lit "<line x1=`" +:+ str_of_Z x1 +:+ lit "` y1=`" +:+ str_of_Z y1 +:+ lit "` x2=`" +:+ str_of_Z x2
    +:+ lit "` y2=`" +:+ str_of_Z y2
    +:+ lit "` stroke=`#94a3b8` stroke-width=`1` opacity=`0.45` />").

Definition svg_text (ic : Z * ascii) : io W string :=
  let '(index, char) := ic in
  dy ← randbelow 5; angle ← randbelow 21;
  mret (lit "<text x=`" +:+ str_of_Z (22 + index * 26) +:+ lit "` y=`" +:+ str_of_Z (29 + dy)
    +:+ lit "` font-size=`24` font-family=`Arial, sans-serif` font-weight=`700` fill=`#0f172a` transform=`rotate("
    +:+ str_of_Z (angle - 10) +:+ " " +:+ str_of_Z (22 + index * 26) +:+ lit " 25)`>"
    +:+ html_escape (of_chars [char]) +:+ "</text>").

Definition enumerate (l : list ascii) : list (Z * ascii) := imap (λ i c, (Z.of_nat i, c)) l.

Definition collect {A B} (f : A → io W B) (l : list A) : io W (list B) :=
  foreach l [] (λ acc x, b ← f x; mret (acc ++ [b])).

Definition newline : string := String (ascii_of_nat 10) "".

Definition _captcha_svg_base64 (value : string) : io W string :=
  let escaped := html_escape value in
  noise ← collect svg_line (seq 0 6);
  text_nodes ← collect svg_text (enumerate (str_chars escaped));
  let svg :=
    lit "<svg xmlns=`http://www.w3.org/2000/svg` width=`140` height=`44` viewBox=`0 0 140 44`>"
    +:+ lit "<rect width=`140` height=`44` rx=`6` fill=`#f8fafc`/>"
    +:+ join newline noise +:+ join newline text_nodes +:+ "</svg>" in
  mret (b64_text (str_bytes svg)).

(** ** The PNG image *)
Definition BACKGROUND : Color := (248, 250, 252).
Definition NOISE : Color := (148, 163, 184).
Definition INK : Color := (15, 23, 42).

Definition blank (width height : Z) : byte_list :=
  concat (replicate (Z.to_nat (width * height)) (color_bytes BACKGROUND)).

Definition noise_line (width height : Z) (pixels : byte_list) (_ : nat) : io W byte_list :=
  x1 ← randbelow width; y1 ← randbelow height; x2 ← randbelow width; y2 ← randbelow height;
  mret (draw_line pixels width height x1 y1 x2 y2 NOISE).

Definition place_glyph (width height : Z) (pixels : byte_list) (ic : Z * ascii) : io W byte_list :=
  let '(index, char) := ic in
  dx ← randbelow 3; dy ← randbelow 4;
  mret (_draw_glyph pixels width height char (18 + index * 28 + dx) (8 + dy) 4 INK).

Definition captcha_pixels (value : string) : io W byte_list :=
  let width := 140 in let height := 44 in
  pixels ← foreach (seq 0 6) (blank width height) (noise_line width height);
  foreach (enumerate (str_chars value)) pixels (place_glyph width height).

Definition _captcha_png_base64 (value : string) : io W string :=
  pixels ← captcha_pixels value;
  png ← lift (png_bytes 140 44 pixels);
  mret (b64_text png).

(** ** Captchas *)
Definition choice (s : string) : io W ascii :=
  i ← randbelow (Z.of_nat (String.length s));
  mret (default " "%char (str_chars s !! Z.to_nat i)).

Definition create_captcha (captcha_ttl_seconds : Z) (image_format : string) : io W CaptchaResponse :=
  chars ← collect (λ _, choice CAPTCHA_ALPHABET) (seq 0 4);
  let value := of_chars chars in
  captcha_id ← uuid4_hex;
  _ ← _required_redis "Redis is required for captcha";
  hashed ← hash_password (py_lower value);
  _ ← tr_setex (captcha_key captcha_id) captcha_ttl_seconds hashed;
  if String.eqb image_format "png" then
    image ← _captcha_png_base64 value;
    mret (mkCaptchaResponse captcha_id image "image/png")
  else
    image ← _captcha_svg_base64 value;
    mret (mkCaptchaResponse captcha_id image "image/svg+xml").

(** [raw.decode("utf-8") if isinstance(raw, bytes) else raw] *)
Definition raw_text (raw : option byte_list) : outcome (option string) :=
  match raw with
  | None => Ret None
  | Some bs => s ← decode_utf8 bs; mret (Some s)
  end.

Definition verify_captcha (captcha_id captcha_value : string) : io W () :=
  _ ← _required_redis "Redis is required for captcha";
  let key := captcha_key captcha_id in
  raw ← tr_get key;
  _ ← tr_delete key;
  text ← lift (raw_text raw);
  ok ← (if opt_str_truthy text
        then lift (verify_password (py_lower (str_strip captcha_value)) (default "" text))
        else mret false);
  if (ok : bool) then mret () else raise (BusinessError "Invalid or expired captcha").

(** ** Password keys *)
Definition create_password_key (password_crypto_key_ttl_seconds : Z) : io W PasswordKeyResponse :=
  key ← rsa_generate;
  pem ← lift (decode_utf8 (private_pem key));
  key_id ← uuid4_hex;
  _ ← _required_redis "Redis is required for password encryption";
  _ ← tr_setex (password_crypto_key key_id) password_crypto_key_ttl_seconds pem;
  mret (mkPasswordKeyResponse key_id (b64_text (public_der key))).

(** Every [Exception] of the body becomes the business error. *)
Definition _decrypt_password (key : Key) (encrypted_value : string) : outcome string :=
  let o := ciphertext ← b64decode encrypted_value;
           plaintext ← rsa_decrypt key ciphertext;
           decode_utf8 plaintext in
  match o with
  | Ret s => Ret s
  | Raise e => if is_exception e then Raise (BusinessError "Invalid encrypted password") else Raise e
  end.

Definition decrypt_one (key : Key) (value : option string) : outcome (option string) :=
  if opt_str_truthy value then s ← _decrypt_password key (default "" value); mret (Some s)
  else mret None.

Definition decrypt_passwords (password_key_id : string) (encrypted_values : list (option string))
    : io W (list (option string)) :=
  _ ← _required_redis "Redis is required for password encryption";
  let key := password_crypto_key password_key_id in
  raw ← tr_get key;
  text ← lift (raw_text raw);
  if negb (opt_str_truthy text) then raise (BusinessError "Invalid or expired password encryption key")
  else
    try_finally
      (private_key ← lift (load_pem (str_bytes (default "" text)));
       collect (λ v, lift (decrypt_one private_key v)) encrypted_values)
      (tr_delete key).
End transport.
