(* ===== verification/CaptchaProofs.v ===== *)
(** * CaptchaProofs: the captcha image is legible, captchas and keys are used once *)
From S2P Require Import Prelude PyText PyStr Encoding Drawing Png SessionStore Captcha.
Open Scope Z_scope.

(** The documented behaviour of Redis, the random source, bcrypt and RSA.
    [tl_store] is the key space; a time to live runs out between operations. *)
Class TransportLaws (W Key : Type) `{TransportApi W Key} := {
  tl_store : W → gmap string byte_list;
  law_setex k ttl v w : 0 < ttl → ∃ w', tr_setex k ttl v w = (Ret (), w') ∧ tr_ready w' = tr_ready w ∧
    tl_store w' = <[k := str_bytes v]> (tl_store w);
  law_get k w : tr_get k w = (Ret (tl_store w !! k), w);
  law_delete k w : ∃ w', tr_delete k w = (Ret (), w') ∧ tr_ready w' = tr_ready w ∧
    tl_store w' = delete k (tl_store w);
  law_randbelow n w : 0 < n → ∃ v w', randbelow n w = (Ret v, w') ∧ tr_ready w' = tr_ready w ∧
    tl_store w' = tl_store w ∧ 0 ≤ v < n;
  law_uuid w : ∃ v w', uuid4_hex w = (Ret v, w') ∧ tr_ready w' = tr_ready w ∧ tl_store w' = tl_store w;
  (** bcrypt takes up to 72 bytes other than NUL. *)
  law_bcrypt p w : (length p ≤ 72)%nat → Forall (λ b, b ≠ 0) p →
    ∃ h w', bcrypt_hashpw p w = (Ret h, w') ∧ tr_ready w' = tr_ready w ∧ tl_store w' = tl_store w ∧
      h ≠ [] ∧ utf8_encode (utf8_decode h) = h ∧ Forall is_byte h ∧ bcrypt_checkpw p h = Ret true;
  law_lower s : is_ascii s = true → py_lower s = lower s;
  law_rsa w : ∃ k w', rsa_generate w = (Ret k, w') ∧ tr_ready w' = tr_ready w ∧ tl_store w' = tl_store w ∧
    private_pem k ≠ [] ∧ utf8_encode (utf8_decode (private_pem k)) = private_pem k ∧
    Forall is_byte (private_pem k) ∧ load_pem (private_pem k) = Ret k ∧ Forall is_byte (public_der k) }.

Section quiet.
Context `{TransportLaws W Key}.

Definition same (w w' : W) : Prop := tr_ready w' = tr_ready w ∧ tl_store w' = tl_store w.

#[global] Instance same_preorder : PreOrder same.
Proof. split; [by intros w|]. intros w1 w2 w3 [H1 H2] [H3 H4]. split; congruence. Qed.

(** Code that always returns, leaves Redis alone, and gives a result in [Q]. *)
Definition quiet {A} (m : io W A) (Q : A → Prop) : Prop :=
  ∀ w, ∃ a w', m w = (Ret a, w') ∧ same w w' ∧ Q a.

Lemma quiet_ret {A} (a : A) (Q : A → Prop) : Q a → quiet (mret a) Q.
Proof. intros Ha w. by exists a, w. Qed.

Lemma quiet_lift {A} (o : outcome A) a (Q : A → Prop) : o = Ret a → Q a → quiet (lift o) Q.
Proof. intros -> Ha w. by exists a, w. Qed.

Lemma quiet_bind {A B} (m : io W A) (f : A → io W B) P Q :
  quiet m P → (∀ a, P a → quiet (f a) Q) → quiet (m ≫= f) Q.
Proof.
  intros Hm Hf w. destruct (Hm w) as (a & w1 & Hr & Hs & Ha). destruct (Hf a Ha w1) as (b & w2 & Hr2 & Hs2 & Hb).
  exists b, w2. split; [by rewrite (run_ret _ _ _ _ _ Hr)|]. split; [by etransitivity|done].
Qed.

Lemma quiet_mono {A} (m : io W A) (P Q : A → Prop) : quiet m P → (∀ a, P a → Q a) → quiet m Q.
Proof. intros Hm HPQ w. destruct (Hm w) as (a & w' & Hr & Hs & Ha). exists a, w'. auto. Qed.

Lemma quiet_randbelow n : 0 < n → quiet (randbelow n) (λ v, 0 ≤ v < n).
Proof. intros Hn w. destruct (law_randbelow n w Hn) as (v & w' & Hr & H1 & H2 & H3). by exists v, w'. Qed.

Lemma quiet_uuid : quiet uuid4_hex (λ _, True).
Proof. intros w. destruct (law_uuid w) as (v & w' & Hr & H1 & H2). by exists v, w'. Qed.

(** The loop rule, with the elements done so far. *)
Lemma quiet_foreach {A B} (P : list A → B → Prop) (l pre : list A) (acc : B) body :
  P pre acc → (∀ d x post acc, pre ++ l = d ++ x :: post → P d acc → quiet (body acc x) (P (d ++ [x]))) →
  quiet (foreach l acc body) (P (pre ++ l)).
Proof.
  revert pre acc. induction l as [|x l IH]; intros pre acc Hstart Hb.
  - rewrite app_nil_r. by apply quiet_ret.
  - simpl. eapply quiet_bind; [by eapply Hb|]. intros acc' Hacc'.
    assert (pre ++ x :: l = (pre ++ [x]) ++ l) as Heq by by rewrite <-app_assoc.
    rewrite Heq. apply IH; [done|]. intros d y post acc2 Hd. apply (Hb d y post). by rewrite Heq.
Qed.

Lemma quiet_collect {A B} (f : A → io W B) (Q : B → Prop) (l : list A) :
  (∀ x, quiet (f x) Q) → quiet (collect f l) (λ bs, length bs = length l ∧ Forall Q bs).
Proof.
  intros Hf. unfold collect. apply (quiet_foreach (λ d bs, length bs = length d ∧ Forall Q bs) l [] []); [done|].
  intros d x post acc _ [Hl Hall]. eapply quiet_bind; [apply Hf|]. intros b Hb. apply quiet_ret.
  rewrite !length_app, Hl. split; [done|]. apply Forall_app. split; [done|by repeat constructor].
Qed.

(** *** The image *)
Lemma blank_ok width height : 0 ≤ width → 0 ≤ height → buffer_ok width height (blank width height).
Proof.
  intros Hw Hh. unfold blank. split.
  - replace (3 * width * height) with (3 * Z.of_nat (Z.to_nat (width * height))) by lia.
    induction (Z.to_nat (width * height)) as [|n IH]; [done|]. cbn [replicate concat]. rewrite length_app, color_length. lia.
  - induction (Z.to_nat (width * height)) as [|n IH]; [constructor|]. cbn [replicate concat].
    apply Forall_app. split; [|done]. repeat constructor; lia.
Qed.

(** *** Drawing the noise and the glyphs *)
Lemma bytes_ok : color_ok BACKGROUND ∧ color_ok NOISE ∧ color_ok INK.
Proof. split_and!; repeat constructor; lia. Qed.

Definition not_ink (px : byte_list) : Prop :=
  ∀ q, in_image 140 44 q → pixel_at px 140 q.1 q.2 ≠ color_bytes INK.

Lemma blank_not_ink : not_ink (blank 140 44).
Proof.
  intros [x y] [Hx Hy]. simpl in *. unfold pixel_at, blank.
  assert (∀ n k : nat, (k < n)%nat →
    take 3 (drop (k * 3) (concat (replicate n (color_bytes BACKGROUND)))) = color_bytes BACKGROUND) as Hb.
  { intros n. induction n as [|n IH]; intros [|k] Hk; [lia|lia|done|]. cbn [replicate concat].
    change (S k * 3)%nat with (3 + k * 3)%nat. rewrite <-drop_drop. rewrite drop_app_length' by done. apply IH. lia. }
  replace (Z.to_nat ((y * 140 + x) * 3)) with (Z.to_nat (y * 140 + x) * 3)%nat by lia.
  rewrite Hb; [done|lia].
Qed.

Lemma noise_spec :
  quiet (foreach (seq 0 6) (blank 140 44) (noise_line 140 44)) (λ px, buffer_ok 140 44 px ∧ not_ink px).
Proof.
  destruct bytes_ok as (Hbg & Hn & Hi).
  apply (quiet_foreach (λ _ px, buffer_ok 140 44 px ∧ not_ink px) (seq 0 6) []).
  - split; [by apply blank_ok|apply blank_not_ink].
  - intros d x post px _ [Hok Hpx]. unfold noise_line. do 4 (eapply quiet_bind; [by apply quiet_randbelow|intros ? _]).
    apply quiet_ret. destruct (draw_line_points px 140 44 a a0 a1 a2 NOISE) as [ps ->].
    split; [by apply set_points_ok|]. intros q Hq. rewrite pixel_set_points by done.
    case_decide; [done|by apply Hpx].
Qed.

(** Where the glyphs of [value] stand, and the ink they leave. *)
Definition glyph_at (value : list ascii) (pos : list (Z * Z)) (q : Z * Z) : Prop :=
  ∃ i c g p, value !! i = Some c ∧ CAPTCHA_GLYPHS c = Some g ∧ pos !! i = Some p ∧ q ∈ glyph_points g p.1 p.2 4.

Record layout (value : list ascii) (pos : list (Z * Z)) : Prop := {
  ly_length : length pos = length value;
  ly_x : ∀ i p, pos !! i = Some p → 18 + 28 * Z.of_nat i ≤ p.1 ≤ 20 + 28 * Z.of_nat i;
  ly_y : ∀ i p, pos !! i = Some p → 8 ≤ p.2 ≤ 11 }.

Definition legible (value : list ascii) (pos : list (Z * Z)) (px : byte_list) : Prop :=
  ∀ q, in_image 140 44 q → (pixel_at px 140 q.1 q.2 = color_bytes INK ↔ glyph_at value pos q).

Lemma draw_glyph_legible value pos px c p :
  length pos = length value → buffer_ok 140 44 px → legible value pos px →
  buffer_ok 140 44 (_draw_glyph px 140 44 c p.1 p.2 4 INK) ∧
  legible (value ++ [c]) (pos ++ [p]) (_draw_glyph px 140 44 c p.1 p.2 4 INK).
Proof.
  intros Hlen Hok Hleg. destruct bytes_ok as (_ & _ & Hi).
  assert (∀ q, glyph_at (value ++ [c]) (pos ++ [p]) q ↔
    glyph_at value pos q ∨ ∃ g, CAPTCHA_GLYPHS c = Some g ∧ q ∈ glyph_points g p.1 p.2 4) as Hsnoc.
  { intros q. split.
    - intros (i & c' & g & p' & Hc & Hg & Hp & Hq). destruct (decide (i < length value)%nat) as [Hlt|Hge].
      + rewrite lookup_app_l in Hc by lia. rewrite lookup_app_l in Hp by lia. left. by exists i, c', g, p'.
      + assert (i = length value) as -> by (apply lookup_lt_Some in Hc; rewrite length_app in Hc; simpl in Hc; lia).
        rewrite lookup_app_r, Nat.sub_diag in Hc by lia. rewrite lookup_app_r, Hlen, Nat.sub_diag in Hp by lia.
        simpl in Hc, Hp. right. exists g. naive_solver.
    - intros [(i & c' & g & p' & Hc & Hg & Hp & Hq)|(g & Hg & Hq)].
      + exists i, c', g, p'. split_and!; try done; by apply lookup_app_l_Some.
      + exists (length value), c, g, p. split_and!; try done; rewrite lookup_app_r by lia; by rewrite ?Hlen, Nat.sub_diag. }
  unfold _draw_glyph. destruct (CAPTCHA_GLYPHS c) as [g|] eqn:Hg.
  - rewrite decide_False by (intros ->; by apply glyph_shape in Hg as [? _]).
    split; [by apply set_points_ok|]. intros q Hq. rewrite pixel_set_points, Hsnoc by done.
    case_decide; [split; [eauto|done]|]. rewrite (Hleg q Hq). naive_solver.
  - split; [done|]. intros q Hq. rewrite Hsnoc, (Hleg q Hq). naive_solver.
Qed.

Lemma captcha_pixels_spec value :
  quiet (captcha_pixels value) (λ px, buffer_ok 140 44 px ∧ ∃ pos, layout (str_chars value) pos ∧ legible (str_chars value) pos px).
Proof.
  unfold captcha_pixels. eapply quiet_bind; [apply noise_spec|]. intros px0 [Hok0 Hni].
  eapply quiet_mono; [apply (quiet_foreach (λ d px, buffer_ok 140 44 px ∧
      ∃ pos, layout (map snd d) pos ∧ legible (map snd d) pos px) (enumerate (str_chars value)) [])|].
  - split; [done|]. exists []. split; [by split|]. intros q Hq. split; [intros Hink; by destruct (Hni q Hq)|].
    by intros (i & c & g & p & Hc & _).
  - intros d [i c] post px Hd [Hok (pos & [Hl Hx Hy] & Hleg)]. unfold place_glyph.
    eapply quiet_bind; [by apply quiet_randbelow|]. intros dx Hdx.
    eapply quiet_bind; [by apply quiet_randbelow|]. intros dy Hdy. apply quiet_ret.
    assert (i = Z.of_nat (length d)) as ->.
    { assert (enumerate (str_chars value) !! length d = Some (i, c)) as Hlk by (simpl in Hd; by rewrite Hd, list_lookup_middle).
      unfold enumerate in Hlk. apply list_lookup_imap_Some in Hlk as (c' & _ & Heq). congruence. }
    rewrite length_map in Hl. set (p := (18 + Z.of_nat (length d) * 28 + dx, 8 + dy)).
    destruct (draw_glyph_legible (map snd d) pos px c p) as [Hok' Hleg']; [by rewrite length_map|done|done|].
    split; [done|]. exists (pos ++ [p]). rewrite map_app. simpl map. split; [|done].
    split; [rewrite !length_app, length_map; simpl; lia|..];
      intros j p' [Hj|[Hj Hp']]%lookup_app_Some; eauto;
      apply list_lookup_singleton_Some in Hp' as [Hj0 <-]; unfold p; simpl in *; lia.
  - intros px [Hok (pos & Hly & Hleg)]. split; [done|]. exists pos.
    assert (map snd ([] ++ enumerate (str_chars value)) = str_chars value) as Heq; [|by rewrite Heq in *].
    unfold enumerate. simpl. apply list_eq. intros i. change (map snd ?l) with (snd <$> l).
    rewrite list_lookup_fmap, list_lookup_imap. by destruct (str_chars value !! i).
Qed.

Lemma captcha_png_spec `{!Zlib, !ZlibLaws} value :
  quiet (_captcha_png_base64 value) (λ text, ∃ png px pos,
    b64decode text = Ret png ∧ read_png png = Some (140, 44, px) ∧ buffer_ok 140 44 px ∧
    layout (str_chars value) pos ∧ legible (str_chars value) pos px).
Proof.
  unfold _captcha_png_base64. eapply quiet_bind; [apply captcha_pixels_spec|].
  intros px [Hok (pos & Hly & Hleg)].
  destruct (read_png_bytes 140 44 px) as (png & Hpng & Hb & Hread); [lia..|done|].
  eapply quiet_bind; [apply (quiet_lift _ png (λ x, x = png) Hpng eq_refl)|]. intros ? ->.
  apply quiet_ret. exists png, px, pos. 
  split; [by apply b64decode_encode|]. split; [exact Hread|]. by split_and!.
Qed.

(** *** The SVG image and the value *)
Lemma captcha_svg_spec value : quiet (_captcha_svg_base64 value) (λ _, True).
Proof.
  unfold _captcha_svg_base64. eapply quiet_bind.
  { apply (quiet_collect svg_line (λ _, True)). intros x. unfold svg_line.
    do 4 (eapply quiet_bind; [by apply quiet_randbelow|intros ? _]). by apply quiet_ret. }
  intros noise _. eapply quiet_bind; [|intros; by apply quiet_ret].
  apply (quiet_collect svg_text (λ _, True)). intros [i c]. unfold svg_text.
  do 2 (eapply quiet_bind; [by apply quiet_randbelow|intros ? _]). by apply quiet_ret.
Qed.

Definition in_alphabet (c : ascii) : Prop := c ∈ str_chars CAPTCHA_ALPHABET.

Lemma choice_spec : quiet (choice CAPTCHA_ALPHABET) in_alphabet.
Proof.
  unfold choice. eapply quiet_bind; [by apply quiet_randbelow|]. intros i Hi. apply quiet_ret.
  destruct (str_chars CAPTCHA_ALPHABET !! Z.to_nat i) as [c|] eqn:Hc; [by eapply list_elem_of_lookup_2|].
  apply lookup_ge_None in Hc. rewrite length_str_chars in Hc. simpl in Hi, Hc. lia.
Qed.

(** What the alphabet guarantees of a value. *)
Lemma alphabet_chars :
  Forall (λ c, (N_of_ascii c <? 128)%N = true ∧ Z.of_N (N_of_ascii (if is_upper c then ascii_of_N (N_of_ascii c + 32) else c)) ≠ 0
             ∧ CAPTCHA_GLYPHS c ≠ None) (str_chars CAPTCHA_ALPHABET).
Proof. decide_eval. Qed.

Lemma value_ok chars :
  Forall in_alphabet chars →
  is_ascii (of_chars chars) = true ∧ Forall (λ b, b ≠ 0) (str_bytes (lower (of_chars chars))) ∧
  length (str_bytes (lower (of_chars chars))) = length chars ∧ Forall (λ c, CAPTCHA_GLYPHS c ≠ None) chars.
Proof.
  intros Hall. pose proof alphabet_chars as Ha. rewrite Forall_forall in Ha. unfold is_ascii, lower, str_bytes.
  induction Hall as [|c chars Hc _ (IH1 & IH2 & IH3 & IH4)]; [done|].
  destruct (Ha c Hc) as (H1' & H2' & H3'). change (of_chars (c :: chars)) with (String c (of_chars chars)).
  cbn [str_map str_chars String.list_ascii_of_string forallb map length]. rewrite H1'. split_and!; auto.
Qed.

Lemma bytes_str_str h : Forall is_byte h → str_bytes (bytes_str h) = h.
Proof.
  intros Hh. unfold str_bytes, bytes_str. rewrite str_of_chars, map_map.
  induction Hh as [|b h Hb _ IH]; [done|]. simpl. unfold is_byte in Hb.
  rewrite IH, N_ascii_embedding, Z2N.id by lia. done.
Qed.

Lemma decode_utf8_ok h : utf8_encode (utf8_decode h) = h → decode_utf8 h = Ret (bytes_str h).
Proof. intros Hh. unfold decode_utf8. by rewrite decide_True. Qed.

Lemma bytes_str_nonempty h : h ≠ [] → str_truthy (bytes_str h) = true.
Proof. by destruct h. Qed.

Lemma hash_password_spec p :
  (length (str_bytes p) ≤ 72)%nat → Forall (λ b, b ≠ 0) (str_bytes p) →
  quiet (hash_password p) (λ h, str_truthy h = true ∧ verify_password p h = Ret true ∧ decode_utf8 (str_bytes h) = Ret h).
Proof.
  intros Hl Hn w. destruct (law_bcrypt (str_bytes p) w Hl Hn) as (h & w' & Hr & Hs1 & Hs2 & Hne & Hu & Hb & Hc).
  exists (bytes_str h), w'. split_and!; [|done|by apply bytes_str_nonempty|..].
  - unfold hash_password. rewrite (run_ret _ _ _ _ _ Hr). unfold lift. by rewrite decode_utf8_ok.
  - unfold verify_password. by rewrite bytes_str_str, Hc.
  - by rewrite bytes_str_str, decode_utf8_ok.
Qed.

Lemma required_redis_ready msg w : tr_ready w = true → _required_redis msg w = (Ret (), w).
Proof. intros Hw. unfold _required_redis, mbind, io_bind, get. by rewrite Hw. Qed.

(** One attempt, whatever its outcome, removes the captcha. *)
Lemma verify_captcha_run id v w :
  tr_ready w = true →
  let key := captcha_key id in
  ∃ w', tr_ready w' = true ∧ tl_store w' = delete key (tl_store w) ∧
    verify_captcha id v w =
      (match raw_text (tl_store w !! key) with
       | Ret text =>
           match (if opt_str_truthy text then verify_password (py_lower (str_strip v)) (default "" text) else Ret false) with
           | Ret true => Ret ()
           | Ret false => Raise (BusinessError "Invalid or expired captcha")
           | Raise e => Raise e
           end
       | Raise e => Raise e
       end, w').
Proof.
  intros Hw key. destruct (law_delete key w) as (w' & Hd & Hr & Hs). exists w'. split_and!; [congruence|done|].
  unfold verify_captcha. rewrite (run_ret _ _ _ _ _ (required_redis_ready _ w Hw)). fold key.
  rewrite (run_ret _ _ _ _ _ (law_get key w)), (run_ret _ _ _ _ _ Hd).
  unfold lift, mbind, io_bind. destruct (raw_text (tl_store w !! key)) as [text|e]; [|done].
  destruct (opt_str_truthy text); [|done].
  by destruct (verify_password (py_lower (str_strip v)) (default "" text)) as [[]|].
Qed.

(** The glyphs of a captcha stand inside the image. *)
Lemma layout_in_image value pos q :
  layout value pos → (length value ≤ 4)%nat → glyph_at value pos q → in_image 140 44 q.
Proof.
  intros [Hl Hx Hy] Hlen (i & c & g & p & Hc & Hg & Hp & Hq).
  apply (glyph_in_box c) in Hq as [H1' H2']; [|lia|done]. specialize (Hx i p Hp). specialize (Hy i p Hp).
  apply lookup_lt_Some in Hc. split; lia.
Qed.

Lemma quiet_chars : quiet (collect (λ _, choice CAPTCHA_ALPHABET) (seq 0 4)) (λ l, length l = 4%nat ∧ Forall in_alphabet l).
Proof.
  eapply quiet_mono; [apply (quiet_collect (λ _ : nat, choice CAPTCHA_ALPHABET)); intros; apply choice_spec|].
  intros l [Hl Hall]. by rewrite length_seq in Hl.
Qed.
End quiet.
