(* ===== verification/CaptchaTheorems.v ===== *)
(** * CaptchaTheorems: captchas and password keys, from their creation to their
    one use *)
From S2P Require Import Prelude PyText PyStr Encoding Drawing Png SessionStore Captcha CaptchaProofs.
Open Scope Z_scope.

Section theorems.
Context `{TransportLaws W Key} `{!Zlib, !ZlibLaws}.

Lemma create_captcha_run ttl fmt w :
  tr_ready w = true → 0 < ttl →
  ∃ value hashed resp w1, create_captcha ttl fmt w = (Ret resp, w1) ∧ tr_ready w1 = true ∧
    String.length value = 4%nat ∧ Forall in_alphabet (str_chars value) ∧
    tl_store w1 = <[captcha_key (cr_captcha_id resp) := str_bytes hashed]> (tl_store w) ∧
    str_truthy hashed = true ∧ decode_utf8 (str_bytes hashed) = Ret hashed ∧
    verify_password (py_lower value) hashed = Ret true ∧
    (fmt = "png" → cr_image_type resp = "image/png" ∧
       ∃ wi, ∃ wi', _captcha_png_base64 value wi = (Ret (cr_image_base64 resp), wi')).
Proof.
  intros Hw Httl. destruct (quiet_chars w) as (chars & w1 & Hr1 & Hs1 & Hlen & Hall).
  destruct (value_ok chars Hall) as (Hascii & Hnz & Hbl & _). set (value := of_chars chars) in *.
  destruct (quiet_uuid w1) as (id & w2 & Hr2 & Hs2 & _).
  assert (same w w2) as [Hready Hstore] by (by etransitivity).
  assert (tr_ready w2 = true) as Hw2 by congruence.
  destruct (hash_password_spec (py_lower value)) with (w := w2) as (hashed & w3 & Hr3 & [Hs3 Hs3'] & Ht & Hv & Hd);
    [rewrite law_lower by done; lia|by rewrite law_lower|].
  destruct (law_setex (captcha_key id) ttl hashed w3 Httl) as (w4 & Hr4 & Hrd4 & Hst4).
  assert (∀ resp w5,
    (if String.eqb fmt "png" then image ← _captcha_png_base64 value; mret (mkCaptchaResponse id image "image/png")
     else image ← _captcha_svg_base64 value; mret (mkCaptchaResponse id image "image/svg+xml")) w4 = (Ret resp, w5) →
    create_captcha ttl fmt w = (Ret resp, w5)) as Hrun.
  { intros resp w5 Himg. unfold create_captcha. rewrite (run_ret _ _ _ _ _ Hr1). fold value.
    rewrite (run_ret _ _ _ _ _ Hr2), (run_ret _ _ _ _ _ (required_redis_ready _ w2 Hw2)).
    by rewrite (run_ret _ _ _ _ _ Hr3), (run_ret _ _ _ _ _ Hr4). }
  assert (String.length value = 4%nat) as Hvl by (by rewrite <-length_str_chars; unfold value; rewrite str_of_chars).
  assert (Forall in_alphabet (str_chars value)) as Hva by (unfold value; by rewrite str_of_chars).
  destruct (String.eqb_spec fmt "png") as [->|Hfmt].
  - destruct (captcha_png_spec value w4) as (image & w5 & Hr5 & [H5 H5'] & _).
    exists value, hashed, (mkCaptchaResponse id image "image/png"), w5. split_and!; try done.
    + apply Hrun. by rewrite (run_ret _ _ _ _ _ Hr5).
    + congruence.
    + simpl. congruence.
    + intros _. split; [done|]. by exists w4, w5.
  - destruct (captcha_svg_spec value w4) as (image & w5 & Hr5 & [H5 H5'] & _).
    exists value, hashed, (mkCaptchaResponse id image "image/svg+xml"), w5. split_and!; try done.
    + apply Hrun. by rewrite (run_ret _ _ _ _ _ Hr5).
    + congruence.
    + simpl. congruence.
Qed.

(** C24. A PNG captcha is what its value says: creating one succeeds, the image
    decodes from base64 and reads as a 140 by 44 RGB image with correct chunk
    lengths and checksums, its dark pixels are exactly the glyphs of the four
    characters drawn from the alphabet, every glyph stands inside the image and
    in its own column, and an answer equal to the value up to case and
    surrounding blanks is accepted. *)
Theorem captcha_png_legible ttl w :
  tr_ready w = true → 0 < ttl →
  ∃ resp w1 value png px pos,
    create_captcha ttl "png" w = (Ret resp, w1) ∧
    String.length value = 4%nat ∧ Forall (λ c, CAPTCHA_GLYPHS c ≠ None) (str_chars value) ∧
    b64decode (cr_image_base64 resp) = Ret png ∧ read_png png = Some (140, 44, px) ∧
    layout (str_chars value) pos ∧
    (∀ q, glyph_at (str_chars value) pos q → in_image 140 44 q) ∧
    (∀ q, in_image 140 44 q → (pixel_at px 140 q.1 q.2 = color_bytes INK ↔ glyph_at (str_chars value) pos q)) ∧
    ∀ answer, py_lower (str_strip answer) = py_lower value →
      ∃ w2, verify_captcha (cr_captcha_id resp) answer w1 = (Ret (), w2).
Proof.
  intros Hw Httl. destruct (create_captcha_run ttl "png" w Hw Httl)
    as (value & hashed & resp & w1 & Hrun & Hw1 & Hlen & Hall & Hst & Ht & Hd & Hv & Hpng).
  destruct (Hpng eq_refl) as (_ & wi & wi' & Himg).
  destruct (captcha_png_spec value wi) as (image & wi2 & Himg2 & _ & png & px & pos & Hb & Hread & Hok & Hly & Hleg).
  assert (image = cr_image_base64 resp) as -> by congruence.
  assert (length (str_chars value) ≤ 4)%nat as Hl4 by (rewrite length_str_chars; lia).
  pose proof (value_ok (str_chars value) Hall) as (_ & _ & _ & Hg).
  exists resp, w1, value, png, px, pos. split; [done|]. split; [done|]. split; [done|]. split; [done|].
  split; [exact Hread|]. split; [done|]. split; [intros q; by apply layout_in_image|]. split; [done|].
  intros answer Hans. destruct (verify_captcha_run (cr_captcha_id resp) answer w1 Hw1) as (w2 & _ & _ & Hrun2).
  exists w2. rewrite Hrun2, Hst, lookup_insert_eq. unfold raw_text. rewrite Hd. simpl. by rewrite Ht, Hans, Hv.
Qed.

(** C25. A captcha is good for one attempt: after [verify_captcha], accepted,
    refused or failed, its hash is no longer stored, and every further attempt
    with that captcha is refused. *)
Theorem captcha_single_use id v w :
  tr_ready w = true →
  ∃ o w1, verify_captcha id v w = (o, w1) ∧ tl_store w1 = delete (captcha_key id) (tl_store w) ∧
    ∀ v', ∃ w2, verify_captcha id v' w1 = (Raise (BusinessError "Invalid or expired captcha"), w2).
Proof.
  intros Hw. destruct (verify_captcha_run id v w Hw) as (w1 & Hw1 & Hst & Hrun).
  eexists _, w1. split; [exact Hrun|]. split; [done|]. intros v'.
  destruct (verify_captcha_run id v' w1 Hw1) as (w2 & _ & _ & Hrun2). exists w2.
  rewrite Hrun2, Hst, lookup_delete_eq. done.
Qed.

(** ** Password keys *)
Lemma collect_lift {A B} (f : A → outcome B) (l : list A) (w : W) :
  collect (λ x, lift (f x)) l w = (mapM f l, w).
Proof.
  unfold collect. enough (∀ acc, foreach l acc (λ acc x, b ← lift (f x); mret (acc ++ [b])) w =
    (bs ← mapM f l; mret (acc ++ bs), w)) as Hgen.
  { rewrite Hgen. by destruct (mapM f l). }
  induction l as [|x l IH]; intros acc; simpl; [by rewrite app_nil_r|].
  unfold mbind, io_bind, lift at 1. destruct (f x) as [b|e]; [|done]. simpl. fold (@mbind (io W) _).
  rewrite IH. unfold mbind, outcome_bind. destruct (mapM f l) as [bs|e]; [|done]. simpl.
  by rewrite <-app_assoc.
Qed.

(** What a key does to the ciphertexts, in order; the first that cannot be
    decrypted fails the call. *)
Definition decrypt_all (raw : string) (values : list (option string)) : outcome (list (option string)) :=
  k ← load_pem (Key:=Key) (W:=W) (str_bytes raw); mapM (decrypt_one k) values.

Lemma decrypt_passwords_run id vs w text :
  tr_ready w = true → let key := password_crypto_key id in
  raw_text (tl_store w !! key) = Ret (Some text) → str_truthy text = true →
  ∃ w1, tr_ready w1 = true ∧ tl_store w1 = delete key (tl_store w) ∧
    decrypt_passwords id vs w = (decrypt_all text vs, w1).
Proof.
  intros Hw key Hraw Ht. destruct (law_delete key w) as (w1 & Hd & Hr & Hs). exists w1.
  split_and!; [congruence|done|]. unfold decrypt_passwords.
  rewrite (run_ret _ _ _ _ _ (required_redis_ready _ w Hw)). fold key.
  rewrite (run_ret _ _ _ _ _ (law_get key w)). unfold lift at 1, mbind at 1, io_bind at 1. rewrite Hraw.
  simpl. rewrite Ht. simpl. unfold try_finally, decrypt_all, lift at 1, mbind at 1, io_bind at 1.
  destruct (load_pem (str_bytes text)) as [k|e]; [|by rewrite Hd]. 
  change (λ v (w0 : W), (decrypt_one k v, w0)) with (λ v, lift (W:=W) (decrypt_one (W:=W) k v)). rewrite collect_lift, Hd.
  rewrite (bind_outcome (Ret k) k) by done. by destruct (mapM (decrypt_one k) vs).
Qed.

Lemma decrypt_passwords_refused id vs w :
  tr_ready w = true → (∀ text, raw_text (tl_store w !! password_crypto_key id) = Ret (Some text) → text = "") →
  ∃ e, decrypt_passwords id vs w = (Raise e, w).
Proof.
  intros Hw Hno. unfold decrypt_passwords. rewrite (run_ret _ _ _ _ _ (required_redis_ready _ w Hw)).
  rewrite (run_ret _ _ _ _ _ (law_get _ w)). unfold lift at 1, mbind at 1, io_bind at 1.
  destruct (raw_text (tl_store w !! password_crypto_key id)) as [[text|]|e]; [|by eexists..].
  rewrite (Hno text) by done. by eexists.
Qed.

(** A password key decrypts at most one request: whether the decryption
    returned or failed, every further call with that key id is refused, and the
    call that used the key removed the private key from Redis. *)
Theorem password_key_single_use id vs w :
  tr_ready w = true →
  ∃ o w1, decrypt_passwords id vs w = (o, w1) ∧
    (∀ l, o = Ret l → tl_store w1 = delete (password_crypto_key id) (tl_store w)) ∧
    ∀ vs', ∃ e w2, decrypt_passwords id vs' w1 = (Raise e, w2).
Proof.
  intros Hw. destruct (raw_text (tl_store w !! password_crypto_key id)) as [[text|]|e] eqn:Hraw.
  1: destruct (str_truthy text) eqn:Ht.
  - destruct (decrypt_passwords_run id vs w text Hw Hraw Ht) as (w1 & Hw1 & Hst & Hrun).
    eexists _, w1. split; [exact Hrun|]. split; [done|]. intros vs'.
    destruct (decrypt_passwords_refused id vs' w1 Hw1) as [e He]; [by rewrite Hst, lookup_delete_eq|eauto].
  - destruct (decrypt_passwords_refused id vs w Hw) as [e He].
    { intros t. rewrite Hraw. intros [= <-]. by destruct text. }
    eexists _, w. split; [exact He|]. split; [done|]. intros vs'.
    destruct (decrypt_passwords_refused id vs' w Hw) as [e' He']; [|eauto].
    intros t. rewrite Hraw. intros [= <-]. by destruct text.
  - destruct (decrypt_passwords_refused id vs w Hw) as [e He]; [by rewrite Hraw|].
    eexists _, w. split; [exact He|]. split; [done|]. intros vs'.
    destruct (decrypt_passwords_refused id vs' w Hw) as [e' He']; [by rewrite Hraw|eauto].
  - destruct (decrypt_passwords_refused id vs w Hw) as [e0 He]; [by rewrite Hraw|].
    eexists _, w. split; [exact He|]. split; [done|]. intros vs'.
    destruct (decrypt_passwords_refused id vs' w Hw) as [e' He']; [by rewrite Hraw|eauto].
Qed.

(** An argument of [decrypt_passwords] and what it stands for. *)
Definition sealed (k : Key) (v s : option string) : Prop :=
  match v with
  | Some t => if str_truthy t then ∃ c p, b64decode t = Ret c ∧ rsa_decrypt (W:=W) k c = Ret (str_bytes p) ∧ utf8_ok p ∧ s = Some p
              else s = None
  | None => s = None
  end.

Lemma sealed_decrypt k v s : sealed k v s → decrypt_one (W:=W) k v = Ret s.
Proof.
  unfold sealed, decrypt_one. destruct v as [t|]; [|by intros ->]. simpl. destruct (str_truthy t); [|by intros ->].
  intros (c & p & Hc & Hp & Hu & ->). unfold _decrypt_password. rewrite Hc. simpl. rewrite Hp. simpl.
  by rewrite decode_str_bytes.
Qed.

(** Creating a password key hands out the public half of the key that is
    stored, and one request encrypted with it is decrypted: every ciphertext
    gives its password, in order, and a missing one stays missing. *)
Theorem password_key_roundtrip ttl w :
  tr_ready w = true → 0 < ttl →
  ∃ resp k w1, create_password_key ttl w = (Ret resp, w1) ∧ b64decode (pk_public_key resp) = Ret (public_der (W:=W) k) ∧
    ∀ vs ss, Forall2 (sealed k) vs ss → ∃ w2, decrypt_passwords (pk_key_id resp) vs w1 = (Ret ss, w2).
Proof.
  intros Hw Httl. destruct (law_rsa w) as (k & w1 & Hr1 & Hrd1 & Hst1 & Hne & Hu & Hb & Hload & Hpub).
  destruct (quiet_uuid w1) as (id & w2 & Hr2 & [Hrd2 Hst2] & _).
  assert (tr_ready w2 = true) as Hw2 by congruence.
  destruct (law_setex (password_crypto_key id) ttl (bytes_str (private_pem k)) w2 Httl) as (w3 & Hr3 & Hrd3 & Hst3).
  exists (mkPasswordKeyResponse id (b64_text (public_der k))), k, w3. split_and!.
  - unfold create_password_key. rewrite (run_ret _ _ _ _ _ Hr1). rewrite decode_utf8_ok by done.
    rewrite (run_ret (lift (Ret (bytes_str (private_pem k)))) _ w1 _ w1 eq_refl), (run_ret _ _ _ _ _ Hr2).
    by rewrite (run_ret _ _ _ _ _ (required_redis_ready _ w2 Hw2)), (run_ret _ _ _ _ _ Hr3).
  - by apply b64decode_encode.
  - intros vs ss Hall. rewrite bytes_str_str in Hst3 by done.
    destruct (decrypt_passwords_run id vs w3 (bytes_str (private_pem k))) as (w4 & _ & _ & Hrun).
    + congruence.
    + by rewrite Hst3, lookup_insert_eq; simpl; rewrite decode_utf8_ok.
    + by apply bytes_str_nonempty.
    + exists w4. simpl. rewrite Hrun. unfold decrypt_all. rewrite bytes_str_str, Hload by done. simpl. f_equal.
      clear Hrun. induction Hall as [|v s vs ss Hv _ IH]; [done|]. simpl. rewrite (sealed_decrypt k v s Hv). simpl.
      by rewrite IH.
Qed.
End theorems.

(** ** An implementation with the documented behaviour, and the theorems on a concrete
    run *)
Module MemTransport.
Record world := mkWorld { w_store : gmap string byte_list; w_seed : Z }.

(** Codes standing for bcrypt and RSA: the text itself after a dollar sign, and
    one key that seals nothing. *)
Definition hash (p : byte_list) : byte_list := 36 :: str_bytes (b64_text p).
Definition the_pem : byte_list := [75; 69; 89].
Definition draw (n : Z) : io world Z :=
  λ w, (Ret (w_seed w `mod` n), mkWorld (w_store w) (w_seed w * 5 + 3)).

#[global] Instance mem_transport : TransportApi world () := {
  tr_ready := λ _, true;
  tr_setex := λ k _ v, modify (λ w, mkWorld (<[k := str_bytes v]> (w_store w)) (w_seed w));
  tr_get := λ k, gets (λ w, w_store w !! k);
  tr_delete := λ k, modify (λ w, mkWorld (delete k (w_store w)) (w_seed w));
  randbelow := draw;
  uuid4_hex := λ w, (Ret ("id" +:+ str_of_Z (w_seed w)), mkWorld (w_store w) (w_seed w + 1));
  bcrypt_hashpw := λ p, mret (hash p);
  bcrypt_checkpw := λ p h, Ret (bool_decide (hash p = h));
  py_lower := lower;
  rsa_generate := mret ();
  private_pem := λ _, the_pem;
  public_der := λ _, [48; 130];
  load_pem := λ bs, if decide (bs = the_pem) then Ret () else Raise (ValueError "no key");
  rsa_decrypt := λ _ c, Ret c }.

#[global] Instance id_zlib : Zlib := { zlib_compress := λ bs, bs; zlib_decompress := Some }.
#[global, refine] Instance id_zlib_laws : ZlibLaws := {}.
Proof.
  - done.
  - done.
  - intros bs n. unfold n. simpl. Z.div_mod_to_equations. lia.
Qed.

Lemma ascii_utf8 bs : Forall (λ b, 0 ≤ b < 128) bs → utf8_encode (utf8_decode bs) = bs.
Proof.
  induction 1 as [|b bs Hb _ IH]; [done|]. cbn [utf8_decode]. rewrite (proj2 (in_range_true 0 127 b)) by lia.
  unfold utf8_encode in *. rewrite bind_cons, IH. unfold utf8_encode_char.
  by rewrite (proj2 (Z.ltb_lt b 128)) by lia.
Qed.

Lemma b64_text_ascii p : Forall (λ b, 0 ≤ b < 128) (str_bytes (b64_text p)).
Proof.
  unfold str_bytes, b64_text. rewrite str_of_chars. pose proof (b64encode_ascii p) as Ha.
  induction Ha as [|c l Hc _ IH]; constructor; [|done].
  apply N.ltb_lt in Hc. lia.
Qed.

#[global, refine] Instance mem_laws : TransportLaws world () := { tl_store := w_store }.
Proof.
  - intros k ttl v w _. by eexists.
  - done.
  - intros k w. by eexists.
  - intros n w Hn. eexists _, _. split; [reflexivity|]. split_and!; [done|done|..]; apply Z.mod_pos_bound; lia.
  - intros w. by eexists _, _.
  - intros p w _ _. exists (hash p), w. split_and!; try done.
    + apply ascii_utf8. constructor; [lia|apply b64_text_ascii].
    + constructor; [unfold is_byte; lia|apply str_bytes_is_byte].
    + simpl. by rewrite bool_decide_true.
  - done.
  - intros w. exists (), w. split_and!; try done; repeat constructor; lia.
Qed.

Definition w0 : world := mkWorld ∅ 7.
End MemTransport.
Import MemTransport.

Lemma captcha_png_legible_witness :
  ∃ resp w1 png px, create_captcha 300 "png" w0 = (Ret resp, w1) ∧
    b64decode (cr_image_base64 resp) = Ret png ∧ read_png png = Some (140, 44, px).
Proof.
  assert (tr_ready w0 = true) as Hw by reflexivity. assert (0 < 300) as Httl by lia.
  destruct (captcha_png_legible 300 w0 Hw Httl) as (resp & w1 & value & png & px & pos & H1 & _ & _ & H2 & H3 & _).
  exists resp, w1, png, px. split; [exact H1|]. split; [exact H2|exact H3].
Defined.

Lemma captcha_single_use_witness :
  ∃ o w1, verify_captcha "id7" "ABCD" w0 = (o, w1) ∧
    ∀ v', ∃ w2, verify_captcha "id7" v' w1 = (Raise (BusinessError "Invalid or expired captcha"), w2).
Proof.
  assert (tr_ready w0 = true) as Hw by reflexivity.
  destruct (captcha_single_use "id7" "ABCD" w0 Hw) as (o & w1 & H1 & _ & H2). exists o, w1. split; [exact H1|exact H2].
Defined.

Lemma password_key_single_use_witness :
  ∃ o w1, decrypt_passwords "id7" [Some "AAAA"; None] w0 = (o, w1) ∧
    ∀ vs', ∃ e w2, decrypt_passwords "id7" vs' w1 = (Raise e, w2).
Proof.
  assert (tr_ready w0 = true) as Hw by reflexivity.
  destruct (password_key_single_use "id7" [Some "AAAA"; None] w0 Hw) as (o & w1 & H1 & _ & H2).
  exists o, w1. split; [exact H1|exact H2].
Defined.

(** The ciphertext [QUJD] is the text ABC. *)
Lemma password_key_roundtrip_witness :
  ∃ resp w1 w2, create_password_key 600 w0 = (Ret resp, w1) ∧
    decrypt_passwords (pk_key_id resp) [Some "QUJD"; None; Some ""] w1 = (Ret [Some "ABC"; None; None], w2).
Proof.
  assert (tr_ready w0 = true) as Hw by reflexivity. assert (0 < 600) as Httl by lia.
  destruct (password_key_roundtrip 600 w0 Hw Httl) as (resp & k & w1 & H1 & _ & H2).
  assert (Forall2 (sealed (W:=world) k) [Some "QUJD"; None; Some ""] [Some "ABC"; None; None]) as Hs.
  { constructor; [|constructor; [reflexivity|constructor; [reflexivity|constructor]]].
    exists (str_bytes "ABC"), "ABC". split_and!; vm_compute; reflexivity. }
  destruct (H2 _ _ Hs) as [w2 H3]. exists resp, w1, w2. split; [exact H1|exact H3].
Defined.

(** The run of the image itself: the value drawn, its image and the answer. *)
Example captcha_run :
  match captcha_pixels "AC" w0 with
  | (Ret px, _) => pixel_at px 140 0 0 = [248; 250; 252] ∨ pixel_at px 140 0 0 = [148; 163; 184]
  | _ => False
  end.
Proof. vm_compute. by left. Qed.
