(* ===== verification/AuditQueue.v ===== *)
(** * AuditQueue: the operation-audit queue ([src/app/platform/audit/queue.py])

    The event loop runs one piece of code between two suspension points at a
    time: [start], the first half of [stop] and [enqueue] never suspend (the lock
    is never held across a suspension), nor does the writing of one event, since
    [emit_sync] is called directly. So a state of the program is its attributes,
    its queues and its tasks, and a run is an interleaving of these pieces. A
    queue is kept by identity: a task that is started reads the attribute again
    when it first runs. *)
From S2P Require Import Prelude.
Open Scope Z_scope.

Record OperationAuditEvent := mkAuditEvent {
  ae_resource_type : string; ae_action : string; ae_method : string; ae_path : string; ae_status_code : Z;
  ae_account_id : option string; ae_account_type : option string; ae_request_id : option string;
  ae_ip : option string; ae_user_agent : option string }.

(** An [asyncio.Queue]: the items waiting and the tasks not yet marked done;
    [q_accepted] and [q_handled] record what went in and what was written. *)
Record Queue := mkQueue {
  q_items : list OperationAuditEvent; q_unfinished : nat;
  q_accepted : list OperationAuditEvent; q_handled : list OperationAuditEvent }.
Definition new_queue : Queue := mkQueue [] 0 [] [].

(** The writer task: created, in its loop on a queue, or over. *)
Inductive TaskState := Created | Running (q : nat) | Done.
#[export] Instance TaskState_eq_dec : EqDecision TaskState.
Proof. solve_decision. Defined.

Record AuditState := mkAudit {
  _queue : option nat; _worker : option nat;
  queues : gmap nat Queue; tasks : gmap nat TaskState; next_id : nat }.
Definition audit_init : AuditState := mkAudit None None ∅ ∅ 0.

Definition set_attrs (q w : option nat) (s : AuditState) : AuditState :=
  mkAudit q w (queues s) (tasks s) (next_id s).
Definition put_queue (i : nat) (q : Queue) (s : AuditState) : AuditState :=
  mkAudit (_queue s) (_worker s) (<[i := q]> (queues s)) (tasks s) (next_id s).
Definition put_task (i : nat) (t : TaskState) (s : AuditState) : AuditState :=
  mkAudit (_queue s) (_worker s) (queues s) (<[i := t]> (tasks s)) (next_id s).

Definition task_done (s : AuditState) (t : nat) : bool := bool_decide (tasks s !! t = Some Done).

Section queue.
(** [settings.audit.operation_queue_size] *)
Context (operation_queue_size : Z).

Definition start (s : AuditState) : AuditState :=
  match _worker s with
  | Some t => if task_done s t then
      mkAudit (Some (next_id s)) (Some (next_id s)) (<[next_id s := new_queue]> (queues s))
        (<[next_id s := Created]> (tasks s)) (S (next_id s))
    else s
  | None =>
      mkAudit (Some (next_id s)) (Some (next_id s)) (<[next_id s := new_queue]> (queues s))
        (<[next_id s := Created]> (tasks s)) (S (next_id s))
  end.

(** The part of [stop] before it waits: the queue and the task it will wait for
    and cancel. *)
Definition stop_begin (s : AuditState) : option (nat * nat) * AuditState :=
  (match _queue s, _worker s with Some q, Some t => Some (q, t) | _, _ => None end, set_attrs None None s).

(** [queue.join()] returns when every accepted event was marked done. *)
Definition join_ready (s : AuditState) (q : nat) : bool :=
  bool_decide ((λ k, q_unfinished k) <$> queues s !! q = Some 0%nat).

(** [worker.cancel(); await worker]: the task ends at its [queue.get()]. *)
Definition stop_end (t : nat) (s : AuditState) : AuditState := put_task t Done s.

(** [put_nowait] of a bounded queue; [None]: [QueueFull]. *)
Definition put_nowait (event : OperationAuditEvent) (q : Queue) : option Queue :=
  if (0 <? operation_queue_size) && (operation_queue_size <=? Z.of_nat (length (q_items q))) then None
  else Some (mkQueue (q_items q ++ [event]) (S (q_unfinished q)) (q_accepted q ++ [event]) (q_handled q)).

Definition enqueue (event : OperationAuditEvent) (s : AuditState) : bool * AuditState :=
  match _queue s with
  | None => (false, s)
  | Some i =>
      match put_nowait event (default new_queue (queues s !! i)) with
      | None => (false, s)
      | Some q => (true, put_queue i q s)
      end
  end.

(** One turn of the writer: its first step reads the queue attribute; later ones
    take an event, hand it to the subscribers (with the outcome [o]) and mark it
    done. Only an exception that is not an [Exception] ends the task. [None]: the
    task waits in [queue.get()] or is over. *)
Definition _run (t : nat) (o : outcome ()) (s : AuditState) : option AuditState :=
  match tasks s !! t with
  | Some Created =>
      Some (match _queue s with None => put_task t Done s | Some q => put_task t (Running q) s end)
  | Some (Running i) =>
      match queues s !! i with
      | Some q =>
          match q_items q with
          | [] => None
          | event :: rest =>
              let s := put_queue i (mkQueue rest (pred (q_unfinished q)) (q_accepted q) (q_handled q ++ [event])) s in
              Some (match o with
                    | Raise e => if is_exception e then s else put_task t Done s
                    | Ret _ => s
                    end)
          end
      | None => None
      end
  | _ => None
  end.

(** ** Interleavings *)
Inductive step : AuditState → AuditState → Prop :=
| step_start s : step s (start s)
| step_enqueue event s : step s (enqueue event s).2
| step_worker t o s s' : _run t o s = Some s' → step s s'
| step_stop s : step s (stop_begin s).2
| step_cancel t s : is_Some (tasks s !! t) → step s (stop_end t s).

Inductive reachable : AuditState → Prop :=
| reach_init : reachable audit_init
| reach_step s s' : reachable s → step s s' → reachable s'.

(** ** What every interleaving keeps *)
Record queue_ok (q : Queue) : Prop := {
  qo_fifo : q_handled q ++ q_items q = q_accepted q;
  qo_unfinished : q_unfinished q = length (q_items q);
  qo_bound : 0 < operation_queue_size → Z.of_nat (length (q_items q)) ≤ operation_queue_size }.

Record audit_ok (s : AuditState) : Prop := {
  ao_queues : map_Forall (λ _, queue_ok) (queues s);
  ao_attr : ∀ i, _queue s = Some i → is_Some (queues s !! i);
  ao_running : ∀ t i, tasks s !! t = Some (Running i) → is_Some (queues s !! i);
  ao_worker : ∀ t, _worker s = Some t → is_Some (tasks s !! t);
  ao_both : is_Some (_queue s) ↔ is_Some (_worker s) }.

Lemma new_queue_ok : queue_ok new_queue.
Proof. split; simpl; [done|done|lia]. Qed.

Lemma put_nowait_ok event q q' : queue_ok q → put_nowait event q = Some q' → queue_ok q'.
Proof.
  intros [H1 H2 H3]. unfold put_nowait.
  destruct ((0 <? operation_queue_size) && (operation_queue_size <=? Z.of_nat (length (q_items q)))) eqn:Hfull; [done|].
  intros [= <-]. split; simpl; [by rewrite app_assoc, H1|rewrite length_app; simpl; lia|].
  intros Hpos. rewrite length_app. simpl. lia.
Qed.

Lemma put_queue_ok i q s : audit_ok s → is_Some (queues s !! i) → queue_ok q → audit_ok (put_queue i q s).
Proof.
  intros [H1 H2 H3 H4 H5] Hi Hq. split; simpl; [|..]; auto.
  - by apply map_Forall_insert_2.
  - intros j Hj. rewrite lookup_insert_is_Some. destruct (decide (i = j)); eauto.
  - intros t j Hj. rewrite lookup_insert_is_Some. destruct (decide (i = j)); eauto.
Qed.

Lemma put_task_ok t st s :
  audit_ok s → (∀ i, st = Running i → is_Some (queues s !! i)) → audit_ok (put_task t st s).
Proof.
  intros [H1 H2 H3 H4 H5] Hst. split; simpl; auto.
  - intros t' i. rewrite lookup_insert_Some. intros [[_ ->]|[_ Ht]]; eauto.
  - intros t' Ht. rewrite lookup_insert_is_Some. destruct (decide (t = t')); eauto.
Qed.

Lemma start_ok s : audit_ok s → audit_ok (start s).
Proof.
  intros Hok. pose proof Hok as [H1 H2 H3 H4 H5]. unfold start.
  assert (audit_ok (mkAudit (Some (next_id s)) (Some (next_id s)) (<[next_id s := new_queue]> (queues s))
            (<[next_id s := Created]> (tasks s)) (S (next_id s)))) as Hnew.
  { split; simpl.
    - apply map_Forall_insert_2; [apply new_queue_ok|done].
    - intros i [= <-]. rewrite lookup_insert_eq. eauto.
    - intros t i. rewrite lookup_insert_Some. intros [[_ ?]|[_ Ht]]; [done|].
      rewrite lookup_insert_is_Some. destruct (decide (next_id s = i)); eauto.
    - intros t [= <-]. rewrite lookup_insert_eq. eauto.
    - split; eauto. }
  destruct (_worker s); [destruct (task_done s n)|]; done.
Qed.

Lemma step_ok s s' : audit_ok s → step s s' → audit_ok s'.
Proof.
  intros Hok Hstep. destruct Hstep as [s|event s|t o s s' Hrun|s|t s Ht].
  - by apply start_ok.
  - unfold enqueue. destruct (_queue s) as [i|] eqn:Hq; [|done].
    destruct (ao_attr s Hok i Hq) as [q Hi]. rewrite Hi. simpl.
    destruct (put_nowait event q) as [q'|] eqn:Hput; [|done].
    apply put_queue_ok; [done|eauto|]. eapply put_nowait_ok; [|done]. by apply (ao_queues s Hok i).
  - unfold _run in Hrun. destruct (tasks s !! t) as [[|i|]|] eqn:Ht; [| |done|done].
    + injection Hrun as <-. destruct (_queue s) as [q|] eqn:Hq; (apply put_task_ok; [done|]); [|done].
      intros i [= <-]. by apply (ao_attr s Hok).
    + destruct (queues s !! i) as [q|] eqn:Hi; [|done].
      destruct (q_items q) as [|event rest] eqn:Hitems; [done|]. injection Hrun as <-.
      assert (queue_ok (mkQueue rest (pred (q_unfinished q)) (q_accepted q) (q_handled q ++ [event]))) as Hq'.
      { destruct (ao_queues s Hok i q Hi) as [H1 H2 H3]. rewrite Hitems in *. simpl in *. split; simpl.
        - by rewrite <-app_assoc.
        - lia.
        - intros Hpos. specialize (H3 Hpos). lia. }
      assert (audit_ok (put_queue i (mkQueue rest (pred (q_unfinished q)) (q_accepted q) (q_handled q ++ [event])) s)) as Hs'
        by (apply put_queue_ok; eauto).
      destruct o as [[]|e]; [done|]. destruct (is_exception e); [done|]. by apply put_task_ok.
  - destruct Hok as [H1 H2 H3 H4 H5]. split; simpl; try done.
  - by apply put_task_ok.
Qed.

Lemma reachable_ok s : reachable s → audit_ok s.
Proof.
  induction 1 as [|s s' _ IH Hstep]; [|by eapply step_ok].
  by split; simpl.
Qed.

(** C22. In every interleaving of enqueuing, writing, starting and stopping, each
    queue writes the events it accepted in the order they came, each once and
    none that it did not accept, never holds more than the configured number of
    events, and its count of unfinished tasks is the number of events waiting, so
    [join] returns exactly when nothing is left. *)
Theorem audit_queue_fifo s i q :
  reachable s → queues s !! i = Some q →
  q_handled q ++ q_items q = q_accepted q ∧
  (0 < operation_queue_size → Z.of_nat (length (q_items q)) ≤ operation_queue_size) ∧
  (join_ready s i = true ↔ q_handled q = q_accepted q).
Proof.
  intros Hs Hq. destruct (ao_queues s (reachable_ok s Hs) i q Hq) as [H1 H2 H3]. split_and!; [done|done|].
  unfold join_ready. rewrite bool_decide_eq_true, Hq. simpl. rewrite H2. split.
  - intros [= Hl%length_zero_iff_nil]. by rewrite <-H1, Hl, app_nil_r.
  - intros He. rewrite <-H1 in He. f_equal. apply length_zero_iff_nil.
    by apply (app_inv_head (q_handled q)); rewrite app_nil_r.
Qed.

(** ** The writer drains its queue *)

(** As many turns of the writer as there are outcomes of the subscribers' calls. *)
Fixpoint worker_run (t : nat) (os : list (outcome ())) (s : AuditState) : option AuditState :=
  match os with
  | [] => Some s
  | o :: os => s' ← _run t o s; worker_run t os s'
  end.

(** The subscribers may raise any [Exception]. *)
Definition no_interrupt (o : outcome ()) : Prop := match o with Raise e => is_exception e = true | Ret _ => True end.

(** One turn: the oldest event is handed over and marked done, and the writer goes
    on. *)
Lemma run_turn t i o s q event rest :
  tasks s !! t = Some (Running i) → queues s !! i = Some q → q_items q = event :: rest → no_interrupt o →
  _run t o s = Some (put_queue i (mkQueue rest (pred (q_unfinished q)) (q_accepted q) (q_handled q ++ [event])) s).
Proof.
  intros Ht Hq Hitems Ho. unfold _run. rewrite Ht, Hq, Hitems. destruct o as [[]|e]; [done|]. simpl in Ho. by rewrite Ho.
Qed.

Lemma run_turns t i os : ∀ s q,
  tasks s !! t = Some (Running i) → queues s !! i = Some q → (length os ≤ length (q_items q))%nat →
  Forall no_interrupt os →
  ∃ s', worker_run t os s = Some s' ∧ tasks s' !! t = Some (Running i) ∧
    queues s' !! i = Some (mkQueue (drop (length os) (q_items q)) (q_unfinished q - length os) (q_accepted q)
                             (q_handled q ++ take (length os) (q_items q))).
Proof.
  induction os as [|o os IH]; intros s q Ht Hq Hlen Ho; simpl.
  - exists s. split_and!; [done|done|]. rewrite Hq. f_equal. destruct q. simpl. by rewrite app_nil_r, Nat.sub_0_r.
  - apply Forall_cons in Ho as [Ho Hos]. destruct (q_items q) as [|event rest] eqn:Hitems; [simpl in Hlen; lia|].
    rewrite (run_turn t i o s q event rest) by done. simpl.
    destruct (IH (put_queue i (mkQueue rest (pred (q_unfinished q)) (q_accepted q) (q_handled q ++ [event])) s)
      (mkQueue rest (pred (q_unfinished q)) (q_accepted q) (q_handled q ++ [event]))) as (s' & Hrun & Ht' & Hq');
      [done|simpl; by rewrite lookup_insert_eq|simpl in *; lia|done|].
    exists s'. split_and!; [done|done|]. rewrite Hq'. simpl. rewrite <-app_assoc. do 2 f_equal. lia.
Qed.

(** C23. The writer survives its subscribers and drains its queue: whatever
    [Exception]s they raise, every event that waits gets its turn - after any number
    of turns, failed ones included, the writer is still running and has written that
    many of the oldest events, in order - and after as many turns as events were
    waiting, with nothing new accepted, all are written, the [join] of [stop]
    returns and the writer waits for the next event. *)
Theorem audit_queue_drains s t i q os :
  reachable s → tasks s !! t = Some (Running i) → queues s !! i = Some q →
  (length os ≤ length (q_items q))%nat → Forall no_interrupt os →
  ∃ s' q', worker_run t os s = Some s' ∧ tasks s' !! t = Some (Running i) ∧ queues s' !! i = Some q' ∧
    q_handled q' = q_handled q ++ take (length os) (q_items q) ∧ q_items q' = drop (length os) (q_items q) ∧
    (length os = length (q_items q) →
       q_handled q' = q_accepted q ∧ join_ready s' i = true ∧ ∀ o, _run t o s' = None).
Proof.
  intros Hs Ht Hq Hlen Hos. destruct (ao_queues s (reachable_ok s Hs) i q Hq) as [H1 H2 H3].
  destruct (run_turns t i os s q Ht Hq Hlen Hos) as (s' & Hrun & Ht' & Hq').
  eexists s', _. split_and!; [done|done|exact Hq'|done|done|]. intros Hall. simpl.
  rewrite Hall, firstn_all, drop_all in *. split_and!; [done| |].
  - unfold join_ready. rewrite bool_decide_eq_true, Hq'. simpl. f_equal. lia.
  - intros o. unfold _run. by rewrite Ht', Hq'.
Qed.

(** Stopping before the writer has run once loses what was accepted: the
    writer finds no queue and ends, so the accepted event is never written, the
    [join] is never ready and only the timeout ends the wait. *)
Theorem audit_stop_before_first_turn event :
  let s := start audit_init in
  let '(ok, s) := enqueue event s in
  let '(waiting, s) := stop_begin s in
  ok = true ∧ waiting = Some (0%nat, 0%nat) ∧
  ∀ o s', _run 0 o s = Some s' → tasks s' !! 0%nat = Some Done ∧ join_ready s' 0 = false ∧
    ((λ q, q_handled q) <$> queues s' !! 0%nat) = Some [].
Proof.
  assert (put_nowait event new_queue = Some (mkQueue [event] 1 [event] [])) as Hput.
  { unfold put_nowait. simpl. destruct (Z.ltb_spec 0 operation_queue_size); [|done].
    by rewrite (proj2 (Z.leb_gt _ _)) by lia. }
  intros s. assert (enqueue event s = (true, put_queue 0 (mkQueue [event] 1 [event] []) s)) as ->.
  { unfold enqueue, s. simpl. rewrite lookup_insert_eq. simpl. by rewrite Hput. }
  unfold stop_begin, s, _run, join_ready. simpl. split_and!; [done|done|]. intros o s'.
  rewrite lookup_insert_eq. intros [= <-]. simpl. rewrite !lookup_insert_eq. by split_and!.
Qed.
End queue.

(** A run: start, two events, the writer takes both although the first
    subscriber call fails, then stop. *)
Definition ev (r : string) : OperationAuditEvent := mkAuditEvent r "post" "POST" "/p" 200 None None None None None.
Definition demo_state : AuditState :=
  let s := put_task 0 (Running 0) (start audit_init) in
  let s := (enqueue 1000 (ev "a") s).2 in
  (enqueue 1000 (ev "b") s).2.

Lemma demo_reachable : reachable 1000 demo_state.
Proof.
  unfold demo_state. do 2 (eapply reach_step; [|apply step_enqueue]).
  assert (_run 0 (Ret ()) (start audit_init) = Some (put_task 0 (Running 0) (start audit_init))) as Hrun by reflexivity.
  eapply reach_step; [|exact (step_worker 1000 0 (Ret ()) _ _ Hrun)].
  eapply reach_step; [apply reach_init|apply step_start].
Qed.

Lemma audit_queue_fifo_witness :
  reachable 1000 demo_state ∧ ∃ q, queues demo_state !! 0%nat = Some q ∧ q_handled q ++ q_items q = q_accepted q.
Proof.
  split; [exact demo_reachable|].
  assert (queues demo_state !! 0%nat = Some (mkQueue [ev "a"; ev "b"] 2 [ev "a"; ev "b"] [])) as Hq
    by (vm_compute; reflexivity).
  eexists. split; [exact Hq|]. apply (audit_queue_fifo 1000 demo_state 0%nat _ demo_reachable Hq).
Defined.

Lemma audit_queue_drains_witness :
  ∃ s', worker_run 0 [Raise (ValueError "x"); Ret ()] demo_state = Some s' ∧ join_ready s' 0 = true.
Proof.
  assert (tasks demo_state !! 0%nat = Some (Running 0)) as Ht by (vm_compute; reflexivity).
  assert (queues demo_state !! 0%nat = Some (mkQueue [ev "a"; ev "b"] 2 [ev "a"; ev "b"] [])) as Hq
    by (vm_compute; reflexivity).
  destruct (audit_queue_drains 1000 demo_state 0 0 _ [Raise (ValueError "x"); Ret ()] demo_reachable Ht Hq)
    as (s' & q' & H1 & _ & _ & _ & _ & H2); [simpl; lia|repeat constructor|].
  exists s'. split; [exact H1|]. exact (proj1 (proj2 (H2 eq_refl))).
Defined.
