(* ===== verification/Metrics.v ===== *)
(** * Metrics: the Prometheus registry and what the worker counts

    [src/app/platform/observability/metrics.py] and
    [src/app/modules/judge/pool_metrics.py]. A metric is found by its name and the
    values of its labels; a counter and a gauge hold a number (increments are
    whole, so no rounding occurs), a histogram the values it observed. *)
From S2P Require Import Prelude PyStr PyFloat Settings.
Open Scope Z_scope.

Definition Series : Type := string * list string.

Record Metrics := mkMetrics {
  m_counters : gmap Series Z;
  m_gauges : gmap Series Z;
  m_observed : gmap Series (list f64) }.
Definition metrics_init : Metrics := mkMetrics ∅ ∅ ∅.

Definition counter (s : Series) (m : Metrics) : Z := default 0 (m_counters m !! s).
Definition gauge (s : Series) (m : Metrics) : Z := default 0 (m_gauges m !! s).
Definition observed (s : Series) (m : Metrics) : list f64 := default [] (m_observed m !! s).

Definition inc (s : Series) (n : Z) (m : Metrics) : Metrics :=
  mkMetrics (<[s := counter s m + n]> (m_counters m)) (m_gauges m) (m_observed m).
Definition gauge_add (s : Series) (n : Z) (m : Metrics) : Metrics :=
  mkMetrics (m_counters m) (<[s := gauge s m + n]> (m_gauges m)) (m_observed m).
Definition gauge_set (s : Series) (n : Z) (m : Metrics) : Metrics :=
  mkMetrics (m_counters m) (<[s := n]> (m_gauges m)) (m_observed m).
Definition observe (s : Series) (v : f64) (m : Metrics) : Metrics :=
  mkMetrics (m_counters m) (m_gauges m) (<[s := observed s m ++ [v]]> (m_observed m)).

(** A series changes only by the operations on it. *)
Lemma counter_inc s s' n m : counter s (inc s' n m) = if decide (s = s') then counter s m + n else counter s m.
Proof.
  unfold inc, counter. simpl. case_decide as Hs; [subst; by rewrite lookup_insert_eq|by rewrite lookup_insert_ne].
Qed.
Lemma gauge_gauge_add s s' n m :
  gauge s (gauge_add s' n m) = if decide (s = s') then gauge s m + n else gauge s m.
Proof.
  unfold gauge_add, gauge. simpl. case_decide as Hs; [subst; by rewrite lookup_insert_eq|by rewrite lookup_insert_ne].
Qed.
Lemma observed_observe s s' v m :
  observed s (observe s' v m) = if decide (s = s') then observed s m ++ [v] else observed s m.
Proof.
  unfold observe, observed. simpl. case_decide as Hs; [subst; by rewrite lookup_insert_eq|by rewrite lookup_insert_ne].
Qed.

(** ** The series of metrics.py *)
Definition http_requests_total (method path status_code : string) : Series :=
  ("http_requests_total", [method; path; status_code]).
Definition http_request_duration_seconds (method path : string) : Series :=
  ("http_request_duration_seconds", [method; path]).
Definition http_requests_in_progress (method path : string) : Series :=
  ("http_requests_in_progress", [method; path]).
Definition app_exceptions_total (exception_type : string) : Series := ("app_exceptions_total", [exception_type]).
Definition validation_errors_total : Series := ("validation_errors_total", []).
Definition http_client_requests_total (method host status_code : string) : Series :=
  ("http_client_requests_total", [method; host; status_code]).
Definition http_client_request_duration_seconds (method host : string) : Series :=
  ("http_client_request_duration_seconds", [method; host]).
Definition celery_task_total (task_name status : string) : Series := ("celery_task_total", [task_name; status]).
Definition celery_task_duration_seconds (task_name : string) : Series :=
  ("celery_task_duration_seconds", [task_name]).
Definition auth_login_total (account_type result reason : string) : Series :=
  ("auth_login_total", [account_type; result; reason]).
Definition auth_login_lock_total (account_type scope : string) : Series :=
  ("auth_login_lock_total", [account_type; scope]).
Definition operation_audit_total (module action result : string) : Series :=
  ("operation_audit_total", [module; action; result]).
Definition file_upload_rejected_total (reason : string) : Series := ("file_upload_rejected_total", [reason]).

(** A world that holds the registry and a clock. *)
Class HasMetrics (W : Type) := {
  get_metrics : W → Metrics;
  set_metrics : Metrics → W → W;
  perf_counter : io W f64 }.

(** The registry is a field of the world, and reading the clock leaves it. *)
Class MetricsLaws (W : Type) `{HasMetrics W} : Prop := {
  get_set_metrics m w : get_metrics (set_metrics m w) = m;
  perf_counter_ok w : ∃ t w', perf_counter w = (Ret t, w') ∧ get_metrics w' = get_metrics w }.

Section metrics.
Context `{HasMetrics W} (ob : ObservabilitySettings).

Definition metrics_enabled : bool := ob_enabled ob && ob_metrics_enabled ob.
Definition metric (f : Metrics → Metrics) : io W () := modify (λ w, set_metrics (f (get_metrics w)) w).

(** The context managers: the body receives [finalize]; an [Exception] raised in
    it is thrown into the generator at its [yield]. *)
Definition track_http_request {A} (method path : string) (body : (Z → io W ()) → io W A) : io W A :=
  if negb metrics_enabled then body (λ _, mret ())
  else
    let in_progress := http_requests_in_progress method path in
    _ ← metric (gauge_add in_progress 1);
    start ← perf_counter;
    let finalize status_code :=
      now ← perf_counter;
      let duration := fsub now start in
      _ ← metric (observe (http_request_duration_seconds method path) duration);
      _ ← metric (inc (http_requests_total method path (str_of_Z status_code)) 1);
      metric (gauge_add in_progress (-1)) in
    try_except (body finalize) is_exception (λ e, _ ← metric (gauge_add in_progress (-1)); raise e).

Definition record_app_exception (exception_type : string) : io W () :=
  when metrics_enabled (metric (inc (app_exceptions_total exception_type) 1)).
Definition record_validation_error : io W () :=
  when metrics_enabled (metric (inc validation_errors_total 1)).
Definition record_login_attempt (account_type result reason : string) : io W () :=
  when metrics_enabled (metric (inc (auth_login_total account_type result reason) 1)).
Definition record_login_lock (account_type scope : string) : io W () :=
  when metrics_enabled (metric (inc (auth_login_lock_total account_type scope) 1)).
Definition record_operation_audit (module action : string) (success : bool) : io W () :=
  when metrics_enabled (metric (inc (operation_audit_total module action (if success then "success" else "failure")) 1)).
Definition record_file_upload_rejected (reason : string) : io W () :=
  when metrics_enabled (metric (inc (file_upload_rejected_total reason) 1)).

Definition track_http_client_request {A} (method host : string) (body : (Z → io W ()) → io W A) : io W A :=
  if negb metrics_enabled then body (λ _, mret ())
  else
    start ← perf_counter;
    let finalize status_code :=
      now ← perf_counter;
      let duration := fsub now start in
      _ ← metric (observe (http_client_request_duration_seconds method host) duration);
      metric (inc (http_client_requests_total method host (str_of_Z status_code)) 1) in
    body finalize.

Definition track_celery_task {A} (task_name : string) (body : (string → io W ()) → io W A) : io W A :=
  if negb metrics_enabled then body (λ _, mret ())
  else
    start ← perf_counter;
    let finalize status :=
      now ← perf_counter;
      let duration := fsub now start in
      _ ← metric (inc (celery_task_total task_name status) 1);
      metric (observe (celery_task_duration_seconds task_name) duration) in
    body finalize.

(** ** pool_metrics.py *)
Record PoolStats := mkPoolStats {
  available_count : Z; active_count : Z; total_count : Z;
  borrow_count : Z; borrow_last_wait_ms : option f64; emergency_count : Z; replaced_count : Z;
  queue_timeout_count : option Z }.

(** The closure's [last]: the counts of the previous call. *)
Record LastCounts := mkLast { l_borrow : Z; l_emergency : Z; l_replaced : Z; l_queue_timeout : Z }.
Definition last_init : LastCounts := mkLast 0 0 0 0.

Definition pool_workers (state : string) : Series := ("sandbox_pool_workers", [state]).
Definition pool_borrow_total : Series := ("sandbox_pool_borrow_total", []).
Definition pool_borrow_wait_ms : Series := ("sandbox_pool_borrow_wait_ms", []).
Definition pool_emergency_total : Series := ("sandbox_pool_emergency_total", []).
Definition pool_replaced_total : Series := ("sandbox_pool_replaced_total", []).
Definition pool_queue_timeout_total : Series := ("sandbox_pool_queue_timeout_total", []).

(** [if delta: counter.inc(delta)] *)
Definition inc_delta (s : Series) (delta : Z) (m : Metrics) : Metrics :=
  if delta =? 0 then m else inc s delta m.

Definition on_event (s : PoolStats) (last : LastCounts) (m : Metrics) : LastCounts * Metrics :=
  let m := gauge_set (pool_workers "available") (available_count s) m in
  let m := gauge_set (pool_workers "active") (active_count s) m in
  let m := gauge_set (pool_workers "total") (total_count s) m in
  let borrow_delta := Z.max 0 (borrow_count s - l_borrow last) in
  let m := if borrow_delta =? 0 then m
           else observe pool_borrow_wait_ms (default fzero (borrow_last_wait_ms s)) (inc pool_borrow_total borrow_delta m) in
  let m := inc_delta pool_emergency_total (Z.max 0 (emergency_count s - l_emergency last)) m in
  let m := inc_delta pool_replaced_total (Z.max 0 (replaced_count s - l_replaced last)) m in
  let m := inc_delta pool_queue_timeout_total (Z.max 0 (default 0 (queue_timeout_count s) - l_queue_timeout last)) m in
  (mkLast (borrow_count s) (emergency_count s) (replaced_count s) (default 0 (queue_timeout_count s)), m).

(** A pool whose callback was set calls it with its statistics, over and over. *)
Definition pool_events (events : list PoolStats) (m : Metrics) : LastCounts * Metrics :=
  foldl (λ lm s, on_event s lm.1 lm.2) (last_init, m) events.

(** [register_sandbox_pool_metrics]: what is set on the pool, if anything. *)
Definition register_sandbox_pool_metrics : option (PoolStats → LastCounts → Metrics → LastCounts * Metrics) :=
  if negb metrics_enabled then None else Some on_event.
End metrics.

(** ** What the tracked request leaves behind *)
Section track_laws.
Context `{MetricsLaws W} (ob : ObservabilitySettings).

Lemma metric_run f w : metric f w = (Ret (), set_metrics (f (get_metrics w)) w).
Proof. done. Qed.

(** The in-progress gauge of a request whose handler leaves the gauge alone, and
    the requests counted: back where they were after an [Exception], counted
    once after a response, and one too high for ever after an interrupt. *)
Lemma track_http_request_gauge {A} method path (handler : io W (A * Z)) w :
  metrics_enabled ob = true →
  let body finalize := r ← handler; _ ← finalize r.2; mret r.1 in
  let g := http_requests_in_progress method path in
  (∀ w, gauge g (get_metrics (handler w).2) = gauge g (get_metrics w)) →
  let '(o, w') := track_http_request ob method path body w in
  gauge g (get_metrics w') = gauge g (get_metrics w) +
    (match o with Raise e => if is_exception e then 0 else 1 | Ret _ => 0 end).
Proof.
  intros Hon body g Hkeep. unfold track_http_request. rewrite Hon. simpl.
  unfold mbind at 1, io_bind at 1. rewrite metric_run. set (w1 := set_metrics _ w).
  assert (gauge g (get_metrics w1) = gauge g (get_metrics w) + 1) as Hw1.
  { unfold w1. rewrite get_set_metrics, gauge_gauge_add. by rewrite decide_True. }
  destruct (perf_counter_ok w1) as (start & w2 & Hr2 & Hm2). unfold mbind at 1, io_bind at 1. rewrite Hr2.
  unfold try_except, body. unfold mbind at 1, io_bind at 1. specialize (Hkeep w2).
  destruct (handler w2) as [[[a code]|e] w3]; simpl in Hkeep.
  - unfold mbind at 1, io_bind at 1. unfold mbind at 1, io_bind at 1.
    destruct (perf_counter_ok w3) as (now & w4 & Hr4 & Hm4). rewrite Hr4.
    unfold mbind at 1, io_bind at 1. rewrite metric_run. unfold mbind at 1, io_bind at 1. rewrite !metric_run. simpl.
    rewrite !get_set_metrics, gauge_gauge_add, decide_True by done.
    assert (∀ s n s' v m, gauge g (inc s n (observe s' v m)) = gauge g m) as -> by done.
    rewrite Hm4, Hkeep, Hm2, Hw1. lia.
  - destruct (is_exception e) eqn:He.
    + unfold mbind at 1, io_bind at 1. rewrite metric_run. simpl.
      rewrite get_set_metrics, gauge_gauge_add, decide_True by done. fold g. rewrite He, Hkeep, Hm2, Hw1. lia.
    + simpl. by rewrite He, Hkeep, Hm2, Hw1.
Qed.
End track_laws.

(** ** The counters of the pool follow its statistics *)

(** The increases of a sequence of counts, from [prev]. *)
Fixpoint increases (prev : Z) (counts : list Z) : Z :=
  match counts with [] => 0 | c :: counts => Z.max 0 (c - prev) + increases c counts end.

Lemma counter_inc_delta s s' n m :
  counter s (inc_delta s' n m) = if decide (s = s') then counter s m + n else counter s m.
Proof.
  unfold inc_delta. destruct (Z.eqb_spec n 0) as [->|]; [case_decide; lia|apply counter_inc].
Qed.

Lemma on_event_counters s last m :
  let '(last', m') := on_event s last m in
  counter pool_borrow_total m' = counter pool_borrow_total m + Z.max 0 (borrow_count s - l_borrow last) ∧
  counter pool_emergency_total m' = counter pool_emergency_total m + Z.max 0 (emergency_count s - l_emergency last) ∧
  counter pool_replaced_total m' = counter pool_replaced_total m + Z.max 0 (replaced_count s - l_replaced last) ∧
  counter pool_queue_timeout_total m' =
    counter pool_queue_timeout_total m + Z.max 0 (default 0 (queue_timeout_count s) - l_queue_timeout last) ∧
  last' = mkLast (borrow_count s) (emergency_count s) (replaced_count s) (default 0 (queue_timeout_count s)).
Proof.
  unfold on_event. set (m3 := gauge_set _ _ (gauge_set _ _ (gauge_set _ _ m))).
  assert (∀ c, counter c m3 = counter c m) as Hm3 by done.
  set (m4 := if Z.max 0 (borrow_count s - l_borrow last) =? 0 then m3 else _).
  assert (∀ c, counter c m4 = if decide (c = pool_borrow_total)
    then counter c m + Z.max 0 (borrow_count s - l_borrow last) else counter c m) as Hm4.
  { intros c. unfold m4. destruct (Z.eqb_spec (Z.max 0 (borrow_count s - l_borrow last)) 0) as [->|].
    - rewrite Hm3. case_decide; lia.
    - change (counter c (observe ?a ?b ?d)) with (counter c d). by rewrite counter_inc, Hm3. }
  cbn [counter]. rewrite !counter_inc_delta, !Hm4. by split_and!.
Qed.

(** The Prometheus counters of the sandbox pool follow the pool's own
    counts: after any sequence of callbacks each counter has grown by the sum of
    the increases between successive statistics - so by the final count itself
    while the counts only grow - and a count that falls (a pool that starts
    over) takes nothing away. *)
Theorem pool_counters_follow events m :
  let '(last, m') := pool_events events m in
  counter pool_borrow_total m' = counter pool_borrow_total m + increases 0 (map borrow_count events) ∧
  counter pool_emergency_total m' = counter pool_emergency_total m + increases 0 (map emergency_count events) ∧
  counter pool_replaced_total m' = counter pool_replaced_total m + increases 0 (map replaced_count events) ∧
  counter pool_queue_timeout_total m' =
    counter pool_queue_timeout_total m + increases 0 (map (λ s, default 0 (queue_timeout_count s)) events) ∧
  (∀ counts c, Sorted Z.le (0 :: counts ++ [c]) → increases 0 (counts ++ [c]) = c).
Proof.
  enough (∀ last0, let '(last, m') := foldl (λ lm s, on_event s lm.1 lm.2) (last0, m) events in
    counter pool_borrow_total m' = counter pool_borrow_total m + increases (l_borrow last0) (map borrow_count events) ∧
    counter pool_emergency_total m' = counter pool_emergency_total m + increases (l_emergency last0) (map emergency_count events) ∧
    counter pool_replaced_total m' = counter pool_replaced_total m + increases (l_replaced last0) (map replaced_count events) ∧
    counter pool_queue_timeout_total m' = counter pool_queue_timeout_total m +
      increases (l_queue_timeout last0) (map (λ s, default 0 (queue_timeout_count s)) events)) as Hgen.
  { unfold pool_events. specialize (Hgen last_init). destruct (foldl _ (last_init, m) events) as [last m'].
    simpl in Hgen. destruct Hgen as (H1 & H2 & H3 & H4). split_and!; try done.
    assert (∀ counts prev c, Sorted Z.le (prev :: counts ++ [c]) → prev + increases prev (counts ++ [c]) = c) as Hmono;
      [|intros counts c Hs; specialize (Hmono counts 0 c Hs); lia].
    intros counts. induction counts as [|x counts IH]; intros prev c Hs; inversion Hs as [|? ? Hs' Hhd]; subst;
      inversion Hhd; subst; simpl; [lia|]. specialize (IH x c Hs'). lia. }
  revert m. induction events as [|s events IH]; intros m last0; [simpl; lia|]. simpl.
  pose proof (on_event_counters s last0 m) as Hs. destruct (on_event s last0 m) as [last1 m1].
  destruct Hs as (H1 & H2 & H3 & H4 & ->). specialize (IH m1 (mkLast (borrow_count s) (emergency_count s) (replaced_count s) (default 0 (queue_timeout_count s)))).
  destruct (foldl _ _ events) as [last m']. simpl in IH. destruct IH as (I1 & I2 & I3 & I4).
  rewrite I1, I2, I3, I4, H1, H2, H3, H4. split_and!; lia.
Qed.
