(* ===== verification/Middleware.v ===== *)
(** * Middleware: the HTTP middleware and the stack they form

    [src/app/middleware/]: trace.py, security_headers.py, access_log.py,
    operation_audit.py, auth_context.py with the context variables of
    [deps/context.py], and the order in which [factory.create_app] adds them
    (rate_limit.py is RateLimit). Every class derives from Starlette's
    [BaseHTTPMiddleware], whose documentation says that changes to context
    variables do not propagate upwards: [call_next] runs the inner application in
    a task with a copy of them ([isolated]). Names of headers are in lower case,
    as Starlette compares them. *)
From S2P Require Import Prelude PyText PyStr PyFloat Settings Metrics AuditQueue AccessControl RateLimit.
Open Scope Z_scope.

(** ** deps/context.py *)
Record Ctx := mkCtx {
  cv_request_id : option string; cv_account_id : option string; cv_account_type : option string;
  cv_trace_id : option string; cv_span_id : option string; cv_request_path : option string;
  cv_request_method : option string; cv_status_code : option Z; cv_duration_ms : option f64;
  cv_client_ip : option string; cv_user_agent : option string }.
Definition ctx_default : Ctx := mkCtx None None None None None None None None None None None.

Record HttpRequest := mkHttpRequest { rq_method : string; rq_path : string; rq_conn : Request }.
Record Response := mkResponse { rs_status_code : Z; rs_headers : gmap string string }.
Definition set_header (name value : string) (r : Response) : Response :=
  mkResponse (rs_status_code r) (<[lower name := value]> (rs_headers r)).

(** The world of a request: its context variables, the registry, the audit queue
    and everything else. *)
Record World (E : Type) := mkWorld { w_ctx : Ctx; w_metrics : Metrics; w_audit : AuditState; w_ext : E }.
Arguments mkWorld {E}. Arguments w_ctx {E}. Arguments w_metrics {E}. Arguments w_audit {E}. Arguments w_ext {E}.

(** Redis, the clocks, [uuid4], the current span (as far as OpenTelemetry is
    installed and the span valid) and Unicode case and digits. *)
Class HttpEnv (E : Type) := {
  http_redis : E → bool;
  http_time : io E Z;
  http_ticks : Z;
  http_zset : string → Z → Z → Z → io E Z;
  http_perf : io E f64;
  uuid4 : io E string;
  current_span : E → option (Z * Z);
  uni_lower : string → string;
  uni_upper : string → string;
  uni_digit : Z → bool }.

Section world.
Context {E : Type}.

Definition upd_ctx (f : Ctx → Ctx) (w : World E) : World E := mkWorld (f (w_ctx w)) (w_metrics w) (w_audit w) (w_ext w).
Definition ctx_mod (f : Ctx → Ctx) : io (World E) () := modify (upd_ctx f).
Definition ctx_get {A} (f : Ctx → A) : io (World E) A := gets (λ w, f (w_ctx w)).

(** Code on the outside part of the world. *)
Definition ext {A} (m : io E A) : io (World E) A := λ w,
  let '(o, e) := m (w_ext w) in (o, mkWorld (w_ctx w) (w_metrics w) (w_audit w) e).

(** [await call_next(request)] *)
Definition isolated {A} (m : io (World E) A) : io (World E) A := λ w,
  let '(o, w') := m w in (o, mkWorld (w_ctx w) (w_metrics w') (w_audit w') (w_ext w')).
End world.

#[export] Instance world_metrics `{HttpEnv E} : HasMetrics (World E) := {
  get_metrics := w_metrics;
  set_metrics := λ m w, mkWorld (w_ctx w) m (w_audit w) (w_ext w);
  perf_counter := ext http_perf }.

(** [format(n, "032x")] of a number that fits. *)
Fixpoint hex_format (width : nat) (n : Z) : string :=
  match width with
  | O => ""
  | S width => hex_format width (n / 16) +:+ of_chars (take 1 (drop (Z.to_nat (n mod 16)) (str_chars "0123456789abcdef")))
  end.

(** The fields of the context variables, one setter each. *)
Definition set_request_id v c := mkCtx v (cv_account_id c) (cv_account_type c) (cv_trace_id c) (cv_span_id c)
  (cv_request_path c) (cv_request_method c) (cv_status_code c) (cv_duration_ms c) (cv_client_ip c) (cv_user_agent c).
Definition set_account v t c := mkCtx (cv_request_id c) v t (cv_trace_id c) (cv_span_id c)
  (cv_request_path c) (cv_request_method c) (cv_status_code c) (cv_duration_ms c) (cv_client_ip c) (cv_user_agent c).
Definition set_trace v s c := mkCtx (cv_request_id c) (cv_account_id c) (cv_account_type c) v s
  (cv_request_path c) (cv_request_method c) (cv_status_code c) (cv_duration_ms c) (cv_client_ip c) (cv_user_agent c).
Definition set_request_line p m c := mkCtx (cv_request_id c) (cv_account_id c) (cv_account_type c) (cv_trace_id c) (cv_span_id c)
  p m (cv_status_code c) (cv_duration_ms c) (cv_client_ip c) (cv_user_agent c).
Definition set_status s d c := mkCtx (cv_request_id c) (cv_account_id c) (cv_account_type c) (cv_trace_id c) (cv_span_id c)
  (cv_request_path c) (cv_request_method c) s d (cv_client_ip c) (cv_user_agent c).
Definition set_peer ip ua c := mkCtx (cv_request_id c) (cv_account_id c) (cv_account_type c) (cv_trace_id c) (cv_span_id c)
  (cv_request_path c) (cv_request_method c) (cv_status_code c) (cv_duration_ms c) ip ua.

(** ** The audit target of operation_audit.py *)
Definition AUDIT_METHODS : list string := ["POST"; "PUT"; "PATCH"; "DELETE"].
Definition SKIP_AUDIT_PATH_PATTERNS : list string :=
  ["/captcha"; "/password-key"; "/login"; "/register"; "/forgot-password"; "/reset-password"; "/cancel"; "/me"].

(** [[a-z0-9/_-]], and the longest prefix in it. *)
Definition path_char (c : Z) : bool :=
  (c =? 47) || (c =? 95) || (c =? 45) || in_range 97 122 c || in_range 48 57 c.
Fixpoint path_span (s : text) : text * text :=
  match s with
  | c :: s' => if path_char c then let '(a, b) := path_span s' in (c :: a, b) else ([], s)
  | [] => ([], [])
  end.

(** The optional last group: a slash and what follows up to a question mark. *)
Fixpoint until_question (s : text) : text :=
  match s with c :: s' => if c =? 63 then [] else c :: until_question s' | [] => [] end.
Definition action_group (s : text) : option text :=
  match s with c :: s' => if c =? 47 then Some (c :: until_question s') else None | [] => None end.

(** [AUDIT_PATH_RE.match(path)]: the groups module_path and action. The greedy
    match is the first one tried, and nothing after it can fail. *)
Definition AUDIT_PATH_RE (nd : Z → bool) (path : text) : option (text * option text) :=
  match and_then (after_version nd path) (after_one side) with
  | Some (c :: rest) =>
      if in_range 97 122 c then
        let '(m, tail) := path_span rest in Some (c :: m, action_group tail)
      else None
  | _ => None
  end.

(** [re.sub] of the lower-case hexadecimal runs of eight characters and more:
    the longest run is taken at each place. *)
Definition is_hex_char (c : ascii) : bool := is_digit c || ascii_in 97 102 c.
Definition keep_run (run : list ascii) : list ascii := if (8 <=? length run)%nat then [] else reverse run.
Fixpoint drop_hex_runs (run l : list ascii) : list ascii :=
  match l with
  | [] => keep_run run
  | c :: l => if is_hex_char c then drop_hex_runs (c :: run) l else keep_run run ++ c :: drop_hex_runs [] l
  end.

Definition _extract_resource_type (module_path : string) : string :=
  let parts := split_on "/" (strip_char "/" module_path) in
  let resource := default module_path (last parts) in
  let resource := strip_where (λ c, Ascii.eqb c "-" || Ascii.eqb c "_") (of_chars (drop_hex_runs [] (str_chars resource))) in
  if str_truthy resource then resource else replace_char "/" "_" module_path.

Section middleware.
Context `{HttpEnv E} `{IpAddress Ip Net}.
Context (ob : ObservabilitySettings) (trusted_proxy_ips : list string) (operation_queue_size : Z).
Context (too_many : Z → Response).

Definition _should_skip_path (path : string) : bool :=
  existsb (λ p, endswith p (uni_lower path)) SKIP_AUDIT_PATH_PATTERNS.

Definition _extract_action (action_str : option string) (method : string) : string :=
  match action_str with
  | Some a =>
      if str_truthy a then
        let action := default "" (head (split_on "/" (strip_char "/" a))) in
        if str_truthy action then replace_char "-" "_" action else uni_lower method
      else uni_lower method
  | None => uni_lower method
  end.

Definition _match_audit_target (request : HttpRequest) : option (string * string) :=
  if negb (bool_decide (uni_upper (rq_method request) ∈ AUDIT_METHODS)) then None
  else
    let path := rq_path request in
    if _should_skip_path path then None
    else match AUDIT_PATH_RE uni_digit (to_text path) with
         | None => if bool_decide ("logout" ∈ split_on "/" path) then Some ("account", "logout") else None
         | Some (module_path, action_str) =>
             Some (_extract_resource_type (of_text module_path), _extract_action (of_text <$> action_str) (rq_method request))
         end.

(** ** The dispatch methods *)
Definition App : Type := io (World E) Response.

Definition operation_audit (request : HttpRequest) (call_next : App) : App :=
  response ← call_next;
  _ ← try_except
        (match _match_audit_target request with
         | None => mret ()
         | Some (resource_type, action) =>
             c ← ctx_get id;
             let event := mkAuditEvent resource_type action (rq_method request) (rq_path request)
               (rs_status_code response) (cv_account_id c) (cv_account_type c) (cv_request_id c)
               (cv_client_ip c) (cv_user_agent c) in
             modify (λ w, mkWorld (w_ctx w) (w_metrics w) (enqueue operation_queue_size event (w_audit w)).2 (w_ext w))
         end)
        is_exception (λ _, mret ());
  mret response.

Definition access_log (request : HttpRequest) (call_next : App) : App :=
  start ← perf_counter;
  track_http_request ob (rq_method request) (rq_path request) (λ finalize,
    response ← call_next;
    now ← perf_counter;
    let cost_ms := round2 (fmul (fsub now start) (f_of_Z 1000)) in
    _ ← ctx_mod (set_status (Some (rs_status_code response)) (Some cost_ms));
    _ ← finalize (rs_status_code response);
    mret response).

Definition HEADERS : list (string * string) :=
  [("Strict-Transport-Security", "max-age=31536000; includeSubDomains");
   ("X-Content-Type-Options", "nosniff");
   ("X-Frame-Options", "DENY");
   ("Content-Security-Policy",
      "default-src 'self'; script-src 'self'; style-src 'self' 'unsafe-inline'; object-src 'none'; " +:+
      "img-src 'self' data: blob:; font-src 'self' data:; connect-src 'self'; frame-ancestors 'none'");
   ("Referrer-Policy", "strict-origin-when-cross-origin");
   ("Permissions-Policy", "camera=(), microphone=(), geolocation=(), interest-cohort=()")].

Definition security_headers (_ : HttpRequest) (call_next : App) : App :=
  response ← call_next;
  mret (foldl (λ r h, set_header h.1 h.2 r) response HEADERS).

Definition auth_context (_ : HttpRequest) (call_next : App) : App :=
  c ← ctx_get id;
  _ ← ctx_mod (set_account None None);
  _ ← ctx_mod (set_status None None);
  try_finally call_next
    (_ ← ctx_mod (set_account (cv_account_id c) (cv_account_type c));
     ctx_mod (set_status (cv_status_code c) (cv_duration_ms c))).

(** [sync_trace_context] of [platform/observability/tracing.py] *)
Definition sync_trace_context : io (World E) () :=
  span ← gets (λ w, current_span (w_ext w));
  match span with
  | None => ctx_mod (set_trace None None)
  | Some (trace_id, span_id) => ctx_mod (set_trace (Some (hex_format 32 trace_id)) (Some (hex_format 16 span_id)))
  end.

Definition trace (request : HttpRequest) (call_next : App) : App :=
  fresh_id ← ext uuid4;
  let request_id := default fresh_id (header (rq_conn request) "x-request-id") in
  c ← ctx_get id;
  _ ← ctx_mod (set_request_id (Some request_id));
  _ ← ctx_mod (set_request_line (Some (rq_path request)) (Some (rq_method request)));
  _ ← ctx_mod (set_peer (get_client_ip trusted_proxy_ips (rq_conn request)) (header (rq_conn request) "user-agent"));
  response ← try_finally
    (_ ← sync_trace_context; call_next)
    (_ ← ctx_mod (set_request_id (cv_request_id c));
     _ ← ctx_mod (set_request_line (cv_request_path c) (cv_request_method c));
     _ ← ctx_mod (set_peer (cv_client_ip c) (cv_user_agent c));
     ctx_mod (set_trace None None));
  mret (set_header "X-Request-Id" request_id response).

Definition rate_limit (request : HttpRequest) (call_next : App) : App :=
  let env : RateEnv (World E) Response := {|
    RateLimit.rl_redis := λ w, http_redis (w_ext w);
    RateLimit.client_ip_ctx := λ w, cv_client_ip (w_ctx w);
    RateLimit.account_id_ctx := λ w, cv_account_id (w_ctx w);
    RateLimit.ticks_per_second := http_ticks;
    RateLimit.time_now := ext http_time;
    RateLimit.zset_pipeline := λ k n s x, ext (http_zset k n s x);
    RateLimit.call_next := call_next;
    RateLimit.too_many := too_many |} in
  RateLimit.dispatch (H := env) uni_digit (to_text (rq_path request)).

(** ** The stack of [create_app]: each class added wraps those added before *)
Definition middlewares : list (HttpRequest → App → App) :=
  [trace; security_headers; access_log; operation_audit; rate_limit; auth_context].

Definition stack (app : HttpRequest → App) (request : HttpRequest) : App :=
  foldl (λ inner m, m request (isolated inner)) (app request) middlewares.
End middleware.
