(* ===== verification/MiddlewareProofs.v ===== *)
(** * MiddlewareProofs: what the middleware stack does to a request *)
From S2P Require Import Prelude PyText PyStr PyFloat Settings Metrics AuditQueue AccessControl RateLimit Middleware.
Open Scope Z_scope.

(** ** The audit target *)
Definition no_slash (s : string) : Prop := str_in "/" s = false.

Lemma no_slash_chars l : no_slash (of_chars l) ↔ Forall (λ c, c ≠ "/"%char) l.
Proof.
  unfold no_slash, str_in. rewrite str_of_chars, Forall_forall. split.
  - intros Hf x Hx ->. apply not_true_iff_false in Hf. apply Hf, existsb_exists. exists "/"%char.
    by rewrite <-list_elem_of_In.
  - intros Hall. apply not_true_iff_false. rewrite existsb_exists. intros (x & Hx & He).
    apply Ascii.eqb_eq in He. rewrite <-list_elem_of_In in Hx. by apply (Hall x).
Qed.

Lemma drop_while_Forall (P : ascii → Prop) f l : Forall P l → Forall P (drop_while f l).
Proof. induction 1 as [|c l Hc Hl IH]; simpl; [constructor|]. destruct (f c); [done|by constructor]. Qed.

Lemma strip_where_no_slash f s : no_slash s → no_slash (strip_where f s).
Proof.
  rewrite <-(of_str_chars s) at 1. rewrite no_slash_chars. intros Hs. unfold strip_where. apply no_slash_chars.
  by apply Forall_reverse, drop_while_Forall, Forall_reverse, drop_while_Forall.
Qed.

Lemma drop_hex_runs_Forall (P : ascii → Prop) run l :
  Forall P run → Forall P l → Forall P (drop_hex_runs run l).
Proof.
  intros Hrun Hl. revert run Hrun. unfold keep_run.
  assert (∀ run, Forall P run → Forall P (keep_run run)) as Hkeep.
  { intros run Hr. unfold keep_run. destruct (8 <=? length run)%nat; [constructor|by apply Forall_reverse]. }
  induction Hl as [|c l Hc _ IH]; intros run Hrun; simpl; [by apply Hkeep|].
  destruct (is_hex_char c); [by apply IH; constructor|]. apply Forall_app. split; [by apply Hkeep|].
  constructor; [done|]. by apply IH.
Qed.

Lemma replace_slash_no_slash s : no_slash (replace_char "/" "_" s).
Proof.
  rewrite <-(of_str_chars (replace_char "/" "_" s)). apply no_slash_chars. unfold replace_char.
  induction s as [|c s IH]; [constructor|]. cbn [str_map str_chars String.list_ascii_of_string].
  constructor; [|exact IH]. by destruct (Ascii.eqb_spec c "/"%char).
Qed.

Lemma resource_type_spec module_path :
  module_path ≠ "" → str_truthy (_extract_resource_type module_path) = true ∧ no_slash (_extract_resource_type module_path).
Proof.
  intros Hne. unfold _extract_resource_type.
  set (parts := split_on "/" (strip_char "/" module_path)).
  assert (∃ p, last parts = Some p ∧ no_slash p) as (p & Hp & Hns).
  { destruct (last parts) as [p|] eqn:Hl; [|by apply last_None in Hl; apply split_on_nonempty in Hl].
    exists p. split; [done|]. pose proof (split_on_Forall "/" (strip_char "/" module_path)) as Hall.
    rewrite Forall_forall in Hall. apply Hall. by apply last_Some_elem_of. }
  rewrite Hp. simpl. set (r := strip_where _ _). destruct (str_truthy r) eqn:Hr.
  - split; [done|]. apply strip_where_no_slash, no_slash_chars, drop_hex_runs_Forall; [constructor|].
    apply no_slash_chars. by rewrite of_str_chars.
  - split; [by destruct module_path|apply replace_slash_no_slash].
Qed.

(** The longest run of path characters is not followed by a slash: the action
    group of the pattern never takes part in a match. *)
Lemma path_span_action s : action_group (path_span s).2 = None.
Proof.
  induction s as [|c s IH]; [done|]. simpl. destruct (path_char c) eqn:Hc.
  - destruct (path_span s) as [a b]. exact IH.
  - simpl. destruct (Z.eqb_spec c 47) as [->|]; [done|done].
Qed.

Lemma audit_path_action nd path m a : AUDIT_PATH_RE nd path = Some (m, a) → a = None ∧ of_text m ≠ "".
Proof.
  unfold AUDIT_PATH_RE. destruct (and_then (after_version nd path) (after_one side)) as [[|c rest]|]; [done| |done].
  destruct (in_range 97 122 c) eqn:Hc; [|done]. destruct (path_span rest) as [m' tail] eqn:Hs.
  intros [= <- <-]. split; [by rewrite <-(path_span_action rest), Hs|]. apply in_range_true in Hc.
  unfold of_text, utf8_encode. rewrite bind_cons. unfold utf8_encode_char.
  by rewrite (proj2 (Z.ltb_lt c 128)) by lia.
Qed.

Section target.
Context `{HttpEnv E}.

(** What is audited: a request yields an audit target only when its method
    is a writing one and its path is not of the skipped ones; the resource type
    is then a nonempty name without a slash, and the action is always the method
    in lower case (or the pair account and logout): the action group of the path
    pattern can never match, because the group before it takes every slash. *)
Theorem audit_target_spec request r a :
  _match_audit_target (E:=E) request = Some (r, a) →
  uni_upper (rq_method request) ∈ AUDIT_METHODS ∧ _should_skip_path (E:=E) (rq_path request) = false ∧
  str_truthy r = true ∧ no_slash r ∧
  (a = uni_lower (rq_method request) ∨ (r, a) = ("account", "logout")).
Proof.
  unfold _match_audit_target. case_bool_decide as Hm; [|done]. simpl.
  destruct (_should_skip_path (rq_path request)); [done|].
  destruct (AUDIT_PATH_RE uni_digit (to_text (rq_path request))) as [[m act]|] eqn:Hre.
  - apply audit_path_action in Hre as [-> Hne]. intros [= <- <-].
    destruct (resource_type_spec (of_text m) Hne) as [Hr Hs]. split_and!; auto.
  - case_bool_decide; [|done]. intros [= <- <-]. split_and!; auto. done.
Qed.
End target.

(** ** One layer at a time *)
Section layers.
Context `{HttpEnv E} `{IpAddress Ip Net}.
Context (ob : ObservabilitySettings) (trusted_proxy_ips : list string) (operation_queue_size : Z).
Context (too_many : Z → Response).
Notation App := (io (World E) Response).

(** Code that leaves the audit queue as it is. *)
Definition keeps_audit {A} (m : io (World E) A) : Prop := ∀ a, preserves (λ w, w_audit w = a) m.

Lemma ext_keeps {A} (m : io E A) : keeps_audit (ext m).
Proof. intros a w. unfold ext. by destruct (m (w_ext w)). Qed.
Lemma ctx_mod_keeps f : keeps_audit (ctx_mod f).
Proof. by intros a w. Qed.
Lemma ctx_get_keeps {A} (f : Ctx → A) : keeps_audit (ctx_get f).
Proof. by intros a w. Qed.
Lemma metric_keeps f : keeps_audit (metric f).
Proof. by intros a w. Qed.
Lemma isolated_keeps {A} (m : io (World E) A) : keeps_audit m → keeps_audit (isolated m).
Proof. intros Hm a w Hw. specialize (Hm a w Hw). unfold isolated. by destruct (m w). Qed.

Lemma isolated_run {A} (m : io (World E) A) w :
  (isolated m w).1 = (m w).1 ∧ w_ctx (isolated m w).2 = w_ctx w ∧ w_audit (isolated m w).2 = w_audit (m w).2.
Proof. unfold isolated. by destruct (m w). Qed.

Hint Resolve ext_keeps ctx_mod_keeps ctx_get_keeps metric_keeps isolated_keeps : keeps.
Hint Unfold keeps_audit : keeps.

Ltac keep :=
  intros a; repeat first
    [ match goal with
      | |- ∀ _, _ => intro
      | |- preserves _ (match ?x with _ => _ end) => destruct x
      end
    | solve [eauto with preserves] | solve [apply ext_keeps] | solve [apply ctx_mod_keeps] | solve [apply ctx_get_keeps]
    | solve [apply metric_keeps] | solve [auto with keeps]
    | apply preserves_bind | apply preserves_when | apply preserves_try_except | apply preserves_try_finally ].

Lemma trace_keeps request (next : App) : keeps_audit next → keeps_audit (trace trusted_proxy_ips request next).
Proof. intros Hn. unfold trace, sync_trace_context. keep; apply Hn. Qed.
Lemma security_keeps request (next : App) : keeps_audit next → keeps_audit (security_headers request next).
Proof. intros Hn. unfold security_headers. keep; apply Hn. Qed.
Lemma access_log_keeps request (next : App) : keeps_audit next → keeps_audit (access_log ob request next).
Proof.
  intros Hn. unfold access_log, track_http_request, perf_counter, world_metrics. keep; apply Hn.
Qed.

(** The audit layer enqueues one event for an audited request that was answered,
    with the context variables of its own task. *)
Lemma operation_audit_run request (next : App) w :
  let '(o, w') := operation_audit operation_queue_size request (isolated next) w in
  let base := w_audit (isolated next w).2 in
  o = (next w).1 ∧ w_ctx w' = w_ctx w ∧
  w_audit w' = match o, _match_audit_target (E:=E) request with
               | Ret response, Some (r, a) =>
                   (enqueue operation_queue_size
                      (mkAuditEvent r a (rq_method request) (rq_path request) (rs_status_code response)
                         (cv_account_id (w_ctx w)) (cv_account_type (w_ctx w)) (cv_request_id (w_ctx w))
                         (cv_client_ip (w_ctx w)) (cv_user_agent (w_ctx w))) base).2
               | _, _ => base
               end.
Proof.
  destruct (isolated_run next w) as (Hi1 & Hi2 & _). unfold operation_audit. unfold mbind at 1, io_bind at 1.
  destruct (isolated next w) as [[response|e] w1]; simpl in *; [|by rewrite <-Hi1].
  unfold mbind at 1, io_bind at 1, try_except. destruct (_match_audit_target request) as [[r a]|]; simpl.
  - rewrite Hi2, <-Hi1. done.
  - rewrite <-Hi1. done.
Qed.

(** The limiter answers itself, or passes the request on once, and touches
    neither the context nor the audit queue before. *)
Lemma rate_limit_run request (next : App) w :
  ∃ w1, w_ctx w1 = w_ctx w ∧ w_audit w1 = w_audit w ∧
    (rate_limit too_many request next w = next w1 ∨
     (∃ n, rate_limit too_many request next w = (Ret (too_many n), w1)) ∨
     (∃ e, rate_limit too_many request next w = (Raise e, w1))).
Proof.
  remember (rate_limit too_many request next w) as res eqn:Hres. unfold rate_limit in Hres.
  set (env := {| RateLimit.rl_redis := _ |}) in Hres. unfold RateLimit.dispatch in Hres.
  unfold mbind at 1, io_bind at 1, get in Hres. destruct (negb (rl_redis w)); [exists w; auto|].
  unfold mbind at 1, io_bind at 1 in Hres.
  assert (∀ rules, ∃ o w1, try_rules (H:=env) rules (to_text (rq_path request)) w = (o, w1) ∧
    w_ctx w1 = w_ctx w ∧ w_audit w1 = w_audit w ∧
    ∀ r, o = Ret (Some r) → ∃ n, r = too_many n) as Hrules.
  { intros rules. induction rules as [|rule rules IH]; [by eexists _, w|]. simpl.
    destruct (negb (rule_search rule (to_text (rq_path request)))); [exact IH|].
    unfold mbind at 1, io_bind at 1, get. destruct (rule_key w rule) as [key|]; [|exact IH].
    unfold try_except. unfold mbind at 1, io_bind at 1. unfold _increment_and_check.
    unfold mbind at 1, io_bind at 1. simpl. unfold ext at 1. destruct (http_time (w_ext w)) as [[now|e] e1].
    - unfold ext. simpl. destruct (http_zset _ _ _ _ e1) as [[count|e] e2]; simpl.
      + eexists _, _. split; [reflexivity|]. split; [done|]. split; [done|]. intros r.
        destruct (_ <? count); [|done]. intros [= <-]. eauto.
      + destruct (is_exception e); (eexists _, _; split; [reflexivity|]); done.
    - destruct (is_exception e); (eexists _, _; split; [reflexivity|]); done. }
  destruct (Hrules (RATE_LIMIT_RULES uni_digit)) as ([[r|]|e] & w1 & Hr & Hc & Ha & Hearly); exists w1; rewrite Hr in Hres.
  all: split; [done|]; split; [done|].
  - destruct (Hearly r eq_refl) as [n ->]. right. left. by exists n.
  - by left.
  - right. right. by exists e.
Qed.
End layers.

Section stack.
Context `{HttpEnv E} `{IpAddress Ip Net}.
Context (ob : ObservabilitySettings) (trusted_proxy_ips : list string) (operation_queue_size : Z).
Context (too_many : Z → Response).
Notation App := (io (World E) Response).
Notation the_stack := (stack ob trusted_proxy_ips operation_queue_size too_many).

Lemma auth_context_run request (next : App) w :
  ∃ w1, w_ctx w1 = set_status None None (set_account None None (w_ctx w)) ∧ w_audit w1 = w_audit w ∧
    w_ext w1 = w_ext w ∧
    let '(o, w') := auth_context request (isolated next) w in
    o = (next w1).1 ∧ w_ctx w' = w_ctx w ∧ w_audit w' = w_audit (next w1).2.
Proof.
  eexists (upd_ctx (set_status None None) (upd_ctx (set_account None None) w)). split_and!; [done..|].
  unfold auth_context, ctx_get, gets, mbind, io_bind, ctx_mod, modify, try_finally, isolated. simpl.
  destruct (next _) as [o w2]. simpl. by destruct (w_ctx w).
Qed.

(** C27. What the audit records of a request. The audit layer stands outside the
    layers that set the request's context and reads the variables of its own
    task, so in an application that does not write to the queue itself the stack
    enqueues, for an audited request that was answered, exactly one event with
    the target, the method, the path and the status - and never with an account,
    a request id, an address or a user agent. A request that is refused by the
    limiter, or whose handling raises, leaves no event. Whatever happens, the
    context variables outside the stack are restored. *)
Theorem stack_audit_anonymous app request w :
  (∀ request, keeps_audit (app request)) →
  cv_request_id (w_ctx w) = None → cv_client_ip (w_ctx w) = None → cv_user_agent (w_ctx w) = None →
  let '(o, w') := the_stack app request w in
  w_ctx w' = w_ctx w ∧
  (w_audit w' = w_audit w ∨
   ∃ response r a, o = Ret response ∧ _match_audit_target (E:=E) request = Some (r, a) ∧
     w_audit w' = (enqueue operation_queue_size
       (mkAuditEvent r a (rq_method request) (rq_path request) (rs_status_code response) None None None None None)
       (w_audit w)).2) ∧
  (∀ response, o = Ret response → (∀ n, response ≠ too_many n) → ∀ r a, _match_audit_target (E:=E) request = Some (r, a) →
     w_audit w' = (enqueue operation_queue_size
       (mkAuditEvent r a (rq_method request) (rq_path request) (rs_status_code response) None None None None None)
       (w_audit w)).2).
Proof.
  intros Happ Hid Hip Hua. unfold stack, middlewares. cbn [foldl].
  set (inner := access_log ob request _).
  assert (keeps_audit inner) as Hinner.
  { apply access_log_keeps, isolated_keeps, security_keeps, isolated_keeps, trace_keeps, isolated_keeps, Happ. }
  destruct (auth_context_run request
    (rate_limit too_many request (isolated (operation_audit operation_queue_size request (isolated inner)))) w)
    as (w1 & Hc1 & Ha1 & _ & Hrun).
  destruct (auth_context _ _ w) as [o w']. destruct Hrun as (-> & Hctx & ->). split; [done|].
  destruct (rate_limit_run too_many request (isolated (operation_audit operation_queue_size request (isolated inner))) w1)
    as (w2 & Hc2 & Ha2 & [Hrun|[[n Hrun]|[e Hrun]]]); rewrite Hrun.
  2: { simpl. split; [left; congruence|]. intros response [= <-] Hno. by destruct (Hno n). }
  2: { simpl. split; [left; congruence|done]. }
  pose proof (isolated_run (operation_audit operation_queue_size request (isolated inner)) w2) as (-> & _ & ->).
  pose proof (operation_audit_run operation_queue_size request inner w2) as Hop.
  destruct (operation_audit operation_queue_size request (isolated inner) w2) as [o2 w3]. destruct Hop as (Ho & _ & Haud).
  assert (w_audit (isolated inner w2).2 = w_audit w) as Hbase.
  { destruct (isolated_run inner w2) as (_ & _ & ->). rewrite (Hinner (w_audit w)); [done|congruence]. }
  rewrite Hbase, Hc2, Hc1 in Haud. unfold set_status, set_account in Haud. simpl in Haud. rewrite Hid, Hip, Hua in Haud.
  simpl. rewrite Haud. split.
  - destruct o2 as [response|e]; [|by left]. destruct (_match_audit_target request) as [[r a]|]; [|by left].
    right. by exists response, r, a.
  - intros response -> _ r a ->. done.
Qed.

(** *** The headers of the response *)
Lemma set_headers_lookup hs r name :
  rs_headers (foldl (λ r h, set_header h.1 h.2 r) r hs) !! name =
  match last (filter (λ h, lower h.1 = name) hs) with Some h => Some h.2 | None => rs_headers r !! name end.
Proof.
  induction hs as [|h hs IH] using rev_ind; [done|]. rewrite foldl_app, filter_app. simpl.
  destruct (decide (lower h.1 = name)) as [<-|Hne].
  - rewrite lookup_insert_eq. rewrite (filter_cons_True _ h []), filter_nil by done. by rewrite last_snoc.
  - rewrite lookup_insert_ne, IH by done. rewrite (filter_cons_False _ h []) by done.
    by rewrite filter_nil, app_nil_r.
Qed.

Definition headers_ok (request : HttpRequest) (response : Response) : Prop :=
  (∀ h, h ∈ HEADERS → rs_headers response !! lower h.1 = Some h.2) ∧
  ∃ request_id, rs_headers response !! "x-request-id" = Some request_id ∧
    ∀ incoming, header (rq_conn request) "x-request-id" = Some incoming → request_id = incoming.

Definition returns {A} (m : io (World E) A) (Q : A → Prop) : Prop := ∀ w a w', m w = (Ret a, w') → Q a.

Lemma isolated_returns {A} (m : io (World E) A) Q : returns m Q → returns (isolated m) Q.
Proof.
  intros Hm w a w' Hr. unfold isolated in Hr. destruct (m w) as [o w1] eqn:He. injection Hr as -> <-. by eapply Hm.
Qed.

Lemma trace_returns request (next : App) :
  returns (trace trusted_proxy_ips request next) (λ r, ∃ request_id, rs_headers r !! "x-request-id" = Some request_id ∧
    ∀ incoming, header (rq_conn request) "x-request-id" = Some incoming → request_id = incoming).
Proof.
  intros w r w' Hr. unfold trace in Hr. inv_runs. injection Hr as <- <-. simpl. eexists. split; [apply lookup_insert_eq|].
  by intros i ->.
Qed.

Lemma security_returns request (next : App) :
  returns next (λ r, ∃ request_id, rs_headers r !! "x-request-id" = Some request_id ∧
    ∀ incoming, header (rq_conn request) "x-request-id" = Some incoming → request_id = incoming) →
  returns (security_headers request next) (headers_ok request).
Proof.
  intros Hn w r w' Hr. unfold security_headers in Hr. apply bind_Ret_inv in Hr as (r0 & w1 & Hm & Hr).
  assert (r = foldl (λ r h, set_header h.1 h.2 r) r0 HEADERS) as -> by (unfold mret, io_ret in Hr; congruence).
  specialize (Hn _ _ _ Hm). split.
  - intros h Hh. rewrite set_headers_lookup.
    assert (Forall (λ h, snd <$> last (filter (λ k : string * string, lower k.1 = lower h.1) HEADERS) = Some h.2) HEADERS) as Hall
      by decide_eval.
    rewrite Forall_forall in Hall. specialize (Hall h Hh).
    destruct (last (filter (λ k : string * string, lower k.1 = lower h.1) HEADERS)) as [p|]; [exact Hall|done].
  - destruct Hn as (i & Hi & Hin). exists i. split; [|done]. rewrite set_headers_lookup.
    assert (last (filter (λ k : string * string, lower k.1 = "x-request-id") HEADERS) = None) as -> by (vm_compute; reflexivity).
    done.
Qed.

Lemma access_log_returns request (next : App) Q : returns next Q → returns (access_log ob request next) Q.
Proof.
  intros Hn w r w' Hr. unfold access_log, track_http_request in Hr. apply bind_Ret_inv in Hr as (start & w1 & _ & Hr).
  destruct (negb (metrics_enabled ob)).
  - inv_runs. injection Hr as <- <-. by eapply Hn.
  - apply bind_Ret_inv in Hr as (? & w2 & _ & Hr). apply bind_Ret_inv in Hr as (? & w3 & _ & Hr).
    unfold try_except in Hr. match type of Hr with match ?m with _ => _ end = _ => destruct m as [[r'|e] w4] eqn:Hbody end.
    + injection Hr as <- <-. clear -Hn Hbody. apply bind_Ret_inv in Hbody as (r0 & ? & Hrun & Hbody).
      inv_runs. injection Hbody as <- <-. by eapply Hn.
    + destruct (is_exception e); [|done]. unfold mbind, io_bind in Hr. done.
Qed.

Lemma operation_audit_returns request (next : App) Q : returns next Q → returns (operation_audit operation_queue_size request next) Q.
Proof.
  intros Hn w r w' Hr. unfold operation_audit in Hr. inv_runs. injection Hr as <- <-. by eapply Hn.
Qed.

(** Every response the stack lets through carries the six security headers
    with their exact values and the request id - the incoming one when the
    request has one - whatever headers the application set; the one response
    without them is the limiter's own refusal. *)
Theorem stack_headers app request w response w' :
  the_stack app request w = (Ret response, w') →
  (∃ n, response = too_many n) ∨ headers_ok request response.
Proof.
  unfold stack, middlewares. cbn [foldl]. set (inner := operation_audit operation_queue_size request _).
  assert (returns inner (headers_ok request)) as Hinner.
  { apply operation_audit_returns, isolated_returns, access_log_returns, isolated_returns, security_returns,
      isolated_returns, trace_returns. }
  intros Hrun. destruct (auth_context_run request (rate_limit too_many request (isolated inner)) w) as (w1 & _ & _ & _ & Ha).
  rewrite Hrun in Ha. destruct Ha as (Ho & _). destruct (rate_limit_run too_many request (isolated inner) w1)
    as (w2 & _ & _ & [Hr|[[n Hr]|[e Hr]]]); rewrite Hr in Ho.
  - right. destruct (isolated inner w2) as [o w3] eqn:Hi. simpl in Ho. subst o.
    by apply (isolated_returns inner _ Hinner w2 response w3).
  - left. exists n. simpl in Ho. congruence.
  - done.
Qed.
End stack.
