(* ===== verification/MiddlewareWitness.v ===== *)
(** * MiddlewareWitness: the stack on concrete requests *)
From S2P Require Import Prelude PyText PyStr PyFloat Settings Metrics AuditQueue AccessControl RateLimit Middleware MiddlewareProofs.
Open Scope Z_scope.

Module DemoHttp.
#[global] Instance demo_env : HttpEnv () := {
  http_redis := λ _, true; http_time := mret 5; http_ticks := 10; http_zset := λ _ _ _ _, mret 1;
  http_perf := mret (f_of_Z 1); uuid4 := mret "fresh"; current_span := λ _, Some (255, 16);
  uni_lower := lower; uni_upper := str_map (λ c, if is_lower c then ascii_of_N (N_of_ascii c - 32) else c);
  uni_digit := λ _, false }.
#[global] Instance demo_ip : IpAddress () () := { ip_address := λ _, None; ip_network := λ _, None; ip_in := λ _ _, false }.

Definition post (path : string) : HttpRequest :=
  mkHttpRequest "POST" path (mkRequest (Some "10.0.0.9") (λ h, if String.eqb h "user-agent" then Some "curl" else None)).
(** The application logs the account in, as the dependencies of a route do. *)
Definition demo_app (_ : HttpRequest) : io (World ()) Response :=
  _ ← ctx_mod (set_account (Some "u1") (Some "ADMIN")); mret (mkResponse 201 ∅).
Definition too_many (n : Z) : Response := mkResponse 429 {["retry-after" := str_of_Z n]}.
Definition w0 : World () := mkWorld ctx_default metrics_init (start audit_init) ().
Definition demo_stack := stack ObservabilitySettings_default [] 1000 too_many demo_app.
End DemoHttp.
Import DemoHttp.

Example demo_target :
  _match_audit_target (E:=()) (post "/api/v1/admin/sys/users/0123456789abcdef") = Some ("sys_users_0123456789abcdef", "post") ∧
  _match_audit_target (E:=()) (post "/api/v1/admin/sys/users/u-01234567-x") = Some ("u--x", "post") ∧
  _match_audit_target (E:=()) (post "/api/v1/portal/submissions/rejudge") = Some ("rejudge", "post").
Proof. by vm_compute. Qed.

Lemma audit_target_spec_witness :
  _match_audit_target (E:=()) (post "/api/v1/portal/submissions/rejudge") = Some ("rejudge", "post") ∧
  no_slash "rejudge".
Proof.
  assert (_match_audit_target (E:=()) (post "/api/v1/portal/submissions/rejudge") = Some ("rejudge", "post")) as Hm
    by (vm_compute; reflexivity).
  split; [exact Hm|]. apply (audit_target_spec _ _ _ Hm).
Defined.

Lemma demo_app_keeps request : keeps_audit (demo_app request).
Proof. by intros a w. Qed.

Lemma stack_audit_anonymous_witness :
  let '(o, w') := demo_stack (post "/api/v1/portal/submissions/rejudge") w0 in
  w_ctx w' = w_ctx w0 ∧ ∃ response, o = Ret response ∧
  w_audit w' = (enqueue 1000 (mkAuditEvent "rejudge" "post" "POST" "/api/v1/portal/submissions/rejudge" 201
    None None None None None) (w_audit w0)).2.
Proof.
  pose proof (stack_audit_anonymous ObservabilitySettings_default [] 1000 too_many demo_app
    (post "/api/v1/portal/submissions/rejudge") w0 demo_app_keeps eq_refl eq_refl eq_refl) as Hs.
  unfold demo_stack.
  assert (∃ response w', stack ObservabilitySettings_default [] 1000 too_many demo_app
    (post "/api/v1/portal/submissions/rejudge") w0 = (Ret response, w') ∧ rs_status_code response = 201) as (response & w' & Hr & H201)
    by (eexists _, _; split; [vm_compute; reflexivity|reflexivity]).
  rewrite Hr in Hs. rewrite Hr. destruct Hs as (Hc & _ & Ha). split; [exact Hc|]. exists response. split; [reflexivity|].
  rewrite <-H201. apply (Ha response eq_refl).
  - intros n ->. discriminate H201.
  - vm_compute. reflexivity.
Defined.

Lemma stack_headers_witness :
  ∃ response w', demo_stack (post "/api/v1/portal/submissions/rejudge") w0 = (Ret response, w') ∧
    ((∃ n, response = too_many n) ∨ headers_ok (post "/api/v1/portal/submissions/rejudge") response).
Proof.
  assert (∃ response w', demo_stack (post "/api/v1/portal/submissions/rejudge") w0 = (Ret response, w')) as (response & w' & Hr)
    by (eexists _, _; vm_compute; reflexivity).
  exists response, w'. split; [exact Hr|]. exact (stack_headers _ _ _ _ _ _ _ _ _ Hr).
Defined.
