(* ===== verification/StorageUrl.v ===== *)
(** * StorageUrl: storage configurations, object names and their addresses

    [src/app/platform/storage/config.py] and [url.py]. A name is its UTF-8
    encoding; [quote] of [urllib.parse] works on those bytes. [urljoin] and the
    check of a host's brackets in [urlparse] are the class [UrlLib]. *)
From S2P Require Import Prelude PyText PyStr Encoding Settings.
Open Scope Z_scope.

(** ** config.py *)
Record StorageConfig := mkStorageConfig {
  sc_id : string; sc_name : string; sc_provider : StorageProvider; sc_bucket : string; sc_endpoint : string;
  sc_access_key : string; sc_secret_key : string; sc_region : string; sc_use_ssl : bool; sc_base_url : string;
  sc_public_path : string; sc_local_root : string; sc_is_default : bool; sc_presign_expire_seconds : Z }.
#[export] Instance StorageConfig_eq_dec : EqDecision StorageConfig.
Proof. solve_decision. Defined.

(** [s or d] of a string *)
Definition str_or (s d : string) : string := if str_truthy s then s else d.

Definition fallback_storage_config (st : StorageSettings) : StorageConfig :=
  mkStorageConfig "__settings__" "settings" (st_provider st) (str_or (st_bucket st) "") (str_or (st_endpoint st) "")
    (str_or (st_access_key st) "") (str_or (st_secret_key st) "") (str_or (st_region st) "") (st_use_ssl st)
    (str_or (st_base_url st) "") (str_or (st_public_path st) "/api/v1/files") (str_or (st_local_root st) "storage")
    true (st_presign_expire_seconds st).

(** ** [urllib.parse.quote] *)
Definition always_safe (c : ascii) : bool :=
  is_upper c || is_lower c || is_digit c || existsb (Ascii.eqb c) ["_"; "."; "-"; "~"; "/"]%char.
Definition HEX : string := "0123456789ABCDEF".
Definition hex_digit (n : N) : ascii := default "0"%char (str_chars HEX !! N.to_nat n).
Definition quote_char (c : ascii) : list ascii :=
  if always_safe c then [c] else ["%"%char; hex_digit (N_of_ascii c / 16); hex_digit (N_of_ascii c mod 16)].
Definition quote (s : string) : string := of_chars (str_chars s ≫= quote_char).

(** The reader of quoted text: [unquote_to_bytes] on well-formed escapes. *)
Definition hex_value (c : ascii) : option N :=
  match list_find (λ d, c = d) (str_chars HEX) with Some (i, _) => Some (N.of_nat i) | None => None end.
Fixpoint unquote_go (l : list ascii) : list ascii :=
  match l with
  | [] => []
  | c :: l' =>
      if Ascii.eqb c "%" then
        match l' with
        | a :: b :: l'' =>
            match hex_value a, hex_value b with
            | Some x, Some y => ascii_of_N (x * 16 + y) :: unquote_go l''
            | _, _ => c :: unquote_go l'
            end
        | _ => c :: unquote_go l'
        end
      else c :: unquote_go l'
  end.
Definition unquote (s : string) : string := of_chars (unquote_go (str_chars s)).

Class UrlLib := {
  urljoin : string → string → string;
  (** [urlparse] refuses the host part of a text. *)
  bad_netloc : string → bool }.

(** ** url.py *)
Definition quote_object_name (object_name : string) : string :=
  join "/" (map quote (filter (λ p, str_truthy p = true) (split_on "/" (strip_char "/" object_name)))).

(** [urlparse(value).scheme]: leading control characters and blanks are stripped
    and tabs and line breaks removed; a scheme starts with a letter. *)
Definition scheme_char (c : ascii) : bool :=
  is_upper c || is_lower c || is_digit c || existsb (Ascii.eqb c) ["+"; "-"; "."]%char.
Definition url_clean (s : string) : list ascii :=
  filter (λ c, existsb (Ascii.eqb c) [ascii_of_nat 9; ascii_of_nat 10; ascii_of_nat 13] = false)
    (drop_while (λ c, (N_of_ascii c <=? 32)%N) (str_chars s)).
Fixpoint until_colon (l : list ascii) : option (list ascii) :=
  match l with
  | [] => None
  | c :: l => if Ascii.eqb c ":" then Some [] else cons c <$> until_colon l
  end.
Definition url_scheme (s : string) : string :=
  match until_colon (url_clean s) with
  | Some (c :: pre) =>
      if (is_upper c || is_lower c) && forallb scheme_char (c :: pre) then lower (of_chars (c :: pre)) else ""
  | _ => ""
  end.

(** [value.replace("\\", "/").lstrip("/")] and the other string methods. *)
Definition backslash : ascii := ascii_of_nat 92.

Section url.
Context `{UrlLib} (st : StorageSettings).

Definition build_file_access_url (object_name : string) (base_url public_path : option string) : string :=
  let quoted_name := quote_object_name object_name in
  let resolved_base_url := default (st_base_url st) base_url in
  let resolved_public_path := default (st_public_path st) public_path in
  if str_truthy resolved_base_url then urljoin (rstrip_char "/" resolved_base_url +:+ "/") quoted_name
  else rstrip_char "/" resolved_public_path +:+ "/" +:+ quoted_name.

Definition is_external_url (value : string) : outcome bool :=
  if bad_netloc value then Raise (ValueError "Invalid IPv6 URL")
  else Ret (existsb (String.eqb (url_scheme value)) ["http"; "https"; "data"; "blob"]).

Definition normalize_object_name (value public_path : option string) : outcome (option string) :=
  if negb (opt_str_truthy value) then Ret None
  else
    let raw_value := str_strip (default "" value) in
    if negb (str_truthy raw_value) then Ret None
    else
      external ← is_external_url raw_value;
      if (external : bool) then mret (Some raw_value)
      else
        let resolved_public_path := opt_str_or public_path (st_public_path st) in
        let public_prefix := rstrip_char "/" resolved_public_path +:+ "/" in
        if startswith public_prefix raw_value
        then mret (Some (lstrip_char "/" (str_drop (String.length public_prefix) raw_value)))
        else mret (Some (lstrip_char "/" (replace_char backslash "/" raw_value))).

Definition resolve_file_url (value base_url public_path : option string) : outcome (option string) :=
  object_name ← normalize_object_name value public_path;
  if negb (opt_str_truthy object_name) then mret None
  else
    let name := default "" object_name in
    external ← is_external_url name;
    if (external : bool) then mret (Some name)
    else mret (Some (build_file_access_url name base_url public_path)).
End url.

(** ** Quoting is reversible *)
Lemma hex_table : Forall (λ n, hex_value (hex_digit n) = Some n) (map N.of_nat (seq 0 16)).
Proof. decide_eval. Qed.

Lemma hex_value_digit n : (n < 16)%N → hex_value (hex_digit n) = Some n.
Proof.
  intros Hn. pose proof hex_table as Ha. rewrite Forall_forall in Ha. apply Ha.
  change (map ?f ?l) with (f <$> l). apply list_elem_of_fmap. exists (N.to_nat n).
  rewrite elem_of_seq. split; [by rewrite N2Nat.id|lia].
Qed.

Lemma unquote_quote_char c l : unquote_go (quote_char c ++ l) = c :: unquote_go l.
Proof.
  unfold quote_char. destruct (always_safe c) eqn:Hs.
  - cbn [app unquote_go]. destruct (Ascii.eqb_spec c "%") as [->|]; [done|done].
  - cbn [app unquote_go]. pose proof (N_ascii_bounded c) as Hb.
    change (Ascii.eqb "%" "%") with true. cbv iota.
    assert (N_of_ascii c / 16 < 16)%N by (apply N.Div0.div_lt_upper_bound; lia).
    assert (N_of_ascii c mod 16 < 16)%N by (apply N.mod_lt; lia).
    rewrite !hex_value_digit by done.
    assert (N_of_ascii c / 16 * 16 + N_of_ascii c mod 16 = N_of_ascii c)%N as ->
      by (rewrite N.mul_comm; symmetry; apply N.div_mod'). by rewrite ascii_N_embedding.
Qed.

Lemma unquote_quote s : unquote (quote s) = s.
Proof.
  unfold unquote, quote. rewrite str_of_chars. rewrite <-(of_str_chars s) at 2. f_equal.
  induction (str_chars s) as [|c l IH]; [done|]. rewrite bind_cons, unquote_quote_char. by rewrite IH.
Qed.

(** The parts of a name: the components an address keeps. *)
Definition name_parts (s : string) : list string :=
  filter (λ p, str_truthy p = true) (split_on "/" (strip_char "/" s)).

Lemma quote_inj s t : quote s = quote t → s = t.
Proof. intros He. rewrite <-(unquote_quote s), <-(unquote_quote t). by rewrite He. Qed.

Lemma quote_no_slash s : str_in "/" s = false → str_in "/" (quote s) = false.
Proof.
  unfold quote, str_in. rewrite str_of_chars. induction (str_chars s) as [|c l IH]; [done|]. cbn [existsb].
  intros [Hc Hl]%orb_false_iff. rewrite bind_cons, existsb_app, (IH Hl), orb_false_r.
  unfold quote_char. destruct (always_safe c) eqn:Hs; [cbn [existsb]; by rewrite Hc|].
  assert (Forall (λ n, Ascii.eqb "/" (hex_digit n) = false) (map N.of_nat (seq 0 16))) as Hall by decide_eval.
  assert (∀ n, (n < 16)%N → Ascii.eqb "/" (hex_digit n) = false) as Hd.
  { intros n Hn. rewrite Forall_forall in Hall. apply Hall. change (map ?f ?l) with (f <$> l).
    apply list_elem_of_fmap. exists (N.to_nat n). rewrite elem_of_seq. split; [by rewrite N2Nat.id|lia]. }
  pose proof (N_ascii_bounded c) as Hb. cbn [existsb].
  rewrite !Hd; [done|apply N.mod_lt; lia|apply N.Div0.div_lt_upper_bound; lia].
Qed.

Lemma quote_nonempty s : str_truthy s = true → quote s ≠ "".
Proof.
  intros Hs He. assert (s = "") as ->; [|done]. rewrite <-(unquote_quote s), He. done.
Qed.

Lemma unquote_app_quote a l : unquote_go (str_chars (quote a) ++ l) = str_chars a ++ unquote_go l.
Proof.
  unfold quote. rewrite str_of_chars. induction (str_chars a) as [|c k IH]; [done|].
  rewrite bind_cons, <-app_assoc, unquote_quote_char, IH. done.
Qed.

Lemma join_chars sep (parts : list string) p :
  str_chars (join sep (p :: parts)) = str_chars p ++ concat (map (λ q, str_chars sep ++ str_chars q) parts).
Proof.
  unfold join. revert p. induction parts as [|q parts IH]; intros p; simpl; [by rewrite app_nil_r|].
  rewrite !str_chars_app. f_equal. rewrite <-app_assoc. f_equal. apply IH.
Qed.

Lemma unquote_quote_object_name n : unquote (quote_object_name n) = join "/" (name_parts n).
Proof.
  unfold quote_object_name. fold (name_parts n). unfold unquote. destruct (name_parts n) as [|p parts]; [done|].
  cbn [map]. rewrite join_chars, unquote_app_quote. rewrite <-(of_str_chars (join "/" (p :: parts))). f_equal.
  rewrite join_chars. f_equal. induction parts as [|q parts IH]; [done|]. cbn [map concat].
  rewrite <-!app_assoc. change (str_chars "/" ++ ?l) with ("/"%char :: l). cbn [unquote_go].
  change (Ascii.eqb "/" "%") with false. cbv iota. by rewrite unquote_app_quote, IH.
Qed.

(** Text that the string methods leave alone: printable ASCII without blanks. *)
Definition plain_char (c : ascii) : bool := (33 <=? N_of_ascii c)%N && (N_of_ascii c <=? 126)%N.

Lemma plain_bound c : plain_char c = true → 33 ≤ Z.of_N (N_of_ascii c) ≤ 126.
Proof. unfold plain_char. intros [H1%N.leb_le H2%N.leb_le]%andb_true_iff. lia. Qed.

Lemma safe_plain c : always_safe c = true → plain_char c = true.
Proof.
  by destruct c as [[] [] [] [] [] [] [] []].
Qed.

Lemma hex_digit_plain n : (n < 16)%N → plain_char (hex_digit n) = true.
Proof.
  assert (Forall (λ n, plain_char (hex_digit n) = true) (map N.of_nat (seq 0 16))) as Hall by decide_eval.
  intros Hn. rewrite Forall_forall in Hall. apply Hall. change (map ?f ?l) with (f <$> l).
  apply list_elem_of_fmap. exists (N.to_nat n). rewrite elem_of_seq. split; [by rewrite N2Nat.id|lia].
Qed.

Lemma quote_char_plain c : Forall (λ c, plain_char c = true) (quote_char c).
Proof.
  unfold quote_char. pose proof (N_ascii_bounded c) as Hb. destruct (always_safe c) eqn:Hs.
  - constructor; [by apply safe_plain|done].
  - constructor; [done|]. constructor; [apply hex_digit_plain, N.Div0.div_lt_upper_bound; lia|].
    constructor; [apply hex_digit_plain, N.mod_lt; lia|done].
Qed.

Lemma quote_plain s : Forall (λ c, plain_char c = true) (str_chars (quote s)).
Proof.
  unfold quote. rewrite str_of_chars. apply Forall_bind, Forall_forall. intros c _. apply quote_char_plain.
Qed.

Lemma plain_strip s : Forall (λ c, plain_char c = true) (str_chars s) → str_strip s = s.
Proof.
  intros Hs. unfold str_strip, to_text, of_text.
  assert (∀ l, Forall (λ c, plain_char c = true) l → utf8_decode (map (λ c, Z.of_N (N_of_ascii c)) l) = map (λ c, Z.of_N (N_of_ascii c)) l
    ∧ utf8_encode (map (λ c, Z.of_N (N_of_ascii c)) l) = map (λ c, Z.of_N (N_of_ascii c)) l) as Hcodec.
  { intros l Hl. induction Hl as [|c l Hc%plain_bound _ [IH1 IH2]]; [done|]. cbn [map].
    assert (0 ≤ Z.of_N (N_of_ascii c) < 128) by lia. split.
    - cbn [utf8_decode]. by rewrite (proj2 (in_range_true 0 127 _)), IH1 by lia.
    - unfold utf8_encode in *. rewrite bind_cons, IH2. unfold utf8_encode_char.
      by rewrite (proj2 (Z.ltb_lt _ 128)) by lia. }
  destruct (Hcodec _ Hs) as [-> _].
  assert (∀ l, Forall (λ c, plain_char c = true) l → lstrip (map (λ c, Z.of_N (N_of_ascii c)) l) = map (λ c, Z.of_N (N_of_ascii c)) l) as Hl.
  { intros l Hl. destruct Hl as [|c l Hc%plain_bound _]; [done|]. cbn [map lstrip].
    assert (is_space (Z.of_N (N_of_ascii c)) = false) as ->; [|done]. unfold is_space.
    repeat rewrite orb_false_iff. unfold in_range. split_and?; lia. }
  unfold strip, rstrip. rewrite Hl by done.
  change (map ?f ?l) with (f <$> l). rewrite <-fmap_reverse. change (?f <$> reverse ?l) with (map f (reverse l)).
  rewrite Hl by by apply Forall_reverse. change (map ?f ?l) with (f <$> l). rewrite <-fmap_reverse, reverse_involutive.
  change (?f <$> str_chars s) with (map f (str_chars s)). destruct (Hcodec _ Hs) as [_ ->].
  rewrite <-(of_str_chars s) at 2. f_equal. rewrite map_map. clear. induction (str_chars s) as [|c l IH]; [done|].
  cbn [map]. rewrite IH, N2Z.id, ascii_N_embedding. done.
Qed.

Lemma startswith_app a b : startswith a (a +:+ b) = true.
Proof. unfold startswith. induction a as [|c a IH]; [by destruct b|]. simpl. by destruct (ascii_dec c c). Qed.

Lemma plain_str_app a b :
  Forall (λ c, plain_char c = true) (str_chars a) → Forall (λ c, plain_char c = true) (str_chars b) →
  Forall (λ c, plain_char c = true) (str_chars (a +:+ b)).
Proof. intros Ha Hb. rewrite str_chars_app. by apply Forall_app. Qed.

Lemma drop_while_plain l : Forall (λ c, plain_char c = true) l → drop_while (λ c, (N_of_ascii c <=? 32)%N) l = l.
Proof. intros Hl. destruct Hl as [|c l Hc%plain_bound _]; [done|]. simpl. by rewrite (proj2 (N.leb_gt _ _)) by lia. Qed.

Lemma startswith_slash s : startswith "/" s = true → ∃ t, s = String "/" t.
Proof.
  unfold startswith. destruct s as [|c s]; [done|]. cbn [String.prefix].
  destruct (ascii_dec "/" c) as [<-|]; [by exists s|done].
Qed.

(** A path is not an external address. *)
Lemma path_scheme s : Forall (λ c, plain_char c = true) (str_chars s) → startswith "/" s = true → url_scheme s = "".
Proof.
  intros Hs Hp. unfold url_scheme, url_clean. rewrite drop_while_plain by done.
  apply startswith_slash in Hp as [t ->]. cbn [str_chars String.list_ascii_of_string]. rewrite filter_cons_True by done. cbn [until_colon].
  change (Ascii.eqb "/" ":") with false. cbv iota. by destruct (until_colon _).
Qed.

Lemma lstrip_quoted parts :
  Forall (λ p, str_truthy p = true ∧ str_in "/" p = false) parts →
  lstrip_char "/" (join "/" (map quote parts)) = join "/" (map quote parts).
Proof.
  intros Hall. unfold lstrip_char. rewrite <-(of_str_chars (join "/" (map quote parts))) at 2. f_equal.
  destruct Hall as [|p parts [Ht Hs] _]; [done|]. cbn [map]. rewrite join_chars.
  pose proof (quote_nonempty p Ht) as Hne. pose proof (quote_no_slash p Hs) as Hns.
  destruct (quote p) as [|c q]; [done|]. cbn [str_chars String.list_ascii_of_string app drop_while].
  unfold str_in in Hns. cbn [str_chars String.list_ascii_of_string existsb] in Hns.
  apply orb_false_iff in Hns as [-> _]. done.
Qed.

Lemma name_parts_ok n : Forall (λ p, str_truthy p = true ∧ str_in "/" p = false) (name_parts n).
Proof.
  unfold name_parts. apply Forall_forall. intros p [Hp Hin]%list_elem_of_filter. split; [done|].
  pose proof (split_on_Forall "/" (strip_char "/" n)) as Hall. rewrite Forall_forall in Hall. by apply Hall.
Qed.

Lemma quoted_plain n : Forall (λ c, plain_char c = true) (str_chars (quote_object_name n)).
Proof.
  unfold quote_object_name. destruct (filter _ _) as [|p parts]; [constructor|]. cbn [map]. rewrite join_chars.
  apply Forall_app. split; [apply quote_plain|]. induction parts as [|q parts IH]; [constructor|]. cbn [map concat].
  apply Forall_app. split; [|done]. apply Forall_app. split; [by repeat constructor|apply quote_plain].
Qed.

Section roundtrip.
Context `{UrlLib} (st : StorageSettings).

(** The address of a stored object leads back to it: with the files served
    under a path, the address built for a name is recognised as that of a stored
    object, what remains after the prefix is the quoted name, and undoing the
    quoting gives the components of the name - so no two names with different
    components share an address. The normaliser does not undo the quoting. *)
Theorem file_url_roundtrip n :
  st_base_url st = "" → startswith "/" (st_public_path st) = true →
  Forall (λ c, plain_char c = true) (str_chars (st_public_path st)) →
  bad_netloc (build_file_access_url st n None None) = false →
  normalize_object_name st (Some (build_file_access_url st n None None)) None = Ret (Some (quote_object_name n)) ∧
  unquote (quote_object_name n) = join "/" (name_parts n).
Proof.
  intros Hbase Hpath Hplain Hnet. split; [|apply unquote_quote_object_name].
  unfold build_file_access_url in *. rewrite Hbase in *. simpl str_truthy in *. cbv iota in *. cbn [default] in *.
  set (prefix := rstrip_char "/" (st_public_path st)) in *. set (q := quote_object_name n) in *.
  assert (Forall (λ c, plain_char c = true) (str_chars prefix)) as Hpp.
  { unfold prefix, rstrip_char. rewrite str_of_chars. apply Forall_reverse.
    assert (∀ l f, Forall (λ c, plain_char c = true) l → Forall (λ c, plain_char c = true) (drop_while f l)) as Hdw.
    { intros l f Hl. induction Hl as [|c l Hc Hl IH]; simpl; [constructor|]. destruct (f c); [done|by constructor]. }
    by apply Hdw, Forall_reverse. }
  assert (Forall (λ c, plain_char c = true) (str_chars (prefix +:+ "/" +:+ q))) as Hurl.
  { apply plain_str_app; [done|]. apply plain_str_app; [by repeat constructor|apply quoted_plain]. }
  assert (startswith "/" (prefix +:+ "/" +:+ q) = true) as Hslash.
  { unfold prefix, rstrip_char. apply startswith_slash in Hpath as [p ->].
    cbn [str_chars String.list_ascii_of_string]. rewrite reverse_cons.
    assert (∀ l, ∃ k, reverse (drop_while (Ascii.eqb "/") (reverse l ++ ["/"%char])) = k ∧ (k = [] ∨ ∃ k', k = "/"%char :: k')) as Hdw.
    { intros l. induction (reverse l) as [|d r IH]; [eexists; split; [reflexivity|by left]|]. cbn [app drop_while].
      destruct (Ascii.eqb "/" d); [exact IH|]. eexists. split; [reflexivity|]. right.
      rewrite app_comm_cons, reverse_app. by eexists. }
    destruct (Hdw (String.list_ascii_of_string p)) as (k & Hk & Hcase). rewrite Hk.
    destruct Hcase as [Hk0|[k' Hk0]]; rewrite Hk0; [exact (startswith_app "/" q)|].
    exact (startswith_app "/" (of_chars k' +:+ "/" +:+ q)). }
  unfold normalize_object_name. cbn [opt_str_truthy default].
  assert (str_truthy (prefix +:+ "/" +:+ q) = true) as -> by (by destruct prefix). cbn [negb].
  cbv zeta. unfold id. rewrite plain_strip by done.
  assert (str_truthy (prefix +:+ "/" +:+ q) = true) as -> by (by destruct prefix). cbn [negb].
  unfold is_external_url. rewrite Hnet, path_scheme by done. cbn [existsb String.eqb mbind outcome_bind orb]. cbv iota.
  change (rstrip_char "/" (opt_str_or None (st_public_path st))) with prefix.
  assert (∀ a, a +:+ "/" +:+ q = (a +:+ "/") +:+ q) as Hassoc.
  { intros a. induction a as [|c a IH]; [done|]. change (String c (a +:+ "/" +:+ q) = String c ((a +:+ "/") +:+ q)). by rewrite IH. }
  rewrite Hassoc.
  rewrite startswith_app, str_drop_app. unfold mret, outcome_ret. do 2 f_equal. unfold q, quote_object_name. fold (name_parts n).
  by apply lstrip_quoted, name_parts_ok.
Qed.
End roundtrip.

#[export] Instance demo_url_lib : UrlLib := { urljoin := λ a b, a +:+ b; bad_netloc := λ _, false }.

(** The name [a b.txt] does not come back from its own address. *)
Example quoted_name_not_restored :
  normalize_object_name StorageSettings_default (Some (build_file_access_url StorageSettings_default "docs/a b.txt" None None)) None =
    Ret (Some "docs/a%20b.txt").
Proof. vm_compute. reflexivity. Qed.

Lemma file_url_roundtrip_witness :
  normalize_object_name StorageSettings_default
    (Some (build_file_access_url StorageSettings_default "/docs//a b.txt" None None)) None = Ret (Some "docs/a%20b.txt").
Proof.
  assert (Forall (λ c, plain_char c = true) (str_chars (st_public_path StorageSettings_default))) as Hp by decide_eval.
  exact (proj1 (file_url_roundtrip StorageSettings_default "/docs//a b.txt" eq_refl eq_refl Hp eq_refl)).
Defined.
