(* ===== verification/LocalStore.v ===== *)
(** * LocalStore: objects kept as files ([src/app/platform/storage/local.py])

    The file system is a tree of files, directories and symbolic links, given by
    the absolute paths of its nodes (the list of their components). [resolve]
    follows links as [Path.resolve] does; a chain longer than [max_links] is
    reported as a loop. The process has the rights its operations need. *)
From S2P Require Import Prelude PyText PyStr Encoding Settings StorageUrl.
Open Scope Z_scope.

Notation path := (list string) (only parsing).

Inductive Node := File (content : byte_list) (mtime_ns : Z) | Dir | Link (target : string).
#[export] Instance Node_eq_dec : EqDecision Node.
Proof. solve_decision. Defined.

Record FsWorld := mkFsWorld { fs : gmap path Node; now_ns : Z }.
Definition set_fs (f : gmap path Node → gmap path Node) (w : FsWorld) : FsWorld := mkFsWorld (f (fs w)) (now_ns w).

(** The components of a path text, and [a / b]: an absolute right-hand side
    replaces the left. *)
Definition parts (s : string) : path := filter (λ c, c ≠ "" ∧ c ≠ ".") (split_on "/" s).
Definition is_absolute (s : string) : bool := startswith "/" s.
Definition join_path (base : path) (s : string) : path := if is_absolute s then parts s else base ++ parts s.

(** [os.path.realpath]: component by component, [..] goes up from what is
    resolved so far, a link is replaced by its target. *)
Fixpoint walk (links : nat) (t : gmap path Node) : path → path → option path :=
  fix go (pre rest : path) : option path :=
    match rest with
    | [] => Some pre
    | c :: rest =>
        if decide (c = "..") then go (removelast pre) rest
        else match t !! (pre ++ [c]) with
             | Some (Link target) =>
                 match links with
                 | O => None
                 | S links => walk links t (if is_absolute target then [] else pre) (parts target ++ rest)
                 end
             | _ => go (pre ++ [c]) rest
             end
    end.

Definition has_nul (s : string) : bool := str_in (ascii_of_nat 0) s.

Section local.
Context (max_links : nat).

Definition resolve (p : path) : io FsWorld path := λ w,
  match walk max_links (fs w) [] p with
  | Some r => (Ret r, w)
  | None => (Raise (RuntimeError "Symlink loop"), w)
  end.

(** [path.mkdir(parents=True, exist_ok=True)]: from the top; a file in the way
    raises. *)
Fixpoint mkdir_below (pre rest : path) (t : gmap path Node) : outcome (gmap path Node) :=
  match rest with
  | [] => Ret t
  | c :: rest =>
      let p := pre ++ [c] in
      match t !! p with
      | None => mkdir_below p rest (<[p := Dir]> t)
      | Some Dir => mkdir_below p rest t
      | Some _ => Raise (OSError "File exists")
      end
  end.
Definition mkdir_parents (p : path) : io FsWorld () := λ w,
  match mkdir_below [] p (fs w) with
  | Ret t => (Ret (), set_fs (λ _, t) w)
  | Raise e => (Raise e, w)
  end.

Definition write_bytes (p : path) (content : byte_list) : io FsWorld () := λ w,
  match fs w !! p with
  | Some Dir => (Raise (OSError "Is a directory"), w)
  | _ => (Ret (), set_fs <[p := File content (now_ns w)]> w)
  end.

Definition read_bytes (p : path) : io FsWorld byte_list := λ w,
  match fs w !! p with
  | Some (File content _) => (Ret content, w)
  | Some _ => (Raise (OSError "Is a directory"), w)
  | None => (Raise (FileNotFoundError "No such file or directory"), w)
  end.

Definition unlink (p : path) : io FsWorld () := λ w,
  match fs w !! p with
  | Some Dir => (Raise (OSError "Is a directory"), w)
  | Some _ => (Ret (), set_fs (delete p) w)
  | None => (Raise (FileNotFoundError "No such file or directory"), w)
  end.

(** ** LocalStorage *)
Definition local_init (root : string) (project_root : path) : io FsWorld path :=
  r ← resolve (if is_absolute root then parts root else project_root ++ parts root);
  _ ← mkdir_parents r;
  mret r.

Record Head := mkHead { h_etag : string; h_content_length : Z }.

Context `{UrlLib} (st : StorageSettings) (config : option StorageConfig) (root : path).

Definition get_path (object_name : string) : io FsWorld path :=
  if has_nul object_name then raise (ValueError "embedded null byte")
  else
    target ← resolve (join_path root object_name);
    if bool_decide (target ≠ root) && negb (bool_decide (root `prefix_of` target ∧ target ≠ root))
    then raise (ValueError "Invalid object name")
    else mret target.

Definition local_object_url (object_name : string) : string :=
  match config with
  | None => build_file_access_url st object_name None None
  | Some c => build_file_access_url st object_name (Some (sc_base_url c)) (Some (sc_public_path c))
  end.

Definition upload_bytes (object_name : string) (content : byte_list) : io FsWorld string :=
  target ← get_path object_name;
  _ ← mkdir_parents (removelast target);
  _ ← write_bytes target content;
  mret (local_object_url object_name).

Definition download_bytes (object_name : string) : io FsWorld byte_list :=
  target ← get_path object_name; read_bytes target.

Definition head_object (object_name : string) : io FsWorld (option Head) :=
  target ← get_path object_name;
  w ← get;
  match fs w !! target with
  | Some (File content mtime) =>
      mret (Some (mkHead (str_of_Z mtime +:+ "-" +:+ str_of_Z (Z.of_nat (length content))) (Z.of_nat (length content))))
  | _ => mret None
  end.

Definition delete_object (object_name : string) : io FsWorld () :=
  target ← get_path object_name;
  w ← get;
  if bool_decide (is_Some (fs w !! target)) then unlink target else mret ().

Definition local_presigned_url (object_name : string) : string := local_object_url object_name.

(** ** Containment *)

(** The root directory exists, and so do the directories above it. *)
Definition root_ok (t : gmap path Node) : Prop := ∀ p, p `prefix_of` root → t !! p = Some Dir.

(** Nothing outside the root differs. *)
Definition same_outside (t t' : gmap path Node) : Prop := ∀ p, ¬ (root `prefix_of` p) → t' !! p = t !! p.

Lemma get_path_inside name w target w' :
  get_path name w = (Ret target, w') → root `prefix_of` target ∧ w' = w.
Proof.
  unfold get_path. destruct (has_nul name); [done|]. intros (t & w1 & Hres & Hr)%bind_Ret_inv.
  unfold resolve in Hres. destruct (walk max_links (fs w) [] (join_path root name)) as [r|]; [|done].
  injection Hres as <- <-. destruct (_ && _) eqn:Hchk in Hr; [done|]. injection Hr as <- <-. split; [|done].
  apply andb_false_iff in Hchk as [H1|H1].
  - apply bool_decide_eq_false in H1. assert (r = root) as -> by (by apply dec_stable). done.
  - apply negb_false_iff, bool_decide_eq_true in H1. tauto.
Qed.

Lemma get_path_raises name w e w' : get_path name w = (Raise e, w') → w' = w.
Proof.
  unfold get_path. destruct (has_nul name); [by intros [=]|]. unfold mbind, io_bind, resolve.
  destruct (walk max_links (fs w) [] (join_path root name)) as [r|]; [|by intros [=]].
  destruct (_ && _); by intros [=].
Qed.

Lemma mkdir_below_spec pre rest t t' :
  mkdir_below pre rest t = Ret t' →
  ∀ p, t' !! p = t !! p ∨
    (t !! p = None ∧ t' !! p = Some Dir ∧ ∃ k, k ≠ [] ∧ k `prefix_of` rest ∧ p = pre ++ k).
Proof.
  revert pre t. induction rest as [|c rest IH]; intros pre t; simpl; [intros [= <-] p; by left|].
  destruct (t !! (pre ++ [c])) as [[content m| |target]|] eqn:Hp; [done| |done|]; intros Hrec p;
    destruct (IH _ _ Hrec p) as [Heq|(Hn & Hd & k & Hne & Hk & ->)].
  - by left.
  - right. split_and!; try done. exists (c :: k). rewrite <-app_assoc. split_and!; [done|by apply prefix_cons|done].
  - destruct (decide (p = pre ++ [c])) as [->|Hne].
    + right. rewrite Heq, lookup_insert_eq. split_and!; [done|done|]. exists [c].
      split_and!; [done|apply prefix_cons, prefix_nil|done].
    + left. by rewrite Heq, lookup_insert_ne.
  - right. rewrite lookup_insert_None in Hn. destruct Hn as [Hn _]. split_and!; try done.
    exists (c :: k). rewrite <-app_assoc. split_and!; [done|by apply prefix_cons|done].
Qed.

(** The parts of the path above a node are shorter than it. *)
Lemma removelast_prefix (target : path) : removelast target `prefix_of` target.
Proof.
  destruct (decide (target = [])) as [->|Ht]; [done|]. exists [List.last target ""].
  by apply app_removelast_last.
Qed.
Lemma removelast_not_prefix (target : path) : target ≠ [] → ¬ target `prefix_of` removelast target.
Proof.
  intros Ht Hp%prefix_length. rewrite (app_removelast_last "" Ht) in Hp at 1. rewrite length_app in Hp. simpl in Hp. lia.
Qed.

(** Creating the directories above a path of the root changes nothing outside,
    and leaves files and links alone. *)
Lemma mkdir_parents_run target w w' :
  root `prefix_of` target → root_ok (fs w) → mkdir_parents (removelast target) w = (Ret (), w') →
  same_outside (fs w) (fs w') ∧ now_ns w' = now_ns w ∧
  (∀ p, fs w !! p ≠ None → fs w' !! p = fs w !! p) ∧ (fs w !! target = None → fs w' !! target = None).
Proof.
  intros Hin Hroot. unfold mkdir_parents. destruct (mkdir_below [] (removelast target) (fs w)) as [t'|] eqn:Hmk; [|done].
  intros [= <-]. pose proof (mkdir_below_spec [] (removelast target) (fs w) t' Hmk) as Hspec. simpl. split_and!; [|done|..].
  - intros p Hout. destruct (Hspec p) as [?|(Hn & _ & k & Hne & Hk & ->)]; [done|]. simpl in *. exfalso.
    assert (k `prefix_of` target) as Hkt by (etransitivity; [exact Hk|apply removelast_prefix]).
    destruct (prefix_weak_total k root target Hkt Hin) as [Hkr|?]; [|done].
    by rewrite (Hroot k Hkr) in Hn.
  - intros p Hp. by destruct (Hspec p) as [?|(Hn & _)].
  - intros Ht. destruct (Hspec target) as [->|(_ & _ & k & Hne & Hk & ->)]; [done|]. simpl in *. exfalso.
    by apply (removelast_not_prefix k).
Qed.

Lemma write_bytes_outside target content w :
  root `prefix_of` target → same_outside (fs w) (fs (write_bytes target content w).2).
Proof.
  intros Hin p Hp. unfold write_bytes. assert (target ≠ p) as Hne by (by intros ->).
  destruct (fs w !! target) as [[]|]; simpl; try rewrite lookup_insert_ne; done.
Qed.

(** ** Resolution sees only the links *)
Definition same_links (t t' : gmap path Node) : Prop := ∀ p target, t !! p = Some (Link target) ↔ t' !! p = Some (Link target).

Lemma walk_same_links t t' : same_links t t' → ∀ links pre rest, walk links t pre rest = walk links t' pre rest.
Proof.
  intros Hl links. induction links as [|links IHl]; intros pre rest; revert pre;
    (induction rest as [|c rest IH]; intros pre; [done|]); simpl; (case_decide; [apply IH|]);
    pose proof (Hl (pre ++ [c])) as Hp;
    destruct (t !! (pre ++ [c])) as [[| |target]|], (t' !! (pre ++ [c])) as [[| |target']|];
    try apply IH; try (specialize (Hp target); naive_solver); try (specialize (Hp target'); naive_solver).
Qed.

(** No component of a resolved path is a link. *)
Definition no_links (t : gmap path Node) (pre : path) : Prop :=
  ∀ p target, p `prefix_of` pre → t !! p ≠ Some (Link target).

Lemma no_links_removelast t pre : no_links t pre → no_links t (removelast pre).
Proof. intros Hd p target Hp. apply Hd. etransitivity; [exact Hp|apply removelast_prefix]. Qed.

Lemma no_links_snoc t pre c :
  no_links t pre → (∀ target, t !! (pre ++ [c]) ≠ Some (Link target)) → no_links t (pre ++ [c]).
Proof.
  intros Hd Hc p target [k Hk]. destruct k as [|x k _] using rev_ind.
  - rewrite app_nil_r in Hk. subst p. apply Hc.
  - rewrite app_assoc in Hk. apply app_inj_tail in Hk as [-> _]. apply Hd. by exists k.
Qed.

Lemma walk_no_links t : (∀ target, t !! [] ≠ Some (Link target)) →
  ∀ links pre rest r, no_links t pre → walk links t pre rest = Some r → no_links t r.
Proof.
  intros Hnil links. induction links as [|links IHl]; intros pre rest; revert pre;
    (induction rest as [|c rest IH]; intros pre r Hd; [by intros [= <-]|]); simpl;
    (case_decide; [by apply IH, no_links_removelast|]);
    destruct (t !! (pre ++ [c])) as [[| |target]|] eqn:Hp;
    try (apply IH, no_links_snoc; [done|congruence]); [done|].
  apply IHl. destruct (is_absolute target); [|done]. intros p tg Hpre. apply prefix_nil_inv in Hpre as ->. apply Hnil.
Qed.

(** C20. An object never leaves its storage directory: whatever the name - with
    dots going up, absolute, or through symbolic links inside the directory - an
    upload or a deletion changes no file outside the root, and a name that
    resolves outside raises before anything is read or written. *)
Theorem local_storage_contained name content w :
  root_ok (fs w) →
  same_outside (fs w) (fs (upload_bytes name content w).2) ∧
  same_outside (fs w) (fs (delete_object name w).2) ∧
  ((∀ r, walk max_links (fs w) [] (join_path root name) = Some r → ¬ root `prefix_of` r) →
   ∃ e, upload_bytes name content w = (Raise e, w) ∧ download_bytes name w = (Raise e, w) ∧
        head_object name w = (Raise e, w) ∧ delete_object name w = (Raise e, w)).
Proof.
  intros Hroot. split_and!.
  - unfold upload_bytes. unfold mbind at 1, io_bind at 1. destruct (get_path name w) as [[target|e] w1] eqn:Hg;
      [|by rewrite (get_path_raises _ _ _ _ Hg)]. destruct (get_path_inside _ _ _ _ Hg) as [Hin ->].
    unfold mbind at 1, io_bind at 1. destruct (mkdir_parents (removelast target) w) as [[[]|e] w2] eqn:Hmk.
    + destruct (mkdir_parents_run target w w2 Hin Hroot Hmk) as (Hsame & _).
      pose proof (write_bytes_outside target content w2 Hin) as Hw. unfold mbind, io_bind.
      destruct (write_bytes target content w2) as [[[]|e] w3]; simpl in *; intros p Hp; by rewrite Hw, Hsame.
    + unfold mkdir_parents in Hmk. destruct (mkdir_below _ _ _); [done|]. by injection Hmk as <- <-.
  - unfold delete_object. unfold mbind at 1, io_bind at 1. destruct (get_path name w) as [[target|e] w1] eqn:Hg;
      [|by rewrite (get_path_raises _ _ _ _ Hg)]. destruct (get_path_inside _ _ _ _ Hg) as [Hin ->].
    unfold mbind, io_bind, get. case_bool_decide; [|done]. intros p Hp. assert (target ≠ p) by (by intros ->).
    unfold unlink. destruct (fs w !! target) as [[]|]; simpl; rewrite ?lookup_delete_ne by done; done.
  - intros Hout. assert (∃ e, get_path name w = (Raise e, w)) as [e He].
    { destruct (get_path name w) as [[target|e] w1] eqn:Hg; [|by rewrite (get_path_raises _ _ _ _ Hg); eauto].
      exfalso. destruct (get_path_inside _ _ _ _ Hg) as [Hin ->]. revert Hg. unfold get_path.
      destruct (has_nul name); [done|]. intros (r & w1 & Hres & Hr)%bind_Ret_inv. unfold resolve in Hres.
      destruct (walk max_links (fs w) [] (join_path root name)) as [r'|]; [|done]. injection Hres as <- <-.
      destruct (_ && _) in Hr; [done|]. injection Hr as <-. by apply (Hout r'). }
    exists e. unfold upload_bytes, download_bytes, head_object, delete_object.
    by rewrite !(run_raise _ _ _ _ _ He).
Qed.

Lemma get_path_resolved name w target :
  root_ok (fs w) → get_path name w = (Ret target, w) →
  walk max_links (fs w) [] (join_path root name) = Some target ∧ no_links (fs w) target.
Proof.
  intros Hroot. unfold get_path. destruct (has_nul name); [done|]. intros (r & w1 & Hres & Hr)%bind_Ret_inv.
  unfold resolve in Hres. destruct (walk max_links (fs w) [] (join_path root name)) as [r'|] eqn:Hwalk; [|done].
  injection Hres as <- <-. destruct (_ && _) in Hr; [done|]. injection Hr as <-. split; [done|].
  assert (fs w !! [] = Some Dir) as Hnil by apply Hroot, prefix_nil.
  eapply walk_no_links; [| |exact Hwalk]; [by rewrite Hnil|].
  intros p tg Hp. apply prefix_nil_inv in Hp as ->. by rewrite Hnil.
Qed.

(** The same name leads to the same path while the links stay. *)
Lemma get_path_stable name w w' target :
  same_links (fs w) (fs w') → get_path name w = (Ret target, w) → get_path name w' = (Ret target, w').
Proof.
  intros Hl. unfold get_path. destruct (has_nul name); [done|]. unfold mbind, io_bind, resolve.
  rewrite (walk_same_links _ _ Hl). destruct (walk max_links (fs w') [] (join_path root name)) as [r|]; [|done].
  destruct (_ && _); [done|]. by intros [= <-].
Qed.

Lemma upload_inv name content w url w' :
  root_ok (fs w) → upload_bytes name content w = (Ret url, w') →
  ∃ target w1, get_path name w = (Ret target, w) ∧ root `prefix_of` target ∧ url = local_object_url name ∧
    mkdir_parents (removelast target) w = (Ret (), w1) ∧ now_ns w1 = now_ns w ∧
    (∀ p, fs w !! p ≠ None → fs w1 !! p = fs w !! p) ∧
    fs w1 !! target ≠ Some Dir ∧ w' = set_fs <[target := File content (now_ns w)]> w1.
Proof.
  intros Hroot. unfold upload_bytes. intros (target & w0 & Hg & Hr)%bind_Ret_inv.
  destruct (get_path_inside _ _ _ _ Hg) as [Hin ->]. apply bind_Ret_inv in Hr as ([] & w1 & Hmk & Hr).
  apply bind_Ret_inv in Hr as ([] & w2 & Hwr & Hr). injection Hr as <- <-.
  destruct (mkdir_parents_run target w w1 Hin Hroot Hmk) as (_ & Hnow & Hkeep & _).
  exists target, w1. split_and!; try done.
  - intros Hd. unfold write_bytes in Hwr. by rewrite Hd in Hwr.
  - unfold write_bytes in Hwr. rewrite Hnow in Hwr. by destruct (fs w1 !! target) as [[]|]; simplify_eq.
Qed.

(** C21. What is stored is what was uploaded: after an upload that returned, the
    same name downloads the same bytes, its head tells their number, every other
    file and directory is as it was, and deleting the name removes exactly that
    object. *)
Theorem local_storage_roundtrip name content w url w' :
  root_ok (fs w) → upload_bytes name content w = (Ret url, w') →
  let size := Z.of_nat (length content) in
  let head := mkHead (str_of_Z (now_ns w) +:+ "-" +:+ str_of_Z size) size in
  url = local_object_url name ∧
  download_bytes name w' = (Ret content, w') ∧
  head_object name w' = (Ret (Some head), w') ∧
  ∃ target w2, get_path name w = (Ret target, w) ∧
    (∀ p, p ≠ target → fs w !! p ≠ None → fs w' !! p = fs w !! p) ∧
    delete_object name w' = (Ret (), w2) ∧ fs w2 = delete target (fs w') ∧ head_object name w2 = (Ret None, w2).
Proof.
  intros Hroot Hup size head. destruct (upload_inv name content w url w' Hroot Hup)
    as (target & w1 & Hg & Hin & -> & Hmk & Hnow & Hkeep & Hnd & ->). split; [done|].
  destruct (get_path_resolved name w target Hroot Hg) as [_ Hnl].
  assert (fs w !! target ≠ Some Dir) as Hnd0.
  { intros Hd. apply Hnd. by rewrite Hkeep by by rewrite Hd. }
  assert (same_links (fs w) (fs w1)) as Hl1.
  { intros p tg. unfold mkdir_parents in Hmk. destruct (mkdir_below [] (removelast target) (fs w)) as [t'|] eqn:Hb; [|done].
    injection Hmk as <-. simpl. destruct (mkdir_below_spec _ _ _ _ Hb p) as [->|(Hn & Hd & _)]; [done|]. by rewrite Hn, Hd. }
  set (w' := set_fs <[target := File content (now_ns w)]> w1).
  assert (same_links (fs w) (fs w')) as Hl2.
  { intros p tg. unfold w'. simpl. destruct (decide (p = target)) as [->|Hne].
    - rewrite lookup_insert_eq. split; [|done]. intros Hlk. by destruct (Hnl target tg).
    - rewrite lookup_insert_ne by done. apply Hl1. }
  pose proof (get_path_stable name w w' target Hl2 Hg) as Hg'.
  assert (fs w' !! target = Some (File content (now_ns w))) as Hfile by (unfold w'; simpl; by rewrite lookup_insert_eq).
  set (w2 := set_fs (delete target) w').
  assert (same_links (fs w) (fs w2)) as Hl3.
  { intros p tg. unfold w2. simpl. destruct (decide (p = target)) as [->|Hne].
    - rewrite lookup_delete_eq. split; [|done]. intros Hlk. by destruct (Hnl target tg).
    - rewrite !lookup_delete_ne, lookup_insert_ne by done. apply Hl1. }
  pose proof (get_path_stable name w w2 target Hl3 Hg) as Hg2. split_and!.
  - unfold download_bytes. rewrite (run_ret _ _ _ _ _ Hg'). unfold read_bytes. by rewrite Hfile.
  - unfold head_object. rewrite (run_ret _ _ _ _ _ Hg'). unfold mbind, io_bind, get. by rewrite Hfile.
  - exists target, w2. split; [done|]. split.
    { intros p Hp Hn. unfold w'. simpl. by rewrite lookup_insert_ne, Hkeep. }
    split; [|split; [done|]].
    + unfold delete_object. rewrite (run_ret _ _ _ _ _ Hg'). unfold mbind, io_bind, get.
      rewrite bool_decide_true by (rewrite Hfile; eauto). unfold unlink. by rewrite Hfile.
    + unfold head_object. rewrite (run_ret _ _ _ _ _ Hg2). unfold mbind, io_bind, get.
      assert (fs w2 !! target = None) as -> by (unfold w2; simpl; by rewrite lookup_delete_eq). done.
Qed.
End local.

(** A directory with a link that leads out of it. *)
Definition demo_fs : FsWorld :=
  mkFsWorld (<[["srv"; "up"; "out"] := Link "/etc"]> (<[["etc"] := Dir]> (<[["srv"; "up"] := Dir]>
    (<[["srv"] := Dir]> (<[[] := Dir]> ∅))))) 17.
Definition demo_root : list string := ["srv"; "up"].

Lemma demo_root_ok : root_ok demo_root (fs demo_fs).
Proof.
  intros p [k Hk]. unfold demo_root in Hk. destruct p as [|a [|b [|c p]]]; simplify_eq/=; vm_compute; reflexivity.
Qed.

Lemma local_storage_contained_witness :
  same_outside demo_root (fs demo_fs) (fs (upload_bytes 40 StorageSettings_default None demo_root "a/../../x" [1] demo_fs).2) ∧
  ∃ e, upload_bytes 40 StorageSettings_default None demo_root "out/passwd" [1] demo_fs = (Raise e, demo_fs).
Proof.
  split.
  - exact (proj1 (local_storage_contained 40 StorageSettings_default None demo_root "a/../../x" [1] demo_fs demo_root_ok)).
  - destruct (local_storage_contained 40 StorageSettings_default None demo_root "out/passwd" [1] demo_fs demo_root_ok)
      as (_ & _ & Hout).
    assert (∀ r, walk 40 (fs demo_fs) [] (join_path demo_root "out/passwd") = Some r → ¬ demo_root `prefix_of` r) as Hr.
    { intros r Hw. assert (r = ["etc"; "passwd"]) as ->; [|by intros [k Hk]].
      assert (walk 40 (fs demo_fs) [] (join_path demo_root "out/passwd") = Some ["etc"; "passwd"]) as Hw' by (vm_compute; reflexivity).
      congruence. }
    destruct (Hout Hr) as [e (He & _)]. exists e. exact He.
Defined.

Lemma local_storage_roundtrip_witness :
  ∃ url w', upload_bytes 40 StorageSettings_default None demo_root "a/b.txt" [104; 105] demo_fs = (Ret url, w') ∧
    download_bytes 40 demo_root "a/b.txt" w' = (Ret [104; 105], w').
Proof.
  assert (∃ url w', upload_bytes 40 StorageSettings_default None demo_root "a/b.txt" [104; 105] demo_fs = (Ret url, w'))
    as (url & w' & Hup) by (eexists _, _; vm_compute; reflexivity).
  exists url, w'. split; [exact Hup|].
  apply (local_storage_roundtrip 40 StorageSettings_default None demo_root _ _ demo_fs url w' demo_root_ok Hup).
Defined.
