(* ===== verification/RemoteStore.v ===== *)
(** * RemoteStore: objects kept in S3, MinIO and OSS

    [src/app/platform/storage/s3.py] and [oss.py]: what they ask of the client
    libraries ([boto3], [oss2]), which are the classes [S3Api] and [OssApi]. *)
From S2P Require Import Prelude PyText PyStr Encoding Settings StorageUrl LocalStore.
Open Scope Z_scope.

(** The text of an ETag without its quotes, empty when there is none. *)
Definition dquote : ascii := ascii_of_nat 34.
Definition etag_text (etag : option string) : string := strip_char dquote (default "" etag).

(** What [boto3.client] is called with for the service s3. *)
Record S3Params := mkS3Params {
  s3_endpoint_url : string; s3_access_key : string; s3_secret_key : string; s3_region : string;
  s3_path_style : bool }.

Class S3Api (W Client Body : Type) := {
  boto3_client : S3Params → io W Client;
  s3_put_object : Client → string → string → byte_list → string → io W ();
  s3_get_object : Client → string → string → io W Body;
  body_read : Body → io W byte_list;
  body_close : Body → io W ();
  (** The ETag and ContentLength entries of the answer. *)
  s3_head_object : Client → string → string → io W (option string * option Z);
  (** The error code of the response a [ClientError] carries. *)
  client_error_code : exn → option string;
  s3_delete_object : Client → string → string → io W ();
  generate_presigned_url : Client → string → string → Z → io W string }.

Section s3.
Context `{S3Api W Client Body} `{UrlLib} (config : StorageConfig).

Definition endpoint_url : string :=
  let endpoint := rstrip_char "/" (sc_endpoint config) in
  let scheme := if sc_use_ssl config then "https" else "http" in
  if startswith "http://" endpoint || startswith "https://" endpoint then endpoint
  else scheme +:+ "://" +:+ endpoint.

Definition S3CompatibleStorage (force_path_style : bool) : io W Client :=
  boto3_client (mkS3Params endpoint_url (sc_access_key config) (sc_secret_key config) (sc_region config) force_path_style).

Definition MinioStorage : io W Client := S3CompatibleStorage true.
Definition S3Storage : io W Client := S3CompatibleStorage false.

Context (client : Client).

Definition s3_presigned_url (object_name : string) : io W string :=
  generate_presigned_url client (sc_bucket config) object_name (sc_presign_expire_seconds config).

Definition s3_object_url (object_name : string) : io W string :=
  if str_truthy (sc_base_url config)
  then mret (urljoin (rstrip_char "/" (sc_base_url config) +:+ "/") (quote_object_name object_name))
  else s3_presigned_url object_name.

Definition s3_upload_bytes (object_name : string) (content : byte_list) (content_type : string) : io W string :=
  _ ← s3_put_object client (sc_bucket config) object_name content content_type;
  s3_object_url object_name.

Definition s3_download_bytes (object_name : string) : io W byte_list :=
  body ← s3_get_object client (sc_bucket config) object_name;
  try_finally (body_read body) (body_close body).

Definition missing_codes : list string := ["404"; "NoSuchKey"; "NotFound"].

Definition s3_head (object_name : string) : io W (option Head) :=
  response ← try_except
    (r ← s3_head_object client (sc_bucket config) object_name; mret (Some r))
    (λ e, match client_error_code e with Some _ => true | None => false end)
    (λ e, if existsb (String.eqb (default "" (client_error_code e))) missing_codes then mret None else raise e);
  match response with
  | None => mret None
  | Some (etag, len) => mret (Some (mkHead (etag_text etag) (default 0 len)))
  end.

Definition s3_delete (object_name : string) : io W () := s3_delete_object client (sc_bucket config) object_name.

(** A downloaded body is closed whether reading it returned or raised. *)
Lemma s3_download_closes object_name w body w1 :
  s3_get_object client (sc_bucket config) object_name w = (Ret body, w1) →
  let '(o, w2) := body_read body w1 in
  s3_download_bytes object_name w =
    (match (body_close body w2).1 with Ret _ => o | Raise e => Raise e end, (body_close body w2).2).
Proof.
  intros Hget. unfold s3_download_bytes. rewrite (run_ret _ _ _ _ _ Hget). unfold try_finally.
  destruct (body_read body w1) as [o w2]. by destruct (body_close body w2) as [[[]|e] w3].
Qed.

(** An object that is not there has no head; every other error is passed on. *)
Lemma s3_head_missing object_name w e w1 :
  s3_head_object client (sc_bucket config) object_name w = (Raise e, w1) →
  s3_head object_name w =
    match client_error_code e with
    | Some code => if existsb (String.eqb code) missing_codes then (Ret None, w1) else (Raise e, w1)
    | None => (Raise e, w1)
    end.
Proof.
  intros Hh. unfold s3_head. unfold mbind at 1, io_bind at 1, try_except. rewrite (run_raise _ _ _ _ _ Hh).
  destruct (client_error_code e) as [code|]; [|done]. simpl.
  by destruct (String.eqb code "404" || (String.eqb code "NoSuchKey" || (String.eqb code "NotFound" || false))).
Qed.
End s3.

Class OssApi (W Bucket : Type) := {
  (** [oss2.Bucket(oss2.Auth(access_key, secret_key), endpoint, bucket_name)] *)
  oss_bucket : string → string → string → string → io W Bucket;
  oss_put_object : Bucket → string → byte_list → string → io W ();
  oss_get_object : Bucket → string → io W byte_list;
  oss_head_object : Bucket → string → io W (option string * option Z);
  is_no_such_key : exn → bool;
  (** [getattr(exc, "status", None)] of an [OssError] *)
  oss_error_status : exn → option (option Z);
  oss_delete_object : Bucket → string → io W ();
  oss_sign_url : Bucket → string → string → Z → io W string }.

Section oss.
Context `{OssApi W Bucket} `{UrlLib} (config : StorageConfig).

Definition OSSStorage : io W Bucket :=
  oss_bucket (sc_access_key config) (sc_secret_key config) (rstrip_char "/" (sc_endpoint config)) (sc_bucket config).

Context (bucket : Bucket).

Definition oss_presigned_url (object_name : string) : io W string :=
  oss_sign_url bucket "GET" object_name (sc_presign_expire_seconds config).

Definition oss_object_url (object_name : string) : io W string :=
  if str_truthy (sc_base_url config)
  then mret (urljoin (rstrip_char "/" (sc_base_url config) +:+ "/") (quote_object_name object_name))
  else oss_presigned_url object_name.

Definition oss_upload_bytes (object_name : string) (content : byte_list) (content_type : string) : io W string :=
  _ ← oss_put_object bucket object_name content content_type;
  oss_object_url object_name.

Definition oss_download_bytes (object_name : string) : io W byte_list := oss_get_object bucket object_name.

Definition oss_head (object_name : string) : io W (option Head) :=
  meta ← try_except
    (r ← oss_head_object bucket object_name; mret (Some r))
    (λ e, is_no_such_key e || match oss_error_status e with Some _ => true | None => false end)
    (λ e, if is_no_such_key e then mret None
          else if bool_decide (oss_error_status e = Some (Some 404)) then mret None else raise e);
  match meta with
  | None => mret None
  | Some (etag, len) => mret (Some (mkHead (etag_text etag) (default 0 len)))
  end.

Definition oss_delete (object_name : string) : io W () := oss_delete_object bucket object_name.
End oss.
