(* ===== verification/ConfigValues.v ===== *)
(** * ConfigValues: configuration values and the overrides read from them

    [src/app/platform/config/coerce.py], [crypto.py], [reader.py], [apply.py] and
    [platform/module/config_loader.py]. The values kept by the reader are texts;
    the numbers Python reads from a text, [json.loads], [str] of other values and
    the Fernet cipher are the classes [PyValues] and [Fernet]. *)
From S2P Require Import Prelude PyText PyStr PyFloat PyList Encoding Settings StorageUrl ModuleSpecs.
Open Scope Z_scope.

Inductive PyVal :=
| VNone | VBool (b : bool) | VInt (z : Z) | VFloat (f : f64) | VStr (s : string)
| VList (l : list PyVal) | VDict (l : list (string * PyVal))
| VObj (cls : string) (arg : string).            (* an instance of another class *)

#[export] Instance PyVal_is_none (v : PyVal) : Decision (v = VNone).
Proof. destruct v; (left; reflexivity) || (right; discriminate). Defined.

(** A field's annotation: [T | None] and other unions keep their members. *)
Inductive Annotation :=
| TStr | TBool | TInt | TFloat | TNone
| TList (arg : Annotation)                     (* [list[T]] *)
| TDict (args : option (Annotation * Annotation)) (* [dict], [dict[K, V]] *)
| TUnion (args : list Annotation)
| TClass (cls : string).

Class PyValues := {
  py_str : PyVal → string;                         (* [str(value)] of a value that is no text *)
  py_lower_text : string → string;                 (* [str.lower] *)
  int_of_str : string → option Z;                  (* [int(text)]; [None]: [ValueError] *)
  float_of_str : string → option f64;
  num_of_val : PyVal → option Z;                   (* [int(value)] of a value that is no text *)
  float_of_val : PyVal → option f64;
  json_loads : string → option PyVal;              (* [None]: [JSONDecodeError] *)
  construct : string → PyVal → option PyVal }.     (* [annotation(value)]; [None]: an exception *)

Section coerce.
Context `{PyValues}.

Definition to_str (v : PyVal) : string := match v with VStr s => s | _ => py_str v end.

Definition _coerce_bool (v : PyVal) : PyVal :=
  match v with
  | VBool b => VBool b
  | _ => VBool (existsb (String.eqb (py_lower_text (str_strip (to_str v)))) ["true"; "1"; "yes"; "y"; "on"])
  end.
Definition _coerce_int (v : PyVal) : PyVal :=
  match (match v with VStr s => int_of_str s | VInt z => Some z | _ => num_of_val v end) with
  | Some z => VInt z | None => VNone end.
Definition _coerce_float (v : PyVal) : PyVal :=
  match (match v with VStr s => float_of_str s | VFloat f => Some f | _ => float_of_val v end) with
  | Some f => VFloat f | None => VNone end.

Definition is_list (v : PyVal) : bool := match v with VList _ => true | _ => false end.
Definition is_dict (v : PyVal) : bool := match v with VDict _ => true | _ => false end.
Definition _coerce_json (v : PyVal) (expected : PyVal → bool) : PyVal :=
  if expected v then v
  else match json_loads (to_str v) with
       | Some parsed => if expected parsed then parsed else VNone
       | None => VNone
       end.

(** Calling a union or [NoneType] on the value raises [TypeError]: the value is
    returned as it is. *)
Fixpoint coerce_config_value (value : PyVal) (annotation : Annotation) : PyVal :=
  match value with
  | VNone => VNone
  | _ =>
      match annotation with
      | TUnion args =>
          let fix single (args : list Annotation) : option PyVal :=
            match args with
            | [] => None
            | TNone :: args => single args
            | a :: args => if forallb (λ b, match b with TNone => true | _ => false end) args
                           then Some (coerce_config_value value a) else None
            end in
          default value (single args)
      | TStr => VStr (to_str value)
      | TBool => _coerce_bool value
      | TInt => _coerce_int value
      | TFloat => _coerce_float value
      | TList _ => _coerce_json value is_list
      | TDict _ => _coerce_json value is_dict
      | TClass cls => default value (construct cls value)
      | TNone => value
      end
  end.

(** ** What a declared type means *)

(** Is the value of the annotated type, in full: an element of a [list[T]] of type
    [T], the keys and values of a [dict[K, V]] of theirs, a value of a union of one
    of its members, an instance of the class? *)
Fixpoint has_type (ann : Annotation) (v : PyVal) {struct ann} : bool :=
  match ann, v with
  | TStr, VStr _ | TBool, VBool _ | TInt, VInt _ | TFloat, VFloat _ | TNone, VNone => true
  | TList a, VList l => forallb (has_type a) l
  | TDict None, VDict _ => true
  | TDict (Some (k, a)), VDict l => forallb (λ kv, has_type k (VStr kv.1) && has_type a kv.2) l
  | TUnion args, _ => existsb (λ a, has_type a v) args
  | TClass cls, VObj c _ => String.eqb c cls
  | _, _ => false
  end.

(** The member of a union that is not [None], when there is one only. *)
Fixpoint sole_member (args : list Annotation) : option Annotation :=
  match args with
  | [] => None
  | TNone :: args => sole_member args
  | a :: args => if forallb (λ b, match b with TNone => true | _ => false end) args then Some a else None
  end.

(** The annotation under the [Optional]s. *)
Inductive core_of : Annotation → Annotation → Prop :=
| core_here ann : (∀ args a, ann = TUnion args → sole_member args ≠ Some a) → core_of ann ann
| core_member args a b : sole_member args = Some a → core_of a b → core_of (TUnion args) b.

(** The annotations whose type coercion checks in full. *)
Inductive checked_annotation : Annotation → Prop :=
| ca_str : checked_annotation TStr | ca_bool : checked_annotation TBool | ca_int : checked_annotation TInt
| ca_float : checked_annotation TFloat | ca_dict : checked_annotation (TDict None)
| ca_optional args a : sole_member args = Some a → checked_annotation a → checked_annotation (TUnion args).

(** Calling a class returns an instance of it. *)
Class PyValuesLaws : Prop := {
  construct_instance cls v r : construct cls v = Some r → has_type (TClass cls) r = true }.

Lemma sole_member_in args a : sole_member args = Some a → a ∈ args.
Proof.
  induction args as [|b args IH]; [done|]. cbn [sole_member].
  destruct b; try (destruct (forallb _ args); [intros [= <-]; left|done]). intros Ha. right. by apply IH.
Qed.

Lemma coerce_union text args :
  coerce_config_value (VStr text) (TUnion args) =
    match sole_member args with Some a => coerce_config_value (VStr text) a | None => VStr text end.
Proof.
  induction args as [|b args IH]; [done|]. cbn [sole_member]. simpl. simpl in IH.
  destruct b; try (destruct (forallb _ args); done). exact IH.
Qed.

Lemma coerce_core text ann :
  ∃ b, core_of ann b ∧ coerce_config_value (VStr text) ann = coerce_config_value (VStr text) b.
Proof.
  revert ann. fix IH 1. intros ann. destruct ann as [| | | | |a|kv|args|cls].
  8: { assert (Forall (λ a, ∃ b, core_of a b ∧ coerce_config_value (VStr text) a = coerce_config_value (VStr text) b) args) as Hs
         by (induction args; constructor; [apply IH|assumption]).
       clear IH. destruct (sole_member args) as [a|] eqn:Ha.
       - rewrite Forall_forall in Hs. destruct (Hs a (sole_member_in args a Ha)) as (b & Hb & Heq). exists b.
         split; [by eapply core_member|]. by rewrite coerce_union, Ha.
       - exists (TUnion args). split; [|done]. constructor. intros args' a [= <-]. congruence. }
  all: eexists; split; [constructor; discriminate|done].
Qed.

Lemma core_final ann args : core_of ann (TUnion args) → sole_member args = None.
Proof.
  intros Hc. remember (TUnion args) as b eqn:Hb. induction Hc as [ann Hn|args' a b Ha Hc IH]; [|by apply IH].
  destruct (sole_member args) as [a|] eqn:Ha; [|done]. by destruct (Hn args a Hb).
Qed.

Lemma core_typed ann b v : core_of ann b → has_type b v = true → has_type ann v = true.
Proof.
  induction 1 as [|args a b Ha Hb IH]; [done|]. intros Hv%IH. apply existsb_exists. exists a. split; [|done].
  by apply list_elem_of_In, sole_member_in.
Qed.

Lemma coerce_checked text ann :
  checked_annotation ann →
  coerce_config_value (VStr text) ann = VNone ∨ has_type ann (coerce_config_value (VStr text) ann) = true.
Proof.
  induction 1 as [| | | | |args a Ha Hc IH]; [by right|by right|..].
  - simpl. unfold _coerce_int. destruct (int_of_str text); auto.
  - simpl. unfold _coerce_float. destruct (float_of_str text); auto.
  - simpl. unfold _coerce_json. simpl. destruct (json_loads text) as [[]|]; auto.
  - rewrite coerce_union, Ha. destruct IH as [IH|IH]; [by left|right].
    apply existsb_exists. exists a. split; [by apply list_elem_of_In, sole_member_in|done].
Qed.

(** The two ways around a declared type: the elements of a parsed list or dict are
    not looked at, and a text that a class refuses, or that is declared to be of one
    of several types, is kept as it is. *)
Definition elements_unchecked (b : Annotation) (v : PyVal) : Prop :=
  match b, v with TList _, VList _ | TDict (Some _), VDict _ => True | _, _ => False end.
Definition text_kept (text : string) (b : Annotation) : Prop :=
  match b with TClass cls => construct cls (VStr text) = None
  | TUnion args => sole_member args = None | TNone => True | _ => False end.
End coerce.

(** C33. What a configured text becomes, for every declared type: nothing at all - and
    the setting is left as it was -, or a value of the type, elements included, with
    two exceptions: a list or dict whose text parses as one is taken whatever its
    elements are, and the text itself is taken when the class declared refuses it or
    a union leaves several types. For text, bool, int, float and plain dict, optional
    or not, there is no exception. *)
Theorem coerce_config_value_typed `{PyValuesLaws} text ann :
  (coerce_config_value (VStr text) ann = VNone ∨
   has_type ann (coerce_config_value (VStr text) ann) = true ∨
   ∃ b, core_of ann b ∧
     (elements_unchecked b (coerce_config_value (VStr text) ann) ∧
        has_type b (coerce_config_value (VStr text) ann) = false ∧ json_loads text = Some (coerce_config_value (VStr text) ann) ∨
      text_kept text b ∧ coerce_config_value (VStr text) ann = VStr text)) ∧
  (checked_annotation ann →
   coerce_config_value (VStr text) ann = VNone ∨ has_type ann (coerce_config_value (VStr text) ann) = true).
Proof.
  split; [|apply coerce_checked]. destruct (coerce_core text ann) as (b & Hb & ->).
  enough (coerce_config_value (VStr text) b = VNone ∨ has_type b (coerce_config_value (VStr text) b) = true ∨
    (elements_unchecked b (coerce_config_value (VStr text) b) ∧
       has_type b (coerce_config_value (VStr text) b) = false ∧ json_loads text = Some (coerce_config_value (VStr text) b) ∨
     text_kept text b ∧ coerce_config_value (VStr text) b = VStr text)) as [?|[Ht|?]].
  { by left. } { right; left. by eapply core_typed. } { right; right. by exists b. }
  destruct b as [| | | | |a|kv|args|cls].
  - right; left. done.
  - right; left. done.
  - destruct (coerce_checked text TInt ca_int); auto.
  - destruct (coerce_checked text TFloat ca_float); auto.
  - right; right; right. done.
  - cbn [coerce_config_value]. unfold _coerce_json. cbn [is_list to_str]. cbv iota.
    destruct (json_loads text) as [p|]; [|by left]. destruct p as [| | | | |l| |]; try by left. cbv iota.
    destruct (has_type (TList a) (VList l)) eqn:Ht; [by right; left|]. right; right; left. by split_and!.
  - destruct kv as [[k a]|]; [|destruct (coerce_checked text (TDict None) ca_dict); auto].
    cbn [coerce_config_value]. unfold _coerce_json. cbn [is_dict to_str]. cbv iota.
    destruct (json_loads text) as [p|]; [|by left]. destruct p as [| | | | | |l|]; try by left. cbv iota.
    destruct (has_type (TDict (Some (k, a))) (VDict l)) eqn:Ht; [by right; left|]. right; right; left. by split_and!.
  - right; right; right. pose proof (core_final ann args Hb) as Hs. split; [exact Hs|]. by rewrite coerce_union, Hs.
  - cbn [coerce_config_value]. destruct (construct cls (VStr text)) as [r|] eqn:Hc; simpl.
    + right; left. by eapply construct_instance.
    + right; right; right. by split.
Qed.

(** Elements are not looked at: a text is taken for a [list[int]] that holds texts. *)
Lemma list_elements_unchecked `{PyValues} text s :
  json_loads text = Some (VList [VStr s]) →
  coerce_config_value (VStr text) (TList TInt) = VList [VStr s] ∧ has_type (TList TInt) (VList [VStr s]) = false.
Proof. intros Ht. simpl. unfold _coerce_json. simpl. by rewrite Ht. Qed.

(** ** crypto.py *)
Definition _sensitive_keys : list string := ["auth.default_password"; "audit_alert.webhook_secret"; "mail.password"].
Definition _storage_sensitive_columns : list string := ["access_key"; "secret_key"].

(** [Fernet(key)], which refuses a malformed key, and its two operations; the
    token depends on the time and on random bytes. *)
Class Fernet (W : Type) := {
  fernet_key : Type;
  new_fernet : string → outcome fernet_key;
  fernet_encrypt : fernet_key → string → io W string;
  fernet_decrypt : fernet_key → string → outcome string }.

Class FernetLaws (W : Type) `{Fernet W} : Prop := {
  fernet_roundtrip k s w : ∃ token w', fernet_encrypt k s w = (Ret token, w') ∧ fernet_decrypt k token = Ret s ∧
    str_truthy token = true }.

Section crypto.
Context `{Fernet W} (app : AppSettings).

Definition _get_fernet : outcome (option fernet_key) :=
  let key := str_strip (app_config_crypto_key app) in
  if str_truthy key then f ← new_fernet key; mret (Some f) else mret None.

Definition is_sensitive (config_key : string) : bool := bool_decide (config_key ∈ _sensitive_keys).

Definition encrypt_config_value (config_key : string) (value : option string) : io W (option string) :=
  if negb (opt_str_truthy value) || negb (is_sensitive config_key) then mret value
  else
    f ← lift _get_fernet;
    match f with
    | None => raise (RuntimeError "config_crypto_key is not configured")
    | Some k => token ← fernet_encrypt k (default "" value); mret (Some token)
    end.

Definition decrypt_config_value (value : option string) : outcome (option string) :=
  if negb (opt_str_truthy value) then Ret value
  else
    f ← _get_fernet;
    match f with
    | None => mret value
    | Some k =>
        match fernet_decrypt k (default "" value) with
        | Ret s => mret (Some s)
        | Raise e => if is_exception e then mret value else Raise e
        end
    end.

Definition is_storage_sensitive (column_name : string) : bool := bool_decide (column_name ∈ _storage_sensitive_columns).

Definition encrypt_storage_value (column_name : string) (value : option string) : io W (option string) :=
  if negb (opt_str_truthy value) || negb (is_storage_sensitive column_name) then mret value
  else encrypt_config_value column_name value.

Definition decrypt_storage_value (value : option string) : outcome (option string) :=
  if negb (opt_str_truthy value) then Ret value else decrypt_config_value value.

(** Secrets in the configuration: a value of a sensitive key is stored
    encrypted and read back as it was, or refused when no key is configured; a
    value of any other key is stored as it is. The columns of the storage table
    that are declared sensitive are of the second kind: no storage secret is ever
    encrypted. *)
Theorem config_secrets `{!FernetLaws W} key value w :
  str_truthy value = true →
  (is_sensitive key = false → encrypt_config_value key (Some value) w = (Ret (Some value), w)) ∧
  (is_sensitive key = true → _get_fernet = Ret None →
     encrypt_config_value key (Some value) w = (Raise (RuntimeError "config_crypto_key is not configured"), w)) ∧
  (∀ k, is_sensitive key = true → _get_fernet = Ret (Some k) →
     ∃ token w', encrypt_config_value key (Some value) w = (Ret (Some token), w') ∧
       decrypt_config_value (Some token) = Ret (Some value)) ∧
  (∀ column, encrypt_storage_value column (Some value) w = (Ret (Some value), w)).
Proof.
  intros Hv. unfold encrypt_config_value, decrypt_config_value. cbn [opt_str_truthy]. unfold id. rewrite Hv. cbn [negb orb].
  split_and!.
  - by intros ->.
  - intros -> Hf. cbn [negb]. unfold mbind at 1, io_bind at 1, lift. by rewrite Hf.
  - intros k -> Hf. cbn [negb]. destruct (fernet_roundtrip k value w) as (token & w' & He & Hd & Ht).
    exists token, w'. split.
    + unfold mbind at 1, io_bind at 1, lift. rewrite Hf. by rewrite (run_ret _ _ _ _ _ He).
    + rewrite Ht, Hf. cbn. by rewrite Hd.
  - intros column. unfold encrypt_storage_value. cbn [opt_str_truthy]. unfold id. rewrite Hv. cbn [negb orb].
    unfold is_storage_sensitive. case_bool_decide as Hin; [|done]. cbn [negb].
    unfold encrypt_config_value, is_sensitive. rewrite bool_decide_false; [by rewrite orb_true_r|].
    unfold _storage_sensitive_columns in Hin. unfold _sensitive_keys. set_solver.
Qed.
End crypto.

(** ** reader.py *)
Record ConfigReader := mkConfigReader {
  cr_cache : list (string * string);               (* in the order of insertion *)
  cr_storage_configs : list (string * StorageConfig);
  cr_default_storage_id : option string;
  cr_version : Z }.
Definition reader_init : ConfigReader := mkConfigReader [] [] None 0.

Definition assoc {A} (k : string) (l : list (string * A)) : option A := snd <$> (snd <$> list_find (λ e, e.1 = k) l).

Definition load_all (r : ConfigReader) : ConfigReader :=
  mkConfigReader (cr_cache r) (cr_storage_configs r) (cr_default_storage_id r) (cr_version r + 1).

Section reader.
Context `{PyValues} (r : ConfigReader).

Definition get_default_storage : option StorageConfig :=
  i ← cr_default_storage_id r; assoc i (cr_storage_configs r).
Definition get_storage_config (config_id : option string) : option StorageConfig :=
  match config_id with None => get_default_storage | Some i => assoc i (cr_storage_configs r) end.
Definition get_storage_config_by_provider (provider : StorageProvider) : option StorageConfig :=
  snd <$> list_find (λ c, sc_provider c = provider) (map snd (cr_storage_configs r)).
Definition list_storage_configs : list StorageConfig := map snd (cr_storage_configs r).

Definition config_get (key : string) : option string := assoc key (cr_cache r).
Definition get_int (key : string) (dflt : Z) : Z :=
  match config_get key with None => dflt | Some val => default dflt (int_of_str val) end.
Definition get_bool (key : string) (dflt : bool) : bool :=
  match config_get key with
  | None => dflt
  | Some val => existsb (String.eqb (py_lower_text val)) ["true"; "1"; "yes"]
  end.
Definition get_list (key : string) (dflt : option (list PyVal)) : list PyVal :=
  match config_get key with
  | None => list_or dflt []
  | Some val => match json_loads val with Some (VList l) => l | _ => list_or dflt [] end
  end.
Definition raw_items : list (string * string) := cr_cache r.
End reader.

(** ** apply.py and config_loader.py

    A settings object: the fields its class declares with their annotations, and
    the values of its attributes. *)
Record SettingsObj := mkSettingsObj { so_fields : list (string * Annotation); so_values : gmap string PyVal }.
Definition setattr (o : SettingsObj) (name : string) (v : PyVal) : SettingsObj :=
  mkSettingsObj (so_fields o) (<[name := v]> (so_values o)).

Section apply.
Context `{PyValues} (r : ConfigReader).
(** Whether the class dictionary itself holds [model_fields], which depends on
    the version of pydantic. *)
Context (model_fields_in_vars : bool).

Definition apply_field (prefix : string) (o : SettingsObj) (f : string * Annotation) : SettingsObj :=
  match config_get r (prefix +:+ "." +:+ f.1) with
  | None => o
  | Some raw =>
      let value := coerce_config_value (VStr raw) f.2 in
      if decide (value = VNone) then o else setattr o f.1 value
  end.

Definition _apply_from_config (o : SettingsObj) (prefix : string) : SettingsObj :=
  if model_fields_in_vars then foldl (apply_field prefix) o (so_fields o) else o.

(** The two settings objects the reader overrides. *)
Definition apply_sys_config (storage mail : SettingsObj) : SettingsObj * SettingsObj :=
  (_apply_from_config storage "storage", _apply_from_config mail "mail").
Definition apply_all_config := apply_sys_config.

Definition override (prefix : string) (o : SettingsObj) (e : string * string) : SettingsObj :=
  let '(key, value) := e in
  if negb (startswith prefix key) then o
  else
    let attr_name := str_drop (String.length prefix) key in
    match assoc attr_name (so_fields o) with
    | None => o
    | Some annotation =>
        let coerced := coerce_config_value (VStr value) annotation in
        if decide (coerced = VNone) then o else setattr o attr_name coerced
    end.

Definition _apply_db_overrides (o : SettingsObj) (module_name : string) : SettingsObj :=
  foldl (override (module_name +:+ ".")) o (raw_items r).

(** [cls()] of an imported settings class; [None]: not a [BaseSettings]. *)
Context `{Importlib IW Obj} (new_settings : Obj → option (io IW SettingsObj)).

Definition _import_config_class (import_path : string) : io IW (io IW SettingsObj) :=
  let '(module_path, _, attr) := partition ":"%char import_path in
  if negb (str_truthy attr) then raise (ValueError ("config_model must use 'module:Class' format: " +:+ import_path))
  else
    mod_ ← (import_module module_path : io IW Obj);
    cls ← getattr mod_ attr;
    match new_settings cls with
    | None => raise (TypeError (import_path +:+ " is not a BaseSettings subclass"))
    | Some make => mret make
    end.

Definition load_module_configs (module_specs : list ModuleSpec) (configs : gmap string SettingsObj)
    : io IW (gmap string SettingsObj) :=
  foreach module_specs configs (λ configs spec,
    if negb (str_truthy (ms_config_model spec)) then mret configs
    else
      make ← _import_config_class (ms_config_model spec);
      instance ← make;
      let instance := if ms_config_from_db spec then _apply_db_overrides instance (ms_name spec) else instance in
      mret (<[ms_name spec := instance]> configs)).

Definition get_module_config (configs : gmap string SettingsObj) (module_name : string) : option SettingsObj :=
  configs !! module_name.

(** Well-typed settings: every declared field whose type coercion checks in full
    holds a value of it. *)
Definition settings_typed (o : SettingsObj) : Prop :=
  NoDup (map fst (so_fields o)) ∧
  ∀ f, f ∈ so_fields o → checked_annotation f.2 → ∃ v, so_values o !! f.1 = Some v ∧ has_type f.2 v = true.

Lemma setattr_typed o name ann v :
  settings_typed o → (name, ann) ∈ so_fields o → (checked_annotation ann → has_type ann v = true) → settings_typed (setattr o name v).
Proof.
  intros [Hnd Ht] Hin Hv. split; [done|]. simpl. intros f Hf Hp. destruct (decide (f.1 = name)) as [Heq|Hne].
  - rewrite Heq, lookup_insert_eq. exists v. split; [done|].
    assert (f = (name, ann)) as ->; [|by apply Hv].
    change (map fst (so_fields o)) with (fst <$> so_fields o) in Hnd.
    apply list_elem_of_lookup_1 in Hf as [i Hi], Hin as [j Hj].
    assert ((fst <$> so_fields o) !! i = Some name) as H1 by (by rewrite list_lookup_fmap, Hi; simpl; rewrite Heq).
    assert ((fst <$> so_fields o) !! j = Some name) as H2 by (by rewrite list_lookup_fmap, Hj).
    pose proof (NoDup_lookup _ _ _ _ Hnd H1 H2) as <-. congruence.
  - rewrite lookup_insert_ne by done. by apply Ht.
Qed.

Lemma apply_field_typed prefix o f : settings_typed o → f ∈ so_fields o → settings_typed (apply_field prefix o f).
Proof.
  intros Ho Hf. unfold apply_field. destruct (config_get r _) as [raw|]; [|done].
  destruct (decide (coerce_config_value (VStr raw) f.2 = VNone)) as [?|Hne]; [done|].
  apply (setattr_typed _ _ f.2); [done|by destruct f|]. intros Hp.
  destruct (coerce_checked raw f.2 Hp); [done|done].
Qed.

Lemma assoc_elem {A} k (l : list (string * A)) a : assoc k l = Some a → (k, a) ∈ l.
Proof.
  unfold assoc. destruct (list_find (λ e : string * A, e.1 = k) l) as [[i [k' a']]|] eqn:Hf; [|done].
  simpl. intros [= ->]. apply list_find_Some in Hf as (Hi & Hk & _). simpl in Hk. subst k'. by eapply list_elem_of_lookup_2.
Qed.

Lemma override_typed prefix o e :
  settings_typed o → settings_typed (override prefix o e) ∧ so_fields (override prefix o e) = so_fields o.
Proof.
  intros Ho. destruct e as [key value]. unfold override. destruct (negb (startswith prefix key)); [done|].
  destruct (assoc _ (so_fields o)) as [ann|] eqn:Ha; [|done].
  destruct (decide (coerce_config_value (VStr value) ann = VNone)) as [?|Hne]; [done|]. split; [|done].
  eapply setattr_typed; [done|by apply assoc_elem|]. intros Hp.
  by destruct (coerce_checked value ann Hp).
Qed.

(** Overrides keep the settings well-typed: whatever texts the configuration
    holds, applying them to a settings object leaves every field of a checked
    annotation with a value of its type and declares the same fields. *)
Theorem overrides_keep_types o prefix :
  settings_typed o →
  settings_typed (_apply_from_config o prefix) ∧ settings_typed (_apply_db_overrides o prefix) ∧
  so_fields (_apply_from_config o prefix) = so_fields o ∧ so_fields (_apply_db_overrides o prefix) = so_fields o.
Proof.
  intros Ho.
  assert (∀ fs o', settings_typed o' → so_fields o' = so_fields o → Forall (λ f, f ∈ so_fields o) fs →
    settings_typed (foldl (apply_field prefix) o' fs) ∧ so_fields (foldl (apply_field prefix) o' fs) = so_fields o) as H1.
  { intros fs. induction fs as [|f fs IH]; intros o' Ho' Hfs Hall; [done|]. inversion Hall; subst. simpl. apply IH; [| |done].
    - apply apply_field_typed; [done|by rewrite Hfs].
    - unfold apply_field. destruct (config_get r _); [|done]. by destruct (decide _). }
  assert (∀ es o', settings_typed o' → so_fields o' = so_fields o →
    settings_typed (foldl (override (prefix +:+ ".")) o' es) ∧ so_fields (foldl (override (prefix +:+ ".")) o' es) = so_fields o) as H2.
  { intros es. induction es as [|e es IH]; intros o' Ho' Hfs; [done|]. simpl.
    destruct (override_typed (prefix +:+ ".") o' e Ho') as [Ht Hf]. apply IH; congruence || done. }
  unfold _apply_from_config, _apply_db_overrides.
  destruct (H1 (so_fields o) o Ho eq_refl) as [Ha Hb]; [by apply Forall_forall|].
  destruct (H2 (raw_items r) o Ho eq_refl) as [Hc Hd]. destruct model_fields_in_vars; by split_and!.
Qed.
End apply.
