(* ===== verification/StorageManager.v ===== *)
(** * StorageManager: which storage client is used
    ([src/app/platform/storage/manager.py]), with the reload of the reader
    ([ConfigReader.reload]). Building a client is a parameter; the lock makes
    [get_storage] one step. *)
From S2P Require Import Prelude PyText PyStr PyFloat PyList Encoding Settings StorageUrl ModuleSpecs ConfigValues.
Open Scope Z_scope.

(** The reader, the clients built so far by version and configuration, and what
    lies outside. *)
Record StoreWorld (E C : Type) := mkStoreWorld {
  sw_reader : ConfigReader; sw_cache : list (Z * StorageConfig * C); sw_ext : E }.
Arguments mkStoreWorld {E C}. Arguments sw_reader {E C}. Arguments sw_cache {E C}. Arguments sw_ext {E C}.

Section manager.
Context {E C : Type} (st : StorageSettings) (build : StorageProvider → StorageConfig → io E C).

Definition clear_storage_cache : io (StoreWorld E C) () :=
  modify (λ w, mkStoreWorld (sw_reader w) [] (sw_ext w)).

(** The provider argument: a member of the enumeration or a text. *)
Definition resolve_storage_config (r : ConfigReader) (config_id : option string) (provider : option string)
    (allow_settings_fallback : bool) : outcome StorageConfig :=
  let explicit_config_id := opt_str_truthy config_id && negb (bool_decide (config_id = Some "__settings__")) in
  let by_id := if opt_str_truthy config_id then get_storage_config r config_id else None in
  let '(provider, explicit_config_id) :=
    if opt_str_truthy config_id && bool_decide (by_id = None) then
      match StorageProvider_of (default "" config_id) with
      | Ret p => (Some (provider_value p), false)
      | Raise _ => (provider, explicit_config_id)
      end
    else (provider, explicit_config_id) in
  config ← match by_id, provider with
           | None, Some p => q ← StorageProvider_of p; mret (get_storage_config_by_provider r q)
           | _, _ => mret by_id
           end;
  let config := if bool_decide (config = None ∧ config_id = None ∧ provider = None) then get_default_storage r else config in
  let config := if bool_decide (config = None) && allow_settings_fallback && negb explicit_config_id
                then Some (fallback_storage_config st) else config in
  match config with
  | None => Raise (RuntimeError "Storage config is not available")
  | Some c => Ret c
  end.

Definition _build_storage (config : StorageConfig) : io E C := build (sc_provider config) config.

Definition cached (key : Z * StorageConfig) (cache : list (Z * StorageConfig * C)) : option C :=
  snd <$> (snd <$> list_find (λ e, e.1 = key) cache).

(** [storage = _build_storage(config); _storage_cache[cache_key] = storage] *)
Definition build_and_keep (cache_key : Z * StorageConfig) : io (StoreWorld E C) C := λ w,
  match _build_storage cache_key.2 (sw_ext w) with
  | (Ret storage, e) => (Ret storage, mkStoreWorld (sw_reader w) ((cache_key, storage) :: sw_cache w) e)
  | (Raise ex, e) => (Raise ex, mkStoreWorld (sw_reader w) (sw_cache w) e)
  end.

Definition get_storage (config_id provider : option string) (allow_settings_fallback : bool) : io (StoreWorld E C) C :=
  w ← get;
  config ← lift (resolve_storage_config (sw_reader w) config_id provider allow_settings_fallback);
  let cache_key := (cr_version (sw_reader w), config) in
  match cached cache_key (sw_cache w) with
  | Some storage => mret storage
  | None => build_and_keep cache_key
  end.

(** [config_reader.reload()]: a new version, the settings applied again, and no
    client kept. *)
Definition reload : io (StoreWorld E C) () :=
  _ ← modify (λ w, mkStoreWorld (load_all (sw_reader w)) (sw_cache w) (sw_ext w));
  clear_storage_cache.

(** The reader never holds a storage configuration in this program: then the
    settings decide, unless an unknown configuration was asked for by name. *)
Lemma resolve_empty_reader r config_id provider fallback :
  cr_storage_configs r = [] →
  resolve_storage_config r config_id provider fallback =
    match provider with
    | Some p =>
        if opt_str_truthy config_id && match StorageProvider_of (default "" config_id) with Ret _ => true | Raise _ => false end
        then (if fallback then Ret (fallback_storage_config st) else Raise (RuntimeError "Storage config is not available"))
        else _ ← StorageProvider_of p;
             if fallback && negb (opt_str_truthy config_id && negb (bool_decide (config_id = Some "__settings__")))
             then Ret (fallback_storage_config st) else Raise (RuntimeError "Storage config is not available")
    | None =>
        if fallback && (negb (opt_str_truthy config_id && negb (bool_decide (config_id = Some "__settings__")))
                        || match StorageProvider_of (default "" config_id) with Ret _ => true | Raise _ => false end)
        then Ret (fallback_storage_config st) else Raise (RuntimeError "Storage config is not available")
    end.
Proof.
  intros Hr. unfold resolve_storage_config, get_storage_config, get_default_storage, get_storage_config_by_provider, assoc.
  rewrite Hr. simpl.
  assert ((if opt_str_truthy config_id then match config_id with
     | Some i => None | None => cr_default_storage_id r ≫= λ _, None end else None) = @None StorageConfig) as Hid
    by (destruct config_id as [[]|]; done).
  assert ((cr_default_storage_id r ≫= λ _ : string, None) = @None StorageConfig) as Hd by (by destruct (cr_default_storage_id r)).
  assert (∀ p, StorageProvider_of (provider_value p) = Ret p) as Hp by (by intros []).
  destruct config_id as [i|]; simpl in *.
  - destruct (str_truthy i) eqn:Hi; simpl.
    + destruct (StorageProvider_of i) as [p|e] eqn:Hpi; simpl.
      * rewrite Hp. simpl. destruct provider, fallback; simpl; rewrite ?orb_true_r; done.
      * destruct provider as [q|]; simpl; [destruct (StorageProvider_of q); simpl; [|done]|];
          destruct fallback, (bool_decide (Some i = Some "__settings__")); done.
    + destruct i; [|done]. destruct provider as [q|]; simpl; [destruct (StorageProvider_of q); simpl; [|done]|]; by destruct fallback.
  - rewrite Hd. destruct provider as [q|]; simpl; [destruct (StorageProvider_of q); simpl; [|done]|]; by destruct fallback.
Qed.

(** One client per configuration and version: asking again for a storage
    gives the client that was built and builds nothing, whatever is asked for in
    between; after a reload the version is a new one and the next request builds
    a new client. *)
Theorem storage_client_cached config_id provider fallback w c w1 :
  get_storage config_id provider fallback w = (Ret c, w1) →
  get_storage config_id provider fallback w1 = (Ret c, w1) ∧
  (∀ i p f o w2, get_storage i p f w1 = (o, w2) → ∃ w3, get_storage config_id provider fallback w2 = (Ret c, w3) ∧ w3 = w2) ∧
  let w4 := (reload w1).2 in
  cr_version (sw_reader w4) = cr_version (sw_reader w) + 1 ∧ sw_ext w4 = sw_ext w1 ∧
  (∀ config, resolve_storage_config (sw_reader w4) config_id provider fallback = Ret config →
     get_storage config_id provider fallback w4 = build_and_keep (cr_version (sw_reader w4), config) w4).
Proof.
  assert (∀ i p f w, match get_storage i p f w with
    | (Ret c, w1) => sw_reader w1 = sw_reader w ∧ (∃ config, resolve_storage_config (sw_reader w) i p f = Ret config ∧
        cached (cr_version (sw_reader w), config) (sw_cache w1) = Some c) ∧
        (∀ k c', cached k (sw_cache w) = Some c' → cached k (sw_cache w1) = Some c')
    | (Raise _, w1) => sw_reader w1 = sw_reader w ∧ sw_cache w1 = sw_cache w end) as Hrun.
  { intros i p f w0. unfold get_storage, build_and_keep, mbind, io_bind, get, lift.
    destruct (resolve_storage_config (sw_reader w0) i p f) as [config|e]; [|done].
    destruct (cached (cr_version (sw_reader w0), config) (sw_cache w0)) as [s|] eqn:Hc; [split_and!; eauto|].
    simpl. destruct (_build_storage config (sw_ext w0)) as [[s|e] e']; simpl; [|done]. split_and!; [done| |].
    - exists config. split; [done|]. unfold cached. cbn [list_find]. by rewrite decide_True.
    - intros k c' Hk. unfold cached in *. cbn [list_find]. destruct (decide _) as [Heq|Hne].
      + simpl in Heq. subst k. by rewrite Hc in Hk.
      + destruct (list_find (λ e, e.1 = k) (sw_cache w0)) as [[j x]|]; [exact Hk|done]. }
  assert (∀ (w : StoreWorld E C) c (w' : StoreWorld E C), (∃ config, resolve_storage_config (sw_reader w) config_id provider fallback = Ret config ∧
      cached (cr_version (sw_reader w), config) (sw_cache w') = Some c) → sw_reader w' = sw_reader w →
      get_storage config_id provider fallback w' = (Ret c, w')) as Hhit.
  { intros w0 c0 w' (config & Hres & Hc) Hrd. unfold get_storage, build_and_keep, mbind, io_bind, get, lift. by rewrite Hrd, Hres, Hc. }
  intros Hget. pose proof (Hrun config_id provider fallback w) as Hr1. rewrite Hget in Hr1. destruct Hr1 as (Hrd & Hcfg & _).
  split; [by apply (Hhit w)|]. split; [|split; [|split; [done|]]].
  - intros i p f o w2 Hget2. exists w2. split; [|done]. pose proof (Hrun i p f w1) as Hr2. rewrite Hget2 in Hr2.
    destruct Hcfg as (config & Hres & Hc). destruct o as [c2|e].
    + destruct Hr2 as (Hrd2 & _ & Hkeep). apply (Hhit w); [|congruence]. eauto.
    + destruct Hr2 as (Hrd2 & Hcache). apply (Hhit w); [|congruence]. rewrite Hcache. eauto.
  - simpl. by rewrite Hrd.
  - intros config Hres. unfold get_storage, mbind, io_bind, get, lift. by rewrite Hres.
Qed.
End manager.

(** ** Concrete values *)
#[export] Instance demo_values : PyValues := {
  py_str := λ _, "value"; py_lower_text := lower;
  int_of_str := λ s, if String.eqb s "465" then Some 465 else None;
  float_of_str := λ s, if String.eqb s "2.5" then Some (fdiv (f_of_Z 5) (f_of_Z 2)) else None;
  num_of_val := λ _, None; float_of_val := λ _, None;
  json_loads := λ s, if String.eqb s "[]" then Some (VList []) else None; construct := λ _ _, None }.

#[export] Instance demo_py_laws : PyValuesLaws.
Proof. split. done. Qed.

Lemma coerce_config_value_typed_witness :
  coerce_config_value (VStr "465") (TUnion [TInt; TNone]) = VInt 465 ∧
  (coerce_config_value (VStr "many") (TUnion [TInt; TNone]) = VNone ∨
   has_type (TUnion [TInt; TNone]) (coerce_config_value (VStr "many") (TUnion [TInt; TNone])) = true).
Proof.
  split; [reflexivity|]. apply (coerce_config_value_typed "many" (TUnion [TInt; TNone])).
  apply (ca_optional _ TInt); [reflexivity|apply ca_int].
Defined.

(** A cipher that marks what it encrypts. *)
Definition mark : string := "gAAAA".
#[export] Instance demo_fernet : Fernet () := {
  fernet_key := string; new_fernet := Ret; fernet_encrypt := λ k s, mret (mark +:+ s);
  fernet_decrypt := λ k t, if startswith mark t then Ret (str_drop (String.length mark) t) else Raise (OtherError "InvalidToken" "") }.
#[export, refine] Instance demo_fernet_laws : FernetLaws () := {}.
Proof.
  intros k s w. exists (mark +:+ s), w. split; [reflexivity|]. split; [|reflexivity].
  change (fernet_decrypt (W:=()) k (mark +:+ s)) with (if startswith mark (mark +:+ s) then Ret (str_drop (String.length mark) (mark +:+ s)) else Raise (OtherError "InvalidToken" "")).
  by rewrite startswith_app, str_drop_app.
Qed.

Definition demo_app_settings : AppSettings :=
  mkAppSettings "acoj" "127.0.0.1" 8000 true 1 4 "all" "secret-key" "Asia/Shanghai" [].

Lemma config_secrets_witness :
  ∃ token w', encrypt_config_value demo_app_settings "mail.password" (Some "pw") () = (Ret (Some token), w') ∧
    decrypt_config_value demo_app_settings (Some token) = Ret (Some "pw").
Proof.
  assert (str_truthy "pw" = true) as Hv by reflexivity.
  assert (is_sensitive "mail.password" = true) as Hs by (vm_compute; reflexivity).
  assert (_get_fernet (W:=()) demo_app_settings = Ret (Some "secret-key")) as Hf by (vm_compute; reflexivity).
  destruct (config_secrets demo_app_settings "mail.password" "pw" () Hv) as (_ & _ & H3 & _).
  exact (H3 "secret-key" Hs Hf).
Defined.

Definition demo_mail : SettingsObj :=
  mkSettingsObj [("host", TStr); ("port", TInt); ("use_tls", TBool)]
    (<["host" := VStr ""]> (<["port" := VInt 587]> (<["use_tls" := VBool true]> ∅))).
Lemma demo_mail_typed : settings_typed demo_mail.
Proof.
  split; [by apply (bool_decide_unpack _); vm_compute|]. intros f Hf _.
  repeat (apply elem_of_cons in Hf as [->|Hf]; [eexists; split; [vm_compute; reflexivity|reflexivity]|]).
  by apply not_elem_of_nil in Hf.
Qed.

Lemma overrides_keep_types_witness :
  settings_typed (_apply_from_config (mkConfigReader [("mail.port", "465"); ("mail.use_tls", "maybe"); ("mail.host", "mx")] [] None 1)
    true demo_mail "mail").
Proof.
  exact (proj1 (overrides_keep_types (mkConfigReader [("mail.port", "465"); ("mail.use_tls", "maybe"); ("mail.host", "mx")] [] None 1)
    true demo_mail "mail" demo_mail_typed)).
Defined.

Lemma storage_client_cached_witness :
  let build := λ (_ : StorageProvider) (_ : StorageConfig) (n : Z), (Ret n, n + 1) in
  let w := mkStoreWorld reader_init [] 0 in
  ∃ w1, get_storage StorageSettings_default build None None true w = (Ret 0, w1) ∧
    get_storage StorageSettings_default build None None true w1 = (Ret 0, w1).
Proof.
  intros build w.
  assert (∃ w1, get_storage StorageSettings_default build None None true w = (Ret 0, w1)) as [w1 Hw1]
    by (eexists; vm_compute; reflexivity).
  exists w1. split; [exact Hw1|]. exact (proj1 (storage_client_cached StorageSettings_default build None None true w 0 w1 Hw1)).
Defined.
