(* ===== verification/LogFile.v ===== *)
(** The daily rotating log file of [src/app/core/logger/file_handler.py] on a
    file system of inodes: paths name inodes, an open file keeps its inode and
    its buffer, and every call to the host may fail. *)
From S2P Require Import Prelude PyText PyStr.
Open Scope Z_scope.

(** ** Paths: [os.path.join] of two components and [os.path.dirname] *)
Definition path_join (a b : string) : string :=
  if startswith "/" b then b
  else if negb (str_truthy a) || endswith "/" a then a +:+ b
  else a +:+ "/" +:+ b.

Definition dirname (p : string) : string :=
  let head := reverse (drop_while (λ c, negb (Ascii.eqb c "/")) (reverse (str_chars p))) in
  if forallb (Ascii.eqb "/") head then of_chars head else rstrip_char "/" (of_chars head).

(** The directory and those above it, from the top. *)
Definition ancestors (d : string) : list string :=
  let parts := split_on "/" d in
  filter (λ p, str_truthy p = true) (map (λ k, join "/" (take k parts)) (seq 1 (length parts))).

Definition pad2 (z : Z) : string := if z <? 10 then "0" +:+ str_of_Z z else str_of_Z z.
Definition newline : string := String (ascii_of_nat 10) "".

(** ** The host: file system, clock, and the handler's own fields *)
Record Date := mkDate { year : Z; month : Z; day : Z }.

(** An open text file: the inode, the position [tell] reports, and what was
    written to the buffer but has not reached the file. *)
Record Handle := mkHandle { hd_inode : nat; hd_pos : Z; hd_pending : string }.
#[export] Instance Handle_eq_dec : EqDecision Handle. Proof. solve_decision. Defined.

Record LogWorld := mkLogWorld {
  lw_paths : gmap string nat;      (* file names *)
  lw_data : gmap nat string;       (* contents *)
  lw_dirs : gset string;           (* directories *)
  lw_today : Date;
  lw_calls : nat;                  (* calls made to the host so far *)
  lw_reports : nat;                (* records given to [handleError] *)
  lw_current : option string;      (* self._current_path *)
  lw_file : option Handle }.       (* self._file *)

Definition set_fs ps ds w := mkLogWorld ps ds (lw_dirs w) (lw_today w) (lw_calls w) (lw_reports w) (lw_current w) (lw_file w).
Definition set_dirs ds w := mkLogWorld (lw_paths w) (lw_data w) ds (lw_today w) (lw_calls w) (lw_reports w) (lw_current w) (lw_file w).
Definition set_today d w := mkLogWorld (lw_paths w) (lw_data w) (lw_dirs w) d (lw_calls w) (lw_reports w) (lw_current w) (lw_file w).
Definition set_calls n w := mkLogWorld (lw_paths w) (lw_data w) (lw_dirs w) (lw_today w) n (lw_reports w) (lw_current w) (lw_file w).
Definition set_reports n w := mkLogWorld (lw_paths w) (lw_data w) (lw_dirs w) (lw_today w) (lw_calls w) n (lw_current w) (lw_file w).
Definition set_current c w := mkLogWorld (lw_paths w) (lw_data w) (lw_dirs w) (lw_today w) (lw_calls w) (lw_reports w) c (lw_file w).
Definition set_file f w := mkLogWorld (lw_paths w) (lw_data w) (lw_dirs w) (lw_today w) (lw_calls w) (lw_reports w) (lw_current w) f.

Definition data_of (i : nat) (w : LogWorld) : string := default "" (lw_data w !! i).
Definition exists_path (p : string) (w : LogWorld) : bool :=
  bool_decide (is_Some (lw_paths w !! p)) || bool_decide (p ∈ lw_dirs w).

(** ** The handler *)
Section handler.
Context {LogRecord : Type}.
(** [self.format(record)] followed by the encoding of the text. *)
Context (format : LogRecord → outcome string).
(** The host's failures: what its n-th call does. [None] is success; [Some k] is
    an [OSError], and a write that fails has written [k] bytes before. *)
Context (fails : nat → option nat).
Context (log_dir : string) (max_bytes pid : Z).

Definition fault : io LogWorld (option nat) := λ w, (Ret (fails (lw_calls w)), set_calls (S (lw_calls w)) w).

Definition daily (now : Date) : string :=
  path_join (path_join (path_join log_dir (str_of_Z (year now))) (pad2 (month now)))
    (pad2 (day now) +:+ "-" +:+ str_of_Z pid +:+ ".log").
Definition _daily_path : io LogWorld string := gets (λ w, daily (lw_today w)).

(** [os.makedirs(dirname, exist_ok=True)]: stops at a file in the way. *)
Fixpoint makedirs_below (ds : list string) (w : LogWorld) : LogWorld :=
  match ds with
  | [] => w
  | d :: ds =>
      if bool_decide (is_Some (lw_paths w !! d)) then w
      else makedirs_below ds (set_dirs ({[d]} ∪ lw_dirs w) w)
  end.

Definition _ensure_dir (path : string) : io LogWorld () :=
  let dir := dirname path in
  ex ← gets (exists_path dir);
  if (ex : bool) then mret ()
  else
    f ← fault;
    match f with Some _ => mret () | None => modify (makedirs_below (ancestors dir)) end.

(** [open(path, "a", encoding="utf-8")]: positioned at the end. *)
Definition open_append (path : string) : io LogWorld Handle :=
  f ← fault;
  w ← get;
  if bool_decide (is_Some f) || bool_decide (path ∈ lw_dirs w) || negb (bool_decide (dirname path ∈ lw_dirs w))
  then raise (OSError path)
  else
    match lw_paths w !! path with
    | Some i => mret (mkHandle i (Z.of_nat (String.length (data_of i w))) "")
    | None =>
        let i := fresh (dom (lw_data w)) in
        _ ← modify (set_fs (<[path := i]> (lw_paths w)) (<[i := ""]> (lw_data w)));
        mret (mkHandle i 0 "")
    end.

(** [file.flush()]: the buffer goes to the end of the file; a write that fails
    keeps in the buffer what did not reach the file. *)
Definition append_data (i : nat) (s : string) (w : LogWorld) : LogWorld :=
  set_fs (lw_paths w) (<[i := data_of i w +:+ s]> (lw_data w)) w.

Definition flush_handle (h : Handle) : io LogWorld () :=
  if negb (str_truthy (hd_pending h)) then mret ()
  else
    f ← fault;
    match f with
    | Some k =>
        _ ← modify (append_data (hd_inode h) (str_take k (hd_pending h)));
        w ← get;
        _ ← modify (set_file (Some (mkHandle (hd_inode h) (Z.of_nat (String.length (data_of (hd_inode h) w)))
                                      (str_drop k (hd_pending h)))));
        raise (OSError "write")
    | None =>
        _ ← modify (append_data (hd_inode h) (hd_pending h));
        w ← get;
        modify (set_file (Some (mkHandle (hd_inode h) (Z.of_nat (String.length (data_of (hd_inode h) w))) "")))
    end.

(** [file.close()] writes the buffer out first; the file is closed even when
    that fails. *)
Definition _close : io LogWorld () :=
  h ← gets lw_file;
  match h with
  | Some h => _ ← try_except (flush_handle h) is_os_error (λ _, mret ()); modify (set_file None)
  | None => mret ()
  end.

(** [file.tell()] flushes before it answers. *)
Definition _check_rollover : io LogWorld bool :=
  h ← gets lw_file;
  match h with
  | None => mret false
  | Some h =>
      try_except
        (_ ← flush_handle h;
         h' ← gets lw_file;
         mret (max_bytes <=? default 0 (hd_pos <$> h')))
        is_os_error (λ _, mret false)
  end.

(** The loop of [_rotate]: the first number no file has. *)
Definition rotated (path : string) (counter : Z) : string := path +:+ "." +:+ str_of_Z counter.
Fixpoint next_counter (fuel : nat) (path : string) (counter : Z) (w : LogWorld) : option Z :=
  match fuel with
  | O => None
  | S fuel =>
      if exists_path (rotated path counter) w then next_counter fuel path (counter + 1) w else Some counter
  end.
Definition rotate_fuel (w : LogWorld) : nat := S (size (dom (lw_paths w) ∪ lw_dirs w)).

Definition _rotate (path : string) : io LogWorld () :=
  w ← get;
  match next_counter (rotate_fuel w) path 1 w with
  | None => raise (OtherError "Fuel" "")
  | Some counter =>
      f ← fault;
      match f, lw_paths w !! path with
      | None, Some i => modify (set_fs (<[rotated path counter := i]> (delete path (lw_paths w))) (lw_data w))
      | _, _ => mret ()
      end
  end.

Definition reopen (path : string) : io LogWorld () :=
  _ ← _ensure_dir path;
  h ← open_append path;
  modify (set_file (Some h)).

Definition handleError : io LogWorld () := modify (λ w, set_reports (S (lw_reports w)) w).

Definition write_record (record : LogRecord) : io LogWorld () :=
  h ← gets lw_file;
  match h with
  | None => mret ()
  | Some h =>
      try_except
        (msg ← lift (format record);
         let h := mkHandle (hd_inode h) (hd_pos h) (hd_pending h +:+ msg +:+ newline) in
         _ ← modify (set_file (Some h));
         flush_handle h)
        is_exception (λ _, handleError)
  end.

(** The two steps of [emit] before the record is written: the file of the day,
    and the rotation of a full file. *)
Definition open_day (path : string) : io LogWorld () :=
  current ← gets lw_current;
  if decide (Some path = current) then mret ()
  else
    _ ← _close;
    _ ← _ensure_dir path;
    _ ← modify (set_current (Some path));
    h ← open_append path;
    modify (set_file (Some h)).

Definition roll_over (path : string) : io LogWorld () :=
  roll ← _check_rollover;
  if (roll : bool) then _ ← _close; _ ← _rotate path; reopen path else mret ().

Definition emit (record : LogRecord) : io LogWorld () :=
  path ← _daily_path;
  _ ← open_day path;
  _ ← roll_over path;
  write_record record.

Definition close : io LogWorld () := _close.
End handler.
