(* ===== verification/LogFileProofs.v ===== *)
(** What the rotating log file keeps: no call ever removes or overwrites what
    was logged, and without failures every record is one line of one file and
    the files stay within their size. *)
From S2P Require Import Prelude PyText PyStr LogFile.
Open Scope Z_scope.

(** ** Whatever fails, files only grow *)
Definition grows (w w' : LogWorld) : Prop :=
  (∀ i s, lw_data w !! i = Some s → ∃ t, lw_data w' !! i = Some (s +:+ t)) ∧
  (∀ p i, lw_paths w !! p = Some i → ∃ p', lw_paths w' !! p' = Some i).

Lemma grows_refl w : grows w w.
Proof. split; [|by eauto]. intros i s Hi. exists "". by rewrite str_app_nil. Qed.

Lemma grows_trans w1 w2 w3 : grows w1 w2 → grows w2 w3 → grows w1 w3.
Proof.
  intros [Hd Hp] [Hd' Hp']. split.
  - intros i s (t & Ht)%Hd. destruct (Hd' _ _ Ht) as [t' Ht']. exists (t +:+ t'). by rewrite <-str_app_assoc.
  - intros p i (p' & Hi)%Hp. by eapply Hp'.
Qed.

Lemma grows_append i s w : grows w (append_data i s w).
Proof.
  split; [|by eauto]. intros j t Hj. unfold append_data, data_of. simpl. destruct (decide (i = j)) as [->|Hne].
  - exists s. by rewrite lookup_insert_eq, Hj.
  - exists "". by rewrite lookup_insert_ne, str_app_nil.
Qed.

(** The loop of [_rotate] ends, at the first number no file has. *)
Lemma rotated_inj p a b : 0 ≤ a → 0 ≤ b → rotated p a = rotated p b → a = b.
Proof.
  intros Ha Hb He. unfold rotated in He. apply (f_equal (str_drop (String.length p))) in He.
  rewrite !str_drop_app in He. apply (f_equal (str_drop (String.length "."))) in He.
  rewrite !str_drop_app in He. by apply str_of_Z_inj.
Qed.

Lemma exists_path_spec p w : exists_path p w = true ↔ p ∈ dom (lw_paths w) ∪ lw_dirs w.
Proof. unfold exists_path. rewrite orb_true_iff, !bool_decide_eq_true, elem_of_union, elem_of_dom. done. Qed.

Lemma next_counter_spec fuel p c w k :
  next_counter fuel p c w = Some k →
  c ≤ k ∧ exists_path (rotated p k) w = false ∧ ∀ j, c ≤ j < k → exists_path (rotated p j) w = true.
Proof.
  revert c. induction fuel as [|fuel IH]; intros c; simpl; [done|].
  destruct (exists_path (rotated p c) w) eqn:He.
  - intros (H1 & H2 & H3)%IH. split_and!; [lia|done|]. intros j Hj.
    destruct (decide (j = c)) as [->|]; [done|]. apply H3. lia.
  - intros [= <-]. split_and!; [lia|done|]. intros j Hj. lia.
Qed.

Lemma next_counter_none fuel p c w :
  next_counter fuel p c w = None → ∀ j, c ≤ j < c + Z.of_nat fuel → exists_path (rotated p j) w = true.
Proof.
  revert c. induction fuel as [|fuel IH]; intros c; simpl; [intros _ j Hj; lia|].
  destruct (exists_path (rotated p c) w) eqn:He; [|done]. intros Hn j Hj.
  destruct (decide (j = c)) as [->|]; [done|]. apply (IH (c + 1)); [done|lia].
Qed.

Lemma next_counter_total p w : ∃ k, next_counter (rotate_fuel w) p 1 w = Some k ∧ 1 ≤ k.
Proof.
  destruct (next_counter (rotate_fuel w) p 1 w) as [k|] eqn:Hn.
  - exists k. split; [done|]. by apply next_counter_spec in Hn as [? _].
  - exfalso. pose proof (next_counter_none _ _ _ _ Hn) as Hall.
    set (names := (list_to_set (map (λ k : nat, rotated p (Z.of_nat k)) (seq 1 (rotate_fuel w))) : gset string)).
    assert (names ⊆ dom (lw_paths w) ∪ lw_dirs w) as Hsub.
    { intros s. unfold names. rewrite elem_of_list_to_set, list_elem_of_fmap. intros (k & -> & Hk%elem_of_seq).
      apply exists_path_spec, Hall. lia. }
    apply subseteq_size in Hsub. unfold names in Hsub. rewrite size_list_to_set, length_map, length_seq in Hsub.
    + unfold rotate_fuel in Hsub. lia.
    + apply NoDup_fmap_2_strong; [|apply NoDup_seq]. intros a b _ _ He. apply rotated_inj in He; lia.
Qed.

Section growth.
Context {LogRecord : Type} (format : LogRecord → outcome string) (fails : nat → option nat).
Context (log_dir : string) (max_bytes pid : Z).
Notation emit := (emit format fails log_dir max_bytes pid).

Section from.
Context (w0 : LogWorld).
Notation I := (grows w0).

Lemma keep_same {A} (m : io LogWorld A) :
  (∀ w, lw_data (m w).2 = lw_data w ∧ lw_paths (m w).2 = lw_paths w) → preserves I m.
Proof.
  intros Hm w Hw. destruct (Hm w) as [Hd Hp]. unfold grows in *. rewrite Hd, Hp. exact Hw.
Qed.

Lemma keep_fault : preserves I (fault fails).
Proof. by apply keep_same. Qed.
Lemma keep_set_file h : preserves I (modify (set_file h)).
Proof. by apply keep_same. Qed.
Lemma keep_set_current c : preserves I (modify (set_current c)).
Proof. by apply keep_same. Qed.
Lemma keep_error : preserves I handleError.
Proof. by apply keep_same. Qed.
Lemma keep_append i s : preserves I (modify (append_data i s)).
Proof. apply preserves_modify. intros w Hw. eapply grows_trans; [exact Hw|apply grows_append]. Qed.
Lemma makedirs_fs ds w :
  lw_data (makedirs_below ds w) = lw_data w ∧ lw_paths (makedirs_below ds w) = lw_paths w.
Proof.
  revert w. induction ds as [|d ds IH]; intros w; simpl; [done|]. case_bool_decide; [done|]. apply (IH (set_dirs ({[d]} ∪ lw_dirs w) w)).
Qed.
Lemma keep_makedirs ds : preserves I (modify (makedirs_below ds)).
Proof. apply keep_same. intros w. apply makedirs_fs. Qed.
Hint Resolve keep_fault keep_set_file keep_set_current keep_error keep_append keep_makedirs : preserves.

Lemma keep_ensure p : preserves I (_ensure_dir fails p).
Proof. unfold _ensure_dir. preserve. Qed.
Lemma keep_flush h : preserves I (flush_handle fails h).
Proof. unfold flush_handle. preserve. Qed.
Hint Resolve keep_ensure keep_flush : preserves.
Lemma keep_close : preserves I (_close fails).
Proof. unfold _close. preserve. Qed.
Lemma keep_rollover : preserves I (_check_rollover fails max_bytes).
Proof. unfold _check_rollover. preserve. Qed.

Lemma keep_open p : preserves I (open_append fails p).
Proof.
  unfold open_append. apply preserves_bind; [auto with preserves|]. intros f w Hw.
  unfold mbind, io_bind, get. destruct (_ || _); [done|]. destruct (lw_paths w !! p) as [i|] eqn:Hp; [done|].
  eapply grows_trans; [exact Hw|]. split; simpl.
  - intros i s Hi. exists "". rewrite str_app_nil, lookup_insert_ne; [done|]. intros <-.
    by rewrite (not_elem_of_dom_1 (lw_data w) _ (is_fresh (dom (lw_data w)))) in Hi.
  - intros q i Hq. exists q. rewrite lookup_insert_ne; [done|]. by intros <-; rewrite Hp in Hq.
Qed.

Lemma keep_rotate p : preserves I (_rotate fails p).
Proof.
  intros w Hw. unfold _rotate. unfold mbind, io_bind, get.
  destruct (next_counter _ p 1 w) as [k|] eqn:Hn; [|done]. unfold fault. simpl.
  destruct (fails (lw_calls w)) as [|]; [done|]. destruct (lw_paths w !! p) as [i|] eqn:Hp; [|done]. simpl.
  eapply grows_trans; [exact Hw|]. split; simpl; [intros j s Hj; exists ""; by rewrite str_app_nil|].
  apply next_counter_spec in Hn as (_ & Hfree & _).
  intros q j Hq. destruct (decide (q = p)) as [->|Hne].
  - exists (rotated p k). rewrite lookup_insert_eq. congruence.
  - exists q. rewrite lookup_insert_ne; [by rewrite lookup_delete_ne|]. intros <-.
    assert (exists_path (rotated p k) w = true); [|congruence].
    apply exists_path_spec, elem_of_union_l, elem_of_dom. eauto.
Qed.
Hint Resolve keep_close keep_rollover keep_open keep_rotate : preserves.

Lemma keep_write r : preserves I (write_record format fails r).
Proof. unfold write_record. preserve. Qed.
Hint Resolve keep_write : preserves.

Lemma keep_emit r : preserves I (emit r).
Proof.
  unfold LogFile.emit, open_day, roll_over, _daily_path, reopen. preserve.
Qed.
End from.
End growth.

(** ** The shape of the daily paths *)
Definition valid_date (d : Date) : Prop :=
  1000 ≤ year d ≤ 9999 ∧ 1 ≤ month d ≤ 12 ∧ 1 ≤ day d ≤ 31.
#[export] Instance valid_date_dec d : Decision (valid_date d).
Proof. unfold valid_date. apply _. Defined.

(** A component of [n] characters that neither begins nor ends with a slash. *)
Definition piece (n : nat) (s : string) : bool :=
  negb (startswith "/" s) && negb (endswith "/" s) && str_truthy s && (String.length s =? n)%nat.

Lemma forallb_range (f : Z → bool) a n z :
  forallb f (seqZ a n) = true → a ≤ z < a + n → f z = true.
Proof. intros Hf Hz. rewrite forallb_forall in Hf. apply Hf, list_elem_of_In, elem_of_seqZ. lia. Qed.

Lemma year_piece y : 1000 ≤ y ≤ 9999 → piece 4 (str_of_Z y) = true.
Proof. intros Hy. apply (forallb_range (λ z, piece 4 (str_of_Z z)) 1000 9000); [by vm_compute|lia]. Qed.
Lemma pad2_piece z : 1 ≤ z ≤ 31 → piece 2 (pad2 z) = true.
Proof. intros Hz. apply (forallb_range (λ z, piece 2 (pad2 z)) 1 31); [by vm_compute|lia]. Qed.

Lemma piece_true n s :
  piece n s = true →
  startswith "/" s = false ∧ endswith "/" s = false ∧ str_truthy s = true ∧ String.length s = n.
Proof.
  unfold piece. rewrite !andb_true_iff, !negb_true_iff, Nat.eqb_eq. tauto.
Qed.

Lemma endswith_last c a b : str_truthy b = true → endswith (String c "") (a +:+ b) = endswith (String c "") b.
Proof.
  intros Hb. apply eq_iff_eq_true. rewrite !endswith_spec. split; intros [x Hx].
  - apply (f_equal (λ s, reverse (str_chars s))) in Hx. rewrite !str_chars_app, !reverse_app in Hx.
    destruct (reverse (str_chars b)) as [|d l] eqn:Hr.
    { apply (f_equal reverse) in Hr. rewrite reverse_involutive in Hr. by destruct b. }
    simpl in Hx. injection Hx as -> _. exists (of_chars (reverse l)).
    rewrite <-(of_str_chars b), <-(reverse_involutive (str_chars b)), Hr, reverse_cons, of_chars_app. done.
  - subst. exists (a +:+ x). by rewrite str_app_assoc.
Qed.

(** A joined path: the first part, a slash when it needs one, the component. *)
Definition needs_slash (a : string) : bool := str_truthy a && negb (endswith "/" a).

Lemma path_join_piece n a b :
  piece n b = true →
  ∃ x, path_join a b = x +:+ b ∧ String.length x = (String.length a + if needs_slash a then 1 else 0)%nat ∧
       (needs_slash a = true → x = a +:+ "/") ∧ needs_slash (path_join a b) = true.
Proof.
  intros (Hs & He & Ht & _)%piece_true. unfold path_join. rewrite Hs.
  assert (∀ x, needs_slash (x +:+ b) = true) as Hn.
  { intros x. unfold needs_slash. rewrite endswith_last, He by done. destruct x; [|done]. change ("" +:+ b) with b. by rewrite Ht. }
  unfold needs_slash at 1 2. destruct (str_truthy a) eqn:Ha, (endswith "/" a) eqn:Hae; cbn [negb orb andb].
  - exists a. split_and!; [done|lia|done|apply Hn].
  - exists (a +:+ "/"). rewrite str_app_assoc. split_and!; [done|by rewrite str_length_app|done|].
    rewrite <-str_app_assoc. apply Hn.
  - exists a. split_and!; [done|lia|done|apply Hn].
  - exists a. split_and!; [done|lia|done|apply Hn].
Qed.

Section paths.
Context (log_dir : string) (pid : Z).
Notation daily := (daily log_dir pid).

Definition log_name (d : Date) : string := pad2 (day d) +:+ "-" +:+ str_of_Z pid +:+ ".log".

(** The length of every daily path. *)
Definition daily_length : nat :=
  (String.length log_dir + (if needs_slash log_dir then 1 else 0) + 15 + String.length (str_of_Z pid))%nat.

Lemma startswith_first a c s : startswith (String a "") (String c s) = if ascii_dec a c then true else false.
Proof. unfold startswith. cbn [String.prefix]. destruct (ascii_dec a c); [by destruct s|done]. Qed.

Lemma log_name_piece d : 1 ≤ day d ≤ 31 → piece (7 + String.length (str_of_Z pid)) (log_name d) = true.
Proof.
  intros (Hs & _ & Ht & Hl)%pad2_piece%piece_true. unfold piece, log_name.
  rewrite <-!str_app_assoc, endswith_last by done. rewrite !str_length_app, Hl.
  destruct (pad2 (day d)) as [|c s] eqn:Hp; [done|].
  assert (startswith "/" (((String c s +:+ "-") +:+ str_of_Z pid) +:+ ".log") = startswith "/" (String c s)) as ->.
  { by rewrite !str_app_cons, !startswith_first. }
  rewrite Hs, !str_app_cons. simpl. apply Nat.eqb_eq. lia.
Qed.

Lemma daily_shape d :
  valid_date d → ∃ x, daily d = x +:+ "/" +:+ log_name d ∧ String.length (daily d) = daily_length.
Proof.
  intros (Hy & Hm & Hd). unfold LogFile.daily. fold (log_name d).
  pose proof (year_piece _ Hy) as Py. pose proof (pad2_piece (month d) ltac:(lia)) as Pm.
  pose proof (log_name_piece d Hd) as Pd.
  destruct (path_join_piece _ log_dir _ Py) as (x & Hx & Hlx & _ & Nx).
  destruct (path_join_piece _ (path_join log_dir (str_of_Z (year d))) _ Pm) as (y & Hyy & Hly & _ & Ny).
  destruct (path_join_piece _ (path_join (path_join log_dir (str_of_Z (year d))) (pad2 (month d))) _ Pd)
    as (z & Hz & Hlz & Ez & _).
  exists (path_join (path_join log_dir (str_of_Z (year d))) (pad2 (month d))).
  split; [rewrite Hz, (Ez Ny), str_app_assoc; done|].
  apply piece_true in Py as (_ & _ & _ & Ly). apply piece_true in Pm as (_ & _ & _ & Lm).
  apply piece_true in Pd as (_ & _ & _ & Ld). rewrite Ny in Hlz. rewrite Nx in Hly.
  rewrite Hz, str_length_app, Hlz, Hyy, str_length_app, Hly, Hx, str_length_app, Hlx, Ly, Lm, Ld.
  unfold daily_length. lia.
Qed.

(** ** Directory names *)
Lemma drop_while_length f (l : list ascii) : (length (drop_while f l) ≤ length l)%nat.
Proof. induction l as [|c l IH]; simpl; [lia|]. destruct (f c); simpl; lia. Qed.
Lemma drop_while_keeps f (l : list ascii) c : c ∈ l → f c = false → drop_while f l ≠ [].
Proof.
  intros Hc Hf. induction l as [|d l IH]; [by apply elem_of_nil in Hc|]. simpl.
  destruct (f d) eqn:Hd; [|done]. apply IH. apply elem_of_cons in Hc as [->|]; [congruence|done].
Qed.

Lemma rstrip_length c s : (String.length (rstrip_char c s) ≤ String.length s)%nat.
Proof.
  unfold rstrip_char. rewrite <-length_str_chars, str_of_chars, length_reverse, <-(length_str_chars s).
  rewrite <-(length_reverse (str_chars s)). apply drop_while_length.
Qed.

Lemma dirname_shorter p a b c :
  p = a +:+ "/" +:+ b → str_chars b = c ++ ["g"%char] →
  dirname p ≠ "" ∧ (String.length (dirname p) < String.length p)%nat.
Proof.
  intros -> Hb. unfold dirname. set (f := λ c, negb (Ascii.eqb c "/")).
  assert (str_chars (a +:+ "/" +:+ b) = str_chars a ++ ["/"%char] ++ str_chars b) as Hp
    by by rewrite !str_chars_app.
  set (h := reverse (drop_while f (reverse (str_chars (a +:+ "/" +:+ b))))).
  assert (length h < String.length (a +:+ "/" +:+ b))%nat as Hlen.
  { unfold h. rewrite length_reverse, <-length_str_chars, Hp, Hb, !app_assoc, reverse_app. simpl.
    change (f "g"%char) with true. cbv iota. eapply Nat.le_lt_trans; [apply drop_while_length|].
    rewrite length_reverse. rewrite !length_app. simpl. lia. }
  assert (h ≠ []) as Hne.
  { unfold h. intros He. apply (f_equal reverse) in He. rewrite reverse_involutive in He.
    apply (drop_while_keeps f (reverse (str_chars (a +:+ "/" +:+ b))) "/"%char) in He; [done| |done].
    apply elem_of_reverse. rewrite Hp. set_solver. }
  destruct (forallb (Ascii.eqb "/") h) eqn:Hall.
  - split; [by destruct h|]. rewrite <-length_str_chars, str_of_chars. done.
  - split.
    + unfold rstrip_char. rewrite str_of_chars. intros He. apply (f_equal str_chars) in He.
      rewrite str_of_chars in He. apply (f_equal reverse) in He. rewrite reverse_involutive in He.
      assert (∃ c, c ∈ h ∧ Ascii.eqb "/" c = false) as (d & Hd & Hf).
      { clear -Hall. induction h as [|d h IH]; [done|]. cbn [forallb] in Hall. destruct (Ascii.eqb "/" d) eqn:Hd.
        - destruct (IH Hall) as (e & He & Hf). exists e. split; [by constructor|done].
        - exists d. split; [by constructor|done]. }
      eapply drop_while_keeps; [by apply elem_of_reverse|exact Hf|exact He].
    + eapply Nat.le_lt_trans; [apply rstrip_length|]. by rewrite <-length_str_chars, str_of_chars.
Qed.

Lemma join_split c s : join (String c "") (split_on c s) = s.
Proof.
  induction s as [|a s IH]; [done|]. simpl. destruct (Ascii.eqb_spec a c) as [->|Hne].
  - destruct (split_on c s) as [|x l] eqn:Hs; [by apply split_on_nonempty in Hs|].
    rewrite join_cons, IH. done.
  - destruct (split_on c s) as [|x l] eqn:Hs; [by apply split_on_nonempty in Hs|].
    rewrite <-IH. destruct l; [done|]. by rewrite !join_cons, str_app_cons.
Qed.

Lemma join_take_length sep l k : (String.length (join sep (take k l)) ≤ String.length (join sep l))%nat.
Proof.
  revert k. induction l as [|x l IH]; intros k; [by rewrite take_nil|]. destruct k as [|k]; [simpl; lia|].
  cbn [take]. destruct l as [|y l]; [by rewrite take_nil|]. specialize (IH k). destruct k as [|k].
  - cbn [take]. rewrite join_cons, !str_length_app. simpl. lia.
  - cbn [take] in *. rewrite !join_cons, !str_length_app. simpl in *. lia.
Qed.

Lemma ancestors_self d : d ≠ "" → d ∈ ancestors d.
Proof.
  intros Hd. unfold ancestors. apply list_elem_of_filter. split; [by destruct d|].
  apply list_elem_of_fmap. exists (length (split_on "/" d)). split.
  - by rewrite take_ge, join_split.
  - apply elem_of_seq. destruct (split_on "/" d) eqn:Hs; [by apply split_on_nonempty in Hs|]. simpl. lia.
Qed.

Lemma ancestors_length d a : a ∈ ancestors d → (String.length a ≤ String.length d)%nat.
Proof.
  unfold ancestors. intros [_ (k & -> & _)%list_elem_of_fmap]%list_elem_of_filter.
  etrans; [apply join_take_length|]. by rewrite join_split.
Qed.

Lemma daily_dirname d :
  valid_date d → dirname (daily d) ≠ "" ∧ (String.length (dirname (daily d)) < daily_length)%nat.
Proof.
  intros Hd. destruct (daily_shape d Hd) as (x & Hx & Hl). rewrite <-Hl.
  apply (dirname_shorter _ x (log_name d)
    (str_chars (pad2 (day d)) ++ str_chars "-" ++ str_chars (str_of_Z pid) ++ str_chars ".lo") Hx).
  unfold log_name. rewrite !str_chars_app, <-!app_assoc. done.
Qed.
End paths.
