(* ===== verification/LogFileTheorems.v ===== *)
(** The theorems on the rotating log file: nothing logged is lost or
    overwritten, every record becomes one line when nothing fails, the files keep
    their size, and what a failure to open a file costs. *)
From S2P Require Import Prelude PyText PyStr LogFile LogFileProofs.
Open Scope Z_scope.

(** ** Sequences of operations on one handler *)
Inductive LogOp {LogRecord : Type} :=
| Emit (r : LogRecord)
| Close
| Today (d : Date).
Arguments LogOp : clear implicits.

(** The lines of a file. *)
Definition text_of (ls : list string) : string := foldr (λ l s, (l +:+ newline) +:+ s) "" ls.

Lemma text_of_snoc ls l : text_of (ls ++ [l]) = text_of ls +:+ (l +:+ newline).
Proof.
  induction ls as [|x ls IH]; [apply str_app_nil|].
  change (text_of ((x :: ls) ++ [l])) with ((x +:+ newline) +:+ text_of (ls ++ [l])).
  by rewrite IH, <-str_app_assoc.
Qed.

(** All lines of all files. *)
Definition all_lines (lines : gmap nat (list string)) : list string := concat (map_to_list lines).*2.

Lemma all_lines_insert lines i ls :
  lines !! i = None → all_lines (<[i := ls]> lines) ≡ₚ ls ++ all_lines lines.
Proof.
  intros Hi. unfold all_lines. rewrite map_to_list_insert by done. done.
Qed.

Lemma all_lines_snoc lines i ls l :
  lines !! i = Some ls → all_lines (<[i := ls ++ [l]]> lines) ≡ₚ all_lines lines ++ [l].
Proof.
  intros Hi. rewrite <-(insert_delete_id lines i ls Hi) at 2. rewrite <-insert_delete_eq.
  rewrite !all_lines_insert by apply lookup_delete_eq. rewrite <-!app_assoc. f_equiv. apply Permutation_app_comm.
Qed.

Section theorems.
Context {LogRecord : Type} (format : LogRecord → outcome string) (fails : nat → option nat).
Context (log_dir : string) (max_bytes pid : Z).
Notation emit := (emit format fails log_dir max_bytes pid).
Notation daily := (daily log_dir pid).

Definition log_op (op : LogOp LogRecord) : io LogWorld () :=
  match op with
  | Emit r => emit r
  | Close => close fails
  | Today d => modify (set_today d)
  end.
(** The callers of a handler go on after an exception. *)
Definition log_ops (ops : list (LogOp LogRecord)) (w : LogWorld) : LogWorld := foldl (λ w op, (log_op op w).2) w ops.

(** The day and the current path as every step but [open_day] leaves them. *)
Definition frame (w w' : LogWorld) : Prop := lw_current w' = lw_current w ∧ lw_today w' = lw_today w.

Lemma flush_frame h w :
  ((flush_handle fails h w).1 = Ret () ∨ (flush_handle fails h w).1 = Raise (OSError "write")) ∧
  frame w (flush_handle fails h w).2.
Proof.
  unfold flush_handle. destruct (negb _); [by split; [left|]|]. unfold mbind, io_bind, fault.
  destruct (fails (lw_calls w)); simpl; (split; [auto|by split]).
Qed.

Lemma close_frame w :
  (_close fails w).1 = Ret () ∧ frame w (_close fails w).2 ∧ lw_file (_close fails w).2 = None.
Proof.
  unfold _close, mbind, io_bind, gets. destruct (lw_file w) as [h|] eqn:Hf; [|by repeat split].
  unfold try_except. destruct (flush_frame h w) as [Ho Hfr].
  destruct (flush_handle fails h w) as [o w1]. simpl in *. by destruct Ho as [->| ->].
Qed.

Lemma rollover_frame w :
  (∃ b, (_check_rollover fails max_bytes w).1 = Ret b) ∧ frame w (_check_rollover fails max_bytes w).2 ∧
  (lw_file w = None → _check_rollover fails max_bytes w = (Ret false, w)).
Proof.
  unfold _check_rollover, mbind, io_bind, gets. destruct (lw_file w) as [h|] eqn:Hf; [|by split_and!; [eexists|..]].
  unfold try_except. destruct (flush_frame h w) as [Ho Hfr].
  destruct (flush_handle fails h w) as [o w1]. simpl in *. destruct Ho as [->| ->]; simpl; (split_and!; [by eexists|done|done]).
Qed.

Lemma ensure_frame p w :
  (_ensure_dir fails p w).1 = Ret () ∧ frame w (_ensure_dir fails p w).2 ∧
  lw_file (_ensure_dir fails p w).2 = lw_file w.
Proof.
  assert (∀ ds w, frame w (makedirs_below ds w) ∧ lw_file (makedirs_below ds w) = lw_file w) as Hm.
  { intros ds. induction ds as [|d ds IH]; intros w0; simpl; [done|]. case_bool_decide; [done|].
    destruct (IH (set_dirs ({[d]} ∪ lw_dirs w0) w0)) as [H1 H2]. split; [exact H1|exact H2]. }
  unfold _ensure_dir, mbind, io_bind, gets, fault. destruct (exists_path _ w); [done|]. simpl.
  destruct (fails (lw_calls w)); [done|]. simpl.
  destruct (Hm (ancestors (dirname p)) (set_calls (S (lw_calls w)) w)) as [H1 H2]. split_and!; [done|exact H1|exact H2].
Qed.

Lemma open_frame p w :
  ((∃ h, (open_append fails p w).1 = Ret h) ∨ (open_append fails p w).1 = Raise (OSError p)) ∧
  frame w (open_append fails p w).2 ∧ lw_file (open_append fails p w).2 = lw_file w.
Proof.
  unfold open_append, mbind, io_bind, fault, get. destruct (_ || _); [by split_and!; [right|..]|].
  destruct (lw_paths _ !! p); (split_and!; [left; by eexists|done|done]).
Qed.

Lemma rotate_frame p w :
  (_rotate fails p w).1 = Ret () ∧ frame w (_rotate fails p w).2 ∧ lw_file (_rotate fails p w).2 = lw_file w.
Proof.
  destruct (next_counter_total p w) as (k & Hk & _). unfold _rotate, mbind, io_bind, get, fault. rewrite Hk.
  simpl. destruct (fails (lw_calls w)), (lw_paths w !! p); done.
Qed.

(** Setting the handler's file to what [open] gives. *)
Definition shut_out (p : string) (w w' : LogWorld) (o : outcome ()) : Prop :=
  frame w w' ∧ (o = Ret () ∨ (o = Raise (OSError p) ∧ lw_file w' = None)).

Lemma open_file_shut p w :
  lw_file w = None →
  let m := h ← open_append fails p; modify (set_file (Some h)) in shut_out p w (m w).2 (m w).1.
Proof.
  intros Hf m. subst m. unfold shut_out, mbind, io_bind. destruct (open_frame p w) as (Ho & Hfr & Hfile).
  destruct (open_append fails p w) as [o w1]. simpl in *. destruct Ho as [[h ->]| ->]; simpl; [by split; [|left]|].
  split; [done|]. right. by rewrite Hfile.
Qed.

Lemma log_frame_trans w1 w2 w3 : frame w1 w2 → frame w2 w3 → frame w1 w3.
Proof. unfold frame. intuition congruence. Qed.

Lemma open_day_shut p w :
  let r := open_day fails p w in
  lw_current r.2 = Some p ∧ lw_today r.2 = lw_today w ∧ (r.1 = Ret () ∨ (r.1 = Raise (OSError p) ∧ lw_file r.2 = None)).
Proof.
  unfold open_day. rewrite (run_ret (gets lw_current) _ w (lw_current w) w eq_refl).
  destruct (decide (Some p = lw_current w)) as [He|_]; [by simpl; split_and!; [..|left]|].
  destruct (close_frame w) as (H1 & F1 & N1). destruct (_close fails w) as [o1 w1] eqn:R1. simpl in *. subst o1.
  rewrite (run_ret _ _ _ _ _ R1).
  destruct (ensure_frame p w1) as (H2 & F2 & N2). destruct (_ensure_dir fails p w1) as [o2 w2] eqn:R2. simpl in *. subst o2.
  rewrite (run_ret _ _ _ _ _ R2), (run_ret (modify _) _ w2 () _ eq_refl).
  destruct (open_file_shut p (set_current (Some p) w2)) as [[F3 F3'] H3]; [by simpl; rewrite N2|].
  destruct F1 as [_ F1], F2 as [_ F2]. split_and!; [done|by rewrite F3'; simpl; rewrite F2|exact H3].
Qed.

Lemma roll_over_shut p w : let r := roll_over fails max_bytes p w in shut_out p w r.2 r.1.
Proof.
  unfold roll_over. destruct (rollover_frame w) as ([b Hb] & F1 & _).
  destruct (_check_rollover fails max_bytes w) as [o1 w1] eqn:R1. simpl in *. subst o1.
  rewrite (run_ret _ _ _ _ _ R1). destruct b; [|by split; [|left]].
  destruct (close_frame w1) as (H2 & F2 & N2). destruct (_close fails w1) as [o2 w2] eqn:R2. simpl in *. subst o2.
  rewrite (run_ret _ _ _ _ _ R2).
  destruct (rotate_frame p w2) as (H3 & F3 & N3). destruct (_rotate fails p w2) as [o3 w3] eqn:R3. simpl in *. subst o3.
  rewrite (run_ret _ _ _ _ _ R3). unfold reopen.
  destruct (ensure_frame p w3) as (H4 & F4 & N4). destruct (_ensure_dir fails p w3) as [o4 w4] eqn:R4. simpl in *. subst o4.
  rewrite (run_ret _ _ _ _ _ R4). destruct (open_file_shut p w4) as [F5 H5]; [congruence|].
  split; [|exact H5]. do 3 (eapply log_frame_trans; [eassumption|]). by eapply log_frame_trans.
Qed.

(** The outcome of [emit]: it returns, opening the file of the day failed and
    the handler has none, or the formatter was interrupted. *)
Lemma emit_outcome r w :
  let '(o, w') := emit r w in
  lw_today w' = lw_today w ∧
  (o = Ret () ∨ (∃ e, o = Raise e ∧ is_exception e = false) ∨
   (o = Raise (OSError (daily (lw_today w))) ∧ lw_file w' = None ∧ lw_current w' = Some (daily (lw_today w)))).
Proof.
  set (p := daily (lw_today w)). unfold LogFile.emit. rewrite (run_ret (_daily_path log_dir pid) _ w p w eq_refl).
  destruct (open_day_shut p w) as (C1 & T1 & H1). destruct (open_day fails p w) as [o1 w1] eqn:R1. simpl in *.
  destruct H1 as [->|[-> N1]].
  2: { rewrite (run_raise _ _ _ _ _ R1). split; [done|]. right. right. done. }
  rewrite (run_ret _ _ _ _ _ R1).
  destruct (roll_over_shut p w1) as [[C2 T2] H2]. destruct (roll_over fails max_bytes p w1) as [o2 w2] eqn:R2. simpl in *.
  destruct H2 as [->|[-> N2]].
  2: { rewrite (run_raise _ _ _ _ _ R2). split; [congruence|]. right. right. split_and!; [done|done|congruence]. }
  rewrite (run_ret _ _ _ _ _ R2). unfold write_record, mbind, io_bind, gets.
  destruct (lw_file w2) as [h|]; [|split; [simpl; congruence|by left]].
  unfold try_except, lift. destruct (format r) as [msg|e].
  - unfold modify. match goal with |- context [flush_handle fails ?h ?w] => destruct (flush_frame h w) as [Ho [_ Hfr]];
      destruct (flush_handle fails h w) as [o3 w3] end. simpl in *.
    destruct Ho as [->| ->]; simpl; split; try congruence; auto.
  - destruct (is_exception e) eqn:He; simpl; [split; [congruence|auto]|]. split; [congruence|]. right. left. eauto.
Qed.

(** A file that could not be opened costs the records of the whole day: once
    [emit] raised because opening the file failed, every further record of that
    day is dropped without an attempt, an exception or a report. *)
Theorem open_failure_silences r p w w' :
  emit r w = (Raise (OSError p), w') →
  ∀ ops, Forall (λ op, match op with Today _ => False | _ => True end) ops →
    log_ops ops w' = w' ∧ ∀ r', emit r' w' = (Ret (), w').
Proof.
  intros Hr. pose proof (emit_outcome r w) as Ho. rewrite Hr in Ho. destruct Ho as (Ht & Ho).
  assert (lw_file w' = None ∧ lw_current w' = Some (daily (lw_today w))) as [Hf Hc].
  { destruct Ho as [?|[(e & [= <-] & ?)|(_ & ? & ?)]]; done. }
  assert (∀ r', emit r' w' = (Ret (), w')) as Hemit.
  { intros r'. unfold LogFile.emit. rewrite (run_ret (_daily_path log_dir pid) _ w' (daily (lw_today w')) w' eq_refl).
    assert (open_day fails (daily (lw_today w')) w' = (Ret (), w')) as R1.
    { unfold open_day, mbind, io_bind, gets. rewrite Hc, Ht. by rewrite decide_True. }
    rewrite (run_ret _ _ _ _ _ R1).
    assert (roll_over fails max_bytes (daily (lw_today w')) w' = (Ret (), w')) as R2.
    { unfold roll_over. destruct (rollover_frame w') as (_ & _ & R). by rewrite (run_ret _ _ _ _ _ (R Hf)). }
    rewrite (run_ret _ _ _ _ _ R2). unfold write_record, mbind, io_bind, gets. by rewrite Hf. }
  intros ops Hops. split; [|exact Hemit]. unfold log_ops. induction Hops as [|op ops Hop Hops IH]; [done|]. simpl.
  destruct op; simpl; [by rewrite Hemit| |done].
  unfold close, _close, mbind, io_bind, gets. by rewrite Hf.
Qed.

(** Nothing that was logged is lost: whatever the host's calls do, whenever
    the day changes and however the records format, every byte a log file holds
    stays where it is - a file is only appended to, a rotation never takes the
    name of another file, and no file loses its last name. *)
Theorem log_append_only ops w : grows w (log_ops ops w).
Proof.
  unfold log_ops. revert w. induction ops as [|op ops IH]; intros w; [apply grows_refl|]. simpl.
  eapply grows_trans; [|apply IH]. destruct op; simpl.
  - by apply (keep_emit format fails log_dir max_bytes pid w), grows_refl.
  - by apply (keep_close fails w), grows_refl.
  - by apply (keep_same w (modify (set_today d))); [|apply grows_refl].
Qed.

(** ** Without failures *)
Section no_failures.
Context (no_fault : ∀ n, fails n = None) (Hmax : 0 < max_bytes).
Notation L := (daily_length log_dir pid).

Record FsInv (lines : gmap nat (list string)) (msgs : list string) (w : LogWorld) : Prop := mkFsInv {
  fi_data : lw_data w = text_of <$> lines;
  fi_total : all_lines lines ≡ₚ msgs;
  fi_order : map_Forall (λ _ ls, ls `sublist_of` msgs) lines;
  fi_small : map_Forall (λ _ ls, ∀ init l, ls = init ++ [l] → Z.of_nat (String.length (text_of init)) < max_bytes) lines;
  fi_linked : ∀ i, is_Some (lines !! i) → ∃ p, lw_paths w !! p = Some i;
  fi_paths : ∀ p i, lw_paths w !! p = Some i → is_Some (lines !! i) ∧ (L ≤ String.length p)%nat;
  fi_dirs : ∀ d, d ∈ lw_dirs w → (String.length d < L)%nat }.

(** The handler's file: open at its end, nothing in the buffer. *)
Definition at_end (i : nat) (w : LogWorld) : Handle := mkHandle i (Z.of_nat (String.length (data_of i w))) "".
Definition FileOk (w : LogWorld) : Prop :=
  match lw_current w with
  | None => lw_file w = None
  | Some p => ∃ i, lw_paths w !! p = Some i ∧ lw_file w = Some (at_end i w) ∧ dirname p ∈ lw_dirs w
  end.

Definition rets {A} (Q : A → LogWorld → Prop) (o : outcome A) (w : LogWorld) : Prop :=
  match o with Ret a => Q a w | Raise _ => False end.

Lemma rets_bind {A B} (m : io LogWorld A) (f : A → io LogWorld B) (Q : B → LogWorld → Prop) w :
  wp m (rets (λ a w', wp (f a) (rets Q) w')) w → wp (m ≫= f) (rets Q) w.
Proof. intros Hm. apply wp_bind. eapply wp_mono; [exact Hm|]. by intros [a|e] w'. Qed.

Lemma rets_mono {A} (m : io LogWorld A) (P Q : A → LogWorld → Prop) w :
  wp m (rets P) w → (∀ a w', P a w' → Q a w') → wp m (rets Q) w.
Proof. intros Hm HPQ. eapply wp_mono; [exact Hm|]. intros [a|e] w'; [apply HPQ|done]. Qed.

Lemma fault_ok w : fault fails w = (Ret None, set_calls (S (lw_calls w)) w).
Proof. unfold fault. by rewrite no_fault. Qed.

(** A world that differs only in its counters, date and current path. *)
Lemma FsInv_same lines msgs w w' :
  lw_data w' = lw_data w → lw_paths w' = lw_paths w → lw_dirs w' = lw_dirs w → FsInv lines msgs w → FsInv lines msgs w'.
Proof. intros Hd Hp Hs [? ? ? ? ? ? ?]. split; rewrite ?Hd, ?Hp, ?Hs; done. Qed.

(** [_ensure_dir] leaves the directory there. *)
Lemma makedirs_dirs ds w :
  (∀ d, d ∈ ds → lw_paths w !! d = None) →
  makedirs_below ds w = set_dirs (list_to_set ds ∪ lw_dirs w) w.
Proof.
  revert w. induction ds as [|d ds IH]; intros w Hn; simpl.
  - rewrite (left_id_L ∅ (∪)). by destruct w.
  - rewrite bool_decide_eq_false_2 by (rewrite (Hn d) by constructor; by intros []).
    rewrite IH; [|intros e He; apply (Hn e); by constructor]. unfold set_dirs. simpl. f_equal. set_solver.
Qed.

Lemma ensure_dir_ok lines msgs p w :
  FsInv lines msgs w → dirname p ≠ "" → (String.length (dirname p) < L)%nat →
  wp (_ensure_dir fails p) (rets (λ _ w', FsInv lines msgs w' ∧ dirname p ∈ lw_dirs w' ∧ lw_dirs w ⊆ lw_dirs w' ∧
    lw_data w' = lw_data w ∧ lw_paths w' = lw_paths w ∧ lw_file w' = lw_file w ∧ lw_current w' = lw_current w ∧
    lw_reports w' = lw_reports w)) w.
Proof.
  intros Hi Hne Hlen. unfold _ensure_dir. apply rets_bind, wp_gets. simpl.
  assert (lw_paths w !! dirname p = None) as Hnp.
  { destruct (lw_paths w !! dirname p) as [i|] eqn:Hp; [|done]. apply (fi_paths _ _ _ Hi) in Hp. lia. }
  destruct (exists_path (dirname p) w) eqn:He.
  { apply wp_ret. apply exists_path_spec in He. rewrite elem_of_union, elem_of_dom, Hnp in He.
    simpl. split_and!; try done. by destruct He as [[? ?]|?]. }
  unfold wp. unfold mbind, io_bind. rewrite fault_ok. simpl. unfold modify. simpl.
  rewrite makedirs_dirs; simpl.
  - split_and!; try done; [| |set_solver].
    + destruct Hi as [? ? ? ? ? ? Hd]. split; try done. simpl. intros d [Ha|Ha]%elem_of_union; [|by apply Hd].
      apply elem_of_list_to_set, ancestors_length in Ha. lia.
    + apply elem_of_union_l, elem_of_list_to_set. by apply ancestors_self.
  - intros d Hd. destruct (lw_paths w !! d) as [i|] eqn:Hp; [|done].
    apply (fi_paths _ _ _ Hi) in Hp as [_ Hp]. apply ancestors_length in Hd. lia.
Qed.

Definition flushed (w : LogWorld) : Prop := ∀ h, lw_file w = Some h → hd_pending h = "".

Lemma FileOk_flushed w : FileOk w → flushed w.
Proof.
  unfold FileOk, flushed. destruct (lw_current w); [intros (i & _ & -> & _)|intros ->]; intros h; [|done].
  by intros [= <-].
Qed.

Lemma close_ok w : flushed w → _close fails w = (Ret (), set_file None w).
Proof.
  intros Hf. unfold _close, mbind, io_bind, gets. destruct (lw_file w) as [h|] eqn:Hw.
  - unfold try_except, flush_handle. rewrite (Hf h) by done. done.
  - destruct w. simpl in *. by subst.
Qed.

Lemma rollover_ok h w :
  lw_file w = Some h → hd_pending h = "" →
  _check_rollover fails max_bytes w = (Ret (max_bytes <=? hd_pos h), w).
Proof.
  intros Hw Hp. unfold _check_rollover, mbind, io_bind, gets. rewrite Hw. unfold try_except, flush_handle.
  rewrite Hp. simpl. by rewrite Hw.
Qed.

Lemma open_ok lines msgs p w :
  FsInv lines msgs w → dirname p ∈ lw_dirs w → (L ≤ String.length p)%nat →
  ∃ lines' i w', open_append fails p w = (Ret (at_end i w'), w') ∧ FsInv lines' msgs w' ∧ lw_paths w' !! p = Some i ∧
    (lw_paths w !! p = None → data_of i w' = "") ∧
    lw_dirs w' = lw_dirs w ∧ lw_current w' = lw_current w ∧ lw_reports w' = lw_reports w.
Proof.
  intros Hi Hdir Hlen. unfold open_append, mbind, io_bind. rewrite fault_ok. unfold get. cbn [lw_dirs lw_paths set_calls].
  rewrite (bool_decide_eq_false_2 (is_Some None)) by by intros [].
  rewrite (bool_decide_eq_false_2 (p ∈ _)) by (intros Hp; apply (fi_dirs _ _ _ Hi) in Hp; lia).
  rewrite (bool_decide_eq_true_2 (dirname p ∈ _)) by done. cbn [negb orb].
  destruct (lw_paths w !! p) as [i|] eqn:Hp.
  { exists lines, i, (set_calls (S (lw_calls w)) w). split_and!; try done. by eapply FsInv_same, Hi. }
  unfold modify. simpl. remember (fresh (dom (lw_data w))) as i eqn:Hfresh.
  assert (lines !! i = None) as Hnew.
  { pose proof (is_fresh (dom (lw_data w))) as Hf. rewrite <-Hfresh in Hf. rewrite (fi_data _ _ _ Hi), dom_fmap_L in Hf.
    by apply not_elem_of_dom. }
  match goal with |- context [mret _ ?x = _] => set (w' := x); exists (<[i := []]> lines), i, w' end.
  assert (data_of i w' = "") as Hemp by (unfold data_of; simpl; by rewrite lookup_insert_eq).
  split; [unfold at_end; by rewrite Hemp|]. split_and!; simpl; try done; [|by rewrite lookup_insert_eq]. clear Hemp; subst w'.
  destruct Hi as [Hd Ht Ho Hsm Hl Hps Hds]. split; simpl; try done.
  - by rewrite Hd, fmap_insert.
  - by rewrite all_lines_insert.
  - apply map_Forall_insert_2; [apply sublist_nil_l|done].
  - apply map_Forall_insert_2; [|done]. by intros [|].
  - intros j Hj. destruct (decide (i = j)) as [<-|Hne].
    + exists p. by rewrite lookup_insert_eq.
    + rewrite lookup_insert_ne in Hj by done. destruct (Hl j Hj) as [q Hq]. exists q.
      rewrite lookup_insert_ne; [done|]. intros <-. congruence.
  - intros q j. destruct (decide (p = q)) as [<-|Hne].
    + rewrite lookup_insert_eq. intros [= <-]. by rewrite lookup_insert_eq.
    + rewrite lookup_insert_ne by done. intros [Hj Hq]%Hps. split; [|done].
      destruct (decide (i = j)) as [<-|]; [by rewrite lookup_insert_eq|by rewrite lookup_insert_ne].
Qed.

Lemma rotate_ok lines msgs p i w :
  FsInv lines msgs w → lw_paths w !! p = Some i →
  ∃ w', _rotate fails p w = (Ret (), w') ∧ FsInv lines msgs w' ∧ lw_paths w' !! p = None ∧
    lw_dirs w' = lw_dirs w ∧ lw_current w' = lw_current w ∧ lw_file w' = lw_file w ∧ lw_reports w' = lw_reports w.
Proof.
  intros Hi Hp. destruct (next_counter_total p w) as (k & Hk & _). unfold _rotate, mbind, io_bind, get. rewrite Hk, fault_ok.
  cbn [lw_paths set_calls]. rewrite Hp. apply next_counter_spec in Hk as (_ & Hfree & _).
  assert (rotated p k ∉ dom (lw_paths w) ∪ lw_dirs w) as Hnew by by rewrite <-exists_path_spec, Hfree.
  assert (lw_paths w !! rotated p k = None) as Hnone.
  { apply (not_elem_of_dom (D:=gset string)). set_solver. }
  assert (p ≠ rotated p k) as Hne by (intros He; by rewrite <-He, Hp in Hnone).
  eexists. split; [done|]. split_and!; simpl; try done; [|by rewrite lookup_insert_ne, lookup_delete_eq].
  destruct Hi as [Hd Ht Ho Hsm Hl Hps Hds]. split; simpl; try done.
  - intros j Hj. destruct (Hl j Hj) as [q Hq]. destruct (decide (q = p)) as [->|Hqp].
    + exists (rotated p k). rewrite lookup_insert_eq. congruence.
    + exists q. rewrite lookup_insert_ne by congruence. by rewrite lookup_delete_ne.
  - intros q j. destruct (decide (rotated p k = q)) as [<-|Hqk].
    + rewrite lookup_insert_eq. intros [= <-]. destruct (Hps p i Hp) as [H1 H2]. split; [done|].
      unfold rotated. rewrite str_length_app. lia.
    + rewrite lookup_insert_ne by done. intros [_ Hq]%lookup_delete_Some. by apply Hps.
Qed.

Lemma write_ok lines msgs r msg i p w :
  FsInv lines msgs w → format r = Ret msg → lw_current w = Some p → lw_paths w !! p = Some i → dirname p ∈ lw_dirs w →
  lw_file w = Some (at_end i w) → Z.of_nat (String.length (data_of i w)) < max_bytes →
  ∃ lines' w', write_record format fails r w = (Ret (), w') ∧ FsInv lines' (msgs ++ [msg]) w' ∧ FileOk w' ∧
    lw_reports w' = lw_reports w.
Proof.
  intros Hi Hr Hc Hp Hdir Hf Hsz. destruct (fi_paths _ _ _ Hi _ _ Hp) as [[ls Hls] _].
  unfold write_record, mbind, io_bind, gets. rewrite Hf. unfold try_except, lift. rewrite Hr.
  unfold modify, flush_handle. cbn [hd_pending hd_inode at_end].
  change ("" +:+ msg +:+ newline) with (msg +:+ newline).
  assert (str_truthy (msg +:+ newline) = true) as -> by by destruct msg. cbn [negb].
  unfold mbind, io_bind. rewrite fault_ok. cbn [fst snd]. unfold get, set_file, set_calls, append_data, set_fs. simpl.
  assert (data_of i w = text_of ls) as Hdata.
  { unfold data_of. by rewrite (fi_data _ _ _ Hi), lookup_fmap, Hls. }
  eexists (<[i := ls ++ [msg]]> lines), _. split; [done|]. split_and!; [| |done].
  - destruct Hi as [Hd Ht Ho Hsm Hl Hps Hds]. split; simpl; try done.
    + by rewrite fmap_insert, text_of_snoc, <-Hdata, <-Hd.
    + by rewrite all_lines_snoc, Ht.
    + apply map_Forall_insert_2.
      * apply sublist_app; [by apply (Ho i)|done].
      * intros j k Hk. eapply sublist_inserts_r, (Ho j k Hk).
    + apply map_Forall_insert_2; [|done]. intros init l [-> _]%app_inj_tail. by rewrite <-Hdata.
    + intros j [k Hk]. apply Hl. destruct (decide (i = j)) as [<-|]; [eauto|]. rewrite lookup_insert_ne in Hk by done. eauto.
    + intros q j [Hj Hq]%Hps. split; [|done].
      destruct (decide (i = j)) as [<-|]; [by rewrite lookup_insert_eq|by rewrite lookup_insert_ne].
  - unfold FileOk. simpl. rewrite Hc. exists i. split_and!; [done| |done]. done.
Qed.

Lemma rets_run {A} (m : io LogWorld A) (Q : A → LogWorld → Prop) w :
  wp m (rets Q) w → ∃ a w', m w = (Ret a, w') ∧ Q a w'.
Proof. unfold wp. destruct (m w) as [[a|e] w']; [by eauto|done]. Qed.

(** A path the handler uses. *)
Definition good_path (p : string) : Prop :=
  String.length p = L ∧ dirname p ≠ "" ∧ (String.length (dirname p) < L)%nat.

Lemma reopen_ok lines msgs p w :
  FsInv lines msgs w → good_path p →
  ∃ lines' i w', reopen fails p w = (Ret (), w') ∧ FsInv lines' msgs w' ∧ lw_paths w' !! p = Some i ∧
    lw_file w' = Some (at_end i w') ∧ dirname p ∈ lw_dirs w' ∧ (lw_paths w !! p = None → data_of i w' = "") ∧
    lw_current w' = lw_current w ∧ lw_reports w' = lw_reports w.
Proof.
  intros Hi (Hlen & Hne & Hlt). unfold reopen.
  destruct (rets_run _ _ _ (ensure_dir_ok _ _ _ _ Hi Hne Hlt)) as ([] & w1 & Hr1 & Hi1 & Hdir & _ & Hd1 & Hp1 & Hf1 & Hc1 & Hn1).
  rewrite (run_ret _ _ _ _ _ Hr1).
  destruct (open_ok _ _ p w1 Hi1 Hdir ltac:(lia)) as (lines' & i & w2 & Hr2 & Hi2 & Hp2 & Hnew & Hd2 & Hc2 & Hn2).
  rewrite (run_ret _ _ _ _ _ Hr2). exists lines', i, (set_file (Some (at_end i w2)) w2).
  split_and!; simpl; try done; [by eapply FsInv_same, Hi2|by rewrite Hd2|by rewrite <-Hp1|congruence|congruence].
Qed.

Lemma open_day_ok lines msgs p w :
  FsInv lines msgs w → FileOk w → good_path p →
  ∃ lines' w', open_day fails p w = (Ret (), w') ∧ FsInv lines' msgs w' ∧ FileOk w' ∧
    lw_current w' = Some p ∧ lw_reports w' = lw_reports w.
Proof.
  intros Hi Hf (Hlen & Hne & Hlt). unfold open_day. rewrite (run_ret (gets lw_current) _ w (lw_current w) w eq_refl).
  destruct (decide (Some p = lw_current w)) as [He|_]; [exists lines, w; by split_and!|].
  rewrite (run_ret _ _ _ _ _ (close_ok w (FileOk_flushed w Hf))).
  assert (FsInv lines msgs (set_file None w)) as Hi0 by by eapply FsInv_same, Hi.
  destruct (rets_run _ _ _ (ensure_dir_ok _ _ _ _ Hi0 Hne Hlt)) as ([] & w1 & Hr1 & Hi1 & Hdir & _ & Hd1 & Hp1 & Hf1 & Hc1 & Hn1).
  rewrite (run_ret _ _ _ _ _ Hr1), (run_ret (modify _) _ w1 () _ eq_refl).
  assert (FsInv lines msgs (set_current (Some p) w1)) as Hi2 by by eapply FsInv_same, Hi1.
  destruct (open_ok _ _ p _ Hi2 Hdir ltac:(lia)) as (lines' & i & w2 & Hr2 & Hi3 & Hp2 & Hnew & Hd2 & Hc2 & Hn2).
  rewrite (run_ret _ _ _ _ _ Hr2). exists lines', (set_file (Some (at_end i w2)) w2).
  split_and!; simpl; try done; [by eapply FsInv_same, Hi3| |etrans; [exact Hn2|exact Hn1]].
  unfold FileOk. simpl. rewrite Hc2. exists i. split_and!; [done|done|]. by rewrite Hd2.
Qed.

Lemma roll_over_ok lines msgs p w :
  FsInv lines msgs w → FileOk w → good_path p → lw_current w = Some p →
  ∃ lines' i w', roll_over fails max_bytes p w = (Ret (), w') ∧ FsInv lines' msgs w' ∧
    lw_current w' = Some p ∧ lw_paths w' !! p = Some i ∧ dirname p ∈ lw_dirs w' ∧ lw_file w' = Some (at_end i w') ∧
    Z.of_nat (String.length (data_of i w')) < max_bytes ∧ lw_reports w' = lw_reports w.
Proof.
  intros Hi Hf Hg Hc. pose proof (FileOk_flushed w Hf) as Hfl.
  unfold FileOk in Hf. rewrite Hc in Hf. destruct Hf as (i & Hp & Hfile & Hdir).
  unfold roll_over. rewrite (run_ret _ _ _ _ _ (rollover_ok _ w Hfile eq_refl)). cbn [hd_pos at_end].
  destruct (Z.leb_spec max_bytes (Z.of_nat (String.length (data_of i w)))) as [Hge|Hlt].
  - rewrite (run_ret _ _ _ _ _ (close_ok w Hfl)).
    assert (FsInv lines msgs (set_file None w)) as Hi0 by by eapply FsInv_same, Hi.
    destruct (rotate_ok _ _ _ _ _ Hi0 Hp) as (w1 & Hr1 & Hi1 & Hp1 & Hd1 & Hc1 & Hf1 & Hn1).
    rewrite (run_ret _ _ _ _ _ Hr1).
    destruct (reopen_ok _ _ p w1 Hi1 Hg) as (lines' & j & w2 & Hr2 & Hi2 & Hp2 & Hf2 & Hd2 & Hnew & Hc2 & Hn2).
    exists lines', j, w2. split_and!; try done; [simpl in *; congruence|rewrite Hnew by done; simpl; lia|simpl in *; congruence].
  - exists lines, i, w. by split_and!.
Qed.

Lemma emit_ok lines msgs r msg w :
  FsInv lines msgs w → FileOk w → valid_date (lw_today w) → format r = Ret msg →
  ∃ lines' w', emit r w = (Ret (), w') ∧ FsInv lines' (msgs ++ [msg]) w' ∧ FileOk w' ∧ lw_reports w' = lw_reports w.
Proof.
  intros Hi Hf Hday Hr. set (p := daily (lw_today w)). assert (good_path p) as Hg.
  { destruct (daily_shape log_dir pid _ Hday) as (_ & _ & Hl). destruct (daily_dirname log_dir pid _ Hday). done. }
  unfold LogFile.emit. rewrite (run_ret (_daily_path log_dir pid) _ w p w eq_refl).
  destruct (open_day_ok _ _ p w Hi Hf Hg) as (l1 & w1 & Hr1 & Hi1 & Hf1 & Hc1 & Hn1). rewrite (run_ret _ _ _ _ _ Hr1).
  destruct (roll_over_ok _ _ p w1 Hi1 Hf1 Hg Hc1) as (l2 & i & w2 & Hr2 & Hi2 & Hc2 & Hp2 & Hd2 & Hf2 & Hsz & Hn2).
  rewrite (run_ret _ _ _ _ _ Hr2).
  destruct (write_ok _ _ r msg i p w2 Hi2 Hr Hc2 Hp2 Hd2 Hf2 Hsz) as (l3 & w3 & Hr3 & Hi3 & Hf3 & Hn3).
  exists l3, w3. split_and!; [done|done|done|congruence].
Qed.
End no_failures.

(** A day's records: the clock shows the day, the record is emitted. *)
Definition log_all (l : list (Date * LogRecord)) : io LogWorld () :=
  foreach l () (λ _ dr, _ ← modify (set_today dr.1); emit dr.2).

(** A new handler on a file system without log files. *)
Definition new_handler (w : LogWorld) : Prop :=
  lw_data w = ∅ ∧ lw_paths w = ∅ ∧ lw_current w = None ∧ lw_file w = None ∧
  ∀ d, d ∈ lw_dirs w → (String.length d < daily_length log_dir pid)%nat.

(** C29. Every record is one line of one log file: when no call to the host fails,
    records emitted over any days in any order all return, the lines of all files
    are the messages, each once, in every file in the order they came, every file
    keeps a name, and a file is rotated as soon as it reaches its size - so all
    but the last line of a file fit below the limit. *)
Theorem log_records_stored l msgs w :
  (∀ n, fails n = None) → 0 < max_bytes → new_handler w →
  Forall2 (λ dr m, valid_date dr.1 ∧ format dr.2 = Ret m) l msgs →
  ∃ w' lines, log_all l w = (Ret (), w') ∧ lw_data w' = text_of <$> lines ∧ all_lines lines ≡ₚ msgs ∧
    map_Forall (λ _ ls, ls `sublist_of` msgs ∧
      ∀ init m, ls = init ++ [m] → Z.of_nat (String.length (text_of init)) < max_bytes) lines ∧
    (∀ i, is_Some (lines !! i) → ∃ p, lw_paths w' !! p = Some i) ∧ lw_reports w' = lw_reports w.
Proof.
  intros Hnf Hmax (Hd & Hp & Hc & Hf & Hdirs) Hall.
  assert (∀ lines pre w0, FsInv lines pre w0 → FileOk w0 → ∃ w' lines', log_all l w0 = (Ret (), w') ∧
    FsInv lines' (pre ++ msgs) w' ∧ lw_reports w' = lw_reports w0) as Hgen.
  { clear Hd Hp Hc Hf Hdirs w. induction Hall as [|[d r] m l msgs [Hday Hr] Hall IH]; intros lines pre w Hi Hok.
    { exists w, lines. by rewrite app_nil_r. }
    unfold log_all. cbn [foreach fst snd] in *.
    assert (FsInv lines pre (set_today d w)) as Hi0 by by eapply FsInv_same, Hi.
    destruct (emit_ok Hnf Hmax _ _ r m (set_today d w) Hi0 Hok Hday Hr) as (l1 & w1 & R1 & Hi1 & Hok1 & Hn1).
    destruct (IH l1 _ w1 Hi1 Hok1) as (w2 & l2 & R2 & Hi2 & Hn2).
    exists w2, l2. split_and!; [|by rewrite <-app_assoc in Hi2|by rewrite Hn2, Hn1].
    rewrite (run_ret _ _ w () w1); [exact R2|]. by rewrite (run_ret (modify _) _ w () _ eq_refl). }
  destruct (Hgen ∅ [] w) as (w' & lines & Hrun & [Hdata Htot Ho Hsm Hl _ _] & Hn).
  - split; simpl; [by rewrite Hd, fmap_empty|done|apply map_Forall_empty|apply map_Forall_empty| | |exact Hdirs].
    + intros i [? ?]. done.
    + intros p i. by rewrite Hp.
  - unfold FileOk. by rewrite Hc.
  - exists w', lines. split_and!; try done. intros i ls Hi. split; [by apply (Ho i)|by apply (Hsm i)].
Qed.
End theorems.

(** ** Witnesses *)
Module LogDemo.
Definition quiet (n : nat) : option nat := None.
Definition open_fails (n : nat) : option nat := if (n =? 1)%nat then Some 0%nat else None.
Definition empty_world : LogWorld := mkLogWorld ∅ ∅ ∅ (mkDate 2024 5 17) 0 0 None None.
Definition days : list (Date * string) :=
  [(mkDate 2024 5 17, "first"); (mkDate 2024 5 17, "second"); (mkDate 2024 5 17, "third"); (mkDate 2024 5 18, "fourth")].

(** Ten bytes fit: the third line finds the file full and starts a new one. *)
Example rotation : lw_paths (log_all Ret quiet "logs" 10 7 days empty_world).2 =
  {["logs/2024/05/17-7.log.1" := 0%nat; "logs/2024/05/17-7.log" := 1%nat; "logs/2024/05/18-7.log" := 2%nat]}.
Proof. by vm_compute. Qed.
End LogDemo.

Lemma log_records_stored_witness :
  ∃ w' lines, log_all Ret LogDemo.quiet "logs" 10 7 LogDemo.days LogDemo.empty_world = (Ret (), w') ∧
    all_lines lines ≡ₚ ["first"; "second"; "third"; "fourth"] ∧ lw_data w' = text_of <$> lines.
Proof.
  destruct (log_records_stored (Ret (A:=string)) LogDemo.quiet "logs" 10 7 LogDemo.days ["first"; "second"; "third"; "fourth"]
    LogDemo.empty_world) as (w' & lines & H1 & H2 & H3 & _).
  - done.
  - done.
  - repeat split; simpl; intros d Hd; by apply elem_of_empty in Hd.
  - repeat constructor; simpl; lia.
  - exists w', lines. exact (conj H1 (conj H3 H2)).
Defined.

Lemma open_failure_silences_witness :
  let r := emit (Ret (A:=string)) LogDemo.open_fails "logs" 10 7 "first" LogDemo.empty_world in
  emit (Ret (A:=string)) LogDemo.open_fails "logs" 10 7 "second" r.2 = (Ret (), r.2).
Proof.
  intros r. assert (r = (Raise (OSError "logs/2024/05/17-7.log"), r.2)) as Hr by by vm_compute.
  exact (proj2 (open_failure_silences Ret LogDemo.open_fails "logs" 10 7 "first" "logs/2024/05/17-7.log" LogDemo.empty_world
    r.2 Hr [] (List.Forall_nil _)) "second").
Defined.
