(* ===== verification/Passwords.v ===== *)
(** Password policy and masking: [src/app/core/security/password_policy.py] and
    [src/app/core/security/masking.py], on texts as lists of code points. *)
From S2P Require Import Prelude PyText PyStr Settings.
Open Scope Z_scope.

(** ** password_policy.py *)
Definition _COMMON_PASSWORDS : list text := map to_text
  ["123456"; "password"; "12345678"; "qwerty"; "123456789";
   "12345"; "1234"; "111111"; "1234567"; "sunshine";
   "qwerty123"; "iloveyou"; "princess"; "admin"; "welcome";
   "666666"; "abc123"; "football"; "123123"; "monkey";
   "654321"; "!@#$%^&*"; "charlie"; "aa123456"; "donald";
   "password1"; "qwerty12345"; "1234567890"; "letmein"; "password123";
   "admin123"; "passw0rd"; "hello123"; "test123"; "root";
   "administrator"; "p@ssw0rd"; "qwertyuiop"; "asdfghjkl"; "zxcvbnm";
   "pass123"; "password!"; "default"; "change123"; "changeme"].

(** The character classes of the patterns; [re.search] of one class finds a
    character of it anywhere. *)
Definition upper_class (c : Z) : bool := in_range 65 90 c.
Definition lower_class (c : Z) : bool := in_range 97 122 c.
Definition digit_class (c : Z) : bool := in_range 48 57 c.
Definition special_class (c : Z) : bool := negb (upper_class c || lower_class c || digit_class c).
Definition re_search (cls : Z → bool) (s : text) : bool := existsb cls s.
Definition len (s : text) : Z := Z.of_nat (length s).

Section policy.
(** [str.lower] *)
Context (py_lower : text → text).

Definition validate_password_strength (policy : PasswordPolicySettings) (password : text) : outcome () :=
  if len password <? pp_min_length policy then
    Raise (BusinessError ("密码长度至少 " +:+ str_of_Z (pp_min_length policy) +:+ " 个字符"))
  else if pp_max_length policy <? len password then
    Raise (BusinessError ("密码长度不能超过 " +:+ str_of_Z (pp_max_length policy) +:+ " 个字符"))
  else if pp_require_uppercase policy && negb (re_search upper_class password) then
    Raise (BusinessError "密码必须包含至少一个大写字母")
  else if pp_require_lowercase policy && negb (re_search lower_class password) then
    Raise (BusinessError "密码必须包含至少一个小写字母")
  else if pp_require_digit policy && negb (re_search digit_class password) then
    Raise (BusinessError "密码必须包含至少一个数字")
  else if pp_require_special policy && negb (re_search special_class password) then
    Raise (BusinessError "密码必须包含至少一个特殊字符")
  else if pp_common_password_check policy && bool_decide (py_lower password ∈ _COMMON_PASSWORDS) then
    Raise (BusinessError "密码过于常见，请更换")
  else Ret ().

Definition estimate_strength_level (password : text) : Z :=
  let score := 0 in
  let score := if 8 <=? len password then score + 1 else score in
  let score := if 12 <=? len password then score + 1 else score in
  let score := if re_search upper_class password && re_search lower_class password then score + 1 else score in
  let score := if re_search digit_class password && re_search special_class password then score + 1 else score in
  Z.min score 4.

(** ** What the policy demands *)
Definition uncommon (policy : PasswordPolicySettings) (p : text) : Prop :=
  pp_common_password_check policy = true → py_lower p ∉ _COMMON_PASSWORDS.
Definition has_class (required : bool) (cls : Z → bool) (p : text) : Prop :=
  required = true → ∃ c, c ∈ p ∧ cls c = true.
Definition acceptable (policy : PasswordPolicySettings) (p : text) : Prop :=
  pp_min_length policy ≤ len p ≤ pp_max_length policy ∧
  has_class (pp_require_uppercase policy) upper_class p ∧ has_class (pp_require_lowercase policy) lower_class p ∧
  has_class (pp_require_digit policy) digit_class p ∧ has_class (pp_require_special policy) special_class p ∧
  uncommon policy p.

Lemma re_search_spec cls p : re_search cls p = true ↔ ∃ c, c ∈ p ∧ cls c = true.
Proof. unfold re_search. rewrite existsb_exists. by setoid_rewrite list_elem_of_In. Qed.

Lemma has_class_spec required cls p :
  required && negb (re_search cls p) = false ↔ has_class required cls p.
Proof.
  unfold has_class. rewrite <-re_search_spec. destruct required, (re_search cls p); naive_solver.
Qed.

Lemma validate_spec policy p : validate_password_strength policy p = Ret () ↔ acceptable policy p.
Proof.
  unfold validate_password_strength, acceptable. rewrite <-!has_class_spec.
  assert (uncommon policy p ↔
    pp_common_password_check policy && bool_decide (py_lower p ∈ _COMMON_PASSWORDS) = false) as ->.
  { unfold uncommon. destruct (pp_common_password_check policy); [|naive_solver]. simpl.
    rewrite bool_decide_eq_false. naive_solver. }
  destruct (Z.ltb_spec (len p) (pp_min_length policy)); [split; [done|lia]|].
  destruct (Z.ltb_spec (pp_max_length policy) (len p)); [split; [done|lia]|].
  repeat match goal with |- context [if ?b then Raise _ else _] => destruct b; [split; [done|naive_solver]|] end.
  split; [intros _; split_and!; (done || lia)|done].
Qed.

Lemma has_class_sublist required cls p q :
  p `sublist_of` q → has_class required cls p → has_class required cls q.
Proof.
  intros Hpq Hp Hr. destruct (Hp Hr) as (c & Hc & Hf). exists c. split; [|done].
  by eapply elem_of_submseteq, sublist_submseteq.
Qed.

Lemma estimate_monotone p q : p `sublist_of` q → estimate_strength_level p ≤ estimate_strength_level q.
Proof.
  intros Hpq. assert (len p ≤ len q) as Hlen by (apply sublist_length in Hpq; unfold len; lia).
  assert (∀ cls, re_search cls p = true → re_search cls q = true) as Hcls.
  { intros cls. rewrite !re_search_spec. intros H. exact (has_class_sublist true cls p q Hpq (λ _, H) eq_refl). }
  unfold estimate_strength_level.
  pose proof (Hcls upper_class). pose proof (Hcls lower_class). pose proof (Hcls digit_class). pose proof (Hcls special_class).
  destruct (Z.leb_spec 8 (len p)), (Z.leb_spec 8 (len q)), (Z.leb_spec 12 (len p)), (Z.leb_spec 12 (len q)); try lia;
    destruct (re_search upper_class p), (re_search lower_class p), (re_search digit_class p), (re_search special_class p);
    cbn [andb];
    destruct (re_search upper_class q), (re_search lower_class q), (re_search digit_class q), (re_search special_class q);
    cbn [andb]; (lia || naive_solver).
Qed.

(** The password policy: a password is accepted exactly when its length is
    within the bounds, it has a character of every required class and is not a
    common one; adding characters to an accepted password anywhere keeps it
    accepted, within the length bound and away from the common ones, and never
    lowers its strength level; and what the default policy accepts has at least
    level 3 of 4. *)
Theorem password_policy_sound policy p :
  validate_password_strength policy p = Ret () →
  acceptable policy p ∧
  (∀ q, p `sublist_of` q → len q ≤ pp_max_length policy → uncommon policy q →
     validate_password_strength policy q = Ret () ∧ estimate_strength_level p ≤ estimate_strength_level q) ∧
  (policy = PasswordPolicySettings_default → 3 ≤ estimate_strength_level p ≤ 4).
Proof.
  intros Hv. pose proof (proj1 (validate_spec policy p) Hv) as Hp. split; [done|]. split.
  - intros q Hpq Hmax Hun. split; [|by apply estimate_monotone]. apply validate_spec.
    destruct Hp as (Hlen & H1 & H2 & H3 & H4 & _).
    split_and!; try done; try by eapply has_class_sublist. apply sublist_length in Hpq. unfold len in *. lia.
  - intros ->. destruct Hp as (Hlen & H1 & H2 & H3 & H4 & _). simpl in *.
    unfold has_class in *. rewrite <-re_search_spec in *. unfold estimate_strength_level.
    rewrite H1, H2, H3, H4 by done. destruct (Z.leb_spec 8 (len p)), (Z.leb_spec 12 (len p)); simpl; lia.
Qed.
End policy.

(** ** masking.py *)
Definition AT : Z := 64.
Definition DOT : Z := 46.
Definition stars (n : nat) : text := replicate n 42.

(** [s.find(c)]: -1 when there is none. *)
Fixpoint find_from (i : Z) (c : Z) (s : text) : Z :=
  match s with [] => -1 | x :: s => if x =? c then i else find_from (i + 1) c s end.
Definition find (c : Z) (s : text) : Z := find_from 0 c s.

Definition mask_email (email : option text) : option text :=
  match email with
  | None | Some [] => email
  | Some ((c :: _) as e) =>
      let at_idx := find AT e in
      if at_idx <? 2 then email else Some ([c] ++ stars 3 ++ drop (Z.to_nat at_idx) e)
  end.

Definition mask_phone (phone : option text) : option text :=
  match phone with
  | None => phone
  | Some p => if len p <? 7 then phone else Some (take 3 p ++ stars 4 ++ drop (length p - 4) p)
  end.

(** [s.rsplit(".", 1)]: the parts around the last dot. *)
Fixpoint rsplit_dot (s : text) : option (text * text) :=
  match s with
  | [] => None
  | x :: s =>
      match rsplit_dot s with
      | Some (a, b) => Some (x :: a, b)
      | None => if x =? DOT then Some ([], s) else None
      end
  end.

Definition mask_ip (ip : option text) : option text :=
  match ip with
  | None | Some [] => ip
  | Some s => match rsplit_dot s with Some (a, _) => Some (a ++ [DOT] ++ stars 1) | None => ip end
  end.

Section masking.
(** [\d]: the decimal digits of Unicode, a star is none of them. *)
Context (uni_digit : Z → bool).

(** [re.fullmatch(r"1\d{10}", value)] *)
Definition is_phone (value : text) : bool :=
  match value with x :: ds => (x =? 49) && (length ds =? 10)%nat && forallb uni_digit ds | [] => false end.

Definition mask_identifier (value : option text) : option text :=
  match value with
  | None | Some [] => value
  | Some v =>
      if bool_decide (AT ∈ v) then mask_email value
      else if is_phone v then mask_phone value
      else value
  end.

Lemma find_from_app i c a b : c ∉ a → find_from i c (a ++ c :: b) = i + Z.of_nat (length a).
Proof.
  revert i. induction a as [|x a IH]; intros i; [simpl; rewrite Z.eqb_refl; lia|].
  rewrite not_elem_of_cons. intros [Hx Ha]. simpl. rewrite (proj2 (Z.eqb_neq x c)) by done. rewrite IH by done. lia.
Qed.

Lemma first_at v : AT ∈ v → ∃ a b, v = a ++ AT :: b ∧ AT ∉ a ∧ find AT v = Z.of_nat (length a).
Proof.
  intros (a & b & -> & Ha)%list_elem_of_split_l. exists a, b. split_and!; [done|done|]. unfold find.
  rewrite find_from_app by done. lia.
Qed.

(** Masking an address with at least two characters before the sign. *)
Lemma mask_email_split c d a b :
  AT ∉ c :: d :: a → mask_email (Some ((c :: d :: a) ++ AT :: b)) = Some ([c] ++ stars 3 ++ AT :: b).
Proof.
  intros Ha. assert (find AT (c :: d :: a ++ AT :: b) = Z.of_nat (length (c :: d :: a))) as Hf.
  { unfold find. change (c :: d :: a ++ AT :: b) with ((c :: d :: a) ++ AT :: b). rewrite find_from_app by done. lia. }
  unfold mask_email. cbn [app]. rewrite Hf. rewrite (proj2 (Z.ltb_ge _ _)) by (simpl length; lia).
  rewrite Nat2Z.id. change (c :: d :: a ++ AT :: b) with ((c :: d :: a) ++ AT :: b). by rewrite drop_app_length.
Qed.

Lemma mask_phone_split p : 7 ≤ len p → mask_phone (Some p) = Some (take 3 p ++ stars 4 ++ drop (length p - 4) p).
Proof. intros Hp. unfold mask_phone. by rewrite (proj2 (Z.ltb_ge _ _)). Qed.

Lemma mask_identifier_mail c x domain : x ≠ [] → AT ∉ c :: x →
  mask_identifier (Some (c :: x ++ AT :: domain)) = Some ([c] ++ stars 3 ++ AT :: domain).
Proof.
  destruct x as [|d x]; [done|]. intros _ Hat. unfold mask_identifier.
  rewrite bool_decide_eq_true_2 by set_solver. by apply (mask_email_split c d x domain).
Qed.

Lemma mask_identifier_phone v : AT ∉ v → is_phone v = true → 7 ≤ len v →
  mask_identifier (Some v) = Some (take 3 v ++ stars 4 ++ drop (length v - 4) v).
Proof.
  intros Hat Hp Hl. unfold mask_identifier. destruct v as [|c v]; [done|].
  rewrite bool_decide_eq_false_2, Hp by done. by apply mask_phone_split.
Qed.

Lemma mask_identifier_same v :
  (AT ∈ v → find AT v < 2) → (AT ∉ v → is_phone v = false) → mask_identifier (Some v) = Some v.
Proof.
  destruct v as [|c v]; intros Hat Hno; [done|]. unfold mask_identifier. case_bool_decide as Hin.
  - unfold mask_email. by rewrite (proj2 (Z.ltb_lt _ _)) by by apply Hat.
  - by rewrite Hno.
Qed.

Lemma is_phone_len v : is_phone v = true → len v = 11.
Proof.
  unfold is_phone. destruct v as [|x ds]; [done|]. intros [[_ Hl]%andb_true_iff _]%andb_true_iff.
  apply Nat.eqb_eq in Hl. unfold len. simpl. lia.
Qed.

(** The masked telephone number has no sign and is no number any more. *)
Lemma phone_masked_once v : uni_digit 42 = false → AT ∉ v → len v = 11 →
  mask_identifier (Some (take 3 v ++ stars 4 ++ drop (length v - 4) v)) =
  Some (take 3 v ++ stars 4 ++ drop (length v - 4) v).
Proof.
  intros Hd Hno Hlen. apply mask_identifier_same.
  - intros Hat. exfalso. apply Hno. rewrite !elem_of_app in Hat. destruct Hat as [Hat|[Hat|Hat]].
    + apply elem_of_take in Hat as (? & ? & _). by eapply list_elem_of_lookup_2.
    + unfold stars in Hat. set_solver.
    + rewrite <-(take_drop (length v - 4) v). apply elem_of_app. by right.
  - intros _. destruct (take 3 v ++ stars 4 ++ drop (length v - 4) v) as [|x ds] eqn:He; [done|].
    assert (42 ∈ ds) as Hstar.
    { destruct v as [|y [|z [|z' v]]]; try (unfold len in Hlen; simpl in Hlen; lia).
      simpl in He. injection He as <- <-. set_solver. }
    simpl. apply andb_false_iff. right. apply not_true_iff_false. rewrite forallb_forall.
    intros Hall. specialize (Hall 42 (proj1 (list_elem_of_In _ _) Hstar)). congruence.
Qed.

(** The masked address has one character before the sign, or is the address. *)
Lemma mail_masked_once v : AT ∈ v →
  mask_identifier (mask_identifier (Some v)) = mask_identifier (Some v).
Proof.
  intros Hin. destruct (first_at v Hin) as (a & b & -> & Ha & Hf). destruct a as [|c [|d a]].
  - rewrite mask_identifier_same; [done|simpl in *; lia|done].
  - rewrite (mask_identifier_same ([c] ++ AT :: b));
      [|simpl in *; lia|intros H; exfalso; apply H; set_solver].
    apply mask_identifier_same; [simpl in *; lia|intros H; exfalso; apply H; set_solver].
  - change ((c :: d :: a) ++ AT :: b) with (c :: (d :: a) ++ AT :: b).
    rewrite (mask_identifier_mail c (d :: a) b) by set_solver.
    change ([c] ++ stars 3 ++ AT :: b) with (c :: stars 3 ++ AT :: b).
    apply mask_identifier_mail; [done|]. unfold stars. set_solver.
Qed.

(** Masking hides what it masks. An address shows its first character and its
    domain, a telephone number its first three and last four digits: two values
    that agree there are masked to the same text, whatever the rest is and
    however long. Everything else is returned as it is, among it an address with
    fewer than two characters before the sign; and masking a second time changes
    nothing. *)
Theorem mask_identifier_hides (star_is_no_digit : uni_digit 42 = false) :
  (∀ c x x' domain, x ≠ [] → x' ≠ [] → AT ∉ c :: x ++ x' →
     mask_identifier (Some (c :: x ++ AT :: domain)) = Some ([c] ++ stars 3 ++ AT :: domain) ∧
     mask_identifier (Some (c :: x ++ AT :: domain)) = mask_identifier (Some (c :: x' ++ AT :: domain))) ∧
  (∀ a x x' b, length a = 3%nat → length b = 4%nat → AT ∉ a ++ x ++ b → AT ∉ a ++ x' ++ b →
     is_phone (a ++ x ++ b) = true → is_phone (a ++ x' ++ b) = true →
     mask_identifier (Some (a ++ x ++ b)) = Some (a ++ stars 4 ++ b) ∧
     mask_identifier (Some (a ++ x ++ b)) = mask_identifier (Some (a ++ x' ++ b))) ∧
  (∀ v, (AT ∈ v → find AT v < 2) → (AT ∉ v → is_phone v = false) → mask_identifier (Some v) = Some v) ∧
  (∀ v, mask_identifier (mask_identifier v) = mask_identifier v).
Proof.
  split_and!; [| |exact mask_identifier_same|].
  - intros c x x' domain Hx Hx' Hat. rewrite !mask_identifier_mail by set_solver. done.
  - assert (∀ a x b, length a = 3%nat → length b = 4%nat → AT ∉ a ++ x ++ b → is_phone (a ++ x ++ b) = true →
      mask_identifier (Some (a ++ x ++ b)) = Some (a ++ stars 4 ++ b)) as Hphone.
    { intros a x b Ha Hb Hat Hp.
      rewrite mask_identifier_phone by (done || unfold len; rewrite !length_app; lia).
      assert (take 3 (a ++ x ++ b) = a) as -> by by apply take_app_length'.
      assert (drop (length (a ++ x ++ b) - 4) (a ++ x ++ b) = b) as ->; [|done].
      rewrite app_assoc. apply drop_app_length'. rewrite !length_app. lia. }
    intros a x x' b Ha Hb Hat Hat' Hp Hp'. by rewrite !Hphone.
  - intros [v|]; [|done]. destruct (decide (AT ∈ v)) as [Hin|Hno]; [by apply mail_masked_once|].
    destruct (is_phone v) eqn:Hp; [|by rewrite !mask_identifier_same].
    pose proof (is_phone_len v Hp) as Hlen.
    rewrite (mask_identifier_phone v) by (done || lia). by apply phone_masked_once.
Qed.
End masking.

(** An IPv4 address shows its first three numbers only, and a masked address
    stays as it is. *)
Lemma rsplit_dot_app a b : DOT ∉ b → rsplit_dot (a ++ DOT :: b) = Some (a, b).
Proof.
  intros Hb. induction a as [|x a IH]; simpl.
  - assert (rsplit_dot b = None) as ->; [|done]. induction b as [|y b IH]; [done|].
    apply not_elem_of_cons in Hb as [Hy Hb]. simpl. rewrite IH by done. by rewrite (proj2 (Z.eqb_neq y DOT)).
  - by rewrite IH.
Qed.

Lemma mask_ip_hides a b b' :
  DOT ∉ b → DOT ∉ b' → mask_ip (Some (a ++ DOT :: b)) = mask_ip (Some (a ++ DOT :: b')) ∧
  mask_ip (mask_ip (Some (a ++ DOT :: b))) = mask_ip (Some (a ++ DOT :: b)).
Proof.
  intros Hb Hb'. assert (∀ b, DOT ∉ b → mask_ip (Some (a ++ DOT :: b)) = Some (a ++ [DOT] ++ stars 1)) as H.
  { intros c Hc. unfold mask_ip. rewrite rsplit_dot_app by done. by destruct a. }
  rewrite !H by done. split; [done|]. apply (H (stars 1)). unfold stars. set_solver.
Qed.

(** ** Witnesses *)
Lemma password_policy_sound_witness :
  validate_password_strength (map (λ c, if upper_class c then c + 32 else c)) PasswordPolicySettings_default
    (to_text "Tr0ub4dor&3") = Ret () ∧
  3 ≤ estimate_strength_level (to_text "Tr0ub4dor&3") ≤ 4.
Proof.
  assert (validate_password_strength (map (λ c, if upper_class c then c + 32 else c)) PasswordPolicySettings_default
    (to_text "Tr0ub4dor&3") = Ret ()) as H by by vm_compute.
  split; [exact H|]. exact (proj2 (proj2 (password_policy_sound _ _ _ H)) eq_refl).
Defined.

Lemma mask_identifier_hides_witness :
  let a := [49; 51; 56] in let b := [53; 54; 55; 56] in
  mask_identifier digit_class (Some (a ++ [49; 50; 51; 52] ++ b)) = Some (a ++ stars 4 ++ b) ∧
  mask_identifier digit_class (Some (97 :: [108; 105] ++ AT :: [101; 120])) = Some ([97] ++ stars 3 ++ AT :: [101; 120]).
Proof.
  intros a b. assert (digit_class 42 = false) as H by reflexivity.
  assert (∀ x : Z, ∀ l : text, bool_decide (x ∈ l) = false → x ∉ l) as Hdec by (intros x l; by case_bool_decide).
  assert (AT ∉ a ++ [49; 50; 51; 52] ++ b) as H1 by (apply Hdec; by vm_compute).
  assert (AT ∉ 97 :: [108; 105] ++ [108; 105]) as H2 by (apply Hdec; by vm_compute).
  assert ([108; 105] ≠ []) as H3 by done.
  assert (is_phone digit_class (a ++ [49; 50; 51; 52] ++ b) = true) as H4 by by vm_compute.
  destruct (mask_identifier_hides digit_class H) as (Hmail & Hphone & _).
  exact (conj (proj1 (Hphone a [49; 50; 51; 52] [49; 50; 51; 52] b eq_refl eq_refl H1 H1 H4 H4))
    (proj1 (Hmail 97 [108; 105] [108; 105] [101; 120] H3 H3 H2))).
Defined.

Example masks :
  of_text <$> mask_identifier digit_class (Some (to_text "alice@example.com")) = Some "a***@example.com" ∧
  of_text <$> mask_ip (Some (to_text "192.168.1.77")) = Some "192.168.1.*".
Proof. by vm_compute. Qed.
