(* ===== verification/ProcessGroup.v ===== *)
(** The process group of [src/app/platform/runtime/process_group.py]: the
    command lines, the termination of the children and [run_all]. *)
From S2P Require Import Prelude PyText PyStr.
Open Scope Z_scope.

(** ** The environment and the command lines *)
Section commands.
Context (environ : gmap string string).

(** A call of [_env] by its positional arguments: both are required. *)
Definition _env (args : list string) : outcome string :=
  match args with
  | [name; dflt] => Ret (default dflt (environ !! name))
  | [_] => Raise (TypeError "_env() missing 1 required positional argument: 'default'")
  | _ => Raise (TypeError "_env() takes 2 positional arguments")
  end.

(** The members of the set are ASCII words without a k or an i, so lower case
    on ASCII decides membership as [str.lower] does. *)
Definition _env_bool (name : string) (dflt : bool) : bool :=
  match environ !! name with
  | None => dflt
  | Some value => bool_decide (lower (str_strip value) ∈ ["1"; "true"; "yes"; "on"])
  end.

(** [a or b] where [a] is computed first and may raise. *)
Definition or_else (a : outcome string) (b : outcome string) : outcome string :=
  x ← a; if str_truthy x then Ret x else b.

Definition _worker_command : outcome (list string) :=
  let command := ["celery"; "-A"; "app.worker.main:celery_app"; "worker"] in
  let command := if _env_bool "CELERY__WORKER_WITHOUT_MINGLE" true then command ++ ["--without-mingle"] else command in
  let command := if _env_bool "CELERY__WORKER_WITHOUT_GOSSIP" true then command ++ ["--without-gossip"] else command in
  queues ← _env ["CELERY__WORKER_QUEUES"; "judge,default"];
  hostname ← or_else (_env ["HOSTNAME"; ""]) (Ret "local");
  nodename ← or_else (_env ["ACOJ_CELERY_NODENAME"])
               (or_else (_env ["CELERY_NODENAME"]) (Ret ("judge@" +:+ hostname)));
  pool ← _env ["CELERY__WORKER_POOL"; "threads"];
  concurrency ← _env ["CELERY__WORKER_CONCURRENCY"; "8"];
  loglevel ← _env ["CELERY__WORKER_LOG_LEVEL"; "INFO"];
  Ret (command ++ ["-n"; nodename; "--pool"; pool; "--concurrency"; concurrency; "-Q"; queues; "--loglevel"; loglevel]).

Definition _beat_command : outcome (list string) :=
  loglevel ← _env ["CELERY__BEAT_LOG_LEVEL"; "INFO"];
  Ret ["celery"; "-A"; "app.worker.main:celery_app"; "beat"; "--loglevel"; loglevel; "--scheduler";
       "redbeat.RedBeatScheduler"].

Definition _api_command : list string := ["gunicorn"; "app.main:app"; "-c"; "gunicorn.conf.py"].

(** The dict of commands, built in the order it is written. *)
Definition commands : outcome (list (string * list string)) :=
  worker ← _worker_command;
  beat ← _beat_command;
  Ret [("worker", worker); ("beat", beat); ("api", _api_command)].
End commands.

(** ** Children *)
Inductive Signal := SIGTERM | SIGKILL.
#[export] Instance Signal_eq_dec : EqDecision Signal. Proof. solve_decision. Defined.

(** A child: the status it ended with, and the signals it was sent. *)
Record Process := mkProcess { returncode : option Z; sent : list Signal }.
#[export] Instance Process_eq_dec : EqDecision Process. Proof. solve_decision. Defined.
Definition Processes : Type := list (string * Process).

Definition alive (p : Process) : bool := negb (bool_decide (is_Some (returncode p))).
Definition send (s : Signal) (p : Process) : Process := mkProcess (returncode p) (sent p ++ [s]).
Definition exit_with (code : Z) (p : Process) : Process := mkProcess (Some code) (sent p).

Section group.
(** [float(text)], and how the children behave: what a child ends with before the
    timeout after it was asked to terminate, and what it ends with when it is
    killed - every process ends then. *)
Context (py_float : string → outcome Z) (on_term : string → option Z) (on_kill : string → Z).
(** [create_subprocess_exec]: whether the n-th child starts. *)
Context (spawns : string → list string → bool).
(** What ends the wait of [run_all]: the stop event, or children that ended by
    themselves, in the order the set of done tasks is iterated. *)
Context (stopped : bool) (ended : list (string * Z)).
Context (environ : gmap string string).

(** [if process.returncode is None: process.terminate()] *)
Definition term_one (np : string * Process) : string * Process :=
  if alive np.2 then (np.1, send SIGTERM np.2) else np.
(** Until the timeout: the children that end. *)
Definition wait_one (np : string * Process) : string * Process :=
  if alive np.2 then match on_term np.1 with Some c => (np.1, exit_with c np.2) | None => np end else np.
(** [if process.returncode is None: process.kill()], and the wait after it. *)
Definition kill_one (np : string * Process) : string * Process :=
  if alive np.2 then (np.1, exit_with (on_kill np.1) (send SIGKILL np.2)) else np.

Definition _terminate : io Processes () :=
  text ← lift (_env environ ["APP__PROCESS_SHUTDOWN_TIMEOUT_SECONDS"; "20"]);
  _ ← lift (py_float text);
  _ ← modify (map term_one);
  _ ← modify (map wait_one);
  ps ← get;
  if existsb (λ np, alive np.2) ps then modify (map kill_one) else mret ().

(** The loop that starts the children; a failure terminates those started and is
    raised again. *)
Definition start_children (cs : list (string * list string)) : io Processes () :=
  try_except
    (foreach cs () (λ _ c,
       if spawns c.1 c.2 then modify (λ ps, ps ++ [(c.1, mkProcess None [])])
       else raise (FileNotFoundError c.1)))
    (λ _, true)
    (λ e, _ ← _terminate; raise e).

(** The children that ended by themselves, when the wait ends. *)
Definition settle (np : string * Process) : string * Process :=
  match list_find (λ e, e.1 = np.1) ended with Some (_, (_, c)) => (np.1, exit_with c np.2) | None => np end.

Definition exit_code : Z :=
  match ended with (_, c) :: _ => c | [] => if stopped then 143 else 1 end.

(** [run_all] after the commands are there. *)
Definition run_children (cs : list (string * list string)) : io Processes Z :=
  _ ← start_children cs;
  _ ← modify (map settle);
  _ ← _terminate;
  mret exit_code.

Definition run_all : io Processes Z :=
  cs ← lift (commands environ);
  run_children cs.

(** ** [run_all] always fails *)

(** The worker's command line can never be built: [_env] has no default for its
    second parameter and two calls pass one argument. So [run_all] raises before
    a child is started, whatever the environment and the host. *)
Theorem run_all_raises w :
  run_all w = (Raise (TypeError "_env() missing 1 required positional argument: 'default'"), w).
Proof.
  unfold run_all, commands, _worker_command. unfold mbind, io_bind, lift.
  destruct (_env_bool _ _ _), (_env_bool _ _ _); simpl; unfold or_else; simpl;
    by destruct (str_truthy (default "" (environ !! "HOSTNAME"))).
Qed.

(** ** Termination of the children *)
Lemma terminate_run w :
  match py_float (default "20" (environ !! "APP__PROCESS_SHUTDOWN_TIMEOUT_SECONDS")) with
  | Raise e => _terminate w = (Raise e, w)
  | Ret _ => _terminate w = (Ret (), map kill_one (map wait_one (map term_one w)))
  end.
Proof.
  unfold _terminate. unfold mbind, io_bind, lift, modify, get. simpl.
  destruct (py_float _); [|done]. simpl. destruct (existsb _ _) eqn:He; [done|]. unfold mret, io_ret. f_equal.
  assert (Forall (λ np, alive np.2 = false) (map wait_one (map term_one w))) as Hall.
  { apply Forall_forall. intros np Hnp. apply not_true_iff_false. intros Ha.
    assert (existsb (λ np, alive np.2) (map wait_one (map term_one w)) = true); [|congruence].
    apply existsb_exists. exists np. split; [by apply list_elem_of_In|done]. }
  induction Hall as [|np l Hnp Hall IH]; [done|]. simpl. rewrite <-IH by
    (by apply not_true_iff_false; intros (x & Hx%list_elem_of_In & Hxa)%existsb_exists;
     rewrite Forall_forall in Hall; rewrite (Hall x Hx) in Hxa).
  unfold kill_one. by rewrite Hnp.
Qed.

(** What one child goes through. *)
Definition terminated (n : string) (p p' : Process) : Prop :=
  match returncode p with
  | Some _ => p' = p
  | None =>
      match on_term n with
      | Some c => p' = mkProcess (Some c) (sent p ++ [SIGTERM])
      | None => p' = mkProcess (Some (on_kill n)) (sent p ++ [SIGTERM; SIGKILL])
      end
  end.

Lemma terminate_one n p : ∃ p', kill_one (wait_one (term_one (n, p))) = (n, p') ∧ terminated n p p' ∧ alive p' = false.
Proof.
  unfold terminated, kill_one, wait_one, term_one, alive, send, exit_with. destruct p as [[c|] s]; simpl; [by eexists|].
  destruct (on_term n); simpl; eexists; (split; [done|]); simpl; [done|]. by rewrite <-app_assoc.
Qed.

(** Terminating the children leaves none behind: when [_terminate] returns every
    child has ended; one that had ended before is not touched, one that ends in
    time is only asked to, and one that does not is killed. It fails only when the
    timeout in the environment is not a number, and then sends nothing. *)
Theorem terminate_ends_all w :
  match py_float (default "20" (environ !! "APP__PROCESS_SHUTDOWN_TIMEOUT_SECONDS")) with
  | Raise e => _terminate w = (Raise e, w)
  | Ret _ => ∃ w', _terminate w = (Ret (), w') ∧
      Forall2 (λ np np', np'.1 = np.1 ∧ terminated np.1 np.2 np'.2 ∧ alive np'.2 = false) w w'
  end.
Proof.
  pose proof (terminate_run w) as Hrun. destruct (py_float _); [|exact Hrun].
  eexists. split; [exact Hrun|]. clear Hrun. induction w as [|[n p] w IH]; [constructor|]. simpl.
  constructor; [|exact IH]. destruct (terminate_one n p) as (p' & -> & Ht & Ha). done.
Qed.

(** With the commands given, no child outlives [run_children]. *)
Theorem run_children_leaves_none cs w :
  (∃ t, py_float (default "20" (environ !! "APP__PROCESS_SHUTDOWN_TIMEOUT_SECONDS")) = Ret t) →
  Forall (λ np, alive np.2 = false) (run_children cs w).2 ∧
  (Forall (λ c, spawns c.1 c.2 = true) cs → (run_children cs w).1 = Ret exit_code).
Proof.
  intros [t Ht].
  assert (∀ w, ∃ w', _terminate w = (Ret (), w') ∧ Forall (λ np, alive np.2 = false) w') as Hterm.
  { intros w0. pose proof (terminate_ends_all w0) as H. rewrite Ht in H. destruct H as (w' & H & Hall).
    exists w'. split; [done|]. clear H. induction Hall as [|? ? ? ? (_ & _ & ?)]; constructor; done. }
  unfold run_children. unfold start_children, try_except. unfold mbind, io_bind.
  match goal with |- context [foreach cs () ?b w] => destruct (foreach cs () b w) as [[[]|e] w1] eqn:Hf end.
  - unfold modify. destruct (Hterm (map settle w1)) as (w2 & -> & Hall). done.
  - destruct (Hterm w1) as (w2 & -> & Hall). unfold raise. simpl. split; [done|]. intros Hsp. exfalso.
    clear Hterm Hall w2. revert w Hf. induction Hsp as [|c cs Hc Hsp IH]; intros w; simpl; [done|].
    unfold mbind, io_bind. rewrite Hc. apply IH.
Qed.
End group.

(** ** Witnesses *)
Lemma run_children_leaves_none_witness :
  let w := (run_children (λ _, Ret 20) (λ n, if String.eqb n "beat" then None else Some 0) (λ _, -9) (λ _ _, true)
    true [] ∅ [("worker", []); ("beat", [])] []) in
  Forall (λ np, alive np.2 = false) w.2 ∧ w.1 = Ret 143.
Proof.
  intros w. destruct (run_children_leaves_none (λ _, Ret 20) (λ n, if String.eqb n "beat" then None else Some 0) (λ _, -9)
    (λ _ _, true) true [] ∅ [("worker", []); ("beat", [])] []) as [H1 H2].
  - by exists 20.
  - split; [exact H1|]. apply H2. by repeat constructor.
Defined.
