(* ===== verification/AsyncRunner.v ===== *)
(** The worker's persistent event loop, [src/app/platform/tasks/async_runner.py],
    as steps of the callers and of the loop threads. *)
From S2P Require Import Prelude.

(** ** State *)

(** A loop's thread has told it is ready, is inside [run_forever], or has closed
    the loop. *)
Inductive Phase := Ready | Running | Closed.
#[export] Instance Phase_eq_dec : EqDecision Phase. Proof. solve_decision. Defined.

Section runner.
Context {Task : Type}.

(** A loop: its phase, the tasks handed over and not started yet, those that were
    started, and whether [stop] was asked for. *)
Record Loop := mkLoop { lp_phase : Phase; lp_queue : list Task; lp_ran : list Task; lp_stop : bool }.

(** The runner's [_loop] (its [_thread] is the thread of that loop), and all the
    loops ever made. *)
Record Runner := mkRunner { _loop : option nat; loops : list Loop }.
Definition runner_init : Runner := mkRunner None [].

Definition is_running (i : nat) (s : Runner) : bool :=
  match loops s !! i with Some l => bool_decide (lp_phase l = Running) | None => false end.
Definition put_loop (i : nat) (l : Loop) (s : Runner) : Runner := mkRunner (_loop s) (<[i := l]> (loops s)).

(** ** Operations *)

(** [_ensure_loop] holds the lock throughout, and [ready.wait()] returns when the
    new thread has set the event - before it enters [run_forever]. *)
Definition _ensure_loop (s : Runner) : nat * Runner :=
  let fresh := (length (loops s), mkRunner (Some (length (loops s))) (loops s ++ [mkLoop Ready [] [] false])) in
  match _loop s with
  | Some i => if is_running i s then (i, s) else fresh
  | None => fresh
  end.

(** [run_coroutine_threadsafe]: raises on a closed loop. *)
Definition hand_over (t : Task) (i : nat) (s : Runner) : outcome () * Runner :=
  match loops s !! i with
  | Some l =>
      match lp_phase l with
      | Closed => (Raise (RuntimeError "Event loop is closed"), s)
      | _ => (Ret (), put_loop i (mkLoop (lp_phase l) (lp_queue l ++ [t]) (lp_ran l) (lp_stop l)) s)
      end
  | None => (Raise (RuntimeError "no loop"), s)
  end.

(** [run(coroutine)] up to the wait for its result, with no other call in between:
    which loop it waits for. *)
Definition run (t : Task) (s : Runner) : outcome nat * Runner :=
  let '(i, s) := _ensure_loop s in
  let '(o, s) := hand_over t i s in
  (_ ← o; Ret i, s).

(** [close]: the loop is taken under the lock; then [loop.stop] is handed to it,
    which raises when it is closed. The rest waits for the loop's thread. *)
Definition close_take (s : Runner) : option nat * Runner := (_loop s, mkRunner None (loops s)).
Definition ask_stop (i : nat) (s : Runner) : outcome () * Runner :=
  match loops s !! i with
  | Some l =>
      match lp_phase l with
      | Closed => (Raise (RuntimeError "Event loop is closed"), s)
      | _ => (Ret (), put_loop i (mkLoop (lp_phase l) (lp_queue l) (lp_ran l) true) s)
      end
  | None => (Ret (), s)
  end.
Definition close (s : Runner) : outcome () * Runner :=
  let '(o, s) := close_take s in
  match o with None => (Ret (), s) | Some i => ask_stop i s end.

(** [_run_loop] after [ready.set()]: the thread enters [run_forever] and starts
    what it was handed in order. *)
Definition loop_step (i : nat) (s : Runner) : option Runner :=
  match loops s !! i with
  | Some l =>
      match lp_phase l, lp_queue l with
      | Ready, _ => Some (put_loop i (mkLoop Running (lp_queue l) (lp_ran l) (lp_stop l)) s)
      | Running, t :: rest => Some (put_loop i (mkLoop Running rest (lp_ran l ++ [t]) (lp_stop l)) s)
      | _, _ => None
      end
  | None => None
  end.

(** A loop that was asked to stop leaves [run_forever] and is closed; tasks not
    started by then are left. *)
Definition loop_ends (i : nat) (s : Runner) : option Runner :=
  match loops s !! i with
  | Some l =>
      match lp_phase l with
      | Running => if lp_stop l then Some (put_loop i (mkLoop Closed (lp_queue l) (lp_ran l) true) s) else None
      | _ => None
      end
  | None => None
  end.

(** ** Interleavings

    The lock is released between the two halves of [run] and of [close]: a call
    waits there to hand over its task, or to ask the loop it took to stop. *)
Inductive Call := HandOver (t : Task) (i : nat) | AskStop (i : nat).
Record System := mkSystem { sys_runner : Runner; sys_calls : list Call }.
Definition system_init : System := mkSystem runner_init [].

Definition is_handover (c : Call) : bool := match c with HandOver _ _ => true | AskStop _ => false end.
Definition stops (cs : list Call) : list nat :=
  omap (λ c, match c with AskStop i => Some i | HandOver _ _ => None end) cs.

(** The steps of callers and of loop threads. When the callers are [polite] a call
    of [run] comes while there is no loop or the loop is inside [run_forever] (it
    does not overlap the start of one), and a call of [close] comes while no [run]
    is between its two halves. *)
Inductive step (polite : bool) : System → System → Prop :=
| step_ensure t r cs :
    (polite = true → ∀ i, _loop r = Some i → is_running i r = true) →
    step polite (mkSystem r cs) (mkSystem (_ensure_loop r).2 (HandOver t (_ensure_loop r).1 :: cs))
| step_hand t i r cs cs' : cs ≡ₚ HandOver t i :: cs' →
    step polite (mkSystem r cs) (mkSystem (hand_over t i r).2 cs')
| step_take i r cs :
    (polite = true → Forall (λ c, is_handover c = false) cs) → (close_take r).1 = Some i →
    step polite (mkSystem r cs) (mkSystem (close_take r).2 (AskStop i :: cs))
| step_stop i r cs cs' : cs ≡ₚ AskStop i :: cs' →
    step polite (mkSystem r cs) (mkSystem (ask_stop i r).2 cs')
| step_loop i r r' cs : loop_step i r = Some r' → step polite (mkSystem r cs) (mkSystem r' cs)
| step_ends i r r' cs : loop_ends i r = Some r' → step polite (mkSystem r cs) (mkSystem r' cs).

Definition reachable (polite : bool) (s : System) : Prop := rtc (step polite) system_init s.

(** A loop that is neither closed nor asked to stop. *)
Definition live (r : Runner) (i : nat) : Prop :=
  ∃ l, loops r !! i = Some l ∧ lp_phase l ≠ Closed ∧ lp_stop l = false.

(** What polite callers keep: the runner's loop is live, and so are the loops that
    a [close] is about to stop, but no others; tasks are on their way to the
    runner's loop only. *)
Record ok (s : System) : Prop := mkOk {
  ok_live : ∀ i, live (sys_runner s) i ↔ _loop (sys_runner s) = Some i ∨ i ∈ stops (sys_calls s);
  ok_loop : ∀ i, _loop (sys_runner s) = Some i → i ∉ stops (sys_calls s);
  ok_stops : NoDup (stops (sys_calls s));
  ok_hand : ∀ t i, HandOver t i ∈ sys_calls s → _loop (sys_runner s) = Some i }.

Lemma live_put i l s j :
  loops s !! i ≠ None → (live (put_loop i l s) j ↔ if decide (i = j) then lp_phase l ≠ Closed ∧ lp_stop l = false else live s j).
Proof.
  intros Hi. unfold live, put_loop. simpl. case_decide as Hij.
  - subst j. rewrite list_lookup_insert_eq by (by apply lookup_lt_is_Some_1, not_eq_None_Some). naive_solver.
  - by rewrite list_lookup_insert_ne.
Qed.

Lemma live_same i l l' s :
  loops s !! i = Some l →
  (lp_phase l' ≠ Closed ∧ lp_stop l' = false ↔ lp_phase l ≠ Closed ∧ lp_stop l = false) →
  ∀ j, live (put_loop i l' s) j ↔ live s j.
Proof.
  intros Hi Hl' j. rewrite live_put by congruence. case_decide; [subst j|done]. rewrite Hl'. unfold live. naive_solver.
Qed.

Lemma hand_over_live t i s j : live (hand_over t i s).2 j ↔ live s j.
Proof.
  unfold hand_over. destruct (loops s !! i) as [l|] eqn:Hi; [|done].
  assert (live (put_loop i (mkLoop (lp_phase l) (lp_queue l ++ [t]) (lp_ran l) (lp_stop l)) s) j ↔ live s j) as Hp
    by by eapply live_same.
  by destruct (lp_phase l).
Qed.

Lemma hand_over_loop t i s : _loop (hand_over t i s).2 = _loop s.
Proof. unfold hand_over. destruct (loops s !! i) as [l|]; [|done]. by destruct (lp_phase l). Qed.

Lemma hand_over_live_run t i s :
  live s i → (hand_over t i s).1 = Ret () ∧
  ∃ l, loops (hand_over t i s).2 !! i = Some l ∧ last (lp_queue l) = Some t.
Proof.
  intros (l & Hi & Hph & _). unfold hand_over. rewrite Hi.
  destruct (lp_phase l); [| |done]; (split; [done|]); (eexists; split;
    [apply list_lookup_insert_eq; by eapply lookup_lt_Some|simpl; apply last_snoc]).
Qed.

Lemma is_running_phase i s : is_running i s = true ↔ ∃ l, loops s !! i = Some l ∧ lp_phase l = Running.
Proof.
  unfold is_running. destruct (loops s !! i) as [l|]; [rewrite bool_decide_eq_true|]; naive_solver.
Qed.

Lemma ask_stop_spec i s :
  live s i → (ask_stop i s).1 = Ret () ∧ _loop (ask_stop i s).2 = _loop s ∧
  ∀ j, live (ask_stop i s).2 j ↔ j ≠ i ∧ live s j.
Proof.
  intros (l & Hi & Hph & Hst). unfold ask_stop. rewrite Hi.
  assert (∀ j, live (put_loop i (mkLoop (lp_phase l) (lp_queue l) (lp_ran l) true) s) j ↔ j ≠ i ∧ live s j) as Hl.
  { intros j. rewrite live_put by congruence. case_decide; [subst j; naive_solver|naive_solver]. }
  by destruct (lp_phase l).
Qed.

Lemma loop_step_live i s s' :
  loop_step i s = Some s' → _loop s' = _loop s ∧ ∀ j, live s' j ↔ live s j.
Proof.
  unfold loop_step. destruct (loops s !! i) as [l|] eqn:Hi; [|done].
  destruct (lp_phase l) eqn:Hph; [| |done].
  - intros [= <-]. split; [done|]. eapply live_same; [done|]. simpl. rewrite Hph. intuition congruence.
  - destruct (lp_queue l); [done|]. intros [= <-]. split; [done|]. eapply live_same; [done|]. simpl. rewrite Hph. intuition congruence.
Qed.

Lemma loop_ends_live i s s' :
  loop_ends i s = Some s' → _loop s' = _loop s ∧ ∀ j, live s' j ↔ live s j.
Proof.
  unfold loop_ends. destruct (loops s !! i) as [l|] eqn:Hi; [|done].
  destruct (lp_phase l) eqn:Hph; try done. destruct (lp_stop l) eqn:Hst; [|done].
  intros [= <-]. split; [done|]. eapply live_same; [done|]. simpl. rewrite Hph. intuition congruence.
Qed.

Lemma stops_perm cs cs' : cs ≡ₚ cs' → stops cs ≡ₚ stops cs'.
Proof. apply omap_Permutation. Qed.

Lemma fresh_live r j :
  live (mkRunner (Some (length (loops r))) (loops r ++ [mkLoop Ready [] [] false])) j ↔ j = length (loops r) ∨ live r j.
Proof.
  unfold live. simpl. split.
  - intros (l & Hj & Hph & Hst). apply lookup_app_Some in Hj as [Hj|[Hge Hj]]; [right; by exists l|left].
    apply list_lookup_singleton_Some in Hj as [Hj _]. lia.
  - intros [->|(l & Hj & Hph & Hst)].
    + rewrite list_lookup_middle by done. by eexists.
    + exists l. split; [|done]. by rewrite lookup_app_l by (by eapply lookup_lt_Some).
Qed.

Lemma system_step_ok s s' : ok s → step true s s' → ok s'.
Proof.
  intros Hok Hstep. destruct Hstep as [t r cs Hp|t i r cs cs' Hcs|i r cs Hp Hi|i r cs cs' Hcs|i r r' cs Hs|i r r' cs Hs];
    destruct Hok as [H1 H2 H3 H4]; simpl in *.
  - unfold _ensure_loop. destruct (_loop r) as [i|] eqn:Hl.
    + rewrite (Hp eq_refl i eq_refl). simpl. split; simpl; rewrite ?Hl; try done.
      intros t' j [[= -> ->]|Hj]%elem_of_cons; [done|by eapply H4].
    + assert (length (loops r) ∉ stops cs) as Hnew.
      { intros Hin. destruct (proj2 (H1 (length (loops r))) (or_intror Hin)) as (l & Hlk & _).
        apply lookup_lt_Some in Hlk. lia. }
      split; simpl; [|naive_solver|done|].
      * intros j. rewrite fresh_live, H1. naive_solver.
      * intros t' j [[= -> ->]|Hj]%elem_of_cons; [done|]. by apply H4 in Hj.
  - assert (stops cs ≡ₚ stops cs') as Hst by by apply stops_perm in Hcs.
    split; simpl; rewrite ?hand_over_loop.
    + intros j. by rewrite hand_over_live, H1, Hst.
    + intros j. rewrite <-Hst. apply H2.
    + by rewrite <-Hst.
    + intros t' j Hj. apply (H4 t'). rewrite Hcs. by right.
  - split; simpl; [|done| |].
    + intros j. change (live (mkRunner None (loops r)) j) with (live r j). rewrite H1, Hi, elem_of_cons. naive_solver.
    + apply NoDup_cons. split; [by apply H2|done].
    + intros t j [?|Hj]%elem_of_cons; [done|]. specialize (Hp eq_refl). rewrite Forall_forall in Hp. by specialize (Hp _ Hj).
  - assert (stops cs ≡ₚ i :: stops cs') as Hst by by apply stops_perm in Hcs.
    assert (live r i) as Hl by (apply H1; right; rewrite Hst; by left).
    destruct (ask_stop_spec i r Hl) as (_ & He & Hlive). rewrite Hst in H3. apply NoDup_cons in H3 as [Hni H3].
    split; simpl; rewrite ?He; [|..|done|].
    + intros j. rewrite Hlive, H1, Hst, elem_of_cons. split; [naive_solver|]. intros [Hj|Hj]; [|naive_solver].
      split; [|by left]. intros ->. apply (H2 i Hj). rewrite Hst. by left.
    + intros j Hj Hin. apply (H2 j Hj). rewrite Hst. by right.
    + intros t j Hj. apply (H4 t). rewrite Hcs. by right.
  - destruct (loop_step_live _ _ _ Hs) as [He Hlive]. split; simpl; rewrite ?He; try done. intros j. by rewrite Hlive.
  - destruct (loop_ends_live _ _ _ Hs) as [He Hlive]. split; simpl; rewrite ?He; try done. intros j. by rewrite Hlive.
Qed.

Lemma system_ok s : reachable true s → ok s.
Proof.
  unfold reachable. intros Hs. assert (ok system_init) as Hinit.
  { split; simpl; [|done|constructor|by intros t i ?%elem_of_nil]. intros i. unfold live. simpl. split; [|intros [?|?%elem_of_nil]; done].
    by intros (l & Hi & _). }
  induction Hs as [|s0 s1 s2 Hstep Hs IH]; [done|]. apply IH. by eapply system_step_ok.
Qed.

(** C32. One loop per process, for callers that neither come while a loop is
    starting nor close the runner while a task is being handed over: in every
    interleaving of the halves of their calls with the loop threads, the runner's
    loop is the only one alive besides those a [close] is about to stop, every task
    under way is for that loop, handing it over never meets a closed loop and puts
    it at the end of that loop's queue, and no [close] meets a closed loop. *)
Theorem runner_single_loop s :
  reachable true s →
  (∀ i, live (sys_runner s) i ↔ _loop (sys_runner s) = Some i ∨ AskStop i ∈ sys_calls s) ∧
  (∀ i, _loop (sys_runner s) = Some i → AskStop i ∉ sys_calls s) ∧
  (∀ t i, HandOver t i ∈ sys_calls s → _loop (sys_runner s) = Some i ∧ (hand_over t i (sys_runner s)).1 = Ret () ∧
     ∃ l, loops (hand_over t i (sys_runner s)).2 !! i = Some l ∧ last (lp_queue l) = Some t) ∧
  (∀ i, AskStop i ∈ sys_calls s → (ask_stop i (sys_runner s)).1 = Ret ()).
Proof.
  intros Hs%system_ok. assert (∀ i, AskStop i ∈ sys_calls s ↔ i ∈ stops (sys_calls s)) as Hst.
  { intros i. unfold stops. rewrite list_elem_of_omap. split; [intros Hi; by exists (AskStop i)|].
    intros ([t j|j] & Hj & Heq); [done|]. by injection Heq as ->. }
  split_and!.
  - intros i. rewrite Hst. apply (ok_live s Hs).
  - intros i. rewrite Hst. apply (ok_loop s Hs).
  - intros t i Hi%(ok_hand s Hs). split; [done|]. apply hand_over_live_run. apply (ok_live s Hs). by left.
  - intros i Hi%Hst. apply (ask_stop_spec i). apply (ok_live s Hs). by right.
Qed.

(** Without the first condition the promise fails: [ready] is set before the loop
    runs, so a caller that comes in between finds the loop not running and makes a
    second one. Two loops are alive, the first one is not the runner's any more, and
    closing the runner does not stop it. *)
Theorem runner_two_loops (t t' : Task) :
  let s := (run t' (run t runner_init).2).2 in
  reachable false (mkSystem s []) ∧ (run t runner_init).1 = Ret 0 ∧ (run t' (run t runner_init).2).1 = Ret 1 ∧
  live s 0 ∧ live s 1 ∧ _loop s = Some 1 ∧ live (close s).2 0 ∧ _loop (close s).2 = None.
Proof.
  intros s. split_and!; try done.
  - eapply rtc_l; [by apply (step_ensure false t)|]. eapply rtc_l; [by apply (step_hand false t 0 _ _ [])|].
    eapply rtc_l; [by apply (step_ensure false t')|]. eapply rtc_l; [by apply (step_hand false t' 1 _ _ [])|]. apply rtc_refl.
  - by eexists.
  - by eexists.
  - by eexists.
Qed.

(** Nor without the second: a [close] between the two halves of a [run], although
    the loop is long running, stops and closes the loop, and the task of that [run]
    meets a closed loop. *)
Theorem close_between_halves (t t' : Task) :
  ∃ s, reachable false s ∧ HandOver t' 0 ∈ sys_calls s ∧ _loop (sys_runner s) = None ∧
    (hand_over t' 0 (sys_runner s)).1 = Raise (RuntimeError "Event loop is closed").
Proof.
  set (r := mkRunner (Some 0) [mkLoop Running [] [t] false]).
  exists (mkSystem (mkRunner None [mkLoop Closed [] [t] true]) [HandOver t' 0]). split_and!; [|by left|done|done].
  eapply rtc_l; [by apply (step_ensure false t)|]. eapply rtc_l; [by apply (step_hand false t 0 _ _ [])|].
  eapply rtc_l; [by apply (step_loop false 0)|]. eapply rtc_l; [by apply (step_loop false 0)|].
  eapply rtc_l; [by apply (step_ensure false t')|]. eapply rtc_l; [by apply (step_take false 0)|].
  eapply rtc_l; [by apply (step_stop false 0 _ _ [HandOver t' 0])|].
  eapply rtc_l; [by apply (step_ends false 0)|]. apply rtc_refl.
Qed.

(** A task that waits when the loop is closed is never started: no later step
    touches a closed loop, so the caller of [run], which waits without a timeout,
    waits for ever. *)
Lemma put_loop_other r i l j l' :
  loops r !! i = Some l → (j = i → l' = l) → loops (put_loop j l' r) !! i = Some l.
Proof.
  intros Hi Hj. unfold put_loop. simpl. destruct (decide (j = i)) as [->|Hne].
  - rewrite list_lookup_insert_eq by (by eapply lookup_lt_Some). by rewrite Hj.
  - by rewrite list_lookup_insert_ne.
Qed.

Lemma closed_loop_stays polite s s' i l :
  loops (sys_runner s) !! i = Some l → lp_phase l = Closed → step polite s s' → loops (sys_runner s') !! i = Some l.
Proof.
  intros Hi Hph Hstep.
  assert (∀ r j k, loops r !! i = Some l → loops r !! j = Some k → lp_phase k ≠ Closed → ∀ l', loops (put_loop j l' r) !! i = Some l)
    as Hput by (intros r j k Hr Hj Hk l'; apply put_loop_other; [done|]; intros ->; congruence).
  destruct Hstep as [t r cs Hp|t j r cs cs' Hcs|j r cs Hp Hj|j r cs cs' Hcs|j r r' cs Hs|j r r' cs Hs]; simpl in *.
  - unfold _ensure_loop. destruct (_loop r) as [k|]; [destruct (is_running k r)|]; simpl; try done;
      rewrite lookup_app_l; [done|by eapply lookup_lt_Some|done|by eapply lookup_lt_Some].
  - unfold hand_over. destruct (loops r !! j) as [k|] eqn:Hj; [|done].
    destruct (lp_phase k) eqn:Hk; [| |done]; eapply Hput; try done; congruence.
  - done.
  - unfold ask_stop. destruct (loops r !! j) as [k|] eqn:Hj; [|done].
    destruct (lp_phase k) eqn:Hk; [| |done]; eapply Hput; try done; congruence.
  - unfold loop_step in Hs. destruct (loops r !! j) as [k|] eqn:Hj; [|done].
    destruct (lp_phase k) eqn:Hk; [|destruct (lp_queue k); [done|]|done]; injection Hs as <-; eapply Hput; try done; congruence.
  - unfold loop_ends in Hs. destruct (loops r !! j) as [k|] eqn:Hj; [|done].
    destruct (lp_phase k) eqn:Hk; try done. destruct (lp_stop k); [|done]. injection Hs as <-; eapply Hput; try done; congruence.
Qed.

(** ** Tasks are started in the order they were handed over *)
Inductive loop_steps (i : nat) : nat → Runner → Runner → Prop :=
| loop_done s : loop_steps i 0 s s
| loop_more n s s1 s2 : loop_step i s = Some s1 → loop_steps i n s1 s2 → loop_steps i (S n) s s2.

Lemma loop_drains_from n i q : ∀ s l, loops s !! i = Some l → lp_phase l = Running → lp_queue l = q → n = length q →
  ∃ s', loop_steps i n s s' ∧ ∃ l', loops s' !! i = Some l' ∧ lp_queue l' = [] ∧ lp_ran l' = lp_ran l ++ q.
Proof.
  revert q. induction n as [|n IH]; intros q s l Hi Hph Hq Hn.
  - destruct q; [|done]. exists s. split; [constructor|]. exists l. by rewrite app_nil_r.
  - destruct q as [|t q]; [done|]. injection Hn as Hn.
    set (l1 := mkLoop Running q (lp_ran l ++ [t]) (lp_stop l)).
    assert (loop_step i s = Some (put_loop i l1 s)) as Hs by (unfold loop_step; by rewrite Hi, Hph, Hq).
    destruct (IH q (put_loop i l1 s) l1) as (s' & Hst & l' & Hl' & Hq' & Hr); [|done|done|done|].
    { apply list_lookup_insert_eq. by eapply lookup_lt_Some. }
    exists s'. split; [by econstructor|]. exists l'. split_and!; [done|done|]. rewrite Hr. simpl. by rewrite <-app_assoc.
Qed.

(** The loop makes progress: from the moment its thread is ready, one step to
    enter [run_forever] and one for every task handed over so far start all of
    them, in the order they came. *)
Theorem loop_runs_all s i l :
  loops s !! i = Some l → lp_phase l = Ready →
  ∃ s', loop_steps i (S (length (lp_queue l))) s s' ∧
    ∃ l', loops s' !! i = Some l' ∧ lp_queue l' = [] ∧ lp_ran l' = lp_ran l ++ lp_queue l.
Proof.
  intros Hi Hph. set (l1 := mkLoop Running (lp_queue l) (lp_ran l) (lp_stop l)).
  assert (loop_step i s = Some (put_loop i l1 s)) as Hs by (unfold loop_step; by rewrite Hi, Hph).
  destruct (loop_drains_from (length (lp_queue l)) i (lp_queue l) (put_loop i l1 s) l1) as (s' & Hst & Hl'); try done.
  { apply list_lookup_insert_eq. by eapply lookup_lt_Some. }
  exists s'. split; [by econstructor|done].
Qed.
End runner.
Arguments Runner : clear implicits.

(** ** Witnesses *)
Lemma runner_single_loop_witness :
  let s := mkSystem (_ensure_loop runner_init).2 [HandOver 7%nat 0] in
  reachable true s ∧ live (sys_runner s) 0 ∧ (hand_over 7%nat 0 (sys_runner s)).1 = Ret ().
Proof.
  intros s. assert (reachable true s) as Hs.
  { eapply rtc_l; [apply (step_ensure true 7%nat); intros _ i Hi; discriminate Hi|]. apply rtc_refl. }
  destruct (runner_single_loop s Hs) as (H1 & _ & H3 & _). split; [exact Hs|].
  split; [apply (proj2 (H1 0%nat)); left; reflexivity|]. exact (proj1 (proj2 (H3 7%nat 0%nat ltac:(left)))).
Defined.
