(* ===== verification/ConfigSync.v ===== *)
(** Distributed configuration changes: [src/app/platform/config/sync.py]. The
    listener is a coroutine; it is modelled as a machine that stands at the
    [await] it waits in and moves when that await is answered. *)
From S2P Require Import Prelude PyText PyStr Encoding ConfigValues.
Open Scope Z_scope.

Definition CONFIG_SYNC_CHANNEL : string := "hei:config:changed".

(** ** What the module uses *)

(** The configuration reader, as far as this module sees it. *)
Class ReaderApi (R : Type) := {
  reader_version : R → Z;
  reader_reload : io R () }.

(** A reload that returns makes a new version. *)
Class ReaderLaws (R : Type) `{ReaderApi R} : Prop := {
  law_reload r r' : reader_reload r = (Ret (), r') → reader_version r' = reader_version r + 1 }.

(** [json.dumps(dict, ensure_ascii=True)], and its documented inverse: a dict of
    texts and integers is read back, and the text is ASCII. *)
Class JsonDumps := { json_dumps : list (string * PyVal) → string }.
Class JsonLaws `{PyValues, JsonDumps} : Prop := {
  law_json l : Forall (λ kv, match kv.2 with VStr _ | VInt _ => True | _ => False end) l → NoDup l.*1 →
    json_loads (json_dumps l) = Some (VDict l);
  law_json_ascii l : decode_utf8 (str_bytes (json_dumps l)) = Ret (json_dumps l) }.

(** What Redis gives as the data of a message. *)
Inductive Raw := RawNone | RawBytes (bs : byte_list) | RawStr (s : string) | RawOther.
(** A message: its type and its data. *)
Record Message := mkMessage { m_type : string; m_data : Raw }.

Section sync.
Context {R : Type} `{ReaderApi R, PyValues, JsonDumps}.
(** This process, and the text of the current time. *)
Context (_instance_id : string) (now : string).

(** ** The state of the module *)

(** Where the listener waits: for the subscription, for a message, for the five
    seconds after a failure, or for the connection to close - and with which
    exception it then ends, if any. *)
Inductive Pc :=
| Subscribing
| Receiving
| Sleeping
| Closing (pending : option exn)
| Ended (e : exn).

(** What happens to the connections: [redis.pubsub()] makes the next one, and the
    [aclose] of one has answered. *)
Inductive ConnEvent := Made (n : nat) | Closed (n : nat).

Record Sync := mkSync {
  cs_reader : R;
  _pubsub : option nat;              (* which of the connections made so far *)
  cs_made : nat;                     (* connections made so far *)
  cs_log : list ConnEvent;           (* what happened to them, in order *)
  _last_event_at : option string;
  _last_error : option string }.

Definition set_reader r s := mkSync r (_pubsub s) (cs_made s) (cs_log s) (_last_event_at s) (_last_error s).
Definition set_event t s := mkSync (cs_reader s) (_pubsub s) (cs_made s) (cs_log s) t (_last_error s).
Definition _set_error (v : option string) (s : Sync) : Sync :=
  mkSync (cs_reader s) (_pubsub s) (cs_made s) (cs_log s) (_last_event_at s) v.
(** [_pubsub = redis.pubsub()] *)
Definition new_pubsub (s : Sync) : Sync :=
  mkSync (cs_reader s) (Some (cs_made s)) (S (cs_made s)) (cs_log s ++ [Made (cs_made s)]) (_last_event_at s) (_last_error s).
(** [_close_pubsub] once the connection has answered or raised an [Exception],
    which it swallows; without a connection it does nothing. *)
Definition _close_pubsub (s : Sync) : Sync :=
  match _pubsub s with
  | None => s
  | Some n => mkSync (cs_reader s) None (cs_made s) (cs_log s ++ [Closed n]) (_last_event_at s) (_last_error s)
  end.

(** ** Events *)
Definition event_get (k : string) (l : list (string * PyVal)) : option PyVal :=
  (λ p, p.2.2) <$> list_find (λ kv, kv.1 = k) l.

(** [_decode_event]: undecodable bytes raise [UnicodeDecodeError]. *)
Definition _decode_event (raw : Raw) : outcome (option (list (string * PyVal))) :=
  let parse s := Ret (match json_loads s with Some (VDict l) => Some l | _ => None end) in
  match raw with
  | RawNone | RawOther => Ret None
  | RawBytes bs =>
      match decode_utf8 bs with
      | Ret s => parse s
      | Raise e => Raise (OtherError "UnicodeDecodeError" (exn_str e))
      end
  | RawStr s => parse s
  end.

(** [not event or event.get("source") == _instance_id] *)
Definition ignored (event : option (list (string * PyVal))) : bool :=
  match event with
  | None | Some [] => true
  | Some l => match event_get "source" l with Some (VStr s) => String.eqb s _instance_id | _ => false end
  end.

Definition event_payload (reason : string) (version : Z) (at_ : string) : list (string * PyVal) :=
  [("source", VStr _instance_id); ("reason", VStr reason); ("version", VInt version); ("at", VStr at_)].

(** [publish_config_changed]: what is handed to [redis.publish] and, given its
    answer, the result; [connected] says whether there is a Redis handle. *)
Definition publish_config_changed (connected : bool) (answer : outcome ()) (reason : string) : io Sync (option string * bool) :=
  if negb connected then
    _ ← modify (_set_error (Some "redis not initialized")); mret (None, false)
  else
    s ← get;
    let text := json_dumps (event_payload reason (reader_version (cs_reader s)) now) in
    try_except
      (_ ← lift answer; _ ← modify (_set_error None); mret (Some text, true))
      is_exception
      (λ e, _ ← modify (_set_error (Some (exn_class e))); mret (Some text, false)).

Definition run_reload : io Sync () := λ s,
  let '(o, r) := reader_reload (cs_reader s) in (o, set_reader r s).

Definition reload_and_publish (connected : bool) (answer : outcome ()) (reason : string) : io Sync (option string * bool) :=
  _ ← run_reload; publish_config_changed connected answer reason.

(** ** The listener *)

(** The body of the inner loop for one answer of [get_message]. *)
Definition on_message (message : option Message) : io Sync () :=
  match message with
  | None => mret ()
  | Some m =>
      if negb (String.eqb (m_type m) "message") then mret ()
      else
        event ← lift (_decode_event (m_data m));
        if ignored event then mret ()
        else
          _ ← run_reload;
          _ ← modify (set_event (Some now));
          modify (_set_error None)
  end.

(** An exception of the outer [try]: a cancellation is raised again, an
    [Exception] is noted and slept over, anything else passes. *)
Definition on_error (e : exn) (s : Sync) : Pc * Sync :=
  if is_exception e then (Sleeping, _set_error (Some (exn_class e)) s) else (Closing (Some e), s).

(** The [finally]: [_close_pubsub] when the connection has answered, then the next
    round of the loop or the exception; only [Exception] is swallowed. *)
Definition next_round (pending : option exn) (s : Sync) : Pc * Sync :=
  match pending with None => (Subscribing, new_pubsub s) | Some e => (Ended e, s) end.
Definition closed (pending : option exn) (answer : outcome ()) (s : Sync) : Pc * Sync :=
  match answer with
  | Raise e => if is_exception e then next_round pending (_close_pubsub s) else (Ended e, s)
  | Ret _ => next_round pending (_close_pubsub s)
  end.

(** One step of [_listen]: the answer to the await it stands at. *)
Definition listen_step (answer : outcome (option Message)) (ps : Pc * Sync) : Pc * Sync :=
  let '(pc, s) := ps in
  match pc with
  | Subscribing =>
      match answer with Ret _ => (Receiving, s) | Raise e => on_error e s end
  | Receiving =>
      match answer with
      | Raise e => on_error e s
      | Ret message => match on_message message s with (Ret _, s) => (Receiving, s) | (Raise e, s) => on_error e s end
      end
  | Sleeping =>
      match answer with Ret _ => (Closing None, s) | Raise e => (Closing (Some e), s) end
  | Closing pending => closed pending (_ ← answer; Ret ()) s
  | Ended _ => ps
  end.

Definition listen_start (s : Sync) : Pc * Sync := (Subscribing, new_pubsub s).
Definition listen (answers : list (outcome (option Message))) (ps : Pc * Sync) : Pc * Sync :=
  foldl (λ ps a, listen_step a ps) ps answers.

(** ** The asyncio task *)
Record Control := mkControl { c_task : option Pc; c_sync : Sync }.

Definition task_done (t : option Pc) : bool := match t with Some (Ended _) => true | _ => false end.

Definition start_config_sync_listener (connected : bool) (c : Control) : Control :=
  if bool_decide (is_Some (c_task c)) && negb (task_done (c_task c)) then c
  else if negb connected then mkControl (c_task c) (_set_error (Some "redis not initialized") (c_sync c))
  else let '(pc, s) := listen_start (c_sync c) in mkControl (Some pc) s.

(** [stop_config_sync_listener]: the cancellation is raised at the await the task
    stands at, then the task is awaited; [close_answer] answers the closing of
    the connection. A task that ended with another exception raises it here. A
    connection whose closing was interrupted is closed once more, whatever that
    answers. *)
Definition cancelled : exn := BaseExc "CancelledError".
Definition await_task (close_answer : outcome ()) : io Control () := λ c,
  match c_task c with
  | None => (Ret (), c)
  | Some pc =>
      let '(pc, s) := match pc with Ended _ => (pc, c_sync c) | _ => listen_step (Raise cancelled) (pc, c_sync c) end in
      let '(pc, s) := match pc with Closing _ => listen_step (_ ← close_answer; Ret None) (pc, s) | _ => (pc, s) end in
      match pc with
      | Ended e => if bool_decide (e = cancelled) then (Ret (), mkControl None s) else (Raise e, mkControl (Some pc) s)
      | _ => (Ret (), mkControl None s)
      end
  end.
Definition stop_config_sync_listener (close_answer : outcome ()) : io Control () :=
  _ ← await_task close_answer;
  modify (λ c, mkControl (c_task c) (_close_pubsub (c_sync c))).

Definition get_config_sync_state (connected thread_running : bool) (c : Control)
    : bool * bool * string * option string * option string :=
  let running := bool_decide (is_Some (c_task c)) && negb (task_done (c_task c)) in
  (connected || thread_running, running || thread_running, CONFIG_SYNC_CHANNEL,
   _last_event_at (c_sync c), _last_error (c_sync c)).

(** ** The listener survives *)

(** Redis and the reader raise exceptions of class [Exception] only. *)
Definition tame {A} (o : outcome A) : Prop := match o with Raise e => is_exception e = true | Ret _ => True end.
Context (reload_tame : ∀ r, tame (reader_reload r).1).

Lemma decode_tame raw : tame (_decode_event raw).
Proof.
  unfold _decode_event. destruct raw as [|bs|s|]; try done. by destruct (decode_utf8 bs).
Qed.

Lemma on_message_spec m s :
  let r := on_message m s in
  tame r.1 ∧ _pubsub r.2 = _pubsub s ∧ cs_made r.2 = cs_made s ∧ cs_log r.2 = cs_log s.
Proof.
  unfold on_message. destruct m as [m|]; [|done]. destruct (negb _); [done|].
  unfold mbind, io_bind, lift. pose proof (decode_tame (m_data m)) as Hd.
  destruct (_decode_event (m_data m)) as [event|e]; [|done]. destruct (ignored event); [done|].
  unfold run_reload. pose proof (reload_tame (cs_reader s)) as Hr. by destruct (reader_reload (cs_reader s)) as [[[]|e] r].
Qed.

(** Connected: the last connection made is the one in use. *)
Definition connected_inv (ps : Pc * Sync) : Prop :=
  (∀ e, ps.1 ≠ Ended e) ∧ (∀ e, ps.1 = Closing (Some e) → False) ∧
  (0 < cs_made ps.2)%nat ∧ _pubsub ps.2 = Some (pred (cs_made ps.2)).

(** What Redis and the clock may answer: an exception of class [Exception], but
    none from [asyncio.sleep]. *)
Definition env_answer (pc : Pc) (answer : outcome (option Message)) : Prop :=
  match pc with Sleeping => answer = Ret None | _ => tame answer end.
Inductive env_step (ps : Pc * Sync) : Pc * Sync → Prop :=
| env_step_intro answer : env_answer ps.1 answer → env_step ps (listen_step answer ps).

Lemma listen_step_inv answer ps : env_answer ps.1 answer → connected_inv ps → connected_inv (listen_step answer ps).
Proof.
  destruct ps as [pc s]. intros Ha (He & Hc & Hm & Hp). unfold connected_inv in *. simpl in *.
  assert (∀ e s, is_exception e = true → on_error e s = (Sleeping, _set_error (Some (exn_class e)) s)) as Herr
    by (intros e0 s0 H'; unfold on_error; by rewrite H').
  destruct pc as [| | |[e|]|e]; simpl.
  - destruct answer as [?|e]; [by split_and!|]. rewrite Herr by done. by split_and!.
  - destruct answer as [m|e]; [|rewrite Herr by done; by split_and!].
    destruct (on_message_spec m s) as (Ht & Hp' & Hm' & _). destruct (on_message m s) as [[[]|e] s']; simpl in *.
    + rewrite Hp', Hm'. by split_and!.
    + rewrite Herr by done. simpl. rewrite Hp', Hm'. by split_and!.
  - change (answer = Ret None) in Ha. subst answer. by split_and!.
  - by destruct (Hc e).
  - assert (closed None (_ ← answer; Ret ()) s = (Subscribing, new_pubsub (_close_pubsub s))) as ->.
    { destruct answer as [m|e]; [done|]. unfold closed. cbn [mbind outcome_bind]. by rewrite Ha. }
    unfold _close_pubsub. rewrite Hp. simpl. split_and!; [done|done|lia|done].
  - by destruct (He e).
Qed.

(** The connections [a] to [n - 1]: each made, then closed, before the next. *)
Definition lifetimes (a n : nat) : list ConnEvent := seq a (n - a) ≫= (λ i, [Made i; Closed i]).

Lemma lifetimes_snoc a n : (a ≤ n)%nat → lifetimes a (S n) = lifetimes a n ++ [Made n; Closed n].
Proof.
  intros Hn. unfold lifetimes. replace (S n - a)%nat with (n - a + 1)%nat by lia.
  rewrite seq_app, bind_app. simpl. by replace (a + (n - a))%nat with n by lia.
Qed.

(** The log since the listener started with [a] connections made. *)
Definition log_inv (log : list ConnEvent) (a : nat) (s : Sync) : Prop :=
  ∃ n, (a ≤ n)%nat ∧ _pubsub s = Some n ∧ cs_made s = S n ∧ cs_log s = log ++ lifetimes a n ++ [Made n].

Lemma log_same log a s s' :
  _pubsub s' = _pubsub s → cs_made s' = cs_made s → cs_log s' = cs_log s → log_inv log a s → log_inv log a s'.
Proof. unfold log_inv. by intros -> -> ->. Qed.

Lemma log_reconnect log a s : log_inv log a s → log_inv log a (new_pubsub (_close_pubsub s)).
Proof.
  intros (n & Hn & Hp & Hm & Hl). exists (S n). unfold _close_pubsub. rewrite Hp. simpl.
  rewrite Hm, Hl, lifetimes_snoc by done. split_and!; [lia|done|done|]. by rewrite <-!(assoc_L (++)).
Qed.

Lemma listen_step_log log a answer ps :
  env_answer ps.1 answer → connected_inv ps → log_inv log a ps.2 → log_inv log a (listen_step answer ps).2.
Proof.
  destruct ps as [pc s]. intros Ha (He & Hc & _) Hl. simpl in *.
  assert (∀ e s', log_inv log a s' → log_inv log a (on_error e s').2) as Herr
    by (intros e s' Hs'; unfold on_error; destruct (is_exception e); [by eapply log_same; [..|exact Hs']|done]).
  destruct pc as [| | |[e|]|e]; simpl.
  - destruct answer; [done|by apply Herr].
  - destruct answer as [m|e]; [|by apply Herr]. destruct (on_message_spec m s) as (_ & Hp & Hm & Hlg).
    assert (log_inv log a (on_message m s).2) as Hs' by by eapply log_same.
    destruct (on_message m s) as [[[]|e] s']; simpl in *; [done|by apply Herr].
  - change (answer = Ret None) in Ha. by subst answer.
  - by destruct (Hc e).
  - destruct answer as [m|e]; simpl; [by apply log_reconnect|]. rewrite Ha. by apply log_reconnect.
  - by destruct (He e).
Qed.

(** C31. The listener survives its environment: from its start, whatever subscribing,
    receiving, closing and the reloads raise and whatever messages come, it never
    ends; it has made connections one after another, each of them closed before the
    next was made, and uses the last, the only one not closed; and at any moment at
    most three awaits that succeed bring it back to receiving. *)
Theorem listener_survives s ps :
  rtc env_step (listen_start s) ps →
  (∀ e, ps.1 ≠ Ended e) ∧
  (∃ n, (cs_made s ≤ n)%nat ∧ _pubsub ps.2 = Some n ∧ cs_made ps.2 = S n ∧
     cs_log ps.2 = cs_log s ++ (seq (cs_made s) (n - cs_made s) ≫= (λ i, [Made i; Closed i])) ++ [Made n]) ∧
  ∃ n, (n ≤ 3)%nat ∧ (listen (replicate n (Ret None)) ps).1 = Receiving.
Proof.
  intros Hrun. assert (connected_inv ps ∧ log_inv (cs_log s) (cs_made s) ps.2) as [(He & Hc & _ & _) Hlog].
  { assert (connected_inv (listen_start s)) as Hinit by (split_and!; [done|done|simpl; lia|done]).
    assert (log_inv (cs_log s) (cs_made s) (listen_start s).2) as Hlog.
    { exists (cs_made s). unfold lifetimes. rewrite Nat.sub_diag. by split_and!. }
    induction Hrun as [ps|ps1 ps2 ps3 [answer Ha] Hrun IH]; [done|].
    apply IH; [by apply listen_step_inv|by apply listen_step_log]. }
  split_and!; [done|exact Hlog|]. destruct ps as [pc s']. simpl in *. destruct pc as [| | |[e|]|e].
  - exists 1%nat. split; [lia|done].
  - exists 0%nat. split; [lia|done].
  - exists 3%nat. split; [lia|done].
  - by destruct (Hc e).
  - exists 2%nat. split; [lia|done].
  - by destruct (He e).
Qed.

End sync.

(** ** An event reaches the other processes *)
Lemma payload_decoded `{JsonLaws} a reason version at_ :
  _decode_event (RawBytes (str_bytes (json_dumps (event_payload a reason version at_)))) =
    Ret (Some (event_payload a reason version at_)).
Proof.
  unfold _decode_event. rewrite law_json_ascii. rewrite law_json; [done|by repeat constructor|].
  change ((event_payload a reason version at_).*1) with ["source"; "reason"; "version"; "at"].
  apply (bool_decide_unpack _). by vm_compute.
Qed.

(** C30. A published change reloads the other processes: the text that a process
    hands to Redis, received by a listener, is ignored by that process's own
    listener, and makes every other one reload exactly once - to the next version,
    noting the time and clearing the last error - or note the failure of the
    reload and reconnect. *)
Theorem config_change_reaches_peers `{ReaderLaws R, JsonLaws} a b now now' reason (s t : Sync) :
  ∃ text s', publish_config_changed a now true (Ret ()) reason s = (Ret (Some text, true), s') ∧
    _last_error s' = None ∧ cs_reader s' = cs_reader s ∧
    let received := listen_step b now' (Ret (Some (mkMessage "message" (RawBytes (str_bytes text))))) (Receiving, t) in
    (a = b → received = (Receiving, t)) ∧
    (a ≠ b → match reader_reload (cs_reader t) with
             | (Ret _, r) => received.1 = Receiving ∧ cs_reader received.2 = r ∧
                 reader_version r = reader_version (cs_reader t) + 1 ∧
                 _last_event_at received.2 = Some now' ∧ _last_error received.2 = None
             | (Raise e, r) => is_exception e = true → received.1 = Sleeping ∧ cs_reader received.2 = r ∧
                 _last_error received.2 = Some (exn_class e)
             end).
Proof.
  set (text := json_dumps (event_payload a reason (reader_version (cs_reader s)) now)).
  exists text, (_set_error None s). split; [done|]. split; [done|]. split; [done|]. intros received.
  assert (_decode_event (RawBytes (str_bytes text)) = Ret (Some (event_payload a reason (reader_version (cs_reader s)) now))) as Hd
    by apply payload_decoded.
  assert (ignored b (Some (event_payload a reason (reader_version (cs_reader s)) now)) = String.eqb a b) as Hi by done.
  assert (received = match on_message b now' (Some (mkMessage "message" (RawBytes (str_bytes text)))) t with
    | (Ret _, s) => (Receiving, s) | (Raise e, s) => on_error e s end) as -> by done.
  unfold on_message. cbn [m_type m_data]. change (negb (String.eqb "message" "message")) with false. cbv iota.
  unfold mbind, io_bind, lift. rewrite Hd, Hi. split.
  - intros ->. by rewrite String.eqb_refl.
  - intros Hne. rewrite (proj2 (String.eqb_neq a b) Hne). unfold run_reload, modify.
    destruct (reader_reload (cs_reader t)) as [[[]|e] r] eqn:Hr.
    + apply law_reload in Hr. done.
    + intros He. unfold on_error. by rewrite He.
Qed.

(** ** Starting and stopping *)

(** A listener that runs is not started a second time, and one that runs on a
    well-behaved connection stops without an exception and leaves neither a task
    nor a connection. *)
Lemma start_twice `{ReaderApi R} (c : Control (R:=R)) connected connected' :
  start_config_sync_listener connected' (start_config_sync_listener true c) = start_config_sync_listener true c ∧
  (∀ c', start_config_sync_listener connected c = c' → c_task c' = c_task c ∨ c_task c' = Some Subscribing).
Proof.
  unfold start_config_sync_listener. split.
  - destruct (bool_decide (is_Some (c_task c)) && negb (task_done (c_task c))) eqn:Hb; [by rewrite Hb|done].
  - intros c' <-. destruct (bool_decide (is_Some (c_task c)) && negb (task_done (c_task c))); [by left|]. destruct connected; [by right|by left].
Qed.

Lemma close_pubsub_none {R} (s : Sync (R:=R)) :
  _pubsub (_close_pubsub s) = None ∧ cs_reader (_close_pubsub s) = cs_reader s.
Proof. unfold _close_pubsub. by destruct (_pubsub s) eqn:Hp. Qed.

Lemma stop_cleans `{ReaderApi R, PyValues} a now (answer : outcome ()) (pc : Pc) (s : Sync (R:=R)) :
  connected_inv (pc, s) → tame answer →
  ∃ s', stop_config_sync_listener a now answer (mkControl (Some pc) s) = (Ret (), mkControl None s') ∧
    _pubsub s' = None ∧ cs_reader s' = cs_reader s.
Proof.
  intros (He & Hc & _ & _) Ha. simpl in *.
  assert (∀ s : Sync (R:=R), closed (Some cancelled) (_ ← (_ ← answer; Ret (@None Message)); Ret ()) s = (Ended cancelled, _close_pubsub s)) as Hcl.
  { intros s0. unfold closed. destruct answer as [[]|e]; [done|]. cbn [mbind outcome_bind]. by rewrite Ha. }
  unfold stop_config_sync_listener, await_task, mbind, io_bind, modify. cbn [c_task c_sync].
  destruct pc as [| | |[e|]|e]; simpl.
  1,2,3: rewrite Hcl; eexists; split; [done|].
  1,2,3: split; [apply close_pubsub_none|]; simpl; by rewrite !(proj2 (close_pubsub_none _)).
  - by destruct (Hc e).
  - eexists. split; [done|]. apply close_pubsub_none.
  - by destruct (He e).
Qed.

(** ** Witnesses: a reader that counts, and a codec of dicts as numbers *)
Module SyncDemo.
#[export] Instance demo_reader : ReaderApi Z := { reader_version r := r; reader_reload r := (Ret (), r + 1) }.
#[export] Instance demo_reader_laws : ReaderLaws Z.
Proof. split. intros r r' [= <-]. done. Qed.

Definition item (kv : string * PyVal) : string * (string + Z) :=
  (kv.1, match kv.2 with VStr s => inl s | VInt z => inr z | _ => inl "" end).
Definition back (kv : string * (string + Z)) : string * PyVal :=
  (kv.1, match kv.2 with inl s => VStr s | inr z => VInt z end).
#[export] Instance demo_dumps : JsonDumps := { json_dumps l := str_of_Z (Zpos (encode (map item l))) }.
#[export] Instance demo_values : PyValues := {
  py_str _ := ""; py_lower_text s := s; int_of_str _ := None; float_of_str _ := None;
  num_of_val _ := None; float_of_val _ := None; construct _ _ := None;
  json_loads s := (λ l, VDict (map back l)) <$> decode (Z.to_pos (digits_value 0 s)) }.

#[export] Instance demo_json : JsonLaws.
Proof.
  split.
  - intros l Hl _. unfold json_loads, json_dumps, demo_values, demo_dumps.
    rewrite str_of_Z_value by lia. rewrite Pos2Z.id, decode_encode. cbn [fmap option_fmap option_map]. do 2 f_equal.
    induction Hl as [|[k v] l Hv Hl IH]; [done|]. simpl. rewrite IH. by destruct v.
  - intros l. apply decode_str_bytes, ascii_utf8_ok, str_of_Z_ascii.
Qed.

Definition idle : Sync (R:=Z) := mkSync 4 None 0 [] None (Some "redis not initialized").
End SyncDemo.
Import SyncDemo.

Lemma config_change_reaches_peers_witness :
  ∃ text s', publish_config_changed "a" "t1" true (Ret ()) "mail" SyncDemo.idle = (Ret (Some text, true), s') ∧
    (listen_step "b" "t2" (Ret (Some (mkMessage "message" (RawBytes (str_bytes text))))) (Receiving, SyncDemo.idle)).1 = Receiving.
Proof.
  destruct (config_change_reaches_peers "a" "b" "t1" "t2" "mail" SyncDemo.idle SyncDemo.idle)
    as (text & s' & H1 & _ & _ & _ & H2).
  exists text, s'. split; [exact H1|]. assert ("a" ≠ "b") as Hne by discriminate. exact (proj1 (H2 Hne)).
Defined.

Lemma listener_survives_witness :
  let ps := listen "a" "t" [Ret None; Raise (OSError "down"); Ret None; Ret None] (listen_start SyncDemo.idle) in
  (∀ e, ps.1 ≠ Ended e) ∧ cs_log ps.2 = [Made 0; Closed 0; Made 1] ∧
  (∃ n, (n ≤ 3)%nat ∧ (listen "a" "t" (replicate n (Ret None)) ps).1 = Receiving).
Proof.
  intros ps. assert (∀ r : Z, tame (reader_reload r).1) as Ht by done.
  assert (rtc (env_step "a" "t") (listen_start SyncDemo.idle) ps) as Hrun.
  { eapply rtc_l; [by apply (env_step_intro _ _ _ (Ret None))|]. eapply rtc_l; [by apply (env_step_intro _ _ _ (Raise (OSError "down")))|].
    eapply rtc_l; [by apply (env_step_intro _ _ _ (Ret None))|].
    eapply rtc_l; [by apply (env_step_intro _ _ _ (Ret None))|]. apply rtc_refl. }
  destruct (listener_survives "a" "t" Ht SyncDemo.idle ps Hrun) as (H1 & _ & H2).
  split; [exact H1|]. split; [reflexivity|exact H2].
Defined.
