(* ===== verification/Pagination.v ===== *)
(** Pages of results: [src/app/core/response/pagination.py], with Python's true
    division of integers and [math.ceil]. *)
From S2P Require Import Prelude PyFloat PyText.
Open Scope Z_scope.

(** ** [a / b] of positive integers: the nearest number [m * 2 ^ -k] with 53 bits *)
Definition scaled (a b k : Z) : Z * Z := if 0 <=? k then (a * 2 ^ k, b) else (a, b * 2 ^ (- k)).
Definition quotient_scale (a b : Z) : Z :=
  let k := 52 + Z.log2 b - Z.log2 a in
  let '(num, den) := scaled a b k in
  if 2 ^ 52 * den <=? num then k else k + 1.
Definition true_div (a b : Z) : Z * Z :=
  let k := quotient_scale a b in
  let '(num, den) := scaled a b k in
  (round_half_even num den, k).
(** [math.ceil] of such a number. *)
Definition ceil (x : Z * Z) : Z :=
  let '(m, k) := x in
  if 0 <=? k then - (- m / 2 ^ k) else m * 2 ^ (- k).

(** ** pagination.py *)
Record PageQuery := mkPageQuery { current : Z; size : Z }.
Definition PageQuery_default : PageQuery := mkPageQuery 1 20.
(** What the fields' constraints let through. *)
Definition valid_query (q : PageQuery) : bool := (1 <=? current q) && (1 <=? size q) && (size q <=? 100).
Definition offset (q : PageQuery) : Z := (current q - 1) * size q.

Record PageData (T : Type) := mkPageData {
  pd_size : Z; pd_current : Z; pd_total : Z; pd_pages : Z; pd_records : list T }.
Arguments mkPageData {T}.
Arguments pd_size {T}. Arguments pd_current {T}. Arguments pd_total {T}.
Arguments pd_pages {T}. Arguments pd_records {T}.

Definition build_page {T} (query : PageQuery) (total : Z) (items : list T) : PageData T :=
  mkPageData (size query) (current query) total
    (if total =? 0 then 0 else ceil (true_div total (size query))) items.

(** ** The division is exact enough *)
Lemma round_half_even_le num den x : 0 < den → num ≤ x * den → round_half_even num den ≤ x.
Proof.
  intros Hd Hn. unfold round_half_even. pose proof (Z.div_mod num den ltac:(lia)). pose proof (Z.mod_pos_bound num den Hd).
  assert (num / den ≤ x) as Hq by (apply Z.div_le_upper_bound; lia).
  destruct (decide (num / den = x)) as [He|Hne].
  - assert (num mod den = 0) as Hr by nia. rewrite Hr. rewrite (proj2 (Z.ltb_lt _ _)) by lia. simpl. lia.
  - destruct (_ || _); lia.
Qed.

Lemma round_half_even_gt num den y : 0 < den → y * den ≤ num → den < 2 * (num - y * den) → y < round_half_even num den.
Proof.
  intros Hd Hn Hr. unfold round_half_even. pose proof (Z.div_mod num den ltac:(lia)). pose proof (Z.mod_pos_bound num den Hd).
  assert (y ≤ num / den) as Hq by (apply Z.div_le_lower_bound; lia).
  destruct (decide (num / den = y)) as [He|Hne].
  - assert (num mod den = num - y * den) as Hm by nia.
    rewrite (proj2 (Z.ltb_ge _ _)), (proj2 (Z.eqb_neq _ _)) by lia. simpl. lia.
  - destruct (_ || _); lia.
Qed.

(** Below 2^53 the scale of the quotient is not negative and leaves enough bits. *)
Lemma quotient_scale_spec a b :
  0 < a < 2 ^ 53 → 0 < b → 0 ≤ quotient_scale a b ∧ b < 2 * 2 ^ quotient_scale a b.
Proof.
  intros Ha Hb. destruct (Z.log2_spec a ltac:(lia)) as [La1 La2]. destruct (Z.log2_spec b ltac:(lia)) as [Lb1 Lb2].
  pose proof (Z.log2_nonneg a). pose proof (Z.log2_nonneg b).
  assert (Z.log2 a < 53) as La by (apply Z.log2_lt_pow2; lia).
  set (k := 52 + Z.log2 b - Z.log2 a). assert (0 ≤ k) as Hk by lia.
  assert (2 ^ 52 * 2 ^ Z.log2 b = 2 ^ k * 2 ^ Z.log2 a) as Hpow by (rewrite <-!Z.pow_add_r by lia; f_equal; lia).
  rewrite Z.pow_succ_r in La2, Lb2 by lia.
  assert (b < 2 * 2 ^ (k + 1)) as Hk1.
  { rewrite Z.pow_add_r by lia. change (2 ^ 1) with 2. change (2 ^ 53) with (2 * 2 ^ 52) in Ha. nia. }
  unfold quotient_scale, scaled. fold k. rewrite (proj2 (Z.leb_le 0 k)) by done.
  destruct (Z.leb_spec (2 ^ 52 * b) (a * 2 ^ k)) as [Hge|_]; [|split; [lia|done]]. split; [done|].
  change (2 ^ 53) with (2 * 2 ^ 52) in Ha. assert (0 < 2 ^ k) by (apply Z.pow_pos_nonneg; lia).
  assert (2 ^ 52 * b < 2 ^ 52 * (2 * 2 ^ k)) by nia. lia.
Qed.

Lemma ceil_true_div a b : 0 < a < 2 ^ 53 → 0 < b → ceil (true_div a b) = (a + b - 1) / b.
Proof.
  intros Ha Hb. destruct (quotient_scale_spec a b Ha Hb) as [Hk Hbits]. set (k := quotient_scale a b) in *.
  unfold true_div, scaled, ceil. fold k. rewrite !(proj2 (Z.leb_le 0 k)) by done.
  set (p := 2 ^ k) in *. assert (0 < p) as Hp by (apply Z.pow_pos_nonneg; lia).
  set (c := (a + b - 1) / b). pose proof (Z.div_mod (a + b - 1) b ltac:(lia)). pose proof (Z.mod_pos_bound (a + b - 1) b Hb).
  fold c in H. set (m := round_half_even (a * p) b).
  assert (m ≤ c * p) as Hle by (apply round_half_even_le; [done|nia]).
  assert ((c - 1) * p < m) as Hgt by (apply round_half_even_gt; [done|nia|nia]).
  assert (- m / p = - c); [|lia]. symmetry. apply (Z.div_unique (- m) p (- c) (c * p - m)); lia.
Qed.

(** ** Pages cover the records *)
Lemma concat_slices {A} (l : list A) (s n : nat) :
  (length l ≤ n * s)%nat → concat (map (λ k, take s (drop (k * s) l)) (seq 0 n)) = l.
Proof.
  revert l. induction n as [|n IH]; intros l Hl.
  - destruct l; [done|simpl in Hl; lia].
  - cbn [seq map concat]. change (0 * s)%nat with 0%nat. rewrite drop_0. rewrite <-seq_shift, map_map.
    etrans; [|apply (take_drop s)]. f_equal. rewrite <-(IH (drop s l)) by (rewrite length_drop; lia).
    f_equal. apply map_ext. intros k. rewrite drop_drop. f_equal.
Qed.

(** The records of a page, as the queries select them. *)
Definition page_records {A} (items : list A) (q : PageQuery) : list A := slice (offset q) (offset q + size q) items.
Definition page_numbers (pages : Z) : list Z := map (λ k, Z.of_nat k + 1) (seq 0 (Z.to_nat pages)).

(** C34. Pagination neither loses nor repeats a record: for any valid query on fewer
    than 2^53 records the number of pages that [build_page] computes with floating
    point is the exact one - the pages from 1 to that number, taken by offset and
    size, are the records in order, every one of them has a record and at most
    [size], and the next page is empty. *)
Theorem pages_cover {A} (items : list A) (q : PageQuery) :
  valid_query q = true → Z.of_nat (length items) < 2 ^ 53 →
  let pages := pd_pages (build_page q (Z.of_nat (length items)) (page_records items q)) in
  concat (map (λ c, page_records items (mkPageQuery c (size q))) (page_numbers pages)) = items ∧
  (∀ c, 1 ≤ c ≤ pages → 0 < Z.of_nat (length (page_records items (mkPageQuery c (size q)))) ≤ size q) ∧
  (∀ c, pages < c → page_records items (mkPageQuery c (size q)) = []).
Proof.
  intros Hv Hlen pages. unfold valid_query in Hv. rewrite !andb_true_iff, !Z.leb_le in Hv. destruct Hv as [[Hc Hs] Hs'].
  set (n := Z.of_nat (length items)) in *.
  assert (0 ≤ pages ∧ n ≤ pages * size q ∧ (pages - 1) * size q < n ∨ pages = 0 ∧ n = 0) as Hpages.
  { unfold pages, build_page, pd_pages. destruct (Z.eqb_spec n 0) as [|Hn]; [by right|]. left.
    rewrite ceil_true_div by lia. pose proof (Z.div_mod (n + size q - 1) (size q) ltac:(lia)).
    pose proof (Z.mod_pos_bound (n + size q - 1) (size q) ltac:(lia)).
    assert (0 ≤ (n + size q - 1) / size q) by (apply Z.div_pos; lia). nia. }
  assert (∀ c, 1 ≤ c → page_records items (mkPageQuery c (size q)) =
    take (Z.to_nat (size q)) (drop (Z.to_nat (c - 1) * Z.to_nat (size q)) items)) as Hrec.
  { intros c Hc1. unfold page_records, slice, offset. cbn [current size]. f_equal; [lia|]. by rewrite Z2Nat.inj_mul by lia. }
  split_and!.
  - unfold page_numbers. rewrite map_map.
    rewrite (map_ext _ (λ k, take (Z.to_nat (size q)) (drop (k * Z.to_nat (size q)) items))).
    + apply concat_slices. nia.
    + intros k. rewrite Hrec by lia. do 2 f_equal. lia.
  - intros c Hcp. rewrite Hrec by lia. rewrite length_take, length_drop. unfold n in *.
    destruct Hpages as [Hpages|[? ?]]; [|lia].
    assert ((c - 1) * size q ≤ (pages - 1) * size q) by nia. nia.
  - intros c Hcp. rewrite Hrec by lia. rewrite drop_ge; [by rewrite take_nil|]. unfold n in *.
    assert (Z.of_nat (length items) ≤ (c - 1) * size q) as Hle by nia.
    apply Nat2Z.inj_le. rewrite Nat2Z.inj_mul, !Z2Nat.id by lia. exact Hle.
Qed.

(** Above, the quotient is rounded: one record more than 2^53 is lost from the
    count of pages of one record. *)
Example pages_rounded : pd_pages (build_page (mkPageQuery 1 1) (2 ^ 53 + 1) ([] : list nat)) = 2 ^ 53.
Proof. by vm_compute. Qed.

Lemma pages_cover_witness :
  let q := mkPageQuery 1 20 in
  concat (map (λ c, page_records (seq 0 45) (mkPageQuery c 20))
    (page_numbers (pd_pages (build_page q (Z.of_nat (length (seq 0 45))) (page_records (seq 0 45) q))))) = seq 0 45.
Proof.
  intros q. assert (valid_query q = true) as Hq by reflexivity.
  assert (Z.of_nat (length (seq 0 45)) < 2 ^ 53) as Hl by reflexivity.
  exact (proj1 (pages_cover (seq 0 45) q Hq Hl)).
Defined.
