(* ===== verification/ErrorHandlers.v ===== *)
(** Exceptions and their responses: [src/app/core/exceptions/base.py],
    [business.py] and [handlers.py]. Starlette, which finds the handler of an
    exception by its class, is outside. *)
From S2P Require Import Prelude PyText PyStr Settings Metrics.
Open Scope Z_scope.

(** ** What is raised *)

(** The status of an [AppError] class; its code is the same number. *)
Definition app_status (e : exn) : option Z :=
  match e with
  | BusinessError _ => Some 400
  | AuthenticationError _ => Some 401
  | AuthorizationError _ => Some 403
  | OtherError cls _ =>
      if String.eqb cls "NotFoundError" then Some 404
      else if String.eqb cls "ConflictError" then Some 409
      else if String.eqb cls "AppError" then Some 500
      else None
  | _ => None
  end.

(** An item of a validation error's location, and the error as a dict whose keys
    may be missing. *)
Inductive LocItem := LInt (z : Z) | LStr (s : string).
#[export] Instance LocItem_eq_dec : EqDecision LocItem. Proof. solve_decision. Defined.
Record ErrorItem := mkErrorItem { ei_loc : option (list LocItem); ei_msg : option string }.

(** What reaches the handlers: an exception, a [RequestValidationError] with its
    errors, an HTTP exception with its status and, when it is a text, its detail. *)
Inductive Raised :=
| RExn (e : exn)
| RValidation (errors : list ErrorItem)
| RHttp (cls : string) (status : Z) (detail : option string).

(** ** Responses *)
Record JSONResponse := mkJSONResponse {
  jr_status : Z; jr_code : Z; jr_message : string; jr_headers : list (string * string) }.

Section handlers.
Context (cors : CorsSettings).

(** The request is its [origin] header. *)
Definition _build_cors_headers (origin : option string) : list (string * string) :=
  match origin with
  | Some o =>
      if negb (str_truthy o) || negb (bool_decide (o ∈ cors_allow_origins cors)) then []
      else
        let headers := [("Access-Control-Allow-Origin", o); ("Vary", "Origin")] in
        if cors_allow_credentials cors then headers ++ [("Access-Control-Allow-Credentials", "true")] else headers
  | None => []
  end.

Definition _build_error_response (origin : option string) (status_code code : Z) (message : string) : JSONResponse :=
  mkJSONResponse status_code code message (_build_cors_headers origin).

(** [parts[-1] = ...] *)
Definition set_last (f : string → string) (parts : list string) : list string :=
  match last parts with Some p => removelast parts ++ [f p] | None => parts end.

Definition path_step (parts : list string) (item : LocItem) : list string :=
  match item with
  | LInt i =>
      if bool_decide (parts = []) then parts ++ ["[" +:+ str_of_Z i +:+ "]"]
      else set_last (λ p, p +:+ "[" +:+ str_of_Z i +:+ "]") parts
  | LStr s => parts ++ [s]
  end.

Definition _format_validation_path (loc : list LocItem) : string :=
  join "." (filter (λ p, str_truthy p = true) (foldl path_step [] (tail loc))).

Definition _build_validation_message (errors : list ErrorItem) : string :=
  match errors with
  | [] => "Validation failed"
  | first_error :: _ =>
      let path := _format_validation_path (default [] (ei_loc first_error)) in
      let detail := default "Validation failed" (ei_msg first_error) in
      if str_truthy path then path +:+ ": " +:+ detail else detail
  end.

Definition _extract_http_exception_message (detail : option string) : string :=
  opt_str_or detail "HTTP request error".

(** The four handlers, and the dispatch on the class; an exception outside
    [Exception] is not handled. *)
Context `{HasMetrics W} (ob : ObservabilitySettings).

Definition handle_app_error (origin : option string) (e : exn) (status : Z) : io W JSONResponse :=
  _ ← record_app_exception ob (exn_class e);
  mret (_build_error_response origin status status (exn_str e)).

Definition handle_validation_error (origin : option string) (errors : list ErrorItem) : io W JSONResponse :=
  _ ← record_validation_error ob;
  mret (_build_error_response origin 422 422 (_build_validation_message errors)).

Definition handle_http_exception (origin : option string) (cls : string) (status : Z) (detail : option string) : io W JSONResponse :=
  _ ← record_app_exception ob cls;
  mret (_build_error_response origin status status (_extract_http_exception_message detail)).

Definition handle_unexpected (origin : option string) (e : exn) : io W JSONResponse :=
  _ ← record_app_exception ob (exn_class e);
  mret (_build_error_response origin 500 500 "Internal server error").

Definition handle_raised (origin : option string) (r : Raised) : io W (option JSONResponse) :=
  match r with
  | RExn e =>
      match app_status e with
      | Some status => resp ← handle_app_error origin e status; mret (Some resp)
      | None => if is_exception e then resp ← handle_unexpected origin e; mret (Some resp) else mret None
      end
  | RValidation errors => resp ← handle_validation_error origin errors; mret (Some resp)
  | RHttp cls status detail => resp ← handle_http_exception origin cls status detail; mret (Some resp)
  end.

(** ** Every exception is answered *)

(** The counter that an exception is counted under. *)
Definition error_series (r : Raised) : Series :=
  match r with
  | RExn e => app_exceptions_total (exn_class e)
  | RValidation _ => validation_errors_total
  | RHttp cls _ _ => app_exceptions_total cls
  end.

(** Status, code and message of the answer. *)
Definition answer (r : Raised) : Z * string :=
  match r with
  | RExn e => match app_status e with Some s => (s, exn_str e) | None => (500, "Internal server error") end
  | RValidation errors => (422, _build_validation_message errors)
  | RHttp _ s detail => (s, opt_str_or detail "HTTP request error")
  end.

Definition allowed (origin : option string) (o : string) : Prop :=
  origin = Some o ∧ o ≠ "" ∧ o ∈ cors_allow_origins cors.

Lemma cors_headers_spec origin o :
  ("Access-Control-Allow-Origin", o) ∈ _build_cors_headers origin ↔ allowed origin o.
Proof.
  unfold _build_cors_headers, allowed. destruct origin as [o'|]; [|split; [by intros ?%elem_of_nil|by intros [? _]]].
  destruct (str_truthy o') eqn:Ht; simpl.
  - case_bool_decide as Hin; simpl.
    + assert (o' ≠ "") by by intros ->. destruct (cors_allow_credentials cors); set_solver.
    + split; [by intros ?%elem_of_nil|]. intros ([= ->] & _ & ?). done.
  - split; [by intros ?%elem_of_nil|]. intros ([= ->] & ? & _). by destruct o.
Qed.

(** C28. Every exception is answered: any [Exception] that reaches the handlers gets
    one response, with the status of its class, the same number as the code and
    its message - but an unexpected one, whatever it says, only ever gives 500 and
    a fixed text; the origin is let in exactly when the settings allow it; and the
    exception is counted once, under its class, with metrics on, and nothing else
    is counted. Only interrupts pass. *)
Theorem errors_answered `{!MetricsLaws W} origin r w :
  (∀ e, r = RExn e → is_exception e = true) →
  ∃ resp w', handle_raised origin r w = (Ret (Some resp), w') ∧
    (jr_status resp, jr_message resp) = answer r ∧ jr_code resp = jr_status resp ∧
    (∀ o, ("Access-Control-Allow-Origin", o) ∈ jr_headers resp ↔ allowed origin o) ∧
    (∀ s, counter s (get_metrics w') =
       counter s (get_metrics w) + (if metrics_enabled ob && bool_decide (s = error_series r) then 1 else 0)) ∧
    (∀ e e', r = RExn e → app_status e = None → app_status e' = None → is_exception e' = true →
       ∃ w2, handle_raised origin (RExn e') w = (Ret (Some resp), w2)).
Proof.
  intros Hr.
  assert (∀ s0 (w : W), ∃ w', when (metrics_enabled ob) (metric (inc s0 1)) w = (Ret (), w') ∧
    ∀ s, counter s (get_metrics w') =
      counter s (get_metrics w) + (if metrics_enabled ob && bool_decide (s = s0) then 1 else 0)) as Hm.
  { intros s0 w0. unfold when. destruct (metrics_enabled ob); simpl.
    - eexists. split; [done|]. intros s. simpl. rewrite get_set_metrics, counter_inc.
      case_decide; [rewrite bool_decide_eq_true_2 by done|rewrite bool_decide_eq_false_2 by done]; lia.
    - eexists. split; [done|]. intros s. lia. }
  assert (∀ e w, app_status e = None → is_exception e = true → ∃ w2,
    handle_raised origin (RExn e) w = (Ret (Some (_build_error_response origin 500 500 "Internal server error")), w2)) as Hun.
  { intros e w0 Ha He. unfold handle_raised. rewrite Ha, He. unfold handle_unexpected, record_app_exception.
    destruct (Hm (app_exceptions_total (exn_class e)) w0) as (w' & Hw & _). exists w'.
    unfold mbind, io_bind. by rewrite Hw. }
  destruct (Hm (error_series r) w) as (w' & Hw & Hc).
  assert (∃ resp, handle_raised origin r w = (Ret (Some resp), w') ∧ (jr_status resp, jr_message resp) = answer r ∧
    jr_code resp = jr_status resp ∧ jr_headers resp = _build_cors_headers origin ∧
    (∀ e, r = RExn e → app_status e = None → resp = _build_error_response origin 500 500 "Internal server error"))
    as (resp & Hrun & Hans & Hcode & Hhead & Hfix).
  { unfold handle_raised, answer. destruct r as [e|errors|cls s detail]; cbn [error_series] in Hw.
    - destruct (app_status e) as [s|] eqn:Ha.
      + eexists. unfold handle_app_error, record_app_exception, mbind, io_bind. rewrite Hw.
        split_and!; [done|done|done|done|]. intros e' [= <-]. congruence.
      + rewrite (Hr e eq_refl). eexists. unfold handle_unexpected, record_app_exception, mbind, io_bind. rewrite Hw.
        by split_and!.
    - eexists. unfold handle_validation_error, record_validation_error, mbind, io_bind. rewrite Hw. by split_and!.
    - eexists. unfold handle_http_exception, record_app_exception, mbind, io_bind. rewrite Hw. by split_and!. }
  exists resp, w'. split_and!; [done|done|done| |done|].
  - intros o. rewrite Hhead. apply cors_headers_spec.
  - intros e e' He Ha Ha' He'. rewrite (Hfix e He Ha). by apply Hun.
Qed.
End handlers.

(** ** The path of a validation message determines the location *)

(** Names as the models have them: not empty, without dots and brackets. *)
Definition plain_name (s : string) : Prop :=
  s ≠ "" ∧ str_in "." s = false ∧ str_in "[" s = false.
Definition plain_item (i : LocItem) : Prop := match i with LInt z => 0 ≤ z | LStr s => plain_name s end.

(** Reading a part: a name, then the indices in brackets. *)
Definition read_part (p : string) : list LocItem :=
  match split_on "[" p with
  | [] => []
  | name :: idx =>
      (if str_truthy name then [LStr name] else []) ++
      map (λ s, LInt (digits_value 0 (str_chop 1 s))) idx
  end.
Definition read_path (path : string) : list LocItem :=
  if str_truthy path then concat (map read_part (split_on "." path)) else [].

Lemma digits_plain z c :
  is_digit c = false → c ≠ "-"%char → str_in c (str_of_Z z) = false.
Proof.
  intros Hc Hm.
  assert (∀ fuel z acc, 0 ≤ z → str_in c acc = false → str_in c (pos_digits fuel z acc) = false) as Hd.
  { intros fuel. induction fuel as [|fuel IH]; intros z0 acc Hz Hacc; [done|]. cbn [pos_digits].
    assert (0 ≤ z0 mod 10 < 10) as Hmod by (by apply Z.mod_pos_bound).
    assert (str_in c (String (ascii_of_N (Z.to_N (48 + z0 mod 10))) acc) = false) as Ha.
    { unfold str_in. cbn [str_chars String.list_ascii_of_string existsb]. apply orb_false_iff. split; [|exact Hacc].
      apply Ascii.eqb_neq. intros ->. unfold is_digit, ascii_in in Hc. rewrite N_ascii_embedding in Hc by lia.
      rewrite andb_false_iff, !N.leb_gt in Hc. lia. }
    destruct (z0 <? 10); [done|]. apply IH; [by apply Z.div_pos|done]. }
  unfold str_of_Z. destruct (Z.ltb_spec z 0) as [Hn|Hp].
  - unfold str_in. cbn [str_chars String.list_ascii_of_string existsb]. apply orb_false_iff.
    split; [by apply Ascii.eqb_neq|]. apply (Hd _ _ ""); [lia|done].
  - by apply Hd.
Qed.

Lemma split_on_sep c s t : str_in c t = false → split_on c (s +:+ String c t) = split_on c s ++ [t].
Proof.
  intros Ht. induction s as [|a s IH].
  - change ("" +:+ String c t) with (String c t). simpl. by rewrite Ascii.eqb_refl, split_on_none.
  - rewrite str_app_cons. simpl. rewrite IH. destruct (Ascii.eqb a c); [done|].
    destruct (split_on c s) eqn:Hs; [by apply split_on_nonempty in Hs|done].
Qed.

Lemma split_on_first c s t : str_in c s = false → split_on c (s +:+ String c t) = s :: split_on c t.
Proof.
  induction s as [|a s IH]; intros Hs.
  - change ("" +:+ String c t) with (String c t). simpl. by rewrite Ascii.eqb_refl.
  - unfold str_in in *. cbn [str_chars String.list_ascii_of_string existsb] in Hs.
    apply orb_false_iff in Hs as [Ha Hs]. rewrite Ascii.eqb_sym in Ha. rewrite str_app_cons. cbn [split_on]. rewrite Ha.
    by rewrite IH.
Qed.

Lemma split_join c parts :
  parts ≠ [] → Forall (λ p, str_in c p = false) parts → split_on c (join (String c "") parts) = parts.
Proof.
  intros Hne Hall. induction Hall as [|p parts Hp Hall IH]; [done|]. destruct parts as [|q parts].
  - by apply split_on_none.
  - change (join (String c "") (p :: q :: parts)) with (p +:+ String c (join (String c "") (q :: parts))).
    by rewrite split_on_first, IH.
Qed.

Lemma read_part_index p i :
  0 ≤ i → read_part (p +:+ "[" +:+ str_of_Z i +:+ "]") = read_part p ++ [LInt i].
Proof.
  intros Hi. unfold read_part. change ("[" +:+ str_of_Z i +:+ "]") with (String "[" (str_of_Z i +:+ "]")).
  rewrite split_on_sep.
  - destruct (split_on "[" p) as [|name idx] eqn:Hs; [by apply split_on_nonempty in Hs|]. simpl.
    rewrite map_app, <-app_assoc. simpl. change 1%nat with (String.length "]"). by rewrite str_chop_app, str_of_Z_value.
  - rewrite str_in_app, digits_plain by done. done.
Qed.

Lemma read_part_name s : plain_name s → read_part s = [LStr s].
Proof. intros (Hne & _ & Hb). unfold read_part. rewrite split_on_none by done. by destruct s. Qed.

Definition plain_part (p : string) : Prop := p ≠ "" ∧ str_in "." p = false.

Lemma index_part p i : str_in "." p = false → plain_part (p +:+ "[" +:+ str_of_Z i +:+ "]").
Proof.
  intros Hp. split; [by destruct p|]. rewrite !str_in_app, Hp, digits_plain by done. done.
Qed.

Lemma path_steps l :
  Forall plain_item l →
  let parts := foldl path_step [] l in Forall plain_part parts ∧ concat (map read_part parts) = l.
Proof.
  induction l as [|x l IH] using rev_ind; intros Hl; [done|]. apply Forall_app in Hl as [Hl Hx].
  destruct (IH Hl) as [Hparts Hread]. rewrite Forall_singleton in Hx. simpl. rewrite foldl_app. simpl.
  set (parts := foldl path_step [] l) in *. destruct x as [i|s]; unfold path_step.
  - case_bool_decide as He.
    + rewrite He in *. simpl in *. split; [constructor; [exact (index_part "" i eq_refl)|constructor]|].
      rewrite <-Hread, app_nil_r. exact (read_part_index "" i Hx).
    + destruct parts as [|p parts0 _] using rev_ind; [done|]. unfold set_last.
      rewrite last_snoc, removelast_last. rewrite Forall_app, Forall_singleton in Hparts. destruct Hparts as [Hp0 Hp].
      split; [apply Forall_app; split; [done|]; apply Forall_singleton, index_part, Hp|].
      rewrite <-Hread, !map_app, !concat_app. simpl. rewrite !app_nil_r, read_part_index by done. by rewrite app_assoc.
  - split; [apply Forall_app; split; [done|]; apply Forall_singleton; by destruct Hx as (? & ? & ?)|].
    rewrite map_app, concat_app, Hread. simpl. by rewrite read_part_name.
Qed.

(** The path in a validation message tells where the error is: reading it back
    gives the location without its first item, for locations of plain names and
    indices - so two locations with the same path are the same. *)
Theorem validation_path_roundtrip x l :
  Forall plain_item l → read_path (_format_validation_path (x :: l)) = l.
Proof.
  intros Hl. destruct (path_steps l Hl) as [Hparts Hread]. unfold _format_validation_path. cbn [tail].
  set (parts := foldl path_step [] l) in *.
  assert (filter (λ p, str_truthy p = true) parts = parts) as ->.
  { clear Hread Hl. induction Hparts as [|p ps [Hp _] Hps IH]; [done|]. rewrite filter_cons_True by by destruct p.
    by rewrite IH. }
  unfold read_path. destruct parts as [|p ps] eqn:He; [exact Hread|].
  assert (str_truthy (join "." (p :: ps)) = true) as ->.
  { apply Forall_cons in Hparts as [[Hp _] _]. destruct p as [|c p]; [done|]. by destruct ps. }
  rewrite split_join; [exact Hread|done|]. eapply Forall_impl; [exact Hparts|]. by intros q [_ Hq].
Qed.

(** ** Witnesses *)
Lemma validation_path_roundtrip_witness :
  read_path (_format_validation_path [LStr "body"; LStr "cases"; LInt 12; LStr "score"]) =
    [LStr "cases"; LInt 12; LStr "score"].
Proof.
  assert (Forall plain_item [LStr "cases"; LInt 12; LStr "score"]) as H.
  { repeat constructor; done. }
  exact (validation_path_roundtrip (LStr "body") _ H).
Defined.

Example path_text : _format_validation_path [LStr "body"; LStr "cases"; LInt 12; LStr "score"] = "cases[12].score".
Proof. by vm_compute. Qed.

Module ErrorDemo.
#[export] Instance registry : HasMetrics Metrics := {
  get_metrics m := m; set_metrics m _ := m; perf_counter := mret PyFloat.fzero }.
#[export] Instance registry_laws : MetricsLaws Metrics.
Proof. split; [done|]. intros w. by eexists _, w. Qed.
End ErrorDemo.
Import ErrorDemo.

Lemma errors_answered_witness :
  let m0 := mkMetrics ∅ ∅ ∅ in
  ∃ resp w', handle_raised CorsSettings_default ObservabilitySettings_default (Some "http://localhost:5173")
      (RExn (OSError "disk full")) m0 = (Ret (Some resp), w') ∧
    jr_message resp = "Internal server error" ∧
    ("Access-Control-Allow-Origin", "http://localhost:5173") ∈ jr_headers resp.
Proof.
  intros m0. assert (∀ e, RExn (OSError "disk full") = RExn e → is_exception e = true) as He by by intros e [= <-].
  destruct (errors_answered CorsSettings_default ObservabilitySettings_default (Some "http://localhost:5173")
    (RExn (OSError "disk full")) m0 He) as (resp & w' & H1 & H2 & _ & H3 & _).
  exists resp, w'. split; [exact H1|]. injection H2 as _ H2. split; [exact H2|]. apply (proj2 (H3 "http://localhost:5173")).
  split; [reflexivity|]. split; [discriminate|]. left.
Defined.
