(* ===== verification/Lifespan.v ===== *)
(** The application's life: [src/app/lifespan.py] with the handles of
    [src/app/platform/cache/redis.py] and [src/app/platform/http/client.py],
    composed from the models of the components it starts and stops. *)
From S2P Require Import Prelude PyText PyStr PyFloat ModuleSpecs ModuleLoader Permissions Settings Metrics AuditQueue Encoding ConfigValues ConfigSync.
Open Scope Z_scope.

(** The configuration reader gives the listener its version and its reload. *)
#[export] Instance reader_api : ReaderApi ConfigReader := {
  reader_version := cr_version; reader_reload r := (Ret (), load_all r) }.
#[export] Instance reader_laws : ReaderLaws ConfigReader.
Proof. split. by intros r r' [= <-]. Qed.

(** ** Client handles *)

(** The clients made so far and whether each is open; a handle is the number of
    one of them. *)
Record Clients := mkClients { handle : option nat; open_ : list bool }.
Definition no_clients : Clients := mkClients None [].
Definition make_client (c : Clients) : Clients := mkClients (Some (length (open_ c))) (open_ c ++ [true]).
Definition close_client (i : nat) (c : Clients) : Clients := mkClients None (<[i := false]> (open_ c)).

(** ** The application's world *)
Record App {E : Type} := mkApp {
  a_redis : Clients; a_http : Clients; a_audit : AuditState; a_sync : Control (R:=ConfigReader); a_ext : E }.
Arguments App : clear implicits.
Arguments mkApp {E}.

Section lifespan.
Context {E Obj Router : Type} `{Importlib E Obj, !ModuleApi E Obj Router, RegistryRedis E, HasMetrics E, PyValues}.

(** What the clients of Redis and of the network answer. *)
Class ClientApi := {
  ping : io E ();
  redis_aclose : io E ();
  http_aclose : io E ();
  http_send : string → string → io E Z }.     (* sends a request: the status *)
Context `{ClientApi}.

Definition on_ext {A} (m : io E A) : io (App E) A :=
  λ w, let '(o, e) := m (a_ext w) in (o, mkApp (a_redis w) (a_http w) (a_audit w) (a_sync w) e).
Definition set_redis (c : Clients) (w : App E) := mkApp c (a_http w) (a_audit w) (a_sync w) (a_ext w).
Definition set_http (c : Clients) (w : App E) := mkApp (a_redis w) c (a_audit w) (a_sync w) (a_ext w).
Definition set_audit (s : AuditState) (w : App E) := mkApp (a_redis w) (a_http w) s (a_sync w) (a_ext w).
Definition set_sync (c : Control) (w : App E) := mkApp (a_redis w) (a_http w) (a_audit w) c (a_ext w).

(** cache/redis.py: the client is kept before it is tried. *)
Definition init_redis : io (App E) () :=
  w ← get;
  match handle (a_redis w) with
  | Some _ => mret ()
  | None => _ ← modify (set_redis (make_client (a_redis w))); on_ext ping
  end.
Definition redis_connected (w : App E) : bool := bool_decide (is_Some (handle (a_redis w))).
Definition close_redis : io (App E) () :=
  w ← get;
  match handle (a_redis w) with
  | None => mret ()
  | Some i => _ ← on_ext redis_aclose; modify (λ w, set_redis (close_client i (a_redis w)) w)
  end.

(** http/client.py *)
Definition init_http_client : io (App E) () :=
  modify (λ w, match handle (a_http w) with None => set_http (make_client (a_http w)) w | Some _ => w end).
Definition get_http_client : io (App E) nat :=
  w ← get;
  match handle (a_http w) with
  | None => raise (RuntimeError "HTTP client is not initialized")
  | Some i => mret i
  end.
Definition close_http_client : io (App E) () :=
  w ← get;
  match handle (a_http w) with
  | None => mret ()
  | Some i => _ ← on_ext http_aclose; modify (λ w, set_http (close_client i (a_http w)) w)
  end.

(** [InstrumentedAsyncClient.request]: the same request with or without metrics;
    the host of a URL without one is unknown. *)
Definition http_request (ob : ObservabilitySettings) (http_client_observability_enabled : bool)
    (uni_upper : string → string) (host : string) (method url : string) : io E Z :=
  if negb (ob_enabled ob && http_client_observability_enabled) then http_send method url
  else
    let host := if str_truthy host then host else "unknown" in
    track_http_client_request ob (uni_upper method) host
      (λ finalize, status ← http_send method url; _ ← finalize status; mret status).

(** ** Startup and shutdown *)

(** The rest of what startup calls: the loaded modules, the routes of the
    application, and the steps whose effect is on the settings and the event bus.
    [drained] says whether the audit queue empties before its timeout. *)
Context (module_specs : list ModuleSpec) (routes : list Route).
Context (apply_all_config load_module_configs emit_config_loaded shutdown_tracing : io E ()).
Context (operation_queue_size : Z).
Context (instance_id now : string) (close_answer : outcome ()).

Definition start_operation_audit_queue : io (App E) () := modify (λ w, set_audit (AuditQueue.start (a_audit w)) w).
Definition stop_operation_audit_queue : io (App E) () :=
  modify (λ w, match AuditQueue.stop_begin (a_audit w) with
               | (Some (_, t), s) => set_audit (stop_end t s) w
               | (None, s) => set_audit s w
               end).
Definition start_listener : io (App E) () :=
  modify (λ w, set_sync (start_config_sync_listener (redis_connected w) (a_sync w)) w).
Definition stop_listener : io (App E) () :=
  λ w, let '(o, c) := stop_config_sync_listener instance_id now close_answer (a_sync w) in (o, set_sync c w).
(** [config_reader.load_all()] *)
Definition load_config : io (App E) () :=
  modify (λ w, set_sync (mkControl (c_task (a_sync w))
    (set_reader (load_all (cs_reader (c_sync (a_sync w)))) (c_sync (a_sync w)))) w).

Definition register_all : io E () :=
  λ e, let '(o, (e', _)) := register_services module_specs (e, ∅) in (o, e').

Definition startup : io (App E) () :=
  _ ← init_redis;
  _ ← start_operation_audit_queue;
  _ ← load_config;
  _ ← on_ext apply_all_config;
  _ ← start_listener;
  _ ← on_ext load_module_configs;
  _ ← on_ext (run_event_handlers module_specs);
  _ ← on_ext register_all;
  _ ← on_ext (sync_permission_registry routes);
  _ ← init_http_client;
  _ ← on_ext (run_startup_hooks module_specs);
  on_ext emit_config_loaded.

Definition shutdown : io (App E) () :=
  _ ← on_ext (run_shutdown_hooks module_specs);
  _ ← stop_listener;
  _ ← stop_operation_audit_queue;
  _ ← close_http_client;
  _ ← close_redis;
  on_ext shutdown_tracing.

(** The context manager around the application's [body]. *)
Definition lifespan {A} (body : io (App E) A) : io (App E) A :=
  _ ← startup; try_finally body shutdown.

(** ** What is released *)














(** The state before the first start. *)
Definition app_init (e : E) (s : Sync (R:=ConfigReader)) : App E :=
  mkApp no_clients no_clients audit_init (mkControl None s) e.

(** A start that fails after the clients are there has no [finally] around it:
    with no route that carries a permission the scan is empty, the registry refuses
    to be written, and the application ends before its body runs - with the Redis
    client open, the audit writer created and the configuration listener
    subscribing, and nothing left to stop them. *)
Theorem startup_failure_leaks {A} (body : io (App E) A) e s :
  (∀ e, ∃ e', ping e = (Ret (), e')) → (∀ e, ∃ e', apply_all_config e = (Ret (), e')) →
  (∀ e, ∃ e', load_module_configs e = (Ret (), e')) → (∀ e, ∃ e', run_event_handlers module_specs e = (Ret (), e')) →
  (∀ e, ∃ e', register_all e = (Ret (), e')) → scan_permission_registry routes = [] →
  ∃ w', lifespan body (app_init e s) =
      (Raise (RuntimeError "Permission registry scan returned 0 resources; refusing to write Redis"), w') ∧
    open_ (a_redis w') = [true] ∧ tasks (a_audit w') !! 0%nat = Some Created ∧ _worker (a_audit w') = Some 0%nat ∧
    c_task (a_sync w') = Some Subscribing ∧ _pubsub (c_sync (a_sync w')) = Some (cs_made s).
Proof.
  intros Hping Hcfg Hmod Hev Hreg Hscan. unfold lifespan, startup.
  set (w0 := app_init e s). destruct (Hping e) as [e1 Hx1].
  set (r := make_client no_clients). set (w1 := mkApp r no_clients audit_init (mkControl None s) e1).
  assert (init_redis w0 = (Ret (), w1)) as R1.
  { unfold init_redis, mbind, io_bind, get, modify, on_ext. simpl. by rewrite Hx1. }
  set (w2 := set_audit (AuditQueue.start audit_init) w1).
  assert (start_operation_audit_queue w1 = (Ret (), w2)) as R2 by done.
  set (w3 := set_sync (mkControl None (set_reader (load_all (cs_reader s)) s)) w2).
  assert (load_config w2 = (Ret (), w3)) as R3 by done.
  destruct (Hcfg e1) as [e4 Hx4]. set (ws (e : E) c := mkApp r no_clients (AuditQueue.start audit_init) c e).
  assert (on_ext apply_all_config w3 = (Ret (), ws e4 (a_sync w3))) as R4.
  { unfold on_ext. simpl. by rewrite Hx4. }
  set (c5 := start_config_sync_listener true (a_sync w3)).
  assert (start_listener (ws e4 (a_sync w3)) = (Ret (), ws e4 c5)) as R5 by done.
  destruct (Hmod e4) as [e6 Hx6]. assert (on_ext load_module_configs (ws e4 c5) = (Ret (), ws e6 c5)) as R6.
  { unfold on_ext. simpl. by rewrite Hx6. }
  destruct (Hev e6) as [e7 Hx7]. assert (on_ext (run_event_handlers module_specs) (ws e6 c5) = (Ret (), ws e7 c5)) as R7.
  { unfold on_ext. simpl. by rewrite Hx7. }
  destruct (Hreg e7) as [e8 Hx8]. assert (on_ext register_all (ws e7 c5) = (Ret (), ws e8 c5)) as R8.
  { unfold on_ext. simpl. by rewrite Hx8. }
  exists (ws e8 c5). split; [|done].
  apply run_raise.
  rewrite (run_ret _ _ _ _ _ R1), (run_ret _ _ _ _ _ R2), (run_ret _ _ _ _ _ R3), (run_ret _ _ _ _ _ R4),
    (run_ret _ _ _ _ _ R5), (run_ret _ _ _ _ _ R6), (run_ret _ _ _ _ _ R7), (run_ret _ _ _ _ _ R8).
  apply run_raise. unfold on_ext, sync_permission_registry. by rewrite Hscan.
Qed.

(** One shutdown hook that raises stops the whole shutdown: listener, writer and
    clients stay as they are, and the hook's exception replaces the body's
    outcome. *)
Lemma shutdown_hook_failure {A} (body : io (App E) A) w w1 err e :
  startup w = (Ret (), w1) → run_shutdown_hooks module_specs (a_ext (body w1).2) = (Raise err, e) →
  ∃ w', lifespan body w = (Raise err, w') ∧ a_redis w' = a_redis (body w1).2 ∧ a_http w' = a_http (body w1).2 ∧
    a_audit w' = a_audit (body w1).2 ∧ a_sync w' = a_sync (body w1).2.
Proof.
  intros Hst Hh. unfold lifespan. rewrite (run_ret _ _ _ _ _ Hst). unfold try_finally, shutdown.
  destruct (body w1) as [o w2]. simpl in Hh.
  set (w3 := mkApp (a_redis w2) (a_http w2) (a_audit w2) (a_sync w2) e).
  rewrite (run_raise _ _ w2 err w3) by (unfold on_ext; by rewrite Hh). by exists w3.
Qed.


End lifespan.

(** ** Witnesses: an application without modules on a registry in memory *)
Module LifeDemo.
Import PermDemo SyncDemo.
#[export] Instance demo_import : Importlib world () := {
  import_module _ := mret (); getattr _ _ := mret (); package_path _ := None; walk_packages _ _ := mret [];
  find_spec _ := mret false; as_ModuleSpec _ := None }.
#[export] Instance demo_modules : ModuleApi world () () := {
  call_hook _ := mret (); isawaitable _ := false; await_obj _ := mret (); is_APIRouter _ := false;
  new_APIRouter := (); include_router _ _ _ _ := mret () }.
#[export] Instance demo_clients : ClientApi (E:=world) := {
  ping := mret (); redis_aclose := mret (); http_aclose := mret (); http_send _ _ := mret 200 }.
Definition nothing : io world () := mret ().
Definition sync0 : Sync (R:=ConfigReader) := mkSync reader_init None 0 [] None None.
Definition life (routes : list Route) (body : io (App world) ()) :=
  lifespan (Obj:=()) [] routes nothing nothing nothing nothing "i" "t" (Ret ()) body.
End LifeDemo.

Import SyncDemo LifeDemo.


Lemma startup_failure_leaks_witness :
  ∃ w', LifeDemo.life [] (mret ()) (app_init PermDemo.empty LifeDemo.sync0) =
      (Raise (RuntimeError "Permission registry scan returned 0 resources; refusing to write Redis"), w') ∧
    open_ (a_redis w') = [true].
Proof.
  assert (∀ e : PermDemo.world, ∃ e', LifeDemo.nothing e = (Ret (), e')) as Hn by (intros e; by exists e).
  assert (∀ e : PermDemo.world, ∃ e', ping e = (Ret (), e')) as Hp by (intros e; by exists e).
  assert (∀ e : PermDemo.world, ∃ e', run_event_handlers (Obj:=()) [] e = (Ret (), e')) as Hev by (intros e; by exists e).
  assert (∀ e : PermDemo.world, ∃ e', register_all (Obj:=()) [] e = (Ret (), e')) as Hreg by (intros e; by exists e).
  destruct (startup_failure_leaks (E:=PermDemo.world) (Obj:=()) (Router:=()) (A:=()) [] [] LifeDemo.nothing LifeDemo.nothing LifeDemo.nothing LifeDemo.nothing
    "i" "t" (Ret ()) (mret ()) PermDemo.empty LifeDemo.sync0 Hp Hn Hn Hev Hreg eq_refl)
    as (w' & H1 & H2 & _).
  exists w'. split; [exact H1|exact H2].
Defined.
