(* ===== verification/WorkerTasks.v ===== *)
(** The Celery side of the worker: [src/app/platform/tasks/base.py],
    [celery_app.py], [redbeat_scheduler.py] and
    [src/app/modules/judge/celery_setup.py]. Celery and redbeat themselves, which
    call and retry tasks, are outside. *)
From S2P Require Import Prelude PyText PyStr PyFloat JudgeConfig Settings Metrics ModuleSpecs ModuleLoader.
Open Scope Z_scope.

(** ** base.py: what surrounds every task *)
Section base.
Context `{HasMetrics W} (ob : ObservabilitySettings).

Definition task_observed : bool := ob_enabled ob && ob_celery_observability_enabled ob.

(** [BaseTask.__call__] around the task's [run]. *)
Definition call_task {A} (name : string) (run : io W A) : io W A :=
  let body finalize :=
    result ← try_except run is_exception (λ e, _ ← (finalize "failure" : io W ()); raise e);
    _ ← finalize "success";
    mret result in
  if task_observed then track_celery_task ob name body else body (λ _, mret ()).

(** The counters that a task's outcome increments. *)
Definition task_counted {A} (name : string) (o : outcome A) (s : Series) : Z :=
  if task_observed && metrics_enabled ob then
    match o with
    | Ret _ => if bool_decide (s = celery_task_total name "success") then 1 else 0
    | Raise e => if is_exception e && bool_decide (s = celery_task_total name "failure") then 1 else 0
    end
  else 0.

Lemma counter_observe s s' v m : counter s (observe s' v m) = counter s m.
Proof. done. Qed.

Lemma plain_call {A} (run : io W A) w o w1 :
  run w = (o, w1) →
  (result ← try_except run is_exception (λ e, _ ← (mret () : io W ()); raise e); _ ← mret (); mret result) w = (o, w1).
Proof.
  intros Hr. unfold mbind, io_bind, try_except. rewrite Hr. destruct o as [a|e]; [done|]. by destruct (is_exception e).
Qed.

(** Every task is counted once and its outcome passes through: a task that
    returns counts as a success, one that raises an [Exception] as a failure, and
    what it returned or raised is what the call returns or raises; an interrupt is
    not counted, and without observability nothing is. *)
Theorem task_call_counts {A} `{!MetricsLaws W} name (run : io W A) w :
  ∃ w0, get_metrics w0 = get_metrics w ∧
    let '(o, w1) := run w0 in
    ∃ w2, call_task name run w = (o, w2) ∧
      ∀ s, counter s (get_metrics w2) = counter s (get_metrics w1) + task_counted name o s.
Proof.
  unfold call_task, task_counted. destruct task_observed; cbn [andb].
  2:{ exists w. split; [done|]. destruct (run w) as [o w1] eqn:Hr. exists w1. split; [by apply plain_call|]. intros s. lia. }
  unfold track_celery_task. destruct (metrics_enabled ob); cbn [negb].
  2:{ exists w. split; [done|]. destruct (run w) as [o w1] eqn:Hr. exists w1. split; [by apply plain_call|]. intros s. lia. }
  destruct (perf_counter_ok w) as (t0 & w0 & Ht0 & Hm0). exists w0. split; [done|].
  assert (∀ status (w : W), ∃ w', (now ← perf_counter;
      let duration := fsub now t0 in
      _ ← metric (inc (celery_task_total name status) 1);
      metric (observe (celery_task_duration_seconds name) duration)) w = (Ret (), w') ∧
    ∀ s, counter s (get_metrics w') =
      counter s (get_metrics w) + (if bool_decide (s = celery_task_total name status) then 1 else 0)) as Hfin.
  { intros status v. destruct (perf_counter_ok v) as (t1 & v1 & Ht1 & Hm1).
    rewrite (run_ret _ _ _ _ _ Ht1). unfold mbind, io_bind, metric, modify. eexists. split; [reflexivity|]. intros s.
    rewrite get_set_metrics, counter_observe, get_set_metrics, counter_inc, Hm1.
    case_decide; [rewrite bool_decide_eq_true_2 by done|rewrite bool_decide_eq_false_2 by done]; lia. }
  rewrite (run_ret _ _ _ _ _ Ht0). destruct (run w0) as [[a|e] w1] eqn:Hr.
  - destruct (Hfin "success" w1) as (w2 & Hf & Hc). exists w2. split; [|exact Hc].
    erewrite run_ret by (unfold try_except; by rewrite Hr). by rewrite (run_ret _ _ _ _ _ Hf).
  - destruct (is_exception e) eqn:He; cbn [andb].
    + destruct (Hfin "failure" w1) as (w2 & Hf & Hc). exists w2. split; [|exact Hc].
      apply run_raise. unfold try_except. rewrite Hr, He. by rewrite (run_ret _ _ _ _ _ Hf).
    + exists w1. split; [|intros s; lia]. apply run_raise. unfold try_except. by rewrite Hr, He.
Qed.
End base.

(** ** redbeat_scheduler.py *)
Section redbeat.
Context {W : Type}.
(** Loading the modules, and [RedBeatSchedulerEntry(...).save()]. *)
Context (load_module_specs : io W (list ModuleSpec)) (save_entry : beat_entry → io W ()).

Definition sync_entry (item : beat_entry) : io W () := try_except (save_entry item) is_exception (λ _, mret ()).
Definition sync_to_redbeat : io W () :=
  try_except
    (module_specs ← load_module_specs;
     static_schedule ← lift (collect_beat_schedule module_specs);
     foreach static_schedule () (λ _ item, sync_entry item))
    is_exception (λ _, mret ()).

(** Saving the schedules does not stop the worker: whatever [Exception]s loading
    and saving raise, the call returns, and when the modules load and the names of
    their schedules differ, each schedule is saved once, in order, in the world
    the ones before left, whether those could be saved or not. *)
Theorem redbeat_isolated specs w w1 :
  (∀ item w e, (save_entry item w).1 = Raise e → is_exception e = true) →
  load_module_specs w = (Ret specs, w1) →
  (NoDup (map bs_name (specs ≫= ms_beat_schedules)) →
     sync_to_redbeat w = (Ret (), foldl (λ w item, (save_entry item w).2) w1 (map entry_of (specs ≫= ms_beat_schedules)))) ∧
  (¬ NoDup (map bs_name (specs ≫= ms_beat_schedules)) → sync_to_redbeat w = (Ret (), w1)).
Proof.
  intros Hsave Hload. destruct (collect_beat_schedule_dec specs) as [[Hnd Hc]|[Hnd [n Hc]]].
  - split; [intros _|done]. unfold sync_to_redbeat, try_except. rewrite (run_ret _ _ _ _ _ Hload), Hc.
    rewrite (run_ret (lift (Ret _)) _ w1 _ w1 eq_refl).
    assert (∀ l w, foreach l () (λ _ item, sync_entry item) w = (Ret (), foldl (λ w item, (save_entry item w).2) w l)) as ->; [|done].
    intros l. induction l as [|x l IH]; intros v; [done|]. cbn [foreach foldl].
    assert (sync_entry x v = (Ret (), (save_entry x v).2)) as Hx.
    { unfold sync_entry, try_except. pose proof (Hsave x v) as He. destruct (save_entry x v) as [[[]|e] v']; [done|].
      by rewrite (He e eq_refl). }
    rewrite (run_ret _ _ _ _ _ Hx). apply IH.
  - split; [done|intros _]. unfold sync_to_redbeat, try_except. rewrite (run_ret _ _ _ _ _ Hload), Hc. done.
Qed.
End redbeat.

(** ** The configuration of the application: [celery_app.conf], by attribute *)
Inductive ConfValue :=
| CStr (s : string) | CInt (z : Z) | CBool (b : bool) | CFloat (f : f64)
| CQueues (queues : list (string * string)) | CList (items : list string) | CDict (items : list (string * ConfValue)).
Notation Conf := (gmap string ConfValue).

(** celery_app.py *)
Definition celery_app (ce : CelerySettings) (redis_url : string) : Conf :=
  list_to_map
    [("broker_url", CStr (ce_broker_url ce));
     ("result_backend", CStr (if str_truthy (ce_result_backend ce) then ce_result_backend ce else redis_url));
     ("include", CList ["app.worker.tasks"]);
     ("task_default_queue", CStr "default");
     ("worker_enable_remote_control", CBool (ce_worker_remote_control_enabled ce));
     ("worker_cancel_long_running_tasks_on_connection_loss", CBool (ce_worker_cancel_long_running_tasks_on_connection_loss ce));
     ("worker_prefetch_multiplier", CInt (ce_worker_prefetch_multiplier ce));
     ("broker_transport_options", CDict [("visibility_timeout", CInt (ce_broker_visibility_timeout ce))]);
     ("broker_connection_retry_on_startup", CBool true);
     ("task_compression", CStr "gzip");
     ("redbeat_redis_url", CStr redis_url);
     ("redbeat_redis_options", CDict [("decode_responses", CBool true)]);
     ("redbeat_lock_key", CStr "redbeat:lock")].

(** celery_setup.py: what the judge module changes, once. *)
Definition judge_conf (cfg : JudgeSettings) : list (string * ConfValue) :=
  let queue := task_default_queue cfg in
  [("task_default_queue", CStr queue);
   ("task_default_routing_key", CStr (task_default_routing_key cfg));
   ("task_queues", CQueues [(queue, queue +:+ ".#")]);
   ("task_soft_time_limit", CInt (task_soft_time_limit cfg));
   ("task_time_limit", CInt (task_time_limit cfg));
   ("task_acks_late", CBool (task_acks_late cfg));
   ("task_reject_on_worker_lost", CBool (task_reject_on_worker_lost cfg));
   ("worker_prefetch_multiplier", CInt (worker_prefetch_multiplier cfg));
   ("result_backend_transport_options", CDict [("polling_interval", CFloat (fdiv (f_of_Z 1) (f_of_Z 10)))]);
   ("task_ignore_result", CBool false)].
Definition configure_celery_app (cfg : JudgeSettings) : io (Conf * bool) () := λ w,
  if w.2 then (Ret (), w) else (Ret (), (list_to_map (judge_conf cfg) ∪ w.1, true)).

Lemma judge_conf_lookup cfg k conf :
  (configure_celery_app cfg (conf, false)).2.1 !! k =
    match (list_to_map (judge_conf cfg) : Conf) !! k with Some v => Some v | None => conf !! k end.
Proof. simpl. rewrite lookup_union. by destruct (_ !! k), (conf !! k). Qed.

(** Configuring again changes nothing, whatever the settings say then. *)
Lemma configure_once cfg cfg' w :
  configure_celery_app cfg' (configure_celery_app cfg w).2 = (Ret (), (configure_celery_app cfg w).2).
Proof. by destruct w as [c []]. Qed.

(** What the judge module leaves of the application's configuration: its queue, its
    limits and its prefetch multiplier, whatever the Celery settings say - the
    [CELERY__WORKER_PREFETCH_MULTIPLIER] of the environment has no effect -, and
    the broker, the backend and the visibility timeout of the Celery settings. *)
Theorem judge_configuration ce redis_url cfg :
  let conf := (configure_celery_app cfg (celery_app ce redis_url, false)).2.1 in
  conf !! "worker_prefetch_multiplier" = Some (CInt (worker_prefetch_multiplier cfg)) ∧
  conf !! "task_default_queue" = Some (CStr (task_default_queue cfg)) ∧
  conf !! "task_time_limit" = Some (CInt (task_time_limit cfg)) ∧
  conf !! "broker_url" = Some (CStr (ce_broker_url ce)) ∧
  conf !! "broker_transport_options" = Some (CDict [("visibility_timeout", CInt (ce_broker_visibility_timeout ce))]) ∧
  (∀ v, conf !! "result_backend" = Some (CStr v) → v = "" → redis_url = "").
Proof.
  cbn zeta. rewrite !judge_conf_lookup. unfold judge_conf, celery_app.
  assert (∀ (l : list (string * ConfValue)) k, (list_to_map l : Conf) !! k = (λ p, p.2.2) <$> list_find (λ e, e.1 = k) l) as Hf.
  { intros l k. induction l as [|[k' v] l IH]; [done|]. simpl. case_decide as Hk; [subst; by rewrite lookup_insert_eq|].
    rewrite lookup_insert_ne by done. rewrite IH. by destruct (list_find _ l) as [[]|]. }
  rewrite !Hf. split_and!; try done. simpl. intros v [= <-] Hv.
  destruct (str_truthy (ce_result_backend ce)) eqn:Ht; [|done]. by rewrite Hv in Ht.
Qed.

(** The default visibility timeout exceeds the default time limit, as redelivery
    requires; nothing checks other settings. *)
Example default_visibility : task_time_limit default_judge_settings < ce_broker_visibility_timeout CelerySettings_default.
Proof. by vm_compute. Qed.

(** ** celery_app.py: the hooks of a worker process, over the start and the end
    of its infrastructure run on the worker's loop *)
Section hooks.
Context {W : Type} (startup_infra shutdown_infra close_runner : io W ()).
Definition _worker_process_init : io W () := try_except startup_infra is_exception raise.
Definition _worker_process_shutdown : io W () :=
  try_except (_ ← shutdown_infra; close_runner) is_exception (λ _, mret ()).
End hooks.
