(* ===== verification/OpenApi.v ===== *)
(** The error responses of the OpenAPI document: [customize_openapi_error_responses]
    of [src/app/core/exceptions/handlers.py]. FastAPI builds the document; this
    code rewrites the responses of every operation, once. *)
From S2P Require Import Prelude PyText PyStr.
Open Scope Z_scope.

(** A response: its description and the reference of its JSON schema, or any
    other document. *)
Inductive RespDoc := ErrorDoc (description : string) | OtherDoc (json : string).
#[export] Instance RespDoc_eq_dec : EqDecision RespDoc. Proof. solve_decision. Defined.

(** An operation: its responses and the names of its parameters, when the keys
    are there, and whatever else it holds. *)
Record Operation := mkOperation {
  op_responses : option (gmap string RespDoc); op_parameters : option (list (option string));
  op_rest : gmap string string }.
Notation PathItem := (gmap string Operation).
Record Schema := mkSchema {
  sc_components : gmap string string; sc_paths : gmap string PathItem }.

(** The application: its routes - an [APIRoute] has a path and methods - and the
    document kept from an earlier call. *)
Record ApiRoute := mkApiRoute { path_format : string; methods : list string }.
Record AppDoc := mkAppDoc { app_routes : list (option ApiRoute); openapi_schema : option Schema }.

Section openapi.
(** [get_openapi(...)] of the application, and the model's own schema. *)
Context (get_openapi : list (option ApiRoute) → Schema) (error_schema : string).

Definition setdefault (k : string) (v : RespDoc) (m : gmap string RespDoc) : gmap string RespDoc :=
  match m !! k with Some _ => m | None => <[k := v]> m end.

(** [if not operation]: an empty object *)
Definition operation_empty (op : Operation) : bool :=
  bool_decide (op_responses op = None ∧ op_parameters op = None ∧ op_rest op = ∅).

(** Does a parameter have the name [Authorization]? *)
Definition secured (op : Operation) : bool :=
  existsb (λ p, bool_decide (p = Some "Authorization")) (default [] (op_parameters op)).

(** The loop's body for one operation. *)
Definition customize_operation (op : Operation) : Operation :=
  if operation_empty op then op else
  let responses := default ∅ (op_responses op) in
  let responses := if bool_decide (is_Some (responses !! "422"))
                   then <["422" := ErrorDoc "Validation Error"]> responses else responses in
  let responses := setdefault "500" (ErrorDoc "Internal Server Error") responses in
  let responses :=
    if secured op then
      setdefault "403" (ErrorDoc "Forbidden") (setdefault "401" (ErrorDoc "Unauthorized") responses)
    else responses in
  mkOperation (Some responses) (op_parameters op) (op_rest op).

(** One method of a route: [path_item.get(method.lower())]. *)
Definition customize_method (path : string) (paths : gmap string PathItem) (method : string) : gmap string PathItem :=
  match paths !! path with
  | None => paths
  | Some item =>
      match item !! lower method with
      | None => paths
      | Some op => <[path := <[lower method := customize_operation op]> item]> paths
      end
  end.

Definition customize_route (paths : gmap string PathItem) (route : option ApiRoute) : gmap string PathItem :=
  match route with
  | None => paths
  | Some r => foldl (customize_method (path_format r)) paths (methods r)
  end.

(** [app.openapi()] *)
Definition custom_openapi (app : AppDoc) : Schema * AppDoc :=
  match openapi_schema app with
  | Some s => (s, app)
  | None =>
      let s := get_openapi (app_routes app) in
      let s := mkSchema (<["ApiErrorResponse" := error_schema]> (sc_components s))
                 (foldl customize_route (sc_paths s) (app_routes app)) in
      (s, mkAppDoc (app_routes app) (Some s))
  end.

(** ** What an operation's responses become *)
(** The response of a status in the rewritten document. *)
Definition expected (op : Operation) (status : string) : option RespDoc :=
  let old := default ∅ (op_responses op) !! status in
  if decide (status = "422") then (λ _, ErrorDoc "Validation Error") <$> old
  else if decide (status = "500") then Some (default (ErrorDoc "Internal Server Error") old)
  else if decide (status = "401") then (if secured op then Some (default (ErrorDoc "Unauthorized") old) else old)
  else if decide (status = "403") then (if secured op then Some (default (ErrorDoc "Forbidden") old) else old)
  else old.

Lemma setdefault_lookup k v m k' :
  setdefault k v m !! k' = if decide (k' = k) then Some (default v (m !! k)) else m !! k'.
Proof.
  unfold setdefault. destruct (m !! k) as [x|] eqn:Hk; case_decide as He; subst; try done.
  - by rewrite lookup_insert_eq.
  - by rewrite lookup_insert_ne.
Qed.

Lemma customize_operation_spec op status :
  operation_empty op = false →
  default ∅ (op_responses (customize_operation op)) !! status = expected op status.
Proof.
  intros He0. unfold customize_operation, expected. rewrite He0. simpl. set (m := default ∅ (op_responses op)).
  assert (∀ k, (if bool_decide (is_Some (m !! "422")) then <["422" := ErrorDoc "Validation Error"]> m else m) !! k =
    if decide (k = "422") then (λ _, ErrorDoc "Validation Error") <$> (m !! k) else m !! k) as H422.
  { intros k. case_bool_decide as Hs; case_decide as He; subst.
    - rewrite lookup_insert_eq. by destruct Hs as [x ->].
    - by rewrite lookup_insert_ne.
    - destruct (m !! "422") eqn:Hm; [|done]. destruct Hs. eauto.
    - done. }
  destruct (secured op); rewrite ?setdefault_lookup, ?H422.
  all: repeat case_decide; subst; try done.
Qed.

Lemma customize_operation_nonempty op :
  operation_empty op = false → operation_empty (customize_operation op) = false.
Proof. unfold customize_operation. intros ->. unfold operation_empty. by case_bool_decide; naive_solver. Qed.

Lemma customize_operation_secured op : secured (customize_operation op) = secured op.
Proof. unfold customize_operation. by destruct (operation_empty op). Qed.

Lemma operation_ext op1 op2 :
  op_parameters op1 = op_parameters op2 → op_rest op1 = op_rest op2 →
  is_Some (op_responses op1) → is_Some (op_responses op2) →
  (∀ s, default ∅ (op_responses op1) !! s = default ∅ (op_responses op2) !! s) → op1 = op2.
Proof.
  destruct op1 as [r1 p1 o1], op2 as [r2 p2 o2]. simpl. intros -> -> [m1 ->] [m2 ->] Hs. simpl in Hs.
  do 2 f_equal. by apply map_eq.
Qed.

Lemma customize_operation_idempotent op : customize_operation (customize_operation op) = customize_operation op.
Proof.
  destruct (operation_empty op) eqn:He.
  { assert (customize_operation op = op) as Hid by (unfold customize_operation; by rewrite He). by rewrite !Hid. }
  pose proof (customize_operation_nonempty _ He) as He1.
  assert (∀ o, operation_empty o = false → is_Some (op_responses (customize_operation o)) ∧
    op_parameters (customize_operation o) = op_parameters o ∧ op_rest (customize_operation o) = op_rest o) as Hk.
  { intros o Ho. unfold customize_operation. rewrite Ho. simpl. eauto. }
  destruct (Hk _ He) as (Hs1&Hp1&Ho1), (Hk _ He1) as (Hs2&Hp2&Ho2). apply operation_ext; [done..|].
  intros s. rewrite (customize_operation_spec _ s He1). unfold expected.
  rewrite customize_operation_secured, customize_operation_spec by done.
  unfold expected. repeat case_decide; subst; try done.
  - by destruct (default ∅ (op_responses op) !! "422").
  - by destruct (secured op).
  - by destruct (secured op).
Qed.

(** ** The whole document *)

(** Which operations belong to a route. *)
Definition of_route (path method : string) (route : option ApiRoute) : bool :=
  match route with
  | None => false
  | Some r => bool_decide (path_format r = path) && existsb (λ m, bool_decide (lower m = method)) (methods r)
  end.

Definition op_at (paths : gmap string PathItem) (path method : string) : option Operation :=
  item ← paths !! path; item !! method.

(** A document in which the operations [touched] are rewritten and the others
    are as they were. *)
Definition rewritten (old new : gmap string PathItem) (touched : string → string → bool) : Prop :=
  ∀ path method, op_at new path method =
    if touched path method then customize_operation <$> op_at old path method else op_at old path method.

Lemma op_at_method path paths m p k :
  op_at (customize_method path paths m) p k =
    if decide (p = path ∧ k = lower m) then customize_operation <$> op_at paths p k else op_at paths p k.
Proof.
  unfold customize_method, op_at. destruct (paths !! path) as [item|] eqn:Hp.
  - destruct (item !! lower m) as [op|] eqn:Hm.
    + destruct (decide (p = path)) as [->|Hne].
      * rewrite lookup_insert_eq, Hp. simpl. destruct (decide (k = lower m)) as [->|Hk].
        -- rewrite lookup_insert_eq, decide_True by done. by rewrite Hm.
        -- by rewrite lookup_insert_ne, decide_False by naive_solver.
      * by rewrite lookup_insert_ne, decide_False by naive_solver.
    + case_decide as H; [|done]. destruct H as [-> ->]. rewrite Hp. simpl. by rewrite Hm.
  - case_decide as H; [|done]. destruct H as [-> ->]. by rewrite Hp.
Qed.

Lemma rewritten_method old new touched path m :
  rewritten old new touched →
  rewritten old (customize_method path new m)
    (λ p k, touched p k || (bool_decide (path = p) && bool_decide (lower m = k))).
Proof.
  intros Hr p k. rewrite op_at_method, (Hr p k). repeat case_bool_decide; case_decide; try naive_solver.
  - destruct (touched p k); [|done]. destruct (op_at old p k); [|done]. simpl. by rewrite customize_operation_idempotent.
  - by rewrite andb_false_r, orb_false_r.
  - by rewrite orb_false_r.
  - by rewrite orb_false_r.
Qed.

Lemma rewritten_ext old new t1 t2 : (∀ p k, t1 p k = t2 p k) → rewritten old new t1 → rewritten old new t2.
Proof. intros Ht Hr p k. by rewrite <- Ht, Hr. Qed.

Lemma rewritten_methods old path ms new touched :
  rewritten old new touched →
  rewritten old (foldl (customize_method path) new ms)
    (λ p k, touched p k || (bool_decide (path = p) && existsb (λ m, bool_decide (lower m = k)) ms)).
Proof.
  revert new touched. induction ms as [|m ms IH]; intros new touched Hr; simpl.
  - eapply rewritten_ext; [|done]. intros p k. simpl. by rewrite andb_false_r, orb_false_r.
  - eapply rewritten_ext; [|apply IH, rewritten_method, Hr]. intros p k. simpl.
    destruct (touched p k), (bool_decide (path = p)), (bool_decide (lower m = k)); done.
Qed.

Lemma rewritten_routes old routes new touched :
  rewritten old new touched →
  rewritten old (foldl customize_route new routes) (λ p k, touched p k || existsb (of_route p k) routes).
Proof.
  revert new touched. induction routes as [|[r|] routes IH]; intros new touched Hr; simpl.
  - eapply rewritten_ext; [|done]. intros p k. by rewrite orb_false_r.
  - eapply rewritten_ext; [|apply IH, rewritten_methods, Hr]. intros p k. simpl. by rewrite orb_assoc.
  - eapply rewritten_ext; [|apply IH, Hr]. done.
Qed.

Theorem openapi_rewrites_once app s app' :
  openapi_schema app = None → custom_openapi app = (s, app') →
  (∀ path method, op_at (sc_paths s) path method =
     let op := op_at (sc_paths (get_openapi (app_routes app))) path method in
     if existsb (of_route path method) (app_routes app) then customize_operation <$> op else op) ∧
  sc_components s !! "ApiErrorResponse" = Some error_schema ∧
  custom_openapi app' = (s, app').
Proof.
  unfold custom_openapi. intros -> [= <- <-]. split_and!; [|simpl; by rewrite lookup_insert_eq|done].
  intros p k. simpl. apply (rewritten_routes _ _ _ (λ _ _, false)). done.
Qed.
End openapi.
