(* ===== verification/Datetime.v ===== *)
(** Times in the API: [src/app/core/schema/datetime.py] and the base schema of
    [src/app/core/schema/base.py], with the part of Python's [datetime] they use.
    A datetime is its wall-clock time, in microseconds since 0001-01-01T00:00, and
    its zone. *)
From S2P Require Import Prelude PyText PyStr.
Open Scope Z_scope.

(** ** [datetime] of the standard library *)
Definition DAY : Z := 86400000000.
(** [date.max.toordinal()] *)
Definition MAXORDINAL : Z := 3652059.

(** The zone of a datetime: what its [utcoffset()] answers, in microseconds. *)
Record TzInfo := mkTz { utcoffset_of : option Z }.
Definition UTC : TzInfo := mkTz (Some 0).
Record DateTime := mkDateTime { wall : Z; tzinfo : option TzInfo }.
#[export] Instance TzInfo_eq_dec : EqDecision TzInfo. Proof. solve_decision. Defined.
#[export] Instance DateTime_eq_dec : EqDecision DateTime. Proof. solve_decision. Defined.

(** [value.utcoffset()] *)
Definition utcoffset (value : DateTime) : option Z := tz ← tzinfo value; utcoffset_of tz.
(** [value.replace(tzinfo=UTC)] *)
Definition as_utc (value : DateTime) : DateTime := mkDateTime (wall value) (Some UTC).
Definition in_range (us : Z) : bool := (0 <=? us) && (us <? MAXORDINAL * DAY).
(** [value.astimezone(UTC)] of a datetime with an offset. *)
Definition astimezone_utc (value : DateTime) (offset : Z) : outcome DateTime :=
  let us := wall value - offset in
  if in_range us then Ret (mkDateTime us (Some UTC))
  else Raise (OtherError "OverflowError" "date value out of range").

(** The calendar: [_ymd2ord] and [_ord2ymd]. *)
Definition is_leap (y : Z) : bool := (y mod 4 =? 0) && (negb (y mod 100 =? 0) || (y mod 400 =? 0)).
Definition days_before_year (y : Z) : Z := let y := y - 1 in y * 365 + y / 4 - y / 100 + y / 400.
Definition days_before_month (leap : bool) (m : Z) : Z :=
  nth (Z.to_nat (m - 1)) [0; 31; 59; 90; 120; 151; 181; 212; 243; 273; 304; 334] 0 +
  (if (2 <? m) && leap then 1 else 0).
Definition days_in_month (leap : bool) (m : Z) : Z :=
  if (m =? 2) && leap then 29 else nth (Z.to_nat (m - 1)) [31; 28; 31; 30; 31; 30; 31; 31; 30; 31; 30; 31] 0.
Definition ymd2ord (ymd : Z * Z * Z) : Z :=
  let '(y, m, d) := ymd in days_before_year y + days_before_month (is_leap y) m + d.
(** A day of a 400-year cycle, counted from 0. *)
Definition cycle_ymd (n : Z) : Z * Z * Z :=
  let '(n100, n) := (n / 36524, n mod 36524) in
  let '(n4, n) := (n / 1461, n mod 1461) in
  let '(n1, n) := (n / 365, n mod 365) in
  let year := 1 + n100 * 100 + n4 * 4 + n1 in
  if (n1 =? 4) || (n100 =? 4) then (year - 1, 12, 31)
  else
    let leap := (n1 =? 3) && (negb (n4 =? 24) || (n100 =? 3)) in
    let month := Z.shiftr (n + 50) 5 in
    let month := if n <? days_before_month leap month then month - 1 else month in
    (year, month, n - days_before_month leap month + 1).
Definition ord2ymd (ordinal : Z) : Z * Z * Z :=
  let n := ordinal - 1 in
  let '(y, m, d) := cycle_ymd (n mod 146097) in (y + n / 146097 * 400, m, d).

(** [value.isoformat(timespec="milliseconds")] *)
Fixpoint zeros (n : nat) (s : string) : string :=
  match n with O => s | S n => String "0" (zeros n s) end.
Definition zpad (width : nat) (z : Z) : string :=
  let s := str_of_Z z in zeros (width - String.length s) s.
Definition offset_str (offset : Z) : string :=
  let a := Z.abs offset in
  let '(hh, mm, ss, us) := (a / 3600000000, a / 60000000 mod 60, a / 1000000 mod 60, a mod 1000000) in
  (if offset <? 0 then "-" else "+") +:+ zpad 2 hh +:+ ":" +:+ zpad 2 mm +:+
  (if (ss =? 0) && (us =? 0) then "" else ":" +:+ zpad 2 ss +:+ (if us =? 0 then "" else "." +:+ zpad 6 us)).
Definition date_str (ymd : Z * Z * Z) : string :=
  let '(y, m, d) := ymd in zpad 4 y +:+ "-" +:+ zpad 2 m +:+ "-" +:+ zpad 2 d.
Definition time_str (us : Z) : string :=
  zpad 2 (us / 3600000000) +:+ ":" +:+ zpad 2 (us / 60000000 mod 60) +:+ ":" +:+
  zpad 2 (us / 1000000 mod 60) +:+ "." +:+ zpad 3 (us / 1000 mod 1000).
Definition isoformat_ms (value : DateTime) : string :=
  date_str (ord2ymd (wall value / DAY + 1)) +:+ "T" +:+ time_str (wall value mod DAY) +:+
  (match utcoffset value with Some off => offset_str off | None => "" end).

(** [s.replace(old, new)] of a string that is not empty. *)
Fixpoint replace_go (old new : string) (skip : nat) (s : string) : string :=
  match s with
  | "" => ""
  | String c r =>
      match skip with
      | S k => replace_go old new k r
      | O => if String.prefix old s then new +:+ replace_go old new (String.length old - 1) r
             else String c (replace_go old new 0 r)
      end
  end.
Definition str_replace (old new s : string) : string := replace_go old new 0 s.

(** ** core/schema/datetime.py *)
Definition ensure_utc_datetime (value : DateTime) : outcome DateTime :=
  match utcoffset value with
  | None => Raise (ValueError "datetime values must include timezone information")
  | Some off => astimezone_utc value off
  end.

Definition format_utc_iso8601 (value : DateTime) : outcome string :=
  value ← match utcoffset value with None => Ret (as_utc value) | Some off => astimezone_utc value off end;
  Ret (str_replace "+00:00" "Z" (isoformat_ms value)).

(** Values of a response: what the function tells apart. [VOther] is a value of
    another type, that has no [tzinfo]. *)
Inductive PyVal :=
| VNone
| VStr (s : string)
| VDatetime (d : DateTime)
| VDict (items : list (PyVal * PyVal))
| VList (items : list PyVal)
| VTuple (items : list PyVal)
| VSet (items : list PyVal)
| VOther (repr : string).

(** [[f(item) for item in items]] *)
Definition comprehension {A B} (f : A → outcome B) : list A → outcome (list B) :=
  fix go l := match l with [] => Ret [] | x :: l' => y ← f x; ys ← go l'; Ret (y :: ys) end.

Fixpoint serialize_datetime_value (value : PyVal) : outcome PyVal :=
  match value with
  | VDatetime d => s ← format_utc_iso8601 d; Ret (VStr s)
  | VDict items =>
      items' ← comprehension (λ '(key, item), v ← serialize_datetime_value item; Ret (key, v)) items;
      Ret (VDict items')
  | VList items => items' ← comprehension serialize_datetime_value items; Ret (VList items')
  | VTuple items => items' ← comprehension serialize_datetime_value items; Ret (VTuple items')
  | VSet items => items' ← comprehension serialize_datetime_value items; Ret (VList items')
  | _ => Ret value
  end.

(** The attributes of an object, [item.__dict__]; [None]: it has none. *)
Definition Attrs : Type := list (string * PyVal).
Definition normalize_orm_value (value : PyVal) : PyVal :=
  match value with
  | VDatetime d => match utcoffset d with None => VDatetime (as_utc d) | Some _ => value end
  | _ => value
  end.
Definition normalize_orm_datetimes (item : option Attrs) : option Attrs :=
  map (λ '(field_name, value), (field_name, normalize_orm_value value)) <$> item.

(** An annotation: the class [datetime], a generic type with its origin and
    arguments (a union is one), or another class. *)
Inductive Annotation :=
| AnnDatetime
| AnnGeneric (origin : string) (args : list Annotation)
| AnnOther (name : string).
Definition is_datetime_annotation (annotation : Annotation) : bool :=
  match annotation with
  | AnnDatetime => true
  | AnnGeneric _ args => existsb (λ a, match a with AnnDatetime => true | _ => false end) args
  | AnnOther _ => false
  end.

(** ** core/schema/base.py *)

(** A schema: the annotations of its fields; an instance: their values. *)
Definition Fields : Type := list (string * Annotation).

(** [ensure_utc_datetime] of any value. *)
Definition ensure_utc_value (value : PyVal) : outcome PyVal :=
  match value with
  | VDatetime d => d' ← ensure_utc_datetime d; Ret (VDatetime d')
  | _ => Raise (AttributeError "object has no attribute 'tzinfo'")
  end.

Definition normalize_field (self : gmap string PyVal) (field : string * Annotation) : outcome (gmap string PyVal) :=
  let '(field_name, annotation) := field in
  if negb (is_datetime_annotation annotation) then Ret self
  else
    match self !! field_name with
    | None | Some VNone => Ret self
    | Some value => v ← ensure_utc_value value; Ret (<[field_name := v]> self)
    end.
Fixpoint normalize_datetimes (model_fields : Fields) (self : gmap string PyVal) : outcome (gmap string PyVal) :=
  match model_fields with
  | [] => Ret self
  | f :: fs => self' ← normalize_field self f; normalize_datetimes fs self'
  end.

(** [to_schema]: the validation of the fields is pydantic's, then the validator
    above runs. The object keeps its normalised attributes. *)
Definition to_schema (validate_fields : option Attrs → outcome (gmap string PyVal)) (model_fields : Fields)
    (item : option Attrs) : outcome (gmap string PyVal) * option Attrs :=
  let item := normalize_orm_datetimes item in
  (self ← validate_fields item; normalize_datetimes model_fields self, item).
Definition to_schema_list validate_fields (model_fields : Fields) :
    list (option Attrs) → outcome (list (gmap string PyVal)) * list (option Attrs) :=
  fix go items :=
    match items with
    | [] => (Ret [], [])
    | item :: rest =>
        match to_schema validate_fields model_fields item with
        | (Raise e, item') => (Raise e, item' :: rest)
        | (Ret x, item') => let '(xs, rest') := go rest in (y ← xs; Ret (x :: y), item' :: rest')
        end
    end.
