(* ===== verification/DatetimeProofs.v ===== *)
(** The theorems on times: the printed time denotes the instant, serialised values
    hold no datetime, and the fields of a schema hold UTC. *)
From S2P Require Import Prelude PyText PyStr Datetime.
Open Scope Z_scope.

(** ** The calendar *)

(** One cycle of the calendar, day by day: its dates are dates, and count back to
    the day. *)
Definition cycle_ok (n : Z) : bool :=
  let '((y, m, d) as ymd) := cycle_ymd n in
  (ymd2ord ymd =? n + 1) && (1 <=? y) && (y <=? 400) && (1 <=? m) && (m <=? 12) &&
  (1 <=? d) && (d <=? days_in_month (is_leap y) m).
Lemma cycle_all : all_from cycle_ok (Z.to_nat 146097) 0 = true.
Proof. by vm_compute. Qed.

Lemma is_leap_cycle y k : is_leap (y + k * 400) = is_leap y.
Proof.
  unfold is_leap. replace (y + k * 400) with (y + k * 100 * 4) at 1 by lia.
  replace (y + k * 400) with (y + k * 4 * 100) at 1 by lia. by rewrite !Z_mod_plus_full.
Qed.
Lemma ymd2ord_cycle y m d k : ymd2ord (y + k * 400, m, d) = ymd2ord (y, m, d) + k * 146097.
Proof.
  unfold ymd2ord, days_before_year. rewrite is_leap_cycle.
  replace (y + k * 400 - 1) with (y - 1 + k * 100 * 4) at 2 by lia.
  replace (y + k * 400 - 1) with (y - 1 + k * 4 * 100) at 2 by lia.
  replace (y + k * 400 - 1) with (y - 1 + k * 400) by lia.
  rewrite !Z_div_plus_full by lia. lia.
Qed.

Definition valid_date (ymd : Z * Z * Z) : Prop :=
  let '(y, m, d) := ymd in 1 ≤ y ≤ 9999 ∧ 1 ≤ m ≤ 12 ∧ 1 ≤ d ≤ days_in_month (is_leap y) m.

Lemma days_before_year_10000 y : 10000 ≤ y → MAXORDINAL ≤ days_before_year y.
Proof. unfold days_before_year, MAXORDINAL. intros Hy. Z.to_euclidean_division_equations. lia. Qed.

Lemma nth_nonneg n l : forallb (Z.leb 0) l = true → 0 ≤ nth n l 0.
Proof.
  intros Hl. destruct (nth_in_or_default n l 0) as [Hin| ->]; [|done].
  rewrite forallb_forall in Hl. by apply Hl, Z.leb_le in Hin.
Qed.
Lemma days_before_month_nonneg leap m : 0 ≤ days_before_month leap m.
Proof. unfold days_before_month.
  pose proof (nth_nonneg (Z.to_nat (m - 1)) [0; 31; 59; 90; 120; 151; 181; 212; 243; 273; 304; 334] eq_refl). destruct (_ && _); lia. Qed.

Lemma ord2ymd_spec ordinal :
  1 ≤ ordinal ≤ MAXORDINAL → ymd2ord (ord2ymd ordinal) = ordinal ∧ valid_date (ord2ymd ordinal).
Proof.
  intros Ho. unfold ord2ymd. pose proof (Z.mod_pos_bound (ordinal - 1) 146097 ltac:(lia)) as Hr.
  pose proof (all_from_true _ _ _ _ cycle_all (conj (proj1 Hr) (proj2 Hr))) as Hok. unfold cycle_ok in Hok.
  destruct (cycle_ymd _) as [[y m] d] eqn:Hc. rewrite !andb_true_iff, !Z.leb_le, Z.eqb_eq in Hok.
  destruct Hok as ((((((Hord&Hy1)&Hy2)&Hm1)&Hm2)&Hd1)&Hd2).
  assert (ymd2ord (y + (ordinal - 1) / 146097 * 400, m, d) = ordinal) as Hb.
  { rewrite ymd2ord_cycle, Hord. pose proof (Z.div_mod (ordinal - 1) 146097). lia. }
  split; [done|]. unfold valid_date. rewrite is_leap_cycle. split_and!; try lia.
  - pose proof (Z.div_pos (ordinal - 1) 146097). lia.
  - destruct (Z.le_gt_cases (y + (ordinal - 1) / 146097 * 400) 9999) as [|Hgt]; [done|].
    pose proof (days_before_year_10000 (y + (ordinal - 1) / 146097 * 400) ltac:(lia)) as Hbig.
    unfold ymd2ord in Hb. pose proof (days_before_month_nonneg (is_leap (y + (ordinal - 1) / 146097 * 400)) m). lia.
Qed.

(** ** A reader of the printed form *)

(** The time that [YYYY-MM-DDThh:mm:ss.mmmZ] denotes, in milliseconds since
    0001-01-01T00:00Z. *)
Definition parse_time : reader Z :=
  y ← number 4 "-"; m ← number 2 "-"; d ← number 2 "T";
  hh ← number 2 ":"; mm ← number 2 ":"; ss ← number 2 "."; ms ← number 3 "Z";
  mret ((ymd2ord (y, m, d) - 1) * 86400000 + hh * 3600000 + mm * 60000 + ss * 1000 + ms).
Definition parse_utc (s : string) : option Z :=
  match parse_time s with Some (t, "") => Some t | _ => None end.

(** Printing with leading zeros and reading, number by number. *)
Definition zpad_ok (w : nat) (z : Z) : bool := bool_decide (take_num w 0 (zpad w z) = Some (z, "")).
Lemma zpad_all w fuel z : all_from (zpad_ok w) fuel 0 = true → 0 ≤ z < Z.of_nat fuel → undoes (take_num w 0) (zpad w z) z.
Proof.
  intros Ha Hz rest. apply take_num_app. apply (all_from_true _ _ _ _ Ha) in Hz.
  by apply bool_decide_eq_true in Hz.
Qed.
Lemma undoes_zpad2 z : 0 ≤ z < 100 → undoes (take_num 2 0) (zpad 2 z) z.
Proof. apply (zpad_all 2 100). by vm_compute. Qed.
Lemma undoes_zpad3 z : 0 ≤ z < 1000 → undoes (take_num 3 0) (zpad 3 z) z.
Proof. apply (zpad_all 3 1000). by vm_compute. Qed.
Lemma undoes_zpad4 z : 0 ≤ z < 10000 → undoes (take_num 4 0) (zpad 4 z) z.
Proof. intros Hz. apply (zpad_all 4 (Z.to_nat 10000)); [by vm_compute|lia]. Qed.

Lemma days_in_month_31 leap m : days_in_month leap m ≤ 31.
Proof.
  unfold days_in_month. destruct (_ && _); [lia|].
  destruct (nth_in_or_default (Z.to_nat (m - 1)) [31; 28; 31; 30; 31; 30; 31; 31; 30; 31; 30; 31] 0) as [Hin| ->]; [|lia].
  generalize dependent (nth (Z.to_nat (m - 1)) [31; 28; 31; 30; 31; 30; 31; 31; 30; 31; 30; 31] 0). simpl. lia.
Qed.

(** The whole text: date, [T], time of day, [Z]. *)
Lemma parse_printed y m d us :
  valid_date (y, m, d) → 0 ≤ us < DAY →
  undoes parse_time (date_str (y, m, d) +:+ "T" +:+ time_str us +:+ "Z")
    ((ymd2ord (y, m, d) - 1) * 86400000 + us / 1000).
Proof.
  intros (Hy&Hm&Hd) Hus. pose proof (days_in_month_31 (is_leap y) m). unfold DAY in Hus.
  assert (us / 1000 = us / 3600000000 * 3600000 + us / 60000000 mod 60 * 60000 + us / 1000000 mod 60 * 1000 +
    us / 1000 mod 1000) as Hsplit by (Z.to_euclidean_division_equations; lia).
  assert (date_str (y, m, d) +:+ "T" +:+ time_str us +:+ "Z" =
    (zpad 4 y +:+ "-") +:+ (zpad 2 m +:+ "-") +:+ (zpad 2 d +:+ "T") +:+ (zpad 2 (us / 3600000000) +:+ ":") +:+
    (zpad 2 (us / 60000000 mod 60) +:+ ":") +:+ (zpad 2 (us / 1000000 mod 60) +:+ ".") +:+
    (zpad 3 (us / 1000 mod 1000) +:+ "Z") +:+ "") as ->
    by (unfold date_str, time_str; by rewrite !str_app_assoc).
  unfold parse_time. repeat (eapply undoes_bind; [eapply undoes_number; (apply undoes_zpad2 || apply undoes_zpad3 || apply undoes_zpad4)|]).
  all: try (Z.to_euclidean_division_equations; lia).
  apply undoes_ret. clear - Hsplit. lia.
Qed.

(** ** The printed time denotes the instant *)

(** The instant of a datetime: its wall-clock time less the offset; a naive one
    counts as UTC. *)
Definition instant (d : DateTime) : Z := wall d - default 0 (utcoffset d).

(** Characters that a replacement does not look at. *)
Fixpoint has_plus (s : string) : bool :=
  match s with "" => false | String c r => Ascii.eqb c "+" || has_plus r end.
Lemma replace_plus old new s t :
  has_plus s = false → replace_go (String "+" old) new 0 (s +:+ t) = s +:+ replace_go (String "+" old) new 0 t.
Proof.
  induction s as [|c s IH]; [done|]. cbn [has_plus]. intros [Hc Hs]%orb_false_iff. rewrite !str_app_cons.
  cbn [replace_go String.prefix]. destruct (Ascii.ascii_dec _ _) as [<-|_]; [by rewrite Ascii.eqb_refl in Hc|].
  by rewrite IH.
Qed.
Lemma has_plus_app s t : has_plus (s +:+ t) = has_plus s || has_plus t.
Proof. induction s as [|c s IH]; [done|]. rewrite str_app_cons. cbn [has_plus]. by rewrite IH, orb_assoc. Qed.

Lemma digits_no_plus w acc s z : take_num w acc s = Some (z, "") → has_plus s = false.
Proof.
  revert acc s. induction w as [|w IH]; intros acc [|c s]; simpl; try done.
  destruct (is_digit c) eqn:Hc; [|done]. intros Hs. rewrite (IH _ _ Hs), orb_false_r.
  destruct (Ascii.eqb_spec c "+") as [->|]; [by vm_compute in Hc|done].
Qed.
Lemma undoes_no_plus w s z : undoes (take_num w 0) s z → has_plus s = false.
Proof. intros Hs. apply (digits_no_plus w 0 s z). by rewrite <- (Hs ""), str_app_nil. Qed.

Lemma printed_no_plus y m d us :
  valid_date (y, m, d) → 0 ≤ us < DAY → has_plus (date_str (y, m, d) +:+ "T" +:+ time_str us) = false.
Proof.
  intros (Hy&Hm&Hd) Hus. pose proof (days_in_month_31 (is_leap y) m). unfold DAY in Hus.
  unfold date_str, time_str. rewrite !has_plus_app. cbn [has_plus]. rewrite !orb_false_iff.
  split_and!; first [done | eapply undoes_no_plus, undoes_zpad2 | eapply undoes_no_plus, undoes_zpad3 | eapply undoes_no_plus, undoes_zpad4].
  all: Z.to_euclidean_division_equations; lia.
Qed.

Lemma in_range_day us :
  in_range us = true → 1 ≤ us / DAY + 1 ≤ MAXORDINAL ∧ 0 ≤ us mod DAY < DAY.
Proof.
  unfold in_range. rewrite andb_true_iff, Z.leb_le, Z.ltb_lt. unfold DAY. intros Hr.
  pose proof (Z.mod_pos_bound us 86400000000 ltac:(lia)). split; [|done].
  pose proof (Z.div_pos us 86400000000 ltac:(lia) ltac:(lia)).
  pose proof (Z.div_lt_upper_bound us 86400000000 MAXORDINAL ltac:(lia) ltac:(lia)). lia.
Qed.

(** [isoformat] of a UTC time, after the replacement. *)
Lemma format_text us :
  in_range us = true →
  str_replace "+00:00" "Z" (isoformat_ms (mkDateTime us (Some UTC))) =
    date_str (ord2ymd (us / DAY + 1)) +:+ "T" +:+ time_str (us mod DAY) +:+ "Z".
Proof.
  intros [Ho Hd]%in_range_day. destruct (ord2ymd_spec _ Ho) as [_ Hv]. unfold isoformat_ms. cbn [wall].
  change (utcoffset _) with (Some 0). cbv match. change (offset_str 0) with "+00:00".
  destruct (ord2ymd _) as [[y m] d]. pose proof (printed_no_plus _ _ _ _ Hv Hd) as Hp.
  unfold str_replace. rewrite <- !str_app_assoc. rewrite <- !str_app_assoc in Hp.
  by rewrite (replace_plus "00:00" "Z" _ _ Hp).
Qed.

Lemma parse_format us :
  in_range us = true →
  parse_utc (str_replace "+00:00" "Z" (isoformat_ms (mkDateTime us (Some UTC)))) = Some (us / 1000).
Proof.
  intros Hr. rewrite format_text by done. apply in_range_day in Hr as [Ho Hd].
  destruct (ord2ymd_spec _ Ho) as [Hb Hv]. destruct (ord2ymd _) as [[y m] d].
  unfold parse_utc. rewrite <- (str_app_nil (_ +:+ _ +:+ _)), (parse_printed _ _ _ _ Hv Hd). f_equal.
  rewrite Hb. unfold DAY. Z.to_euclidean_division_equations. lia.
Qed.

Lemma format_utc_iso8601_text d :
  in_range (wall d) = true →
  (in_range (instant d) = true →
     ∃ s, format_utc_iso8601 d = Ret s ∧ parse_utc s = Some (instant d / 1000)) ∧
  (in_range (instant d) = false →
     format_utc_iso8601 d = Raise (OtherError "OverflowError" "date value out of range")).
Proof.
  unfold format_utc_iso8601, instant, astimezone_utc, as_utc. intros Hw.
  destruct (utcoffset d) as [off|]; cbn [default from_option id]; [|rewrite Z.sub_0_r].
  - split; intros Hr; rewrite Hr; [|done]. unfold mbind, outcome_bind. eexists. split; [done|]. by apply parse_format.
  - rewrite Hw. split; [|done]. intros _. unfold mbind, outcome_bind. eexists. split; [done|]. by apply parse_format.
Qed.

(** The text [format_utc_iso8601] gives denotes the instant of the datetime, cut
    to milliseconds, whatever its zone: reading the fields of the text back and
    counting the days of the calendar gives that instant. An instant outside of the
    years 1 to 9999 is the only error. *)
Theorem format_utc_roundtrip d :
  in_range (wall d) = true →
  (in_range (instant d) = true →
     ∃ s, format_utc_iso8601 d = Ret s ∧ parse_utc s = Some (instant d / 1000)) ∧
  (in_range (instant d) = false →
     format_utc_iso8601 d = Raise (OtherError "OverflowError" "date value out of range")).
Proof. exact (format_utc_iso8601_text d). Qed.

(** Two o'clock and a bit in Berlin on a leap day; the last hour of the year 9999. *)
Lemma format_utc_roundtrip_witness :
  let d := mkDateTime ((ymd2ord (2024, 2, 29) - 1) * DAY + 7200789999) (Some (mkTz (Some 3600000000))) in
  in_range (wall d) = true ∧
  (in_range (instant d) = true → ∃ s, format_utc_iso8601 d = Ret s ∧ parse_utc s = Some (instant d / 1000)).
Proof.
  intros d. assert (in_range (wall d) = true) as Hw by (vm_compute; reflexivity).
  split; [exact Hw|]. exact (proj1 (format_utc_roundtrip d Hw)).
Defined.
Example format_leap_day :
  format_utc_iso8601 (mkDateTime ((ymd2ord (2024, 2, 29) - 1) * DAY + 7200789999) (Some (mkTz (Some 3600000000))))
  = Ret "2024-02-29T01:00:00.789Z".
Proof. by vm_compute. Qed.

(** ** Serialised values hold no datetime *)

(** Is there a datetime among the items of a value, the keys of dicts apart? *)
Fixpoint holds_datetime (value : PyVal) : bool :=
  match value with
  | VDatetime _ => true
  | VDict items => existsb (λ '(_, item), holds_datetime item) items
  | VList items | VTuple items | VSet items => existsb holds_datetime items
  | _ => false
  end.

(** Induction on values, with the items of a collection. *)
Section PyVal_ind.
Context (P : PyVal → Prop) (Hnone : P VNone) (Hstr : ∀ s, P (VStr s)) (Hdt : ∀ d, P (VDatetime d)) (Hother : ∀ r, P (VOther r))
  (Hdict : ∀ items, Forall (λ kv, P kv.2) items → P (VDict items)) (Hlist : ∀ items, Forall P items → P (VList items))
  (Htuple : ∀ items, Forall P items → P (VTuple items)) (Hset : ∀ items, Forall P items → P (VSet items)).
Fixpoint PyVal_items (v : PyVal) : P v :=
  let all := fix all (l : list PyVal) : Forall P l :=
    match l with [] => Forall_nil_2 _ | x :: l' => Forall_cons_2 _ _ _ (PyVal_items x) (all l') end in
  match v with
  | VNone => Hnone | VStr s => Hstr s | VDatetime d => Hdt d | VOther r => Hother r
  | VDict items => Hdict items ((fix all_kv (l : list (PyVal * PyVal)) : Forall (λ kv, P kv.2) l :=
      match l with [] => Forall_nil_2 _ | x :: l' => Forall_cons_2 _ _ _ (PyVal_items x.2) (all_kv l') end) items)
  | VList items => Hlist items (all items) | VTuple items => Htuple items (all items) | VSet items => Hset items (all items)
  end.
End PyVal_ind.

Lemma comprehension_Forall2 {A B} (f : A → outcome B) l ys :
  comprehension f l = Ret ys ↔ Forall2 (λ x y, f x = Ret y) l ys.
Proof.
  revert ys. induction l as [|x l IH]; intros ys.
  - split; [intros [= <-]; constructor|]. by inversion 1.
  - split.
    + simpl. destruct (f x) as [y|e] eqn:Hx; [|done]. simpl. fold (comprehension f).
      destruct (comprehension f l) as [ys'|e] eqn:Hl; [|done]. intros [= <-]. constructor; [done|]. by apply IH.
    + inversion 1 as [|? y ? ys' Hx Hl]; subst. simpl. rewrite Hx. simpl. apply IH in Hl. by rewrite Hl.
Qed.

Lemma comprehension_total {A B} (f : A → outcome B) l :
  Forall (λ x, ∃ y, f x = Ret y) l → ∃ ys, comprehension f l = Ret ys.
Proof.
  intros (ys & Hys)%Forall_exists_Forall2_l. exists ys. by apply comprehension_Forall2.
Qed.

(** Every datetime among the items is in the years 1 to 9999, read as UTC. *)
Definition representable (d : DateTime) : bool := in_range (wall d) && in_range (instant d).
Fixpoint all_representable (value : PyVal) : bool :=
  match value with
  | VDatetime d => representable d
  | VDict items => forallb (λ '(_, item), all_representable item) items
  | VList items | VTuple items | VSet items => forallb all_representable items
  | _ => true
  end.

(** A value that serialising leaves alone. *)
Definition clean (v : PyVal) : Prop := holds_datetime v = false ∧ serialize_datetime_value v = Ret v.

Lemma clean_items items :
  Forall clean items → existsb holds_datetime items = false ∧ comprehension serialize_datetime_value items = Ret items.
Proof.
  intros Hc. split.
  - induction Hc as [|v l [Hv _] _ IH]; [done|]. simpl. by rewrite Hv, IH.
  - apply comprehension_Forall2. apply Forall_Forall2_diag. eapply Forall_impl; [exact Hc|]. by intros v [_ Hv].
Qed.
Lemma clean_list items : Forall clean items → clean (VList items) ∧ clean (VTuple items).
Proof. intros [Hh Hc]%clean_items. split; split; simpl; (done || by rewrite Hc). Qed.
Lemma clean_dict items : Forall (λ kv, clean kv.2) items → clean (VDict items).
Proof.
  intros Hc. split; simpl.
  - induction Hc as [|[k v] l [Hv _] _ IH]; [done|]. simpl in *. by rewrite Hv, IH.
  - assert (comprehension (λ '(key, item), v ← serialize_datetime_value item; Ret (key, v)) items = Ret items) as ->; [|done].
    apply comprehension_Forall2, Forall_Forall2_diag. eapply Forall_impl; [exact Hc|].
    intros [k v] [_ Hv]. simpl in *. by rewrite Hv.
Qed.

Definition serializes (v : PyVal) : Prop :=
  (∀ v', serialize_datetime_value v = Ret v' → clean v') ∧
  (all_representable v = true → ∃ v', serialize_datetime_value v = Ret v').

Lemma serializes_items items :
  Forall serializes items →
  (∀ items', comprehension serialize_datetime_value items = Ret items' → Forall clean items') ∧
  (forallb all_representable items = true → ∃ items', comprehension serialize_datetime_value items = Ret items').
Proof.
  intros Hs. split.
  - intros items' Hc%comprehension_Forall2. induction Hc as [|x y l l' Hx Hl IH]; [constructor|].
    apply Forall_cons in Hs as [[Hx' _] Hs]. constructor; [by apply Hx'|by apply IH].
  - intros Hr. apply comprehension_total.
    rewrite forallb_forall in Hr. apply Forall_forall. intros x Hx. rewrite Forall_forall in Hs.
    by apply (Hs x Hx), Hr, list_elem_of_In.
Qed.

Lemma format_representable d : representable d = true → ∃ s, format_utc_iso8601 d = Ret s.
Proof.
  unfold representable, format_utc_iso8601, instant, astimezone_utc. rewrite andb_true_iff. intros [Hw Hi].
  destruct (utcoffset d) as [off|]; simpl in *; [rewrite Hi|]; by eexists.
Qed.

Lemma serializes_dict items : Forall (λ kv, serializes kv.2) items → serializes (VDict items).
Proof.
  intros IH. split; simpl.
  - intros v'. destruct (comprehension _ items) as [items'|e] eqn:Hc; [|done]. intros [= <-]. apply clean_dict.
    apply comprehension_Forall2 in Hc. induction Hc as [|[k x] y l l' Hx Hl IHl]; [constructor|].
    apply Forall_cons in IH as [[H1 _] IH]. constructor; [|by apply IHl]. simpl in *.
    destruct (serialize_datetime_value x) eqn:He; [|done]. injection Hx as <-. by apply H1.
  - intros Hr. destruct (comprehension_total (λ '(key, item), v ← serialize_datetime_value item; Ret (key, v)) items)
      as [items' ->]; [|by eexists].
    rewrite forallb_forall in Hr. apply Forall_forall. intros [k x] Hx. rewrite Forall_forall in IH.
    destruct (proj2 (IH _ Hx)) as [y Hy]; [by apply (Hr (k, x)), list_elem_of_In|]. simpl in *. rewrite Hy. by eexists.
Qed.

Lemma serializes_all v : serializes v.
Proof.
  induction v as [|s|d|r|items IH|items IH|items IH|items IH] using PyVal_items.
  1,2,4: by split; [intros ? [= <-]|by eexists].
  - split; simpl.
    + destruct (format_utc_iso8601 d) eqn:Hf; [|done]. by intros ? [= <-].
    + intros [s ->]%format_representable. by eexists.
  - by apply serializes_dict.
  - destruct (serializes_items _ IH) as [H1 H2]. split; simpl; [|by intros [l ->]%H2; eexists].
    destruct (comprehension _ items) as [l|e]; [|done]. intros v' [= <-]. by apply clean_list, H1.
  - destruct (serializes_items _ IH) as [H1 H2]. split; simpl; [|by intros [l ->]%H2; eexists].
    destruct (comprehension _ items) as [l|e]; [|done]. intros v' [= <-]. by apply clean_list, H1.
  - destruct (serializes_items _ IH) as [H1 H2]. split; simpl; [|by intros [l ->]%H2; eexists].
    destruct (comprehension _ items) as [l|e]; [|done]. intros v' [= <-]. by apply clean_list, H1.
Qed.

(** Serialising a response gives a value without datetimes, which serialising again
    leaves alone, and succeeds when every datetime is in the years 1 to 9999. *)
Theorem serialize_clean v :
  (∀ v', serialize_datetime_value v = Ret v' → holds_datetime v' = false ∧ serialize_datetime_value v' = Ret v') ∧
  (all_representable v = true → ∃ v', serialize_datetime_value v = Ret v').
Proof. exact (serializes_all v). Qed.

(** ** The fields of a schema hold UTC *)
Definition utc_datetime (us : Z) : PyVal := VDatetime (mkDateTime us (Some UTC)).

(** What becomes of the value of a field: a datetime field holds the same instant
    in UTC, another field what it held. *)
Definition normalized_value (annotation : Annotation) (v v' : option PyVal) : Prop :=
  if is_datetime_annotation annotation then
    match v with
    | None | Some VNone => v' = v
    | Some (VDatetime d) => is_Some (utcoffset d) ∧ in_range (instant d) = true ∧ v' = Some (utc_datetime (instant d))
    | Some _ => False
    end
  else v' = v.
(** What the validator accepts. *)
Definition acceptable (annotation : Annotation) (v : option PyVal) : bool :=
  if is_datetime_annotation annotation then
    match v with
    | None | Some VNone => true
    | Some (VDatetime d) => bool_decide (is_Some (utcoffset d)) && in_range (instant d)
    | Some _ => false
    end
  else true.

Lemma ensure_utc_spec d :
  ensure_utc_datetime d =
    match utcoffset d with
    | None => Raise (ValueError "datetime values must include timezone information")
    | Some _ => if in_range (instant d) then Ret (mkDateTime (instant d) (Some UTC))
                else Raise (OtherError "OverflowError" "date value out of range")
    end.
Proof. unfold ensure_utc_datetime, instant, astimezone_utc. by destruct (utcoffset d). Qed.

Lemma normalize_field_spec self k ann :
  if acceptable ann (self !! k) then
    ∃ self', normalize_field self (k, ann) = Ret self' ∧ normalized_value ann (self !! k) (self' !! k) ∧
             ∀ k', k' ≠ k → self' !! k' = self !! k'
  else ∃ e, normalize_field self (k, ann) = Raise e.
Proof.
  unfold normalize_field, acceptable, normalized_value. destruct (is_datetime_annotation ann); simpl; [|by eexists].
  destruct (self !! k) as [[]|] eqn:Hk; try by (eexists; rewrite ?Hk).
  unfold ensure_utc_value. rewrite ensure_utc_spec. destruct (utcoffset d) as [off|] eqn:Ho.
  - rewrite bool_decide_eq_true_2 by by eexists. destruct (in_range (instant d)) eqn:Hi; simpl; [|by eexists].
    eexists. split; [done|]. rewrite lookup_insert_eq. split; [by eauto|]. intros k' Hne. by rewrite lookup_insert_ne.
  - rewrite bool_decide_eq_false_2 by (by intros [? ?]). simpl. by eexists.
Qed.

Lemma normalize_datetimes_spec fields self :
  NoDup fields.*1 →
  if forallb (λ '(k, ann), acceptable ann (self !! k)) fields then
    ∃ self', normalize_datetimes fields self = Ret self' ∧
      (∀ k ann, (k, ann) ∈ fields → normalized_value ann (self !! k) (self' !! k)) ∧
      (∀ k, k ∉ fields.*1 → self' !! k = self !! k)
  else ∃ e, normalize_datetimes fields self = Raise e.
Proof.
  revert self. induction fields as [|[k ann] fields IH]; intros self; rewrite ?fmap_cons;
    cbn [normalize_datetimes forallb fst].
  { intros _. eexists. split; [done|]. split; [|done]. by intros k ann Hin%elem_of_nil. }
  intros [Hk Hnd]%NoDup_cons. pose proof (normalize_field_spec self k ann) as Hf.
  destruct (acceptable ann (self !! k)); cbn [andb]; [|destruct Hf as [e ->]; by eexists].
  destruct Hf as (self1&Hf&Hv&Hother). rewrite Hf.
  assert (forallb (λ '(k, ann), acceptable ann (self1 !! k)) fields =
          forallb (λ '(k, ann), acceptable ann (self !! k)) fields) as Heq.
  { clear -Hk Hother. induction fields as [|[k' a'] l IHl]; [done|]. simpl. apply not_elem_of_cons in Hk as [Hne Hk].
    simpl in Hne. rewrite Hother, IHl by done. done. }
  specialize (IH self1 Hnd). rewrite Heq in IH. unfold mbind, outcome_bind.
  destruct (forallb _ fields); [|done].
  destruct IH as (self'&Hr&Hin&Hout). exists self'. split_and!; [done| |].
  - intros k' ann' [Heq'|Hin']%elem_of_cons.
    + injection Heq' as -> ->. by rewrite Hout.
    + rewrite <-(Hother k'); [by apply Hin|]. intros ->. apply Hk. apply list_elem_of_fmap. by exists (k, ann').
  - intros k' [Hne Hk']%not_elem_of_cons. by rewrite Hout, Hother.
Qed.

(** An attribute of an object. *)
Definition attr (attrs : Attrs) (name : string) : option PyVal := (list_to_map attrs : gmap string PyVal) !! name.
Lemma attr_normalized attrs name :
  attr (map (λ '(field_name, value), (field_name, normalize_orm_value value)) attrs) name =
    normalize_orm_value <$> attr attrs name.
Proof.
  unfold attr. induction attrs as [|[k v] attrs IH]; simpl; [by rewrite !lookup_empty|].
  destruct (decide (k = name)) as [->|Hne]; [by rewrite !lookup_insert_eq|]. by rewrite !lookup_insert_ne.
Qed.

(** A datetime that the normalisation of the object left: it has an offset, and is
    the same instant. *)
Lemma normalize_orm_instant d :
  ∃ d', normalize_orm_value (VDatetime d) = VDatetime d' ∧ is_Some (utcoffset d') ∧ instant d' = instant d.
Proof.
  simpl. unfold instant. destruct (utcoffset d) as [off|] eqn:Ho.
  - exists d. rewrite Ho. split_and!; [done|by eexists|done].
  - eexists. split_and!; [done|by eexists|done].
Qed.

Section schema.
Context (validate_fields : option Attrs → outcome (gmap string PyVal)) (model_fields : Fields).
(** pydantic, reading attributes ([from_attributes=True]): a field annotated with
    [datetime], alone or in a union, takes a datetime, or [None], as it is. *)
Definition copies_datetimes : Prop :=
  ∀ attrs self name ann v, validate_fields (Some attrs) = Ret self → (name, ann) ∈ model_fields →
    is_datetime_annotation ann = true → attr attrs name = Some v →
    (v = VNone ∨ ∃ d, v = VDatetime d) → self !! name = Some v.
(** The object's own values for these fields. *)
Definition datetime_attrs (attrs : Attrs) : Prop :=
  ∀ name ann, (name, ann) ∈ model_fields → is_datetime_annotation ann = true →
    attr attrs name = Some VNone ∨ ∃ d, attr attrs name = Some (VDatetime d) ∧ in_range (instant d) = true.

(** An object whose datetimes the database driver left naive becomes a schema: no
    datetime is refused for its zone, and every datetime field holds the object's
    instant in UTC, a naive one read as UTC. *)
Theorem to_schema_utc attrs self0 :
  NoDup model_fields.*1 → copies_datetimes → datetime_attrs attrs →
  validate_fields (normalize_orm_datetimes (Some attrs)) = Ret self0 →
  ∃ self, to_schema validate_fields model_fields (Some attrs) = (Ret self, normalize_orm_datetimes (Some attrs)) ∧
    ∀ name ann d, (name, ann) ∈ model_fields → is_datetime_annotation ann = true →
      attr attrs name = Some (VDatetime d) → self !! name = Some (utc_datetime (instant d)).
Proof.
  intros Hnd Hcopy Hattrs Hv.
  assert (∀ name ann v, (name, ann) ∈ model_fields → is_datetime_annotation ann = true →
    attr attrs name = Some v → (v = VNone ∨ ∃ d, v = VDatetime d) → self0 !! name = Some (normalize_orm_value v)) as Hf.
  { intros name ann v Hin Ha Hat Hd. eapply Hcopy; [exact Hv|done|done|by rewrite attr_normalized, Hat|].
    destruct Hd as [->|[d ->]]; [by left|]. destruct (normalize_orm_instant d) as (d'&->&_). right. by eexists. }
  pose proof (normalize_datetimes_spec model_fields self0 Hnd) as Hn.
  assert (forallb (λ '(k, ann), acceptable ann (self0 !! k)) model_fields = true) as Hacc.
  { apply forallb_forall. intros [k ann] Hin%list_elem_of_In. unfold acceptable.
    destruct (is_datetime_annotation ann) eqn:Ha; [|done]. destruct (Hattrs _ _ Hin Ha) as [Hat|(d&Hat&Hr)].
    - by rewrite (Hf _ _ _ Hin Ha Hat (or_introl eq_refl)).
    - rewrite (Hf _ _ _ Hin Ha Hat) by (right; by eexists). destruct (normalize_orm_instant d) as (d'&->&Ho&Hi).
      by rewrite bool_decide_eq_true_2, Hi. }
  rewrite Hacc in Hn. destruct Hn as (self&Hr&Hin&_). exists self. split.
  - unfold to_schema. rewrite Hv. unfold mbind, outcome_bind. by rewrite Hr.
  - intros name ann d Hi Ha Hat. specialize (Hin _ _ Hi). unfold normalized_value in Hin. rewrite Ha in Hin.
    rewrite (Hf _ _ _ Hi Ha Hat) in Hin by (right; by eexists).
    destruct (normalize_orm_instant d) as (d'&Hd&_&Hi'). rewrite Hd, Hi' in Hin. apply Hin.
Qed.
End schema.

(** An ORM row with a naive creation time and one in Shanghai, read by a validation
    that copies attributes. *)
Lemma to_schema_utc_witness :
  let validate := λ it : option Attrs, match it with Some attrs => Ret (list_to_map attrs) | None => Ret ∅ end in
  let fields := [("id", AnnOther "str"); ("created_at", AnnDatetime);
                 ("ended_at", AnnGeneric "Union" [AnnDatetime; AnnOther "NoneType"])] in
  let attrs := [("id", VStr "7"); ("created_at", VDatetime (mkDateTime (738000 * DAY) None));
                ("ended_at", VDatetime (mkDateTime (738000 * DAY) (Some (mkTz (Some 28800000000)))))] in
  ∃ self, to_schema validate fields (Some attrs) = (Ret self, normalize_orm_datetimes (Some attrs)) ∧
    ∀ name ann d, (name, ann) ∈ fields → is_datetime_annotation ann = true →
      attr attrs name = Some (VDatetime d) → self !! name = Some (utc_datetime (instant d)).
Proof.
  intros validate fields attrs. assert (NoDup fields.*1) as Hnd by (apply (bool_decide_unpack _); vm_compute; exact Logic.I).
  assert (copies_datetimes validate fields) as Hc.
  { intros a self name ann v Hv _ _ Ha _. injection Hv as <-. exact Ha. }
  assert (datetime_attrs fields attrs) as Ha.
  { intros name ann Hin Hd. apply list_elem_of_In in Hin. simpl in Hin.
    destruct Hin as [[= <- <-]|[[= <- <-]|[[= <- <-]|[]]]]; [done|right; eexists; split; [reflexivity|reflexivity]..]. }
  exact (to_schema_utc validate fields attrs _ Hnd Hc Ha eq_refl).
Defined.

(** A field that is a list of datetimes counts as a datetime field, and no list can
    be one: the validator fails with an [AttributeError]. *)
Lemma datetime_list_refused name items self :
  self !! name = Some (VList items) →
  normalize_datetimes [(name, AnnGeneric "list" [AnnDatetime])] self =
    Raise (AttributeError "object has no attribute 'tzinfo'").
Proof. intros Hs. simpl. unfold normalize_field. simpl. by rewrite Hs. Qed.
