(* ===== verification/ConfigThread.v ===== *)
(** The configuration listener of a worker process, on a thread and an event loop
    of its own: the second half of [src/app/platform/config/sync.py]. The threads
    run beside their caller, one await at a time; the listener they run is the one
    of ConfigSync. *)
From S2P Require Import Prelude PyText PyStr Encoding ConfigValues ConfigSync.
Open Scope Z_scope.

Section thread.
Context {R : Type} `{ReaderApi R, PyValues}.
Context (_instance_id now : string).

(** ** State *)

(** Where a thread stands: started; with its loop in the module's variable; with
    its task too, which has not run yet; awaiting [redis.ping()]; in [_listen];
    awaiting [redis.aclose()] to end with an exception; ended - the loop closed -
    with the exception [run_until_complete] raised. *)
Inductive Stage :=
| Starting
| LoopSet
| Created
| Pinging
| Listening (pc : Pc)
| ClosingRedis (e : exn)
| Dead (e : exn).

(** A thread, and whether its task has been asked to cancel. *)
Record Thread := mkThread { th_stage : Stage; th_cancel : bool }.

(** The module's variables, all the threads ever started, and the variables that
    [_listen] shares with its caller. *)
Record Threads := mkThreads {
  _listener_thread : option nat;
  _listener_thread_loop : option nat;
  _listener_thread_task : option nat;
  ts_threads : list Thread;
  ts_sync : Sync (R:=R) }.
Definition threads_init (s : Sync) : Threads := mkThreads None None None [] s.

Definition is_alive (i : nat) (w : Threads) : bool :=
  match ts_threads w !! i with
  | Some t => match th_stage t with Dead _ => false | _ => true end
  | None => false
  end.
Definition put_thread (i : nat) (t : Thread) (w : Threads) : Threads :=
  mkThreads (_listener_thread w) (_listener_thread_loop w) (_listener_thread_task w) (<[i := t]> (ts_threads w)) (ts_sync w).
Definition put_sync (s : Sync) (w : Threads) : Threads :=
  mkThreads (_listener_thread w) (_listener_thread_loop w) (_listener_thread_task w) (ts_threads w) s.

(** ** The caller *)
Definition start_config_sync_listener_thread (w : Threads) : Threads :=
  let fresh := mkThreads (Some (length (ts_threads w))) (_listener_thread_loop w) (_listener_thread_task w)
                 (ts_threads w ++ [mkThread Starting false]) (ts_sync w) in
  match _listener_thread w with
  | Some i => if is_alive i w then w else fresh
  | None => fresh
  end.

(** [stop_config_sync_listener_thread] up to the [join]: [call_soon_threadsafe] on
    the loop of a thread that ended - it closed the loop - raises. *)
Definition stop_request (w : Threads) : outcome () * Threads :=
  match _listener_thread_loop w, _listener_thread_task w with
  | Some l, Some i =>
      if is_alive l w then
        (Ret (), match ts_threads w !! i with
                 | Some t => put_thread i (mkThread (th_stage t) true) w
                 | None => w
                 end)
      else (Raise (RuntimeError "Event loop is closed"), w)
  | _, _ => (Ret (), w)
  end.
(** After the [join], whether the thread has ended or the timeout has passed. *)
Definition stop_finish (w : Threads) : Threads := mkThreads None None None (ts_threads w) (ts_sync w).

(** [get_config_sync_state().running] of the thread. *)
Definition thread_running (w : Threads) : bool :=
  match _listener_thread w with Some i => is_alive i w | None => false end.

(** ** A thread *)

(** [_run_listener_thread] up to [run_until_complete]: two assignments. *)
Definition thread_boot (i : nat) (w : Threads) : option Threads :=
  match ts_threads w !! i with
  | Some (mkThread Starting c) =>
      Some (mkThreads (_listener_thread w) (Some i) (_listener_thread_task w) (<[i := mkThread LoopSet c]> (ts_threads w)) (ts_sync w))
  | Some (mkThread LoopSet c) =>
      Some (mkThreads (_listener_thread w) (_listener_thread_loop w) (Some i) (<[i := mkThread Created c]> (ts_threads w)) (ts_sync w))
  | _ => None
  end.

(** [_listen] that has ended ends the [try] of [_listen_with_dedicated_redis]. *)
Definition listening (ps : Pc * Sync (R:=R)) : Stage * Sync (R:=R) :=
  match ps.1 with Ended e => (ClosingRedis e, ps.2) | pc => (Listening pc, ps.2) end.

(** The task's coroutine, [_listen_with_dedicated_redis], for an answer to the
    await it stands at; a task cancelled before it ran does not run. *)
Definition coroutine_step (answer : outcome (option Message)) (ss : Stage * Sync (R:=R)) : Stage * Sync (R:=R) :=
  let '(stage, s) := ss in
  match stage with
  | Created => match answer with Raise e => (Dead e, s) | Ret _ => (Pinging, s) end
  | Pinging => match answer with Raise e => (ClosingRedis e, s) | Ret _ => listening (listen_start s) end
  | Listening pc => listening (listen_step _instance_id now answer (pc, s))
  | ClosingRedis e => match answer with Raise e' => (Dead e', s) | Ret _ => (Dead e, s) end
  | _ => ss
  end.

(** Does the task run in this stage? *)
Definition runs (stage : Stage) : bool :=
  match stage with Starting | LoopSet | Dead _ => false | _ => true end.
(** One step of a thread's task; a cancellation that was asked for is raised at the
    await it stands at, instead of the answer. *)
Definition thread_step (i : nat) (answer : outcome (option Message)) (w : Threads) : option Threads :=
  match ts_threads w !! i with
  | Some t =>
      if runs (th_stage t) then
        let answer := if th_cancel t then Raise cancelled else answer in
        let '(stage, s) := coroutine_step answer (th_stage t, ts_sync w) in
        Some (put_sync s (put_thread i (mkThread stage false) w))
      else None
  | None => None
  end.

(** Callers and threads interleave. *)
Inductive thread_event := EvStart | EvStopRequest | EvStopFinish | EvBoot (i : nat) | EvStep (i : nat) (answer : outcome (option Message)).
Definition happen (w : Threads) (ev : thread_event) : Threads :=
  match ev with
  | EvStart => start_config_sync_listener_thread w
  | EvStopRequest => (stop_request w).2
  | EvStopFinish => stop_finish w
  | EvBoot i => default w (thread_boot i w)
  | EvStep i a => default w (thread_step i a w)
  end.
Definition history (w : Threads) (evs : list thread_event) : Threads := foldl happen w evs.

(** ** Stopping a thread that runs *)
Definition alive_stage (stage : Stage) : bool := match stage with Dead _ => false | _ => true end.

(** The stages of a task after its cancellation: each step goes down. *)
Definition steps_left (stage : Stage) : nat :=
  match stage with
  | Dead _ => 0 | ClosingRedis _ => 1 | Listening (Closing (Some _)) => 2 | Listening (Ended _) => 2 | _ => 3
  end.
Lemma cancelled_left stage s :
  runs stage = true → (steps_left (coroutine_step (Raise cancelled) (stage, s)).1 ≤ 2)%nat.
Proof.
  destruct stage as [| | | |pc|e|e]; try done; simpl; intros _; try lia.
  destruct pc as [| | |[p|]|e]; simpl; lia.
Qed.
Lemma coroutine_left answer stage s :
  (steps_left stage ≤ 2)%nat → (steps_left (coroutine_step answer (stage, s)).1 ≤ pred (steps_left stage))%nat.
Proof.
  destruct stage as [| | | |pc|e|e]; simpl; try lia.
  - destruct pc as [| | |[p|]|e]; simpl; try lia. intros _.
    unfold listening, closed. destruct answer as [m|e]; cbn [mbind outcome_bind]; simpl; [lia|].
    destruct (is_exception e); simpl; lia.
  - destruct answer; simpl; lia.
Qed.

Lemma thread_step_spec i answer w t :
  ts_threads w !! i = Some t → runs (th_stage t) = true →
  let r := coroutine_step (if th_cancel t then Raise cancelled else answer) (th_stage t, ts_sync w) in
  ts_threads (happen w (EvStep i answer)) !! i = Some (mkThread r.1 false).
Proof.
  intros Hi Hr. cbn [happen]. unfold thread_step. rewrite Hi, Hr.
  destruct (coroutine_step _ _) as [stage s]. cbn. apply list_lookup_insert_eq. by eapply lookup_lt_Some.
Qed.

(** A step of a thread that is on its way down. *)
Lemma thread_step_left i answer w t n :
  ts_threads w !! i = Some t → th_cancel t = false → (steps_left (th_stage t) ≤ n)%nat → (n ≤ 2)%nat →
  ∃ t', ts_threads (happen w (EvStep i answer)) !! i = Some t' ∧ th_cancel t' = false ∧
    (steps_left (th_stage t') ≤ pred n)%nat.
Proof.
  intros Hi Hc Hn H2. destruct (runs (th_stage t)) eqn:Hr.
  - eexists. split; [by apply thread_step_spec|]. split; [done|]. rewrite Hc. cbn [th_stage].
    etrans; [apply coroutine_left|]; lia.
  - simpl. unfold thread_step. rewrite Hi, Hr. exists t. split_and!; [done|done|]. destruct (th_stage t); simpl in *; try done; lia.
Qed.

(** C38. A thread that runs is stopped: once its loop and its task are in the module's
    variables, the request is accepted, and three steps of the thread later it has
    ended, whatever its awaits are answered; nothing of it is left to the module
    then, and a later start makes a new thread. *)
Theorem thread_stops w i t a1 a2 a3 :
  _listener_thread_loop w = Some i → _listener_thread_task w = Some i →
  ts_threads w !! i = Some t → runs (th_stage t) = true →
  let w' := history w [EvStopRequest; EvStep i a1; EvStep i a2; EvStep i a3] in
  (stop_request w).1 = Ret () ∧ is_alive i w' = false ∧
  let w'' := stop_finish w' in
  thread_running w'' = false ∧ (stop_request w'').1 = Ret () ∧
  _listener_thread (start_config_sync_listener_thread w'') = Some (length (ts_threads w')).
Proof.
  intros Hl Hk Hi Hr w'. assert (is_alive i w = true) as Ha by (unfold is_alive; rewrite Hi; by destruct (th_stage t)).
  assert (stop_request w = (Ret (), put_thread i (mkThread (th_stage t) true) w)) as Hs
    by (unfold stop_request; by rewrite Hl, Hk, Ha, Hi).
  split; [by rewrite Hs|]. split; [|done].
  assert (ts_threads (happen w EvStopRequest) !! i = Some (mkThread (th_stage t) true)) as Hr0.
  { simpl. rewrite Hs. simpl. apply list_lookup_insert_eq. by eapply lookup_lt_Some. }
  set (w0 := happen w EvStopRequest) in *. change w' with (history w0 [EvStep i a1; EvStep i a2; EvStep i a3]).
  pose proof (thread_step_spec i a1 w0 _ Hr0 Hr) as Hr1. cbn [th_stage th_cancel] in Hr1.
  pose proof (cancelled_left (th_stage t) (ts_sync w0) Hr) as Hn.
  destruct (thread_step_left i a2 _ _ 2 Hr1 eq_refl Hn (le_n _)) as (t2&Hr2&Hc2&Hn2).
  destruct (thread_step_left i a3 _ _ 1 Hr2 Hc2 Hn2 ltac:(lia)) as (t3&Hr3&_&Hn3).
  change (is_alive i (happen (happen (happen w0 (EvStep i a1)) (EvStep i a2)) (EvStep i a3)) = false).
  unfold is_alive. rewrite Hr3. destruct (th_stage t3) as [| | | |[| | |[]|]|?|?]; simpl in Hn3; (lia || done).
Qed.

(** ** One listener at a time *)

(** Only the thread of the module's variable is alive. *)
Definition single (w : Threads) : Prop := ∀ j, is_alive j w = true → _listener_thread w = Some j.

Lemma is_alive_put i t w j :
  is_alive j (put_thread i t w) = true → (alive_stage (th_stage t) = true → is_alive i w = true) → is_alive j w = true.
Proof.
  unfold is_alive, put_thread. simpl. destruct (decide (i = j)) as [->|Hne]; [|by rewrite list_lookup_insert_ne].
  destruct (ts_threads w !! j) as [t0|] eqn:Hj.
  - rewrite list_lookup_insert_eq by (by eapply lookup_lt_Some). intros Ha Ht. apply Ht. by destruct (th_stage t).
  - rewrite list_insert_ge by (by apply lookup_ge_None). by rewrite Hj.
Qed.

(** A history in which every [stop] waited long enough: its [join] returned
    because the thread had ended. *)
Definition joined (w : Threads) (ev : thread_event) : bool :=
  match ev with EvStopFinish => negb (thread_running w) | _ => true end.
Fixpoint all_joined (w : Threads) (evs : list thread_event) : bool :=
  match evs with [] => true | ev :: evs => joined w ev && all_joined (happen w ev) evs end.

Lemma boot_alive i w w' j : thread_boot i w = Some w' → is_alive j w' = true → is_alive j w = true.
Proof.
  unfold thread_boot. destruct (ts_threads w !! i) as [[[] c]|] eqn:Hi; try done; intros [= <-] Hj.
  all: eapply (is_alive_put i); [exact Hj|]; intros _; unfold is_alive; by rewrite Hi.
Qed.
Lemma step_alive i a w w' j : thread_step i a w = Some w' → is_alive j w' = true → is_alive j w = true.
Proof.
  unfold thread_step. destruct (ts_threads w !! i) as [t|] eqn:Hi; [|done]. destruct (runs (th_stage t)) eqn:Hr; [|done].
  destruct (coroutine_step _ _) as [stage s]. intros [= <-] Hj. eapply (is_alive_put i); [exact Hj|].
  intros _. unfold is_alive. rewrite Hi. by destruct (th_stage t).
Qed.
Lemma boot_thread i w w' : thread_boot i w = Some w' → _listener_thread w' = _listener_thread w.
Proof. unfold thread_boot. destruct (ts_threads w !! i) as [[[] c]|]; try done; by intros [= <-]. Qed.
Lemma step_thread i a w w' : thread_step i a w = Some w' → _listener_thread w' = _listener_thread w.
Proof.
  unfold thread_step. destruct (ts_threads w !! i) as [t|]; [|done]. destruct (runs (th_stage t)); [|done].
  destruct (coroutine_step _ _). by intros [= <-].
Qed.

Lemma start_single w : single w → single (start_config_sync_listener_thread w).
Proof.
  intros Hs. unfold start_config_sync_listener_thread.
  set (fresh := mkThreads _ _ _ (_ ++ _) _).
  assert ((∀ j, is_alive j w = true → False) → single fresh) as Hf.
  { intros Hn j. unfold is_alive, fresh. simpl. destruct (decide (j < length (ts_threads w))%nat) as [Hlt|Hge].
    - rewrite lookup_app_l by done. intros Hj. by destruct (Hn j).
    - rewrite lookup_app_r by lia. destruct (j - length (ts_threads w))%nat as [|n] eqn:Hn'; [|done].
      intros _. f_equal. lia. }
  destruct (_listener_thread w) as [i|] eqn:Hi.
  - destruct (is_alive i w) eqn:Ha; [done|]. apply Hf. intros j Hj. specialize (Hs j Hj). congruence.
  - apply Hf. intros j Hj. specialize (Hs j Hj). congruence.
Qed.

(** There is one listener thread at a time: after any history of starts, stops and
    steps of the threads in which no [stop] gave up waiting, at most one thread is
    alive, it is the one the module knows, and it is what the state reports. *)
Theorem thread_single s evs :
  all_joined (threads_init s) evs = true →
  let w := history (threads_init s) evs in
  (∀ j k, is_alive j w = true → is_alive k w = true → j = k) ∧
  (thread_running w = true ↔ ∃ j, is_alive j w = true).
Proof.
  intros Hj w. assert (single w) as Hs.
  { assert (single (threads_init s)) as Hinit by done. unfold w. clear w. revert Hj Hinit. generalize (threads_init s).
    induction evs as [|ev evs IH]; intros w; [done|]. cbn [all_joined history foldl]. intros [He Hj]%andb_true_iff Hs.
    apply IH; [done|]. destruct ev as [| | |i|i a]; cbn [happen].
    - by apply start_single.
    - unfold stop_request. destruct (_listener_thread_loop w), (_listener_thread_task w) as [i|]; try done.
      destruct (is_alive n w); [|done]. destruct (ts_threads w !! i) as [t|] eqn:Hi; [|done].
      intros j Hj'. cbn. apply Hs. eapply is_alive_put; [exact Hj'|]. intros Ht. unfold is_alive. rewrite Hi. by destruct (th_stage t).
    - intros j Hj'. specialize (Hs j Hj'). unfold joined, thread_running in He. rewrite Hs in He.
      change (is_alive j (stop_finish w)) with (is_alive j w) in Hj'. by rewrite Hj' in He.
    - destruct (thread_boot i w) as [w'|] eqn:Hb; [|done]. intros j Hj'. cbn [default from_option id]. rewrite (boot_thread _ _ _ Hb).
      apply Hs. by eapply boot_alive.
    - destruct (thread_step i a w) as [w'|] eqn:Hb; [|done]. intros j Hj'. cbn [default from_option id]. rewrite (step_thread _ _ _ _ Hb).
      apply Hs. by eapply step_alive. }
  split.
  - intros j k H1%Hs H2%Hs. congruence.
  - unfold thread_running. split; [destruct (_listener_thread w); [by eauto|done]|]. intros [j Hj']. by rewrite (Hs _ Hj').
Qed.

(** ** What goes wrong *)

(** A stop that comes before the thread has published its task cancels nothing: the
    thread goes on to listen, the module has forgotten it and reports no listener,
    and a later start makes a second one beside it. *)
Theorem stop_too_early s :
  let w := history (threads_init s) [EvStart; EvStopRequest; EvStopFinish; EvBoot 0; EvBoot 0;
                                     EvStep 0 (Ret None); EvStep 0 (Ret None)] in
  thread_running w = false ∧ ts_threads w !! 0%nat = Some (mkThread (Listening Subscribing) false) ∧
  let w' := happen w EvStart in is_alive 0 w' = true ∧ is_alive 1 w' = true.
Proof. done. Qed.

(** A thread whose first [ping] failed has closed its loop, which stays in the
    module's variable: every stop after that raises and clears nothing. *)
Theorem stop_after_failed_ping s e n :
  let w := history (threads_init s) [EvStart; EvBoot 0; EvBoot 0; EvStep 0 (Ret None); EvStep 0 (Raise e); EvStep 0 (Ret None)] in
  is_alive 0 w = false ∧ stop_request w = (Raise (RuntimeError "Event loop is closed"), w) ∧
  history w (replicate n EvStopRequest) = w.
Proof.
  split; [done|]. split; [done|]. induction n as [|n IH]; [done|]. exact IH.
Qed.
End thread.

(** A thread that waits for a message; a start and a stop that waited. *)
Import SyncDemo.
Lemma thread_stops_witness :
  let w := history "a" "t" (threads_init SyncDemo.idle)
             [EvStart; EvBoot 0; EvBoot 0; EvStep 0 (Ret None); EvStep 0 (Ret None); EvStep 0 (Ret None)] in
  ts_threads w !! 0%nat = Some (mkThread (Listening Receiving) false) ∧
  is_alive 0 (history "a" "t" w [EvStopRequest; EvStep 0 (Ret None); EvStep 0 (Ret None); EvStep 0 (Raise (OSError "gone"))]) = false.
Proof.
  intros w. assert (ts_threads w !! 0%nat = Some (mkThread (Listening Receiving) false)) as Hi by reflexivity.
  split; [exact Hi|].
  exact (proj1 (proj2 (thread_stops "a" "t" w 0 _ (Ret None) (Ret None) (Raise (OSError "gone")) eq_refl eq_refl Hi eq_refl))).
Defined.
Lemma thread_single_witness :
  let evs := [EvStart; EvBoot 0; EvBoot 0; EvStep 0 (Ret None); EvStopRequest; EvStep 0 (Ret None);
              EvStep 0 (Ret None); EvStopFinish; EvStart; EvBoot 1] in
  let w := history "a" "t" (threads_init SyncDemo.idle) evs in
  is_alive 1 w = true ∧ (∀ j k, is_alive j w = true → is_alive k w = true → j = k).
Proof.
  intros evs w. split; [vm_compute; reflexivity|].
  assert (all_joined "a" "t" (threads_init SyncDemo.idle) evs = true) as Hj by (vm_compute; reflexivity).
  exact (proj1 (thread_single "a" "t" SyncDemo.idle evs Hj)).
Defined.
