(* ===== verification/Mail.v ===== *)
(** Sending mail: [src/app/platform/email/sender.py]. The dialogue with the server
    is the list of what was asked of it; the server's answers are arbitrary. *)
From S2P Require Import Prelude PyText PyStr PyFloat Settings.
Open Scope Z_scope.

(** ** [EmailMessage] and [smtplib] *)

(** [str.splitlines()] of a text has more than one line: a line boundary with
    something after it. *)
Definition is_linebreak (c : Z) : bool :=
  bool_decide (c ∈ [10; 11; 12; 13; 28; 29; 30; 133; 8232; 8233]).
Fixpoint more_lines (t : text) : bool :=
  match t with
  | [] => false
  | c :: r =>
      if is_linebreak c then
        match r with
        | [] => false
        | c' :: r' => negb ((c =? 13) && (c' =? 10) && bool_decide (r' = []))
        end
      else more_lines r
  end.

Record Email := mkEmail { em_from : string; em_to : string; em_subject : string; em_body : string }.
(** [message[name] = value] *)
Definition header (value : string) : outcome string :=
  if more_lines (to_text value)
  then Raise (ValueError "Header values may not contain linefeed or carriage return characters")
  else Ret value.

(** What is asked of the server, in order; closing asks it to quit. *)
Inductive Command :=
| CConnect (host : string) (port : Z)
| CStartTls
| CLogin (username password : string)
| CSend (message : Email)
| CQuit.
#[export] Instance Email_eq_dec : EqDecision Email. Proof. solve_decision. Defined.
#[export] Instance Command_eq_dec : EqDecision Command. Proof. solve_decision. Defined.

Section mail.
(** The server and the network: what the last command of a dialogue is answered. *)
Context (server : list Command → outcome ()).
(** The subclasses of [OSError], [smtplib.SMTPException] among them. *)
Context (is_oserror : exn → bool).
Context (mail : MailSettings).

Definition ask (c : Command) : io (list Command) () := λ dialogue, (server (dialogue ++ [c]), dialogue ++ [c]).

(** [with smtplib.SMTP(...) as smtp: body] *)
Definition with_smtp (body : io (list Command) ()) : io (list Command) () :=
  _ ← ask (CConnect (mail_host mail) (mail_port mail));
  try_finally body (ask CQuit).

(** ** sender.py *)
Definition _login : io (list Command) () :=
  if str_truthy (mail_username mail) then ask (CLogin (mail_username mail) (mail_password mail)) else mret ().

Definition _send_sync (message : Email) : io (list Command) () :=
  try_except
    (if mail_use_tls mail then
       with_smtp (_ ← ask CStartTls; _ ← _login; ask (CSend message))
     else
       with_smtp (_ ← _login; ask (CSend message)))
    is_oserror
    (λ _, raise (BusinessError "Failed to send email")).

Definition send_mail (to_email subject body : string) : io (list Command) () :=
  if negb (str_truthy (mail_host mail)) || negb (str_truthy (mail_from_email mail)) then
    raise (BusinessError "Mail service is not configured")
  else
    from ← lift (header (mail_from_name mail +:+ " <" +:+ mail_from_email mail +:+ ">"));
    to_ ← lift (header to_email);
    subject ← lift (header subject);
    _send_sync (mkEmail from to_ subject body).

(** ** The dialogue *)

(** The commands of a whole delivery. *)
Definition script (message : Email) : list Command :=
  CConnect (mail_host mail) (mail_port mail) ::
  (if mail_use_tls mail then [CStartTls] else []) ++
  (if str_truthy (mail_username mail) then [CLogin (mail_username mail) (mail_password mail)] else []) ++
  [CSend message].

(** Asking in order, up to the first refusal: what was asked, and the refusal. *)
Fixpoint ask_all (cs : list Command) (dialogue : list Command) : outcome () * list Command :=
  match cs with
  | [] => (Ret (), dialogue)
  | c :: cs =>
      match server (dialogue ++ [c]) with
      | Ret _ => ask_all cs (dialogue ++ [c])
      | Raise e => (Raise e, dialogue ++ [c])
      end
  end.

Lemma ask_bind c (f : () → io (list Command) ()) cs w :
  (∀ w, f () w = ask_all cs w) → (ask c ≫= f) w = ask_all (c :: cs) w.
Proof. intros Hf. unfold mbind, io_bind, ask. simpl. destruct (server (w ++ [c])) as [[]|e]; [apply Hf|done]. Qed.
Lemma ask_one c w : ask c w = ask_all [c] w.
Proof. unfold ask. simpl. by destruct (server (w ++ [c])) as [[]|e]. Qed.

(** What a run of commands leaves: a prefix of them, all but the last accepted. *)
Definition accepted (w cs : list Command) (n : nat) : Prop :=
  (n ≤ length cs)%nat ∧ ∀ k, (0 < k < n)%nat → server (w ++ take k cs) = Ret ().
Lemma ask_all_spec cs w :
  ∃ n, (ask_all cs w).2 = w ++ take n cs ∧ accepted w cs n ∧
    ((ask_all cs w).1 = Ret () ∧ n = length cs ∧ ((0 < n)%nat → server (w ++ cs) = Ret ()) ∨
     ∃ e, (ask_all cs w).1 = Raise e ∧ (0 < n)%nat ∧ server (w ++ take n cs) = Raise e).
Proof.
  revert w. induction cs as [|c cs IH]; intros w; simpl.
  { exists 0%nat. rewrite app_nil_r. split_and!; [done|split; [done|lia]|left; split_and!; [done|done|lia]]. }
  destruct (server (w ++ [c])) as [[]|e] eqn:Hc.
  - destruct (IH (w ++ [c])) as (n&Hw&[Hn Hacc]&Ho). exists (S n). simpl. rewrite <- app_assoc in Hw. split_and!; [done|split; [simpl; lia|]|].
    + intros [|k] Hk; [lia|]. destruct k as [|k]; [done|]. specialize (Hacc (S k) ltac:(lia)). by rewrite <- app_assoc in Hacc.
    + rewrite <- !app_assoc in Ho. destruct Ho as [(Hr&Hl&Hs)|(e&Hr&Hp&Hs)].
      * left. split_and!; [done|lia|]. intros _. destruct n as [|n]; [|apply Hs; lia]. by destruct cs.
      * right. exists e. split_and!; [done|lia|done].
  - exists 1%nat. split_and!; [done|split; [simpl; lia|lia]|]. right. exists e. split_and!; [done|lia|done].
Qed.

(** A dialogue from its start: either the connection was refused, or the rest of
    the script was asked in order, and quitting came last. *)
Lemma with_smtp_run body cs w :
  (∀ w, body w = ask_all cs w) →
  with_smtp body w =
    match server (w ++ [CConnect (mail_host mail) (mail_port mail)]) with
    | Raise e => (Raise e, w ++ [CConnect (mail_host mail) (mail_port mail)])
    | Ret _ =>
        let '(o, d) := ask_all cs (w ++ [CConnect (mail_host mail) (mail_port mail)]) in
        (match server (d ++ [CQuit]) with Raise e => Raise e | Ret _ => o end, d ++ [CQuit])
    end.
Proof.
  intros Hb. unfold with_smtp, mbind, io_bind, ask at 1. destruct (server _) as [[]|e]; [|done].
  unfold try_finally. rewrite Hb. destruct (ask_all cs _) as [o d]. unfold ask. by destruct (server (d ++ [CQuit])) as [[]|e].
Qed.

Lemma with_smtp_ext b1 b2 w : (∀ w, b1 w = b2 w) → with_smtp b1 w = with_smtp b2 w.
Proof.
  intros Hb. unfold with_smtp, mbind, io_bind. destruct (ask _ w) as [[[]|e] w1]; [|done]. unfold try_finally. by rewrite Hb.
Qed.
Lemma body_script message w :
  (if mail_use_tls mail then with_smtp (_ ← ask CStartTls; _ ← _login; ask (CSend message))
   else with_smtp (_ ← _login; ask (CSend message))) w =
  with_smtp (ask_all (tail (script message))) w.
Proof.
  assert (∀ w, (_ ← _login; ask (CSend message)) w =
    ask_all ((if str_truthy (mail_username mail) then [CLogin (mail_username mail) (mail_password mail)] else []) ++ [CSend message]) w) as Hl.
  { intros v. unfold _login. destruct (str_truthy _); [|by apply ask_one]. apply ask_bind. intros v'. apply ask_one. }
  unfold script. destruct (mail_use_tls mail); simpl; apply with_smtp_ext; [|done].
  intros v. apply ask_bind, Hl.
Qed.

(** What became of a delivery: [n] commands of the script were sent, every one but
    the last accepted and the last answered [o]; then, when there was a
    connection, it was closed, which was answered [q]. *)
Definition delivered (message : Email) (n : nat) (o q : outcome ()) (dialogue : list Command) : Prop :=
  (0 < n ≤ length (script message))%nat ∧
  (∀ k, (0 < k < n)%nat → server (take k (script message)) = Ret ()) ∧
  server (take n (script message)) = o ∧ (o = Ret () → n = length (script message)) ∧
  if (1 <? n)%nat then dialogue = take n (script message) ++ [CQuit] ∧ server dialogue = q
  else dialogue = take n (script message) ∧ q = Ret ().

Lemma script_long message : (1 < length (script message))%nat.
Proof. unfold script. simpl. rewrite !length_app. simpl. lia. Qed.

Lemma delivery_run message :
  ∃ n o q d, delivered message n o q d ∧
    with_smtp (ask_all (tail (script message))) [] = (match q with Raise e => Raise e | Ret _ => o end, d).
Proof.
  rewrite (with_smtp_run (ask_all (tail (script message))) (tail (script message)) []) by done.
  pose proof (script_long message) as Hlong. set (c := CConnect _ _). set (cs := tail (script message)).
  assert (script message = c :: cs) as Hsc by done. rewrite Hsc in Hlong. simpl in Hlong. cbn [app].
  destruct (server [c]) as [[]|e] eqn:Hc.
  2:{ exists 1%nat, (Raise e), (Ret ()), [c]. split; [|done]. unfold delivered. rewrite Hsc. simpl. split_and!; try done; lia. }
  destruct (ask_all_spec cs [c]) as (n&Hd&[Hn Hacc]&Ho). destruct (ask_all cs [c]) as [o d]. simpl in Hd, Ho. subst d.
  assert (0 < n)%nat as Hpos by (destruct Ho as [(_&->&_)|(?&_&?&_)]; lia).
  exists (S n), o, (server ((c :: take n cs) ++ [CQuit])), ((c :: take n cs) ++ [CQuit]). split; [|done].
  unfold delivered. rewrite Hsc. cbn [take length]. replace (1 <? S n)%nat with true by (symmetry; apply Nat.ltb_lt; lia).
  split_and!; [lia|lia| | | |done|done].
  - intros [|k] Hk; [lia|]. destruct k as [|k]; [done|]. apply (Hacc (S k)). lia.
  - destruct Ho as [(->&->&Hs)|(e&->&_&Hs)]; [|exact Hs]. rewrite take_ge by done. apply Hs. lia.
  - destruct Ho as [(->&->&Hs)|(e&->&_&Hs)]; [done|]. done.
Qed.

(** What a mail delivery asks of the server and how it ends. The commands are a
    prefix of: connect, start TLS when the settings say so, log in when there is a
    user name, send - each sent only after the server accepted the ones before -
    and a connection that was made is closed last. The call returns exactly when
    everything was accepted, the closing too; an [OSError] anywhere becomes the
    business error, and any other exception passes. *)
Theorem send_sync_outcome message :
  ∃ n o q d, delivered message n o q d ∧
    _send_sync message [] =
      (match (match q with Raise e => Raise e | Ret _ => o end) with
       | Ret _ => Ret ()
       | Raise e => Raise (if is_oserror e then BusinessError "Failed to send email" else e)
       end, d).
Proof.
  destruct (delivery_run message) as (n&o&q&d&Hd&Hr). exists n, o, q, d. split; [done|].
  unfold _send_sync, try_except. rewrite body_script, Hr. destruct q as [[]|e]; [destruct o as [[]|e]|]; try done.
  all: by destruct (is_oserror e).
Qed.

(** With TLS in the settings, neither the password nor the message is sent before
    the server accepted TLS. *)
Theorem mail_tls_first message c d1 d2 o :
  mail_use_tls mail = true → _send_sync message [] = (o, d1 ++ c :: d2) →
  (c = CSend message ∨ ∃ u p, c = CLogin u p) →
  ∃ d0, d1 = [CConnect (mail_host mail) (mail_port mail); CStartTls] ++ d0 ∧
    server [CConnect (mail_host mail) (mail_port mail); CStartTls] = Ret ().
Proof.
  intros Htls Hs Hc. destruct (send_sync_outcome message) as (n&o'&q&d&(Hn&Hacc&_&_&Hd)&Hr).
  rewrite Hr in Hs. injection Hs as _ Hs. unfold script in Hacc, Hd. rewrite Htls in Hacc, Hd. cbn [app] in Hacc, Hd.
  set (rest := (if str_truthy _ then _ else _) ++ _) in *.
  assert (d1 ++ c :: d2 = take n (CConnect (mail_host mail) (mail_port mail) :: CStartTls :: rest) ++
    (if (1 <? n)%nat then [CQuit] else [])) as He.
  { rewrite <- Hs. destruct (1 <? n)%nat; [by destruct Hd as [-> _]|]. rewrite app_nil_r. by destruct Hd as [-> _]. }
  clear Hd Hs Hr. destruct d1 as [|x1 d1]; simpl in He.
  { destruct n as [|n]; [lia|]. injection He as -> _. by destruct Hc as [?|(?&?&?)]. }
  destruct n as [|n]; [lia|]. injection He as -> He. destruct n as [|n]; simpl in He.
  { destruct d1 as [|? []]; discriminate He. }
  destruct d1 as [|x2 d1]; simpl in He.
  { injection He as -> _. by destruct Hc as [?|(?&?&?)]. }
  injection He as -> He. exists d1. split; [done|]. apply (Hacc 2%nat).
  assert (n ≠ 0%nat); [|lia]. intros ->. simpl in He. destruct d1 as [|? []]; simplify_eq/=. by destruct Hc as [?|(?&?&?)].
Qed.

(** No header can be smuggled in through an address or a subject: a value of more
    than one line, like missing settings, is refused before anything is asked of
    the server; and the mail that is sent has the given values. *)
Theorem send_mail_headers to_email subject body w o w' :
  send_mail to_email subject body w = (o, w') →
  (w' = w ∧ ∃ e, o = Raise e) ∨
  more_lines (to_text to_email) = false ∧ more_lines (to_text subject) = false ∧
  ∃ from, more_lines (to_text from) = false ∧ _send_sync (mkEmail from to_email subject body) w = (o, w').
Proof.
  unfold send_mail. destruct (_ || _); [intros [= <- <-]; left; by eauto|].
  unfold mbind, io_bind, lift, header. set (from := _ +:+ _).
  destruct (more_lines (to_text from)) eqn:H1; [intros [= <- <-]; left; by eauto|].
  destruct (more_lines (to_text to_email)) eqn:H2; [intros [= <- <-]; left; by eauto|].
  destruct (more_lines (to_text subject)) eqn:H3; [intros [= <- <-]; left; by eauto|].
  intros Hs. right. split_and!; [done|done|]. by exists from.
Qed.
End mail.

(** A server that takes everything, and settings with TLS and a user. *)
Module MailDemo.
Definition settings : MailSettings :=
  mkMailSettings "smtp" 587 "user" "secret" "a@b.c" "A" true (f_of_Z 10) "".
Definition message : Email := mkEmail "A <a@b.c>" "x@y.z" "Hi" "text".
End MailDemo.
Lemma mail_tls_first_witness :
  let run := _send_sync (λ _, Ret ()) (λ e, match e with OSError _ => true | _ => false end) MailDemo.settings MailDemo.message [] in
  run = (Ret (), [CConnect "smtp" 587; CStartTls; CLogin "user" "secret"; CSend MailDemo.message; CQuit]) ∧
  ∃ d0, [CConnect "smtp" 587; CStartTls] = [CConnect "smtp" 587; CStartTls] ++ d0.
Proof.
  intros run. assert (run = (Ret (), [CConnect "smtp" 587; CStartTls] ++ CLogin "user" "secret" :: [CSend MailDemo.message; CQuit])) as Hr by (vm_compute; reflexivity).
  split; [exact Hr|].
  destruct (mail_tls_first (λ _, Ret ()) (λ e, match e with OSError _ => true | _ => false end) MailDemo.settings MailDemo.message
    (CLogin "user" "secret") _ _ _ eq_refl Hr (or_intror (ex_intro _ _ (ex_intro _ _ eq_refl)))) as (d0 & H1 & _).
  exists d0. exact H1.
Defined.
