(* ===== verification/Json.v ===== *)
(** [json.dumps(payload, ensure_ascii=True)] of a flat dict, from the standard
    library's [json.encoder], and a reader of its output. *)
From S2P Require Import Prelude PyText PyStr PyFloat.
Open Scope Z_scope.

(** ** [py_encode_basestring_ascii] *)
Definition chr (n : nat) (s : string) : string := String (ascii_of_nat n) s.
Definition hex_digit (d : Z) : ascii := ascii_of_N (Z.to_N (if d <? 10 then 48 + d else 87 + d)).
(** The escape of a code unit that is written with four hexadecimal digits. *)
Definition hex4 (u : Z) (s : string) : string :=
  String (hex_digit (u / 4096)) (String (hex_digit (u / 256 mod 16))
    (String (hex_digit (u / 16 mod 16)) (String (hex_digit (u mod 16)) s))).
Definition esc_u (u : Z) (s : string) : string := chr 92 (chr 117 (hex4 u s)).
Definition ESCAPE_DCT : list (Z * nat) := [(92, 92%nat); (34, 34%nat); (8, 98%nat); (12, 102%nat); (10, 110%nat); (13, 114%nat); (9, 116%nat)].

(** A character of the string, before the text [s]. *)
Definition json_char (c : Z) (s : string) : string :=
  match list_find (λ e, e.1 = c) ESCAPE_DCT with
  | Some (_, (_, e)) => chr 92 (chr e s)
  | None =>
      if (32 <=? c) && (c <=? 126) then String (ascii_of_N (Z.to_N c)) s
      else if c <? 65536 then esc_u c s
      else
        let n := c - 65536 in
        let s1 := Z.lor 55296 (Z.land (Z.shiftr n 10) 1023) in
        let s2 := Z.lor 56320 (Z.land n 1023) in
        esc_u s1 (esc_u s2 s)
  end.
Definition json_chars (t : text) (s : string) : string := foldr json_char s t.
Definition json_string (t : text) : string := chr 34 (json_chars t (chr 34 "")).

(** ** Values and dicts *)
Inductive JVal := JNull | JStr (t : text) | JInt (z : Z) | JFloat (f : f64).

(** The text of a float and its inverse: it is not the text of an integer nor
    [null], and has neither separators nor line breaks. *)
Definition float_char (c : ascii) : bool :=
  (32 <=? N_of_ascii c)%N && negb (existsb (Ascii.eqb c) [","%char; "}"%char; ascii_of_nat 34]).
Definition intlike (s : string) : bool :=
  match s with
  | String c r => if Ascii.eqb c "-" then str_truthy r && forallb is_digit (str_chars r) else forallb is_digit (str_chars s)
  | "" => false
  end.
Class FloatRepr := { float_repr : f64 → string; float_read : string → option f64 }.
Class FloatReprLaws `{FloatRepr} : Prop := {
  law_float_chars f : forallb float_char (str_chars (float_repr f)) = true;
  law_float_int f : intlike (float_repr f) = false ∧ float_repr f ≠ "null" ∧ float_repr f ≠ "";
  law_float_read f : float_read (float_repr f) = Some f }.

Section json.
Context `{FloatRepr}.

Definition json_value (v : JVal) : string :=
  match v with
  | JNull => "null"
  | JStr t => json_string t
  | JInt z => str_of_Z z
  | JFloat f => float_repr f
  end.
Definition json_item (kv : string * JVal) : string := json_string (to_text kv.1) +:+ ": " +:+ json_value kv.2.
Definition json_dumps (payload : list (string * JVal)) : string := "{" +:+ join ", " (map json_item payload) +:+ "}".

(** ** A reader *)
Definition hex_value (c : ascii) : option Z :=
  let n := Z.of_N (N_of_ascii c) in
  if (48 <=? n) && (n <=? 57) then Some (n - 48) else if (97 <=? n) && (n <=? 102) then Some (n - 87) else None.
Definition unescape (c : ascii) : option Z :=
  (λ p, p.2.1) <$> list_find (λ e : Z * nat, ascii_of_nat e.2 = c) ESCAPE_DCT.
(** The code units of a string up to its closing quote. *)
Fixpoint read_units (s : string) : option (list Z * string) :=
  match s with
  | "" => None
  | String c r =>
      if decide (c = ascii_of_nat 34) then Some ([], r)
      else if decide (c = ascii_of_nat 92) then
        match r with
        | String e r1 =>
            if decide (e = ascii_of_nat 117) then
              match r1 with
              | String a (String b (String d (String f r2))) =>
                  a ← hex_value a; b ← hex_value b; d ← hex_value d; f ← hex_value f;
                  '(us, rest) ← read_units r2; Some (a * 4096 + b * 256 + d * 16 + f :: us, rest)
              | _ => None
              end
            else u ← unescape e; '(us, rest) ← read_units r1; Some (u :: us, rest)
        | "" => None
        end
      else '(us, rest) ← read_units r; Some (Z.of_N (N_of_ascii c) :: us, rest)
  end.
(** Surrogate pairs are one character. *)
Fixpoint pair_units (us : list Z) : text :=
  match us with
  | [] => []
  | u :: us' =>
      match us' with
      | v :: us'' =>
          if (55296 <=? u) && (u <? 56320) && (56320 <=? v) && (v <? 57344)
          then 65536 + (u - 55296) * 1024 + (v - 56320) :: pair_units us''
          else u :: pair_units us'
      | [] => [u]
      end
  end.
Definition read_json_string : reader text := λ s,
  match eat (ascii_of_nat 34) s with
  | Some (_, r) => '(us, rest) ← read_units r; Some (pair_units us, rest)
  | None => None
  end.

(** The text up to a separator. *)
Definition is_sep (c : ascii) : bool := Ascii.eqb c "," || Ascii.eqb c "}".
Fixpoint read_token (s : string) : string * string :=
  match s with
  | "" => ("", "")
  | String c r => if is_sep c then ("", s) else let '(a, b) := read_token r in (String c a, b)
  end.
Definition read_int (s : string) : Z :=
  match s with
  | String c r => if Ascii.eqb c "-" then - digits_value 0 r else digits_value 0 s
  | "" => 0
  end.
Definition read_value : reader JVal := λ s,
  if startswith (chr 34 "") s then '(t, r) ← read_json_string s; Some (JStr t, r)
  else
    let '(token, r) := read_token s in
    if String.eqb token "null" then Some (JNull, r)
    else if intlike token then Some (JInt (read_int token), r)
    else f ← float_read token; Some (JFloat f, r).
(** After an item: the closing brace, or a separator. *)
Definition read_close : reader bool := λ s,
  match s with
  | String c r => if decide (c = "}"%char) then Some (true, r) else (eat ",";; eat " ";; mret false : reader bool) s
  | "" => None
  end.
Fixpoint read_items (fuel : nat) : reader (list (text * JVal)) :=
  match fuel with
  | O => λ _, None
  | S n =>
      k ← read_json_string; eat ":";; eat " ";;
      v ← read_value;
      closed ← read_close;
      if (closed : bool) then mret [(k, v)] else items ← read_items n; mret ((k, v) :: items)
  end.
(** [json.loads] of a dict that is not empty. *)
Definition json_loads (s : string) : option (list (text * JVal)) :=
  match (eat "{";; read_items (String.length s)) s with Some (items, "") => Some items | _ => None end.

(** ** Reading back what was written *)

(** The code units of a character. *)
Definition utf16 (c : Z) : list Z :=
  if c <? 65536 then [c]
  else [55296 + (c - 65536) / 1024; 56320 + (c - 65536) mod 1024].

Lemma hex_digit_value d : 0 ≤ d < 16 → hex_value (hex_digit d) = Some d.
Proof.
  intros Hd. apply (bool_decide_eq_true (hex_value (hex_digit d) = Some d)).
  pose proof (all_from_true (λ d, bool_decide (hex_value (hex_digit d) = Some d)) 16 0 d) as Hall. apply Hall; [by vm_compute|lia].
Qed.

Lemma read_esc_u u s us rest :
  0 ≤ u < 65536 → read_units s = Some (us, rest) → read_units (esc_u u s) = Some (u :: us, rest).
Proof.
  intros Hu Hs. unfold esc_u, chr, hex4. cbn [read_units]. rewrite !decide_False, !decide_True by done.
  rewrite !hex_digit_value by (Z.to_euclidean_division_equations; lia). cbn [mbind option_bind]. rewrite Hs. cbn.
  do 3 f_equal. Z.to_euclidean_division_equations. lia.
Qed.

Lemma surrogates n : 0 ≤ n < 1048576 →
  Z.lor 55296 (Z.land (Z.shiftr n 10) 1023) = 55296 + n / 1024 ∧ Z.lor 56320 (Z.land n 1023) = 56320 + n mod 1024.
Proof.
  intros Hn. rewrite Z.shiftr_div_pow2 by lia. change 1023 with (Z.ones 10). rewrite !Z.land_ones by lia.
  change (2 ^ 10) with 1024. rewrite (Z.mod_small (n / 1024)) by (Z.to_euclidean_division_equations; lia).
  assert (∀ a b, 0 ≤ b < 1024 → Z.land a (Z.ones 10) = 0 → Z.lor a b = a + b) as Hor.
  { intros a b Hb Ha. rewrite <-Z.add_lor_land, <-(Z.mod_small b (2 ^ 10)), <-Z.land_ones by lia.
    rewrite (Z.land_comm b), Z.land_assoc, Ha. rewrite Z.land_0_l. lia. }
  split; apply Hor; try done; Z.to_euclidean_division_equations; lia.
Qed.

Lemma read_json_char c s us rest :
  scalar c → read_units s = Some (us, rest) → read_units (json_char c s) = Some (utf16 c ++ us, rest).
Proof.
  intros Hc Hs. unfold json_char. destruct (list_find _ ESCAPE_DCT) as [[i [c' e]]|] eqn:Hf.
  - apply list_find_Some in Hf as (Hl&Hc'&_). simpl in Hc'. subst c'.
    do 7 (destruct i as [|i]; [injection Hl as <- <-; simpl; by rewrite Hs|]). done.
  - apply list_find_None in Hf. assert (c ≠ 34 ∧ c ≠ 92) as [H34 H92].
    { split; intros ->; rewrite Forall_forall in Hf; [apply (Hf (34, 34%nat))|apply (Hf (92, 92%nat))]; try done;
      unfold ESCAPE_DCT; set_solver. }
    destruct ((32 <=? c) && (c <=? 126)) eqn:Hp.
    + apply andb_true_iff in Hp as [H1%Z.leb_le H2%Z.leb_le]. cbn [read_units].
      assert (Z.of_N (N_of_ascii (ascii_of_N (Z.to_N c))) = c) as Hn by (rewrite N_ascii_embedding by lia; lia).
      assert (∀ n, (n < 128)%nat → c ≠ Z.of_nat n → ascii_of_N (Z.to_N c) ≠ ascii_of_nat n) as Hne.
      { intros n Hn' Hcn He. apply Hcn. rewrite <- Hn, He. rewrite <- nat_N_Z. f_equal. unfold ascii_of_nat.
        apply N_ascii_embedding. lia. }
      rewrite !decide_False by (apply Hne; [lia|done]). rewrite Hs. cbn. rewrite Hn. unfold utf16.
      destruct (Z.ltb_spec c 65536); [done|lia].
    + unfold utf16. destruct (Z.ltb_spec c 65536) as [Hlt|Hge].
      * apply read_esc_u; [|done]. unfold scalar in Hc. lia.
      * unfold scalar in Hc. destruct (surrogates (c - 65536)) as [-> ->]; [lia|].
        apply read_esc_u; [Z.to_euclidean_division_equations; lia|].
        apply read_esc_u; [Z.to_euclidean_division_equations; lia|done].
Qed.

Lemma pair_utf16 t : Forall scalar t → pair_units (t ≫= utf16) = t.
Proof.
  induction 1 as [|c t Hc Ht IH]; [done|]. rewrite bind_cons. unfold utf16 at 1. unfold scalar in Hc.
  destruct (Z.ltb_spec c 65536) as [Hlt|Hge].
  - cbn [app]. destruct (t ≫= utf16) as [|v us] eqn:Hus; [by rewrite <- IH|].
    rewrite <- IH. cbn [pair_units].
    assert (((55296 <=? c) && (c <? 56320)) = false) as ->; [|done].
    destruct (Z.leb_spec 55296 c), (Z.ltb_spec c 56320); simpl; try done; lia.
  - cbn [app pair_units]. rewrite IH.
    assert (((55296 <=? 55296 + (c - 65536) / 1024) && (55296 + (c - 65536) / 1024 <? 56320) &&
             (56320 <=? 56320 + (c - 65536) mod 1024) && (56320 + (c - 65536) mod 1024 <? 57344)) = true) as ->.
    { rewrite !andb_true_iff, !Z.leb_le, !Z.ltb_lt. Z.to_euclidean_division_equations. lia. }
    f_equal. Z.to_euclidean_division_equations. lia.
Qed.

Lemma undoes_json_string t : Forall scalar t → undoes read_json_string (json_string t) t.
Proof.
  intros Ht rest. unfold read_json_string, json_string, chr. rewrite str_app_cons. cbn [eat]. rewrite decide_True by done.
  assert (∀ t, Forall scalar t → read_units (json_chars t (String (ascii_of_nat 34) "") +:+ rest) = Some (t ≫= utf16, rest)) as Hu.
  { clear t Ht. intros t Ht. assert (∀ s c, json_char c s +:+ rest = json_char c (s +:+ rest)) as Happ.
    { intros s c. unfold json_char. destruct (list_find _ _) as [[? [? ?]]|]; [done|].
      destruct (_ && _); [done|]. by destruct (c <? 65536). }
    induction Ht as [|c t Hc Ht IH]; [done|]. cbn [json_chars foldr]. rewrite Happ, bind_cons. by apply read_json_char. }
  rewrite Hu by done. cbn. by rewrite pair_utf16.
Qed.

(** The texts of integers. *)
Lemma pos_digits_digits fuel z acc :
  0 ≤ z → forallb is_digit (str_chars acc) = true → forallb is_digit (str_chars (pos_digits fuel z acc)) = true.
Proof.
  revert z acc. induction fuel as [|fuel IH]; intros z acc Hz Hacc; [done|]. cbn [pos_digits].
  assert (0 ≤ z mod 10 < 10) as Hm by (by apply Z.mod_pos_bound).
  assert (forallb is_digit (str_chars (String (ascii_of_N (Z.to_N (48 + z mod 10))) acc)) = true) as Ha.
  { unfold str_chars in *. cbn [String.list_ascii_of_string forallb]. rewrite Hacc, andb_true_r.
    pose proof (all_from_true (λ d, is_digit (ascii_of_N (Z.to_N (48 + d)))) 10 0 (z mod 10)) as Hd. apply Hd; [by vm_compute|lia]. }
  destruct (z <? 10); [done|]. apply IH; [by apply Z.div_pos|done].
Qed.
Lemma str_of_nonneg z : 0 ≤ z → forallb is_digit (str_chars (str_of_Z z)) = true ∧ str_of_Z z ≠ "".
Proof.
  intros Hz. split.
  - unfold str_of_Z. destruct (Z.ltb_spec z 0); [lia|]. by apply pos_digits_digits.
  - unfold str_of_Z. destruct (Z.ltb_spec z 0); [lia|].
    assert (∀ fuel z acc, acc ≠ "" → pos_digits fuel z acc ≠ "") as Hn.
    { intros fuel. induction fuel as [|fuel IH]; intros z0 acc Ha; [done|]. cbn [pos_digits].
      destruct (z0 <? 10); [done|]. by apply IH. }
    cbn [pos_digits]. destruct (z <? 10); [done|]. by apply Hn.
Qed.
Lemma str_of_neg z : z < 0 → str_of_Z z = String "-" (str_of_Z (- z)).
Proof. intros Hz. unfold str_of_Z. destruct (Z.ltb_spec z 0), (Z.ltb_spec (- z) 0); (lia || done). Qed.

Lemma digits_no_minus s : forallb is_digit (str_chars s) = true →
  match s with String c _ => Ascii.eqb c "-" = false | "" => True end.
Proof.
  destruct s as [|c s]; [done|]. unfold str_chars. cbn [String.list_ascii_of_string forallb].
  intros [Hc _]%andb_true_iff. destruct (Ascii.eqb_spec c "-") as [->|]; [by vm_compute in Hc|done].
Qed.
Lemma int_text z : intlike (str_of_Z z) = true ∧ read_int (str_of_Z z) = z.
Proof.
  destruct (Z.lt_ge_cases z 0) as [Hz|Hz].
  - rewrite str_of_neg by done. destruct (str_of_nonneg (- z)) as [Hd Hn]; [lia|]. simpl. rewrite Hd, str_of_Z_value by lia.
    split; [|lia]. by destruct (str_of_Z (- z)).
  - destruct (str_of_nonneg z) as [Hd Hn]; [lia|]. pose proof (digits_no_minus _ Hd) as Hm.
    pose proof (str_of_Z_value z Hz) as Hv. destruct (str_of_Z z) as [|c r]; [done|].
    unfold intlike, read_int. rewrite Hm. done.
Qed.

(** A token ends where a separator begins. *)
Definition no_sep (s : string) : bool := forallb (λ c, negb (is_sep c)) (str_chars s).
Lemma read_token_app s rest :
  no_sep s = true → (match rest with String c _ => is_sep c = true | "" => True end) → read_token (s +:+ rest) = (s, rest).
Proof.
  intros Hs Hr. induction s as [|c s IH].
  - destruct rest as [|c r]; [done|]. change ("" +:+ String c r) with (String c r). simpl. by rewrite Hr.
  - unfold no_sep, str_chars in Hs. cbn [String.list_ascii_of_string forallb] in Hs.
    apply andb_true_iff in Hs as [Hc%negb_true_iff Hs]. rewrite str_app_cons. cbn [read_token]. rewrite Hc, IH; [done|exact Hs].
Qed.
Lemma chars_no_sep (f : ascii → bool) s :
  (∀ c, f c = true → is_sep c = false ∧ c ≠ ascii_of_nat 34) → forallb f (str_chars s) = true →
  no_sep s = true ∧ ∀ rest, s ≠ "" → startswith (chr 34 "") (s +:+ rest) = false.
Proof.
  intros Hf Hs. split.
  - unfold no_sep. apply forallb_forall. intros c Hc. rewrite forallb_forall in Hs. destruct (Hf c) as [-> _]; [by apply Hs|done].
  - intros rest Hn. destruct s as [|c s]; [done|]. rewrite str_app_cons. unfold startswith, chr. cbn [String.prefix].
    destruct (ascii_dec _ _) as [He|]; [|done]. exfalso. rewrite forallb_forall in Hs.
    apply (Hf c); [apply Hs; by left|done].
Qed.

Lemma int_chars z : forallb (λ c, is_digit c || Ascii.eqb c "-") (str_chars (str_of_Z z)) = true ∧ str_of_Z z ≠ "" ∧ str_of_Z z ≠ "null".
Proof.
  assert (∀ s, forallb is_digit (str_chars s) = true → forallb (λ c, is_digit c || Ascii.eqb c "-") (str_chars s) = true) as Hd.
  { intros s Hs. rewrite forallb_forall in *. intros c Hc. by rewrite Hs. }
  destruct (Z.lt_ge_cases z 0) as [Hz|Hz].
  - rewrite str_of_neg by done. destruct (str_of_nonneg (- z)) as [Hdig _]; [lia|]. split; [|done].
    unfold str_chars in *. cbn [String.list_ascii_of_string forallb]. by apply Hd.
  - destruct (str_of_nonneg z) as [Hdig Hn]; [lia|]. split_and!; [by apply Hd|done|]. intros He. by rewrite He in Hdig.
Qed.

Lemma int_char_ok c : is_digit c || Ascii.eqb c "-" = true → is_sep c = false ∧ c ≠ ascii_of_nat 34.
Proof. destruct c as [[] [] [] [] [] [] [] []]; by vm_compute. Qed.

(** Values whose texts are texts. *)
Definition wf_value (v : JVal) : Prop := match v with JStr t => Forall scalar t | _ => True end.

Context `{!FloatReprLaws}.
Lemma read_value_app v c r :
  wf_value v → is_sep c = true → read_value (json_value v +:+ String c r) = Some (v, String c r).
Proof.
  intros Hv Hc. unfold read_value. destruct v as [|t|z|f]; simpl json_value.
  - rewrite !str_app_cons. change ("" +:+ String c r) with (String c r). change (startswith _ _) with false. cbv iota.
    assert (read_token (String "n" (String "u" (String "l" (String "l" (String c r))))) = ("null", String c r)) as ->
      by (apply (read_token_app "null" (String c r)); done). done.
  - assert (startswith (chr 34 "") (json_string t +:+ String c r) = true) as ->
      by (unfold startswith, json_string, chr; rewrite str_app_cons; cbn [String.prefix]; destruct (ascii_dec _ _) as [|Hn]; [|by destruct Hn];
          by destruct (json_chars _ _ +:+ _)).
    by rewrite undoes_json_string.
  - destruct (int_chars z) as (Hch&Hne&Hnull).
    destruct (chars_no_sep _ _ int_char_ok Hch)
      as [Hns Hst].
    rewrite Hst by done. rewrite (read_token_app _ (String c r) Hns Hc).
    destruct (int_text z) as [Hi Hr]. rewrite (proj2 (String.eqb_neq _ _) Hnull), Hi, Hr. done.
  - pose proof (law_float_chars f) as Hch. destruct (law_float_int f) as (Hi&Hnull&Hne).
    assert (∀ c, float_char c = true → is_sep c = false ∧ c ≠ ascii_of_nat 34) as Hfc.
    { intros c0 [_ Hx%negb_true_iff]%andb_true_iff. unfold is_sep. simpl in Hx. rewrite orb_false_r, !orb_false_iff in Hx.
      destruct Hx as (->&->&Hq). split; [done|]. intros ->. by vm_compute in Hq. }
    destruct (chars_no_sep _ _ Hfc Hch) as [Hns Hst].
    rewrite Hst by done. rewrite (read_token_app _ (String c r) Hns Hc).
    rewrite (proj2 (String.eqb_neq _ _) Hnull), Hi, law_float_read. done.
Qed.

Lemma eat_run {A} c (f : () → reader A) s : (eat c ≫= f) (String c s) = f () s.
Proof. unfold mbind, reader_bind. cbn [eat]. by rewrite decide_True. Qed.

Lemma read_items_spec payload n rest :
  payload ≠ [] → (length payload ≤ n)%nat → Forall (λ kv, wf_value kv.2) payload →
  read_items n (join ", " (map json_item payload) +:+ String "}" rest) =
    Some (map (λ kv, (to_text kv.1, kv.2)) payload, rest).
Proof.
  intros Hne Hn Hwf. revert n Hn. induction Hwf as [|[k v] payload Hv Hwf IH]; [done|]. intros [|n] Hn; [simpl in Hn; lia|].
  assert (∀ c r, is_sep c = true → read_items (S n) (json_item (k, v) +:+ String c r) =
    (closed ← read_close; if (closed : bool) then mret [(to_text k, v)] else items ← read_items n; mret ((to_text k, v) :: items) : reader _) (String c r)) as Hitem.
  { intros c r Hc. cbn [read_items]. unfold json_item. cbn [fst snd]. rewrite str_app_assoc.
    unfold mbind at 1, reader_bind. rewrite undoes_json_string by (apply utf8_decode_scalar).
    change (": " +:+ ?x) with (String ":" (String " " x)). rewrite ?str_app_cons.
    rewrite !eat_run. unfold mbind at 1, reader_bind. by rewrite read_value_app. }
  destruct payload as [|kv payload].
  - cbn [map]. unfold join, String.concat. rewrite Hitem by done. done.
  - cbn [map]. rewrite join_cons, !str_app_assoc. change (", " +:+ ?x) with (String "," (String " " x)).
    rewrite Hitem by done. unfold mbind at 1, reader_bind. unfold read_close. rewrite decide_False by done.
    rewrite !eat_run. unfold mret at 1, reader_ret at 1. unfold mbind at 1, reader_bind.
    assert (read_items n (join ", " (map json_item (kv :: payload)) +:+ String "}" rest) =
      Some (map (λ kv, (to_text kv.1, kv.2)) (kv :: payload), rest)) as Hrec by (apply IH; [done|simpl in *; lia]).
    cbn [map] in Hrec. by rewrite Hrec.
Qed.

(** ** One line *)
Definition printable (s : string) : bool := forallb (λ c, (32 <=? N_of_ascii c)%N) (str_chars s).
Lemma printable_app a b : printable (a +:+ b) = printable a && printable b.
Proof. unfold printable. by rewrite str_chars_app, forallb_app. Qed.
Lemma printable_cons c s : printable (String c s) = (32 <=? N_of_ascii c)%N && printable s.
Proof. done. Qed.

Lemma hex_digit_printable d : 0 ≤ d < 16 → (32 <=? N_of_ascii (hex_digit d))%N = true.
Proof.
  intros Hd. pose proof (all_from_true (λ d, (32 <=? N_of_ascii (hex_digit d))%N) 16 0 d) as Ha.
  apply Ha; [by vm_compute|lia].
Qed.
Lemma esc_u_printable u s : 0 ≤ u < 65536 → printable (esc_u u s) = printable s.
Proof.
  intros Hu. unfold esc_u, chr, hex4. rewrite !printable_cons, !hex_digit_printable by (Z.to_euclidean_division_equations; lia).
  done.
Qed.
Lemma json_char_printable c s : scalar c → printable (json_char c s) = printable s.
Proof.
  intros Hc. unfold json_char. destruct (list_find _ ESCAPE_DCT) as [[i [c' e]]|] eqn:Hf.
  - apply list_find_Some in Hf as (Hl&_&_). do 7 (destruct i as [|i]; [by injection Hl as <- <-|]). done.
  - destruct ((32 <=? c) && (c <=? 126)) eqn:Hp.
    + apply andb_true_iff in Hp as [H1%Z.leb_le H2%Z.leb_le]. rewrite printable_cons, N_ascii_embedding by lia.
      by rewrite (proj2 (N.leb_le 32 (Z.to_N c))) by lia.
    + unfold scalar in Hc. destruct (Z.ltb_spec c 65536) as [Hlt|Hge]; [apply esc_u_printable; lia|].
      destruct (surrogates (c - 65536)) as [-> ->]; [lia|].
      rewrite !esc_u_printable by (Z.to_euclidean_division_equations; lia). done.
Qed.
Lemma json_string_printable t : Forall scalar t → printable (json_string t) = true.
Proof.
  intros Ht. unfold json_string. change (printable (json_chars t (chr 34 "")) = true).
  induction Ht as [|c t Hc Ht IH]; [done|]. cbn [json_chars foldr]. rewrite json_char_printable by done. exact IH.
Qed.
Lemma str_of_Z_printable z : printable (str_of_Z z) = true.
Proof.
  destruct (int_chars z) as [Hc _]. unfold printable. rewrite forallb_forall in *. intros c Hin. specialize (Hc c Hin).
  clear -Hc. destruct c as [[] [] [] [] [] [] [] []]; first [done|by vm_compute in Hc].
Qed.
Lemma json_value_printable v : wf_value v → printable (json_value v) = true.
Proof.
  destruct v as [|t|z|f]; intros Hv; simpl; [done|by apply json_string_printable|apply str_of_Z_printable|].
  pose proof (law_float_chars f) as Hf. unfold printable. rewrite forallb_forall in *. intros c Hc.
  specialize (Hf c Hc). unfold float_char in Hf. by apply andb_true_iff in Hf as [Hf _].
Qed.
Lemma json_dumps_printable payload : Forall (λ kv, wf_value kv.2) payload → printable (json_dumps payload) = true.
Proof.
  intros Hwf. unfold json_dumps. rewrite !printable_app. change (printable "{") with true. change (printable "}") with true.
  rewrite andb_true_r. induction Hwf as [|[k v] payload Hv Hwf IH]; [done|].
  assert (printable (json_item (k, v)) = true) as Hi.
  { unfold json_item. rewrite !printable_app, json_string_printable, json_value_printable by (done || apply utf8_decode_scalar). done. }
  cbn [map]. destruct payload as [|kv payload]; [exact Hi|]. cbn [map] in *. rewrite join_cons, !printable_app, Hi. exact IH.
Qed.

(** A dict is written on one line of printable ASCII, and reading the text back
    gives its items in order. *)
Theorem json_roundtrip payload :
  payload ≠ [] → Forall (λ kv, wf_value kv.2) payload →
  printable (json_dumps payload) = true ∧
  json_loads (json_dumps payload) = Some (map (λ kv, (to_text kv.1, kv.2)) payload).
Proof.
  intros Hne Hwf. split; [by apply json_dumps_printable|]. unfold json_loads.
  assert (length payload ≤ String.length (json_dumps payload))%nat as Hlen.
  { unfold json_dumps. rewrite !str_length_app. clear Hne Hwf. induction payload as [|kv payload IH]; [simpl; lia|].
    cbn [map]. destruct payload as [|kv' payload]; [simpl; lia|]. cbn [map] in *. rewrite join_cons, !str_length_app.
    change (String.length ", ") with 2%nat. simpl in *. lia. }
  set (n := String.length (json_dumps payload)) in *. unfold json_dumps.
  change ("{" +:+ ?x) with (String "{" x). rewrite eat_run.
  rewrite (read_items_spec payload n "" Hne Hlen Hwf). done.
Qed.
End json.
