(* ===== verification/LogFormat.v ===== *)
(** Log lines and the set-up of logging: [get_log_context] of
    [src/app/platform/observability/context.py], the formatters of
    [observability/logging.py] and [src/app/core/logger/formatter.py], and
    [src/app/core/logger/setup.py]. *)
From S2P Require Import Prelude PyText PyStr PyFloat Settings Metrics AuditQueue AccessControl RateLimit Middleware Json Datetime DatetimeProofs.
Open Scope Z_scope.

(** A record of the logging module: the level's name, the logger's name, the
    message with its arguments put in - which may raise -, the text of the
    exception, if there is one, and the time as [%(asctime)s] shows it. *)
Record LogRecord := mkLogRecord {
  lr_levelname : string; lr_name : string; lr_message : outcome string; lr_exc : option string; lr_asctime : string }.

(** ** platform/observability/context.py *)
Definition str_or_null (s : option string) : JVal := match s with Some s => JStr (to_text s) | None => JNull end.
Definition get_log_context (c : Ctx) : list (string * JVal) :=
  [("request_id", str_or_null (cv_request_id c));
   ("trace_id", str_or_null (cv_trace_id c));
   ("span_id", str_or_null (cv_span_id c));
   ("account_id", str_or_null (cv_account_id c));
   ("account_type", str_or_null (cv_account_type c));
   ("method", str_or_null (cv_request_method c));
   ("path", str_or_null (cv_request_path c));
   ("status_code", match cv_status_code c with Some s => JInt s | None => JNull end);
   ("duration_ms", match cv_duration_ms c with Some d => JFloat d | None => JNull end)].

(** core/logger/context.py *)
Definition get_request_id (c : Ctx) : option string := cv_request_id c.

(** [x or "-"] *)
Definition or_dash (s : option string) : string :=
  match s with Some s => if str_truthy s then s else "-" | None => "-" end.

Section format.
Context `{FloatRepr}.

(** ** The JSON formatter *)
Definition json_payload (timestamp message : string) (c : Ctx) (r : LogRecord) : list (string * JVal) :=
  [("timestamp", JStr (to_text timestamp)); ("level", JStr (to_text (lr_levelname r)));
   ("logger", JStr (to_text (lr_name r))); ("message", JStr (to_text message))] ++
  get_log_context c ++
  match lr_exc r with Some e => [("exception", JStr (to_text e))] | None => [] end.
Definition json_format (now : DateTime) (c : Ctx) (r : LogRecord) : outcome string :=
  timestamp ← format_utc_iso8601 now;
  message ← lr_message r;
  Ret (json_dumps (json_payload timestamp message c r)).

(** ** The text formatter, with [Formatter.format] of the standard library *)
Definition ends_with_newline (s : string) : bool := endswith (String (ascii_of_nat 10) "") s.
Definition request_format (c : Ctx) (r : LogRecord) : outcome string :=
  let request_id := or_dash (get_request_id c) in
  message ← lr_message r;
  let s := lr_asctime r +:+ " " +:+ lr_levelname r +:+ " [" +:+ request_id +:+ "] " +:+ lr_name r +:+ ": " +:+ message in
  Ret (match lr_exc r with
       | Some e => if str_truthy e then (if ends_with_newline s then s else s +:+ String (ascii_of_nat 10) "") +:+ e else s
       | None => s
       end).

Definition build_log_formatter (ob : ObservabilitySettings) (now : DateTime) : Ctx → LogRecord → outcome string :=
  if ob_enabled ob && ob_log_json ob then json_format now else request_format.

(** C40. A JSON log line is one line whatever the record says, and everything in it can
    be read back: the time to the millisecond, level, logger and message, the
    request's context, and the exception. *)
Theorem json_log_line `{!FloatReprLaws} now c r message :
  in_range (instant now) = true → in_range (wall now) = true → lr_message r = Ret message →
  ∃ line timestamp, json_format now c r = Ret line ∧ printable line = true ∧
    parse_utc timestamp = Some (instant now / 1000) ∧
    json_loads line = Some (map (λ kv, (to_text kv.1, kv.2)) (json_payload timestamp message c r)).
Proof.
  intros Hi Hw Hm. destruct (proj1 (format_utc_iso8601_text now Hw) Hi) as (ts&Hts&Hp).
  exists (json_dumps (json_payload ts message c r)), ts. unfold json_format. rewrite Hts. unfold mbind, outcome_bind. rewrite Hm.
  assert (Forall (λ kv, wf_value kv.2) (json_payload ts message c r)) as Hwf.
  { assert (∀ s, Forall scalar (to_text s)) as Ht by (intros s; apply utf8_decode_scalar).
    assert (∀ s, wf_value (str_or_null s)) as Ho by (intros [s|]; [apply Ht|done]).
    unfold json_payload, get_log_context. rewrite !Forall_app. split; [|split].
    - repeat constructor; apply Ht.
    - repeat (constructor; [try apply Ho|]); [| |constructor]; simpl.
      + by destruct (cv_status_code c).
      + by destruct (cv_duration_ms c).
    - destruct (lr_exc r); repeat constructor. apply Ht. }
  destruct (json_roundtrip (json_payload ts message c r)) as [H1 H2]; [done|done|]. done.
Qed.
End format.

(** ** core/logger/setup.py *)

(** A handler of the root logger: is it a [StreamHandler], or the daily file
    handler of LogFile for a directory; and is its formatter the one built here? *)
Inductive LogHandler := StreamHandler | DailyFile (log_dir : string) | OtherHandler (stream : bool).
Definition is_stream (h : LogHandler) : bool :=
  match h with StreamHandler => true | DailyFile _ => false | OtherHandler s => s end.
#[export] Instance LogHandler_eq_dec : EqDecision LogHandler. Proof. solve_decision. Defined.
Record Root := mkRoot { root_handlers : list LogHandler; root_level : Z }.

(** [getattr(logging, name, logging.INFO)] and [setLevel]: the upper-case names of
    the logging module are its levels and one format string, which is no level. *)
Definition LEVELS : list (string * Z) :=
  [("CRITICAL", 50); ("FATAL", 50); ("ERROR", 40); ("WARNING", 30); ("WARN", 30); ("INFO", 20); ("DEBUG", 10); ("NOTSET", 0)].
Definition log_level (name : string) : outcome Z :=
  if String.eqb name "BASIC_FORMAT" then Raise (ValueError "Unknown level: '%(levelname)s:%(name)s:%(message)s'")
  else Ret (default 20 ((λ p, p.2.2) <$> list_find (λ e, e.1 = name) LEVELS)).

Section setup.
(** [str.upper()], and the working directory. *)
Context (upper : string → string) (cwd : string).
(** [Path(p).is_absolute()] and [Path.cwd() / p], for a relative path. *)
Definition absolute_dir (log_dir : string) : string :=
  if startswith "/" log_dir then log_dir else if endswith "/" cwd then cwd +:+ log_dir else cwd +:+ "/" +:+ log_dir.
Definition setup_logging (ob : ObservabilitySettings) : io Root () :=
  _ ← modify (λ r, if existsb is_stream (root_handlers r) then r
                   else mkRoot (root_handlers r ++ [StreamHandler]) (root_level r));
  _ ← modify (λ r, if str_truthy (ob_log_dir ob)
                   then mkRoot (root_handlers r ++ [DailyFile (absolute_dir (ob_log_dir ob))]) (root_level r) else r);
  level ← lift (log_level (upper (ob_log_level ob)));
  modify (λ r, mkRoot (root_handlers r) level).

(** How many handlers write a record to a file of the directory. *)
Definition file_handlers (d : string) (r : Root) : nat :=
  length (filter (λ h, h = DailyFile d) (root_handlers r)).
End setup.

Lemma setup_logging_run upper cwd ob root :
  str_truthy (ob_log_dir ob) = true → upper (ob_log_level ob) ≠ "BASIC_FORMAT" →
  ∃ level, setup_logging upper cwd ob root =
    (Ret (), mkRoot (root_handlers root ++ (if existsb is_stream (root_handlers root) then [] else [StreamHandler]) ++
                     [DailyFile (absolute_dir cwd (ob_log_dir ob))]) level).
Proof.
  intros Hd Hl. unfold setup_logging, log_level, mbind, io_bind, modify, lift. rewrite Hd.
  rewrite (proj2 (String.eqb_neq _ _) Hl). eexists. f_equal. destruct (existsb is_stream (root_handlers root)); [done|].
  cbn [root_handlers]. by rewrite <- app_assoc.
Qed.

Definition stream_handlers (r : Root) : nat := length (filter (λ h, is_stream h = true) (root_handlers r)).

(** Each set-up adds a file handler: after [n] of them every record is written to
    the file [n] times, while the standard output has one handler. *)
Theorem setup_logging_repeats upper cwd ob root n :
  str_truthy (ob_log_dir ob) = true → upper (ob_log_level ob) ≠ "BASIC_FORMAT" → root_handlers root = [] →
  let root' := Nat.iter n (λ r, (setup_logging upper cwd ob r).2) root in
  file_handlers (absolute_dir cwd (ob_log_dir ob)) root' = n ∧ stream_handlers root' = Nat.min n 1.
Proof.
  intros Hd Hl Hr. cbn zeta.
  assert (∀ l, existsb is_stream l = bool_decide (0 < length (filter (λ h, is_stream h = true) l))%nat) as Hex.
  { intros l. induction l as [|h l IH]; [done|]. rewrite filter_cons. simpl. rewrite IH. destruct (is_stream h) eqn:Hh.
    - rewrite decide_True by done. symmetry. apply bool_decide_eq_true. simpl. lia.
    - by rewrite decide_False by done. }
  induction n as [|n [IH1 IH2]].
  { unfold file_handlers, stream_handlers. simpl. by rewrite Hr. }
  rewrite Nat.iter_succ. set (r := Nat.iter n _ root) in *. cbv beta.
  destruct (setup_logging_run upper cwd ob r Hd Hl) as [level ->]. unfold file_handlers, stream_handlers in *. cbn [snd root_handlers].
  rewrite !filter_app, !length_app, IH1, IH2, Hex, IH2. rewrite !filter_cons_True by done. rewrite filter_nil.
  destruct n as [|n]; [simpl; lia|]. rewrite bool_decide_eq_true_2 by lia. rewrite !filter_nil. simpl. lia.
Qed.

(** ** Witnesses: floats written as numbers of their parts *)
Module FloatDemo.
Definition parts (f : f64) : Z * bool * positive * Z :=
  match f with
  | S754_zero s => (0, s, xH, 0) | S754_infinity s => (1, s, xH, 0) | S754_nan => (2, false, xH, 0)
  | S754_finite s m e => (3, s, m, e)
  end.
Definition of_parts (p : Z * bool * positive * Z) : f64 :=
  let '(k, s, m, e) := p in
  if k =? 0 then S754_zero s else if k =? 1 then S754_infinity s else if k =? 2 then S754_nan else S754_finite s m e.
#[export] Instance demo_repr : FloatRepr := {
  float_repr f := "f" +:+ str_of_Z (Zpos (encode (parts f)));
  float_read s := match s with String _ r => of_parts <$> decode (Z.to_pos (digits_value 0 r)) | "" => None end }.
#[export] Instance demo_repr_laws : FloatReprLaws.
Proof.
  split.
  - intros f. unfold float_repr, demo_repr. set (z := Zpos _). destruct (str_of_nonneg z) as [Hd _]; [lia|].
    rewrite str_app_cons. unfold str_chars in *. cbn [String.list_ascii_of_string forallb]. apply andb_true_iff. split; [done|].
    change ("" +:+ str_of_Z z) with (str_of_Z z). rewrite forallb_forall in *. intros c Hc. specialize (Hd c Hc).
    clear -Hd. destruct c as [[] [] [] [] [] [] [] []]; first [done|by vm_compute in Hd].
  - intros f. by split_and!.
  - intros f. unfold float_repr, float_read, demo_repr. rewrite str_app_cons.
    change ("" +:+ ?s) with s. rewrite str_of_Z_value by lia. rewrite Pos2Z.id, decode_encode. cbn [fmap option_fmap option_map].
    f_equal. by destruct f.
Qed.
End FloatDemo.
Import FloatDemo.

(** A message over two lines with a quotation mark, of a request that took a while. *)
Definition demo_record : LogRecord :=
  mkLogRecord "ERROR" "app" (Ret ("two" +:+ String (ascii_of_nat 10) "lines" +:+ String (ascii_of_nat 34) "")) (Some "Traceback") "t".
Definition demo_ctx : Ctx := set_status (Some 500) (Some (f_of_Z 12)) (set_request_id (Some "r-1") ctx_default).
Lemma json_log_line_witness :
  let now := mkDateTime (738000 * DAY) (Some UTC) in
  ∃ line timestamp, json_format now demo_ctx demo_record = Ret line ∧ printable line = true ∧
    parse_utc timestamp = Some (instant now / 1000).
Proof.
  intros now. assert (in_range (instant now) = true) as Hi by (vm_compute; reflexivity).
  assert (in_range (wall now) = true) as Hw by (vm_compute; reflexivity).
  destruct (json_log_line now demo_ctx demo_record _ Hi Hw eq_refl) as (line&ts&H1&H2&H3&_).
  exists line, ts. split; [exact H1|]. split; [exact H2|exact H3].
Defined.
