(* ===== verification/Tracing.v ===== *)
(** Tracing: [src/app/platform/observability/tracing.py], as the calls it makes to
    OpenTelemetry, which are taken to return. ([sync_trace_context] is in
    Middleware.) *)
From S2P Require Import Prelude PyText PyStr PyFloat Settings.
Open Scope Z_scope.

(** What is asked of OpenTelemetry: a provider with its resource, sampling ratio
    and the endpoint of its exporter; the instrumentation of the application and
    of the HTTP client; the shutdown of the current provider. *)
Inductive OtelCall :=
| SetTracerProvider (resource : list (string * string)) (ratio : f64) (exporter : option string)
| InstrumentApp
| InstrumentHttpClient
| ShutdownProvider.
#[export] Instance OtelCall_eq_dec : EqDecision OtelCall. Proof. solve_decision. Defined.

Record TracingState := mkTracing { _tracing_initialized : bool; otel_calls : list OtelCall }.
Definition tracing_init : TracingState := mkTracing false [].
Definition call_otel (c : OtelCall) : io TracingState () :=
  modify (λ t, mkTracing (_tracing_initialized t) (otel_calls t ++ [c])).

Definition is_provider (c : OtelCall) : bool := match c with SetTracerProvider _ _ _ => true | _ => false end.
(** [trace.get_tracer_provider()] can be shut down: a provider was set. *)
Definition provider_set (t : TracingState) : bool := existsb is_provider (otel_calls t).

Section tracing.
(** Are the dependencies installed, and does [TraceIdRatioBased] take the ratio? *)
Context (installed : bool) (sampler : f64 → outcome ()).
Context (ob : ObservabilitySettings).

Definition tracing_enabled : bool := ob_enabled ob && ob_tracing_enabled ob.

Definition resource : list (string * string) :=
  [("service.name", ob_service_name ob); ("service.version", ob_service_version ob);
   ("deployment.environment", ob_environment ob)].
Definition exporter : option string :=
  if ob_otlp_enabled ob && str_truthy (ob_otlp_endpoint ob)
  then Some (rstrip_char "/" (ob_otlp_endpoint ob) +:+ "/v1/traces") else None.

(** [init_tracing(app)]; [app] says whether there is an application. *)
Definition init_tracing (app : bool) : io TracingState () :=
  t ← get;
  if _tracing_initialized t || negb tracing_enabled then mret ()
  else if negb installed then mret ()
  else
    _ ← lift (sampler (ob_sample_ratio ob));
    _ ← call_otel (SetTracerProvider resource (ob_sample_ratio ob) exporter);
    _ ← (if app then call_otel InstrumentApp else mret ());
    _ ← (if ob_http_client_observability_enabled ob then call_otel InstrumentHttpClient else mret ());
    modify (λ t, mkTracing true (otel_calls t)).

Definition shutdown_tracing : io TracingState () :=
  t ← get;
  if installed && provider_set t then call_otel ShutdownProvider else mret ().

(** ** Tracing is set up once *)
Lemma init_tracing_run app t :
  init_tracing app t =
    if _tracing_initialized t || negb tracing_enabled || negb installed then (Ret (), t)
    else match sampler (ob_sample_ratio ob) with
         | Raise e => (Raise e, t)
         | Ret _ => (Ret (), mkTracing true (otel_calls t ++ [SetTracerProvider resource (ob_sample_ratio ob) exporter] ++
             (if app then [InstrumentApp] else []) ++
             (if ob_http_client_observability_enabled ob then [InstrumentHttpClient] else [])))
         end.
Proof.
  unfold init_tracing, mbind, io_bind, get, lift, call_otel, modify, mret, io_ret. simpl.
  destruct (_tracing_initialized t), tracing_enabled, installed; simpl; try done.
  destruct (sampler (ob_sample_ratio ob)); [|done].
  destruct app, (ob_http_client_observability_enabled ob); simpl; by rewrite <- ?app_assoc, ?app_nil_r.
Qed.

(** However often it is set up, there is one provider and one instrumentation; with
    tracing off, or without OpenTelemetry, nothing is called; a sampling ratio that
    is refused leaves the state as it was, to be tried again. *)
Theorem tracing_once apps t :
  otel_calls t = [] → _tracing_initialized t = false →
  let t' := foldl (λ t app, (init_tracing app t).2) t apps in
  otel_calls t' = [] ∧ _tracing_initialized t' = false ∧
    (tracing_enabled && installed = false ∨ apps = [] ∨ ∃ e, sampler (ob_sample_ratio ob) = Raise e) ∨
  ∃ app, head apps = Some app ∧ _tracing_initialized t' = true ∧ tracing_enabled = true ∧ installed = true ∧
    otel_calls t' = [SetTracerProvider resource (ob_sample_ratio ob) exporter] ++
      (if app then [InstrumentApp] else []) ++
      (if ob_http_client_observability_enabled ob then [InstrumentHttpClient] else []).
Proof.
  intros Hc Hi. cbn zeta.
  assert (∀ l t, (∀ app, (init_tracing app t).2 = t) → foldl (λ t app, (init_tracing app t).2) t l = t) as Hfix.
  { intros l t0 Hf. induction l as [|a l IH]; [done|]. cbn [foldl]. by rewrite Hf. }
  destruct (tracing_enabled && installed) eqn:Hon.
  2:{ left. rewrite Hfix; [by eauto|]. intros app. rewrite init_tracing_run. rewrite <- orb_assoc, <- negb_andb, Hon.
      by rewrite orb_true_r. }
  destruct apps as [|app apps]; [left; by eauto|]. destruct (sampler (ob_sample_ratio ob)) as [[]|e] eqn:Hs.
  2:{ left. rewrite Hfix; [by eauto 6|]. intros a. rewrite init_tracing_run, Hi, Hs. by destruct (_ || _). }
  right. exists app. split; [done|]. cbn [foldl]. rewrite init_tracing_run, Hi, Hs.
  apply andb_true_iff in Hon as [-> ->]. cbn [orb negb snd]. rewrite Hc, Hfix; [done|].
  intros a. by rewrite init_tracing_run.
Qed.
End tracing.
