(* ===== verification/AppFactory.v ===== *)
(** The construction of the application: [src/app/factory.py], with
    [get_api_router] of [platform/module/router.py], [middleware/cors.py] and
    [platform/observability/manager.py]. FastAPI keeps what it is given. *)
From S2P Require Import Prelude PyText PyStr PyFloat PyList ModuleSpecs ModuleLoader ModuleProofs ModuleWitness Settings Metrics AuditQueue AccessControl RateLimit Middleware Tracing LogFormat OpenApi.
Open Scope Z_scope.

(** ** The application object *)
Inductive MwClass :=
| TraceMiddleware | SecurityHeadersMiddleware | AccessLogMiddleware | OperationAuditMiddleware
| RateLimitMiddleware | AuthContextMiddleware | CORSMiddleware (settings : CorsSettings).
(** The classes with an exception handler, and the routes in the order in which
    they are tried. *)
Inductive HandledClass := AppErrorClass | RequestValidationErrorClass | StarletteHTTPExceptionClass | ExceptionClass.
Inductive AppRoute (Router : Type) := MetricsRoute (path : string) | RootRoute | RouterRoutes (router : Router).
Arguments MetricsRoute {Router}. Arguments RootRoute {Router}. Arguments RouterRoutes {Router}.

Record FastApp (Router : Type) := mkFastApp {
  fa_title : string; fa_docs_url : option string; fa_redoc_url : option string; fa_openapi_url : option string;
  fa_middleware : list MwClass;        (* in the order of [add_middleware] *)
  fa_handlers : list HandledClass;
  fa_openapi : bool;                   (* [app.openapi] is replaced *)
  fa_routes : list (AppRoute Router) }.
Arguments mkFastApp {Router}. Arguments fa_title {Router}. Arguments fa_docs_url {Router}. Arguments fa_redoc_url {Router}.
Arguments fa_openapi_url {Router}. Arguments fa_middleware {Router}. Arguments fa_handlers {Router}.
Arguments fa_openapi {Router}. Arguments fa_routes {Router}.

Record FactorySettings := mkFactorySettings {
  fs_app : AppSettings; fs_swagger_enabled : bool; fs_cors : CorsSettings; fs_observability : ObservabilitySettings }.

(** What construction reads and writes: the root logger, tracing, the modules with
    their cache, the cached API routers and the service registry. *)
Record AssemblyWorld {IW Obj Router : Type} := mkAssembly {
  aw_root : Root; aw_tracing : TracingState; aw_mods : MWorld IW; aw_routers : gmap string Router;
  aw_services : gmap string Obj }.
Arguments AssemblyWorld : clear implicits.

Section factory.
Context {IW Obj Router : Type} `{Importlib IW Obj, !ModuleApi IW Obj Router}.
Context (set_iter : gset string → list string) (upper : string → string) (cwd : string).
Context (installed : bool) (sampler : f64 → outcome ()) (fs : FactorySettings).
Notation AW := (AssemblyWorld IW Obj Router).

Definition on_root {A} (m : io Root A) : io AW A := λ w,
  let '(o, r) := m (aw_root w) in (o, mkAssembly _ _ _ r (aw_tracing w) (aw_mods w) (aw_routers w) (aw_services w)).
Definition on_tracing {A} (m : io TracingState A) : io AW A := λ w,
  let '(o, t) := m (aw_tracing w) in (o, mkAssembly _ _ _ (aw_root w) t (aw_mods w) (aw_routers w) (aw_services w)).
Definition on_mods {A} (m : io (MWorld IW) A) : io AW A := λ w,
  let '(o, s) := m (aw_mods w) in (o, mkAssembly _ _ _ (aw_root w) (aw_tracing w) s (aw_routers w) (aw_services w)).
(** Code that imports and registers. *)
Definition on_import {A} (m : io (IW * gmap string Obj) A) : io AW A := λ w,
  let '(o, (i, s)) := m (interp (aw_mods w), aw_services w) in
  (o, mkAssembly _ _ _ (aw_root w) (aw_tracing w) (mkMWorld (environ (aw_mods w)) (specs_cache (aw_mods w)) i) (aw_routers w) s).
Definition set_routers (rs : gmap string Router) (w : AW) : AW :=
  mkAssembly _ _ _ (aw_root w) (aw_tracing w) (aw_mods w) rs (aw_services w).

(** router.py: [@lru_cache] keeps what a call returned. *)
Definition get_api_router (package_name : string) : io AW Router :=
  w ← get;
  match aw_routers w !! package_name with
  | Some router => mret router
  | None =>
      specs ← on_mods (load_module_specs set_iter package_name);
      router ← on_mods (with_interp (build_api_router specs));
      _ ← modify (λ w, set_routers (<[package_name := router]> (aw_routers w)) w);
      mret router
  end.

(** manager.py: the route it adds, if any. *)
Definition setup_observability : io AW (list (AppRoute Router)) :=
  let ob := fs_observability fs in
  _ ← (if ob_enabled ob then on_tracing (init_tracing installed sampler ob true) else mret ());
  mret (if metrics_enabled ob then [MetricsRoute (ob_metrics_path ob)] else []).

(** cors.py *)
Definition add_cors (mws : list MwClass) : list MwClass := mws ++ [CORSMiddleware (fs_cors fs)].

Definition when_swagger (url : string) : option string := if fs_swagger_enabled fs then Some url else None.

Definition create_app : io AW (FastApp Router) :=
  _ ← on_root (setup_logging upper cwd (fs_observability fs));
  api_router ← get_api_router "app.modules";
  specs ← on_mods (load_module_specs set_iter "app.modules");
  _ ← on_import (register_services specs);
  let mws := add_cors [TraceMiddleware; SecurityHeadersMiddleware; AccessLogMiddleware; OperationAuditMiddleware;
                       RateLimitMiddleware; AuthContextMiddleware] in
  metrics ← setup_observability;
  mret (mkFastApp (app_name (fs_app fs)) (when_swagger "/docs") (when_swagger "/redoc") (when_swagger "/openapi.json")
          mws [AppErrorClass; RequestValidationErrorClass; StarletteHTTPExceptionClass; ExceptionClass] true
          (metrics ++ [RootRoute; RouterRoutes api_router])).

(** ** One set of modules *)
Lemma load_module_specs_cached package_name m specs m' :
  load_module_specs set_iter package_name m = (Ret specs, m') →
  environ m' = environ m ∧ specs_cache m' !! _resolve_package_names (environ m) package_name = Some specs.
Proof.
  unfold load_module_specs, _load_module_specs_cached, mbind, io_bind, get, mret, io_ret.
  destruct (specs_cache m !! _) as [specs'|] eqn:Hc; [by intros [= <- <-]|].
  unfold with_interp. destruct (load_uncached _ _ _ _) as [[specs'|e] i']; [|done].
  intros [= <- <-]. simpl. by rewrite lookup_insert_eq.
Qed.
Lemma load_module_specs_hit package_name m specs :
  specs_cache m !! _resolve_package_names (environ m) package_name = Some specs →
  load_module_specs set_iter package_name m = (Ret specs, m).
Proof. intros Hc. unfold load_module_specs, _load_module_specs_cached, mbind, io_bind, get. by rewrite Hc. Qed.

Lemma on_mods_Ret {A} (m : io (MWorld IW) A) w a w' :
  on_mods m w = (Ret a, w') → ∃ s, m (aw_mods w) = (Ret a, s) ∧ w' = mkAssembly _ _ _ (aw_root w) (aw_tracing w) s (aw_routers w) (aw_services w).
Proof. unfold on_mods. destruct (m (aw_mods w)) as [o s]. intros [= -> <-]. by eexists. Qed.

Lemma with_interp_Ret {A} (m : io IW A) (s : MWorld IW) a s' :
  with_interp m s = (Ret a, s') → m (interp s) = (Ret a, interp s') ∧ environ s' = environ s ∧ specs_cache s' = specs_cache s.
Proof. unfold with_interp. destruct (m (interp s)) as [o i]. by intros [= -> <-]. Qed.

Definition modules_key (w : AW) : list string := _resolve_package_names (environ (aw_mods w)) "app.modules".

(** The application is built from one set of modules, loaded once: the routes the
    application answers are those of the API router of exactly the modules whose
    services are registered, and, when the cache of earlier loads is sound, these
    modules have distinct names, are enabled and come after what they depend on.
    The metrics route, if any, comes before the root and the modules' routes, and
    without Swagger there are no documentation pages. *)
Theorem create_app_one_load w app w' :
  aw_routers w = ∅ → create_app w = (Ret app, w') →
  ∃ specs router i1 i2 i3,
    specs_cache (aw_mods w') !! modules_key w = Some specs ∧
    build_api_router specs i1 = (Ret router, i2) ∧
    register_services specs (i2, aw_services w) = (Ret (), (i3, aw_services w')) ∧
    fa_routes app = (if metrics_enabled (fs_observability fs) then [MetricsRoute (ob_metrics_path (fs_observability fs))] else [])
                    ++ [RootRoute; RouterRoutes router] ∧
    (cache_ok (aw_mods w) → loaded_ok (environ (aw_mods w)) specs) ∧
    (fs_swagger_enabled fs = false → fa_docs_url app = None ∧ fa_redoc_url app = None ∧ fa_openapi_url app = None).
Proof.
  intros Hr Hrun. unfold create_app in Hrun. apply bind_Ret_inv in Hrun as ([]&w1&H1&Hrun).
  assert (aw_mods w1 = aw_mods w ∧ aw_routers w1 = ∅ ∧ aw_services w1 = aw_services w) as (Hm1&Hr1&Hs1).
  { unfold on_root in H1. destruct (setup_logging _ _ _ _) as [o r]. injection H1 as _ <-. done. }
  apply bind_Ret_inv in Hrun as (router&w2&H2&Hrun). unfold get_api_router in H2.
  apply bind_Ret_inv in H2 as (w1'&w1''&Hg&H2). injection Hg as <- <-. rewrite Hr1, lookup_empty in H2.
  apply bind_Ret_inv in H2 as (specs&w3&H3&H2). apply on_mods_Ret in H3 as (m3&H3&->).
  apply bind_Ret_inv in H2 as (router'&w4&H4&H2). apply on_mods_Ret in H4 as (m4&H4&->). cbn [aw_mods] in H4.
  apply with_interp_Ret in H4 as (H4&He4&Hc4). apply bind_Ret_inv in H2 as ([]&w5&H5&H2).
  injection H5 as <-. injection H2 as <- <-. unfold set_routers in Hrun. cbn [aw_mods aw_root aw_tracing aw_routers aw_services] in Hrun.
  pose proof (load_module_specs_cached _ _ _ _ H3) as [He3 Hc3]. rewrite Hm1 in *.
  apply bind_Ret_inv in Hrun as (specs'&w6&H6&Hrun). apply on_mods_Ret in H6 as (m6&H6&->). cbn [aw_mods] in H6.
  rewrite (load_module_specs_hit _ _ specs) in H6 by (by rewrite Hc4, He4, He3). injection H6 as <- <-.
  apply bind_Ret_inv in Hrun as ([]&w7&H7&Hrun). unfold on_import in H7. cbn in H7. rewrite Hs1 in H7.
  destruct (register_services specs (interp m4, aw_services w)) as [o [i3 s3]] eqn:Hreg. injection H7 as -> <-.
  apply bind_Ret_inv in Hrun as (metrics&w8&H8&Hrun). injection Hrun as <- <-.
  assert (metrics = (if metrics_enabled (fs_observability fs) then [MetricsRoute (ob_metrics_path (fs_observability fs))] else []) ∧
    specs_cache (aw_mods w8) = specs_cache m4 ∧ aw_services w8 = s3) as (->&Hc8&Hs8).
  { unfold setup_observability in H8. apply bind_Ret_inv in H8 as ([]&w9&H9&H8). injection H8 as <- <-.
    split; [done|]. destruct (ob_enabled (fs_observability fs)).
    - unfold on_tracing in H9. destruct (init_tracing _ _ _ _ _) as [o t]. by injection H9 as -> <-.
    - by injection H9 as <-. }
  exists specs, router', (interp m3), (interp m4), i3. split_and!; [|exact H4|by rewrite Hs8|done| |].
  - by rewrite Hc8, Hc4.
  - intros Hok. pose proof (load_module_specs_inv set_iter "app.modules" (aw_mods w) Hok) as Hl. rewrite H3 in Hl. apply Hl.
  - intros Hsw. cbn. unfold when_swagger. by rewrite Hsw.
Qed.
End factory.

(** ** The stack of middlewares is the one of Middleware, inside CORS *)
Section stack.
Context {E Ip Net : Type} `{HttpEnv E} `{IpAddress Ip Net}.
Context (ob : ObservabilitySettings) (trusted_proxy_ips : list string) (operation_queue_size : Z) (too_many : Z → Response).
Definition dispatch_of (m : MwClass) : option (HttpRequest → App → App (E:=E)) :=
  match m with
  | TraceMiddleware => Some (trace trusted_proxy_ips)
  | SecurityHeadersMiddleware => Some security_headers
  | AccessLogMiddleware => Some (access_log ob)
  | OperationAuditMiddleware => Some (operation_audit operation_queue_size)
  | RateLimitMiddleware => Some (rate_limit too_many)
  | AuthContextMiddleware => Some auth_context
  | CORSMiddleware _ => None
  end.

(** The classes [create_app] adds are the stack of Middleware, in its order. *)
Lemma stack_is_middlewares cors :
  omap dispatch_of (add_cors (mkFactorySettings AppSettings_default true cors ob)
    [TraceMiddleware; SecurityHeadersMiddleware; AccessLogMiddleware; OperationAuditMiddleware;
     RateLimitMiddleware; AuthContextMiddleware]) =
  middlewares ob trusted_proxy_ips operation_queue_size too_many.
Proof. reflexivity. Qed.
End stack.

(** ** Witness: the three modules of ModuleWitness *)
Module FactoryDemo.
Import ModDemo.
#[export] Instance demo_api : ModuleApi () obj (list string) := {
  call_hook _ := mret ONone; isawaitable _ := false; await_obj _ := mret (); is_APIRouter _ := true;
  new_APIRouter := []; include_router r _ p _ := mret (r ++ [p]) }.
Definition settings : FactorySettings :=
  mkFactorySettings AppSettings_default false CorsSettings_default ObservabilitySettings_default.
Definition fresh_world : AssemblyWorld () obj (list string) :=
  mkAssembly _ _ _ (mkRoot [] 30) tracing_init world ∅ ∅.
Definition build := create_app (Obj:=obj) elements (λ s, s) "/srv" false (λ _, Ret ()) settings fresh_world.
End FactoryDemo.

Lemma create_app_one_load_witness :
  ∃ app w' specs, FactoryDemo.build = (Ret app, w') ∧
    specs_cache (aw_mods w') !! modules_key FactoryDemo.fresh_world = Some specs ∧
    loaded_ok ModDemo.env specs ∧ fa_docs_url app = None.
Proof.
  destruct FactoryDemo.build as [o w'] eqn:Hb.
  assert (∃ app, o = Ret app) as [app ->].
  { apply (f_equal fst) in Hb. vm_compute in Hb. subst o. eexists. reflexivity. }
  destruct (create_app_one_load (Obj:=ModDemo.obj) elements (λ s, s) "/srv" false (λ _, Ret ()) FactoryDemo.settings
    FactoryDemo.fresh_world app w' eq_refl Hb) as (specs & router & i1 & i2 & i3 & H1 & _ & _ & _ & H2 & H3).
  exists app, w', specs. split; [reflexivity|]. split; [exact H1|]. split.
  - apply H2. intros names specs' Hl. change (specs_cache _) with (∅ : gmap (list string) (list ModuleSpec)) in Hl.
    rewrite lookup_empty in Hl. discriminate.
  - exact (proj1 (H3 eq_refl)).
Defined.
