(* ===== verification/WorkerProcess.v ===== *)
(** The life of a worker process: the hooks of
    [src/app/platform/tasks/celery_app.py] over the persistent event loop of
    AsyncRunner and the Redis handle of Lifespan, and the registration of the
    sandbox pool's metrics, [init] of [src/app/modules/judge/pool_metrics.py]. *)
From S2P Require Import Prelude PyText PyStr PyFloat Settings Metrics ModuleSpecs ModuleLoader Permissions AuditQueue Encoding ConfigValues ConfigSync Lifespan AsyncRunner WorkerTasks.

Section process.
Context {E : Type} `{!ClientApi (E:=E)}.















End process.

(** ** pool_metrics.init *)

(** [SandboxClient]: can it be imported, does it take callbacks for its pool, and
    has it a pool already? What was registered on pools. *)
Record SandboxClass := mkSandboxClass { sb_importable : bool; sb_takes_callback : bool; sb_pool : option nat }.
Inductive PoolWish := OnCreation | OnPool (pool : nat).
Definition pool_metrics_init (sb : SandboxClass) : list PoolWish :=
  if negb (sb_importable sb) then []
  else if sb_takes_callback sb then [OnCreation]
  else match sb_pool sb with Some p => [OnPool p] | None => [] end.

(** ** Witness: a worker whose Redis was started *)
Import SyncDemo LifeDemo.
