(* ===== verification/OpsScripts.v ===== *)
(** The entry points and the operational scripts: app/main.py, gunicorn.conf.py,
    scripts/ops/docker_sandbox_smoke.py and scripts/ops/bench_judge_burst.py with the
    helper of tests/judge_helper.py it calls.

    What the scripts print is kept as the list of printed items, a line of numbers as
    the numbers. The sandbox library, Celery's result handles and the clock are
    parameters; times are microseconds. *)
From S2P Require Import Prelude PyText PyStr PyFloat Sandbox Settings.
Open Scope Z_scope.

(** ** app/main.py: the import path when the file is run as a script *)
Definition main_sys_path (package : option string) (resolve : string → string) (app_dir project_root : string)
    (sys_path : list string) : list string :=
  if bool_decide (package = None ∨ package = Some "") then
    project_root :: filter (λ p, resolve (if str_truthy p then p else ".") ≠ app_dir) sys_path
  else sys_path.

(** ** gunicorn.conf.py *)
Definition gunicorn_workers (app : AppSettings) (cpu_count : option Z) : Z :=
  if 0 <? app_workers app then app_workers app else Z.min (z_or cpu_count 1) (app_worker_max app).
Definition gunicorn_bind (app : AppSettings) : string := app_host app +:+ ":" +:+ str_of_Z (app_port app).

(** There is a worker as soon as the settings allow one, and the default never
    exceeds the processors nor the limit. *)
Lemma gunicorn_workers_range app cpu_count :
  (∀ n, cpu_count = Some n → 0 ≤ n) → 1 ≤ app_worker_max app →
  1 ≤ gunicorn_workers app cpu_count ∧
  (app_workers app ≤ 0 → gunicorn_workers app cpu_count ≤ app_worker_max app ∧
                         gunicorn_workers app cpu_count ≤ z_or cpu_count 1).
Proof.
  intros Hcpu Hmax. unfold gunicorn_workers. destruct (Z.ltb_spec 0 (app_workers app)); [lia|].
  assert (1 ≤ z_or cpu_count 1).
  { destruct cpu_count as [n|]; simpl; [|lia]. specialize (Hcpu n eq_refl). destruct (Z.eqb_spec n 0); lia. }
  lia.
Qed.

(** ** docker_sandbox_smoke.py *)

(** The arguments of the constructors of the sandbox library; [None] is an argument
    that is not passed. *)
Record SmokeLimits := mkSmokeLimits {
  sl_cpu_time_ms : Z; sl_real_time_ms : Z; sl_processes : Z; sl_memory_bytes : Z; sl_output_bytes : option Z }.
Record SmokeCommand := mkSmokeCommand {
  sc_argv : list string; sc_env : option (list string); sc_seccomp : string;
  sc_memory_limit_check_only : bool; sc_limits : option SmokeLimits }.
Inductive SmokeLanguage :=
| SmokeCompiled (id : string) (compile_argv run_argv : list string)
| SmokeScript (id : string) (argv : list string)
| SmokeSpec (id source_filename exe_filename : string) (compile run : SmokeCommand).

Definition MB : Z := 1024 * 1024.
Definition smoke_langs : list SmokeLanguage :=
  [SmokeCompiled "cpp17" ["/usr/bin/g++"; "-std=c++17"; "-O2"; "-o"; "{exe}"; "{source}"] ["{exe}"];
   SmokeScript "python3" ["/usr/bin/python3"; "{source}"];
   SmokeSpec "java17" "Main.java" "Main"
     (mkSmokeCommand
        ["/usr/bin/javac"; "-J-Xmx192m"; "-J-XX:CompressedClassSpaceSize=32m"; "-J-XX:+UseSerialGC"; "-encoding";
         "UTF-8"; "{source}"]
        None "none" true (Some (mkSmokeLimits 30000 60000 256 (512 * MB) None)))
     (mkSmokeCommand
        ["/usr/bin/java"; "-Xmx64m"; "-Xss256k"; "-XX:CompressedClassSpaceSize=32m"; "-XX:+UseSerialGC"; "-cp"; ".";
         "Main"] None "none" true None);
   SmokeSpec "go" "main.go" "main"
     (mkSmokeCommand ["/usr/bin/go"; "build"; "-o"; "{exe}"; "{source}"]
        (Some ["GOCACHE=/tmp/go-cache"; "GOPROXY=off"; "GO111MODULE=off"]) "none" true
        (Some (mkSmokeLimits 30000 60000 256 (512 * MB) (Some (64 * MB)))))
     (mkSmokeCommand ["{exe}"] None "none" true None)].
Definition high_mem : SmokeLimits := mkSmokeLimits 5000 10000 256 (512 * MB) (Some (64 * MB)).

Definition NL : string := of_chars [ascii_of_nat 10].
Definition QUOTE : string := of_chars [ascii_of_nat 34].
Definition BACKSLASH : string := of_chars [ascii_of_nat 92].
Definition quoted (s : string) : string := QUOTE +:+ s +:+ QUOTE.
Definition smoke_cases : list (string * string) :=
  [("cpp17", "#include <iostream>" +:+ NL +:+ "int main(){std::cout<<" +:+ quoted ("ok" +:+ BACKSLASH +:+ "n") +:+ ";}" +:+ NL);
   ("python3", "print(" +:+ quoted "ok" +:+ ")" +:+ NL);
   ("java17", "public class Main{public static void main(String[] a){System.out.println(" +:+ quoted "ok" +:+ ");}}" +:+ NL);
   ("go", "package main" +:+ NL +:+ "import " +:+ quoted "fmt" +:+ NL +:+ "func main(){fmt.Println(" +:+ quoted "ok" +:+ ")}" +:+ NL)].

(** The sandbox library: a client over the languages, and a run with its status, the
    text that [status.value] or [str(status)] gives and the text of the result. *)
Class SmokeApi (W Client Result : Type) := {
  open_client : list SmokeLanguage → io W Client;
  run_source : Client → string → string → SmokeLimits → io W Result;
  res_status : Result → Status;
  res_status_text : Result → string;
  res_text : Result → string }.

Inductive SmokeLine := SmokeBinary (p : string) (exists_ : bool) | SmokeStatus (lang status : string) | SmokeOk.

Section smoke.
Context {W Client Result : Type} `{!SmokeApi W Client Result}.

Definition emit {L} (l : L) : io (list L * W) () := modify (λ lw, (lw.1 ++ [l], lw.2)).

Definition smoke_case (client : Client) (case : string * string) : io (list SmokeLine * W) () :=
  result ← up (run_source client case.1 case.2 high_mem);
  _ ← emit (SmokeStatus case.1 (res_status_text result));
  if status_eqb (res_status result) StAC then mret ()
  else raise (BaseExc ("SystemExit: FAIL " +:+ case.1 +:+ ": " +:+ res_text result)).

Definition smoke_main (environ : string → option string) (path_exists : string → bool) : io (list SmokeLine * W) () :=
  match environ "ACOJ_SANDBOX_BINARY" with
  | None => raise (KeyError "ACOJ_SANDBOX_BINARY")
  | Some binary =>
      _ ← emit (SmokeBinary binary (path_exists binary));
      client ← up (open_client smoke_langs);
      _ ← foreach smoke_cases () (λ _ case, smoke_case client case);
      emit SmokeOk
  end.

Lemma up_run {A} (m : io W A) (ls : list SmokeLine) w : up m (ls, w) = ((m w).1, (ls, (m w).2)).
Proof. unfold up. simpl. by destruct (m w). Qed.

(** The lines of runs that were all accepted. *)
Lemma smoke_loop client cases ls w lw :
  foreach cases () (λ _ case, smoke_case client case) (ls, w) = (Ret (), lw) →
  ∃ results, Forall (λ r, res_status r = StAC) results ∧ length results = length cases ∧
    lw.1 = ls ++ zip_with (λ c r, SmokeStatus c.1 (res_status_text r)) cases results.
Proof.
  revert ls w. induction cases as [|c cases IH]; intros ls w; simpl.
  { intros [= <-]. exists []. by rewrite app_nil_r. }
  intros ([] & [ls1 w1] & Hc & Hrest)%bind_Ret_inv. unfold smoke_case in Hc.
  apply bind_Ret_inv in Hc as (r & [ls2 w2] & Hrun & Hc). rewrite up_run in Hrun. injection Hrun as Hrun <- <-.
  erewrite run_ret in Hc by reflexivity. destruct (status_eqb (res_status r) StAC) eqn:Hst; [|done].
  injection Hc as <- <-. destruct (IH _ _ Hrest) as (rs & Hac & Hlen & Hls). exists (r :: rs).
  split_and!; [|simpl; congruence|].
  - constructor; [|done]. by apply bool_decide_eq_true in Hst.
  - rewrite Hls. simpl. by rewrite <-(assoc_L (++)).
Qed.

(** [SANDBOX_OK] is honest: when the script ends normally, its last line is the only
    one of that kind, and before it there is one accepted run of each of the four
    languages, in order. *)
Theorem smoke_ok environ path_exists w lw :
  smoke_main environ path_exists ([], w) = (Ret (), lw) →
  ∃ binary results, environ "ACOJ_SANDBOX_BINARY" = Some binary ∧
    Forall (λ r, res_status r = StAC) results ∧ length results = length smoke_cases ∧
    lw.1 = SmokeBinary binary (path_exists binary) ::
           zip_with (λ c r, SmokeStatus c.1 (res_status_text r)) smoke_cases results ++ [SmokeOk].
Proof.
  unfold smoke_main. destruct (environ _) as [binary|]; [|done]. erewrite run_ret by reflexivity.
  intros (client & [ls1 w1] & Ho & Hm)%bind_Ret_inv. rewrite up_run in Ho. injection Ho as _ <- <-.
  apply bind_Ret_inv in Hm as ([] & lw1 & Hl & Hm). destruct (smoke_loop _ _ _ _ _ Hl) as (rs & Hac & Hlen & Hls).
  exists binary, rs. split_and!; [done|done|done|]. injection Hm as <-. simpl. by rewrite Hls.
Qed.
End smoke.

(** ** bench_judge_burst.py *)

(** The values of a payload. *)
Inductive Py := PStr (s : string) | PInt (z : Z) | PFloat (f : f64) | PBool (b : bool)
  | PList (l : list Py) | PDict (d : list (string * Py)).

Definition LANG_PYTHON3 : list (string * Py) :=
  [("key", PStr "python3"); ("name", PStr "Python 3"); ("extension", PStr ".py");
   ("compile_command", PStr ""); ("run_command", PStr "/usr/bin/python3 {source}")].

(** [build_payload] without extra fields; an empty language is left out. *)
Definition build_payload (sid judge_mode source : string) (language : list (string * Py))
    (test_cases : list Py) : Py :=
  PDict ([("submission_id", PStr sid); ("judge_mode", PStr judge_mode);
          ("problem", PDict [("code", PStr "v-test"); ("time_limit_ms", PInt 2000); ("memory_limit_kb", PInt 262144);
                             ("points", PFloat (f_of_Z 100)); ("partial", PBool false)]);
          ("source", PStr source); ("test_cases", PList test_cases)] ++
         match language with [] => [] | _ => [("language", PDict language)] end).

Definition burst_source : string :=
  "import sys" +:+ NL +:+ "print(sys.stdin.read(), end=" +:+ QUOTE +:+ QUOTE +:+ ")" +:+ NL.
Definition burst_payload (uuid_hex : string) (i : Z) : Py :=
  build_payload ("burst-" +:+ str_take 10 uuid_hex +:+ "-" +:+ str_of_Z i) "STANDARD" burst_source LANG_PYTHON3
    [PDict [("case_no", PInt 1); ("points", PFloat (f_of_Z 100)); ("time_limit_ms", PInt 1000);
            ("memory_limit_kb", PInt 65536); ("input_inline", PStr (str_of_Z i +:+ NL));
            ("output_inline", PStr (str_of_Z i +:+ NL))]].

(** What a result is read for. *)
Record Reply := mkReply { re_result : option string; re_error : option string; re_status : option string }.
Definition error_reply (msg : string) : Reply := mkReply None (Some msg) None.

Class BurstApi (W AsyncResult : Type) := {
  uuid4_hex : io W string;
  (** [time.time()] and [time.perf_counter()]: the clock moves on. *)
  read_time : io W Z;
  sleep : Z → io W ();
  send_task : string → Py → string → io W AsyncResult;
  (** [result.get(timeout=...)], the timeout of at least 0.1 s *)
  get_result : AsyncResult → Z → io W Reply;
  (** [celery_app.AsyncResult(result.id)] *)
  fresh_handle : AsyncResult → io W AsyncResult }.

(** [sub in s] *)
Fixpoint contains (sub s : string) : bool :=
  startswith sub s || match s with EmptyString => false | String _ s' => contains sub s' end.

Inductive BurstLine := Dispatching (n : Z) | DispatchWall (t : Z) | FailSample (r : Reply)
  | Summary (n ok fail total : Z).

Section burst.
Context {W AsyncResult : Type} `{!BurstApi W AsyncResult}.

Definition send_only (payload : Py) : io W AsyncResult := send_task "judge.execute" payload "judge".

(** [except Exception as exc], with the rest of the loop as the handler. *)
Definition attempt {A} (m : io W A) : io W (outcome A) :=
  λ w, match m w with
       | (Ret a, w') => (Ret (Ret a), w')
       | (Raise e, w') => if is_exception e then (Ret (Raise e), w') else (Raise e, w')
       end.

Definition retryable (e : exn) : bool :=
  contains "Protocol Error" (exn_str e) || contains "ConnectionError" (exn_class e).

(** The loop of [wait_result]; [None] is out of fuel. *)
Fixpoint wait_loop (fuel : nat) (deadline : Z) (last_exc : option exn) (result : AsyncResult) : io W (option Reply) :=
  match fuel with
  | O => mret None
  | S fuel =>
      now ← read_time;
      let remaining := deadline - now in
      if remaining <=? 0 then
        mret (Some (error_reply (match last_exc with Some e => exn_str e | None => "timeout" end)))
      else
        o ← attempt (get_result result (Z.max 100000 remaining));
        match o with
        | Ret reply => mret (Some reply)
        | Raise e =>
            if retryable e then
              _ ← sleep 50000;
              result' ← try_except (fresh_handle result) is_exception (λ _, mret result);
              wait_loop fuel deadline (Some e) result'
            else mret (Some (error_reply (exn_str e)))
        end
  end.

Definition wait_result (fuel : nat) (result : AsyncResult) (timeout : Z) : io W (option Reply) :=
  now ← read_time;
  wait_loop fuel (now + timeout) None result.

Definition reply_accepted (r : Reply) : bool :=
  bool_decide (re_result r = Some "AC") && bool_decide (re_status r = Some "COMPLETED").

Record BurstTally := mkBurstTally { ta_ok : Z; ta_fail : Z }.

Definition burst_wait (fuel : nat) (t : BurstTally) (ar : AsyncResult) : io (list BurstLine * W) BurstTally :=
  reply ← up (wait_result fuel ar (120 * 1000000));
  match reply with
  | None => raise (BaseExc "out of fuel")
  | Some r =>
      if reply_accepted r then mret (mkBurstTally (ta_ok t + 1) (ta_fail t))
      else
        _ ← when (ta_fail t + 1 <=? 3) (emit (FailSample r));
        mret (mkBurstTally (ta_ok t) (ta_fail t + 1))
  end.

(** [int(sys.argv[1]) if len(sys.argv) > 1 else 100] *)
Definition burst_count (int_of_str : string → option Z) (argv : list string) : outcome Z :=
  match argv with
  | _ :: a :: _ => match int_of_str a with Some n => Ret n | None => Raise (ValueError "int()") end
  | _ => Ret 100
  end.

Definition map_io {S A B} (f : A → io S B) (l : list A) : io S (list B) :=
  foreach l [] (λ acc x, y ← f x; mret (acc ++ [y])).

(** The divisions of the summary line raise for no task and for no time. *)
Definition burst_main (fuel : nat) (int_of_str : string → option Z) (argv : list string) :
    io (list BurstLine * W) Z :=
  n ← lift (burst_count int_of_str argv);
  payloads ← map_io (λ i, uuid ← up uuid4_hex; mret (burst_payload uuid i)) (seqZ 0 n);
  _ ← emit (Dispatching n);
  t0 ← up read_time;
  async_results ← map_io (λ p, up (send_only p)) payloads;
  t1 ← up read_time;
  _ ← emit (DispatchWall (t1 - t0));
  t ← foreach async_results (mkBurstTally 0 0) (burst_wait fuel);
  t2 ← up read_time;
  let total := t2 - t0 in
  if (n =? 0) || (total =? 0) then raise (OtherError "ZeroDivisionError" "division by zero")
  else
    _ ← emit (Summary n (ta_ok t) (ta_fail t) total);
    mret (if ta_fail t =? 0 then 0 else 1).

Lemma map_io_length {S A B} (f : A → io S B) l s ys s' :
  map_io f l s = (Ret ys, s') → length ys = length l.
Proof.
  unfold map_io. intros Hr.
  refine (foreach_Ret_inv (λ pre acc, length acc = length pre) l [] _ s ys s' eq_refl _ Hr).
  intros pre x acc w acc' w' Hlen (y & w1 & _ & [= <- <-])%bind_Ret_inv. rewrite !length_app. simpl. lia.
Qed.

(** The exit code tells whether every task was accepted: the counts add up to the
    number of tasks, and the code is 0 exactly when none failed. *)
Theorem burst_exit fuel int_of_str argv s code s' :
  burst_main fuel int_of_str argv s = (Ret code, s') →
  ∃ n ok fail total, burst_count int_of_str argv = Ret n ∧ last s'.1 = Some (Summary n ok fail total) ∧
    n ≠ 0 ∧ 0 ≤ ok ∧ 0 ≤ fail ∧ ok + fail = Z.max 0 n ∧ (code = 0 ↔ ok = Z.max 0 n) ∧ (code = 0 ∨ code = 1).
Proof.
  unfold burst_main. intros Hr. inv_runs. destruct (burst_count int_of_str argv) as [n|e] eqn:Hn; [|done].
  injection Hm as <- <-. apply map_io_length in Hm0, Hm3. rewrite length_seqZ in Hm0.
  assert (0 ≤ ta_ok a6 ∧ 0 ≤ ta_fail a6 ∧ ta_ok a6 + ta_fail a6 = Z.of_nat (length a3)) as (Hok & Hfail & Hsum).
  { refine (foreach_Ret_inv (λ pre t, 0 ≤ ta_ok t ∧ 0 ≤ ta_fail t ∧ ta_ok t + ta_fail t = Z.of_nat (length pre))
      _ _ _ _ _ _ _ _ Hm6); [done|].
    intros pre x acc v1 acc' v2 (H1 & H2 & H3) Hb. unfold burst_wait in Hb.
    apply bind_Ret_inv in Hb as ([r|] & v3 & _ & Hb); [|done]. rewrite length_app. simpl.
    destruct (reply_accepted r); [injection Hb as <- <-; simpl; lia|].
    apply bind_Ret_inv in Hb as (u & v4 & _ & [= <- <-]). simpl. lia. }
  destruct (_ || _) eqn:Hz; [done|]. apply orb_false_iff in Hz as [Hn0 _].
  apply bind_Ret_inv in Hr as (u & v4 & Hem & [= <- <-]). injection Hem as <- <-. simpl.
  eexists n, _, _, _. split_and!; [done|apply last_snoc|lia|done|done|lia| |].
  - destruct (Z.eqb_spec (ta_fail a6) 0); lia.
  - destruct (ta_fail a6 =? 0); auto.
Qed.

(** *** Waiting ends *)
Context (clock : W → Z).
Class BurstLaws : Prop := {
  law_read w : ∃ w', read_time w = (Ret (clock w'), w') ∧ clock w ≤ clock w';
  law_sleep d w : ∃ w', sleep d w = (Ret (), w') ∧ clock w + d ≤ clock w';
  law_get ar d w : clock w ≤ clock (get_result ar d w).2;
  law_fresh ar w : clock w ≤ clock (fresh_handle ar w).2 }.

(** The rounds that fit before the deadline, and one that finds it passed. *)
Definition rounds (deadline now : Z) : Z := (Z.max 0 (deadline - now) + 49999) / 50000 + 1.

Lemma rounds_later deadline now now' : now ≤ now' → rounds deadline now' ≤ rounds deadline now.
Proof. intros Hle. unfold rounds. apply Z.add_le_mono_r, Z.div_le_mono; lia. Qed.
Lemma rounds_sleep deadline now now' :
  0 < deadline - now → now + 50000 ≤ now' → rounds deadline now' + 1 ≤ rounds deadline now.
Proof.
  intros Hpos Hle. unfold rounds. rewrite (Z.max_r 0 (deadline - now)) by lia.
  replace (deadline - now + 49999) with (deadline - now - 50000 + 49999 + 1 * 50000) by lia.
  rewrite Z.div_add by lia. enough ((Z.max 0 (deadline - now') + 49999) / 50000 ≤ (deadline - now - 50000 + 49999) / 50000) by lia.
  destruct (Z_le_dec 0 (deadline - now')); [apply Z.div_le_mono; lia|].
  rewrite Z.max_l, Z.div_small by lia. apply Z.div_pos; lia.
Qed.

Lemma wait_loop_ends `{!BurstLaws} fuel deadline last_exc ar w :
  rounds deadline (clock w) ≤ Z.of_nat fuel → (wait_loop fuel deadline last_exc ar w).1 ≠ Ret None.
Proof.
  revert last_exc ar w. induction fuel as [|fuel IH]; intros last_exc ar w Hf.
  { assert (1 ≤ rounds deadline (clock w)); [|lia]. unfold rounds.
    assert (0 ≤ (Z.max 0 (deadline - clock w) + 49999) / 50000) by (apply Z.div_pos; lia). lia. }
  cbn [wait_loop]. destruct (law_read w) as (w1 & Hr & Hc1). rewrite (run_ret _ _ _ _ _ Hr).
  destruct (Z.leb_spec (deadline - clock w1) 0) as [|Hpos]; [done|].
  pose proof (law_get ar (Z.max 100000 (deadline - clock w1)) w1) as Hc2.
  unfold attempt, mbind, io_bind. destruct (get_result ar _ w1) as [[reply|e] w2]; simpl in *; [done|].
  destruct (is_exception e); [|done]. destruct (retryable e); [|done].
  destruct (law_sleep 50000 w2) as (w3 & -> & Hc3). pose proof (law_fresh ar w3) as Hc4.
  unfold try_except. destruct (fresh_handle ar w3) as [[ar'|e'] w4]; simpl in *.
  - apply IH. pose proof (rounds_sleep deadline (clock w1) (clock w4) ltac:(lia) ltac:(lia)).
    pose proof (rounds_later deadline _ _ Hc1). lia.
  - destruct (is_exception e'); [|done]. simpl.
    apply IH. pose proof (rounds_sleep deadline (clock w1) (clock w4) ltac:(lia) ltac:(lia)).
    pose proof (rounds_later deadline _ _ Hc1). lia.
Qed.

(** Waiting for a result ends whatever the backend answers: every retry sleeps, so
    that the deadline passes after [timeout] / 50 ms rounds, rounded up, and one
    more. *)
Theorem wait_result_ends `{!BurstLaws} fuel ar timeout w :
  rounds timeout 0 ≤ Z.of_nat fuel → (wait_result fuel ar timeout w).1 ≠ Ret None.
Proof.
  intros Hf. unfold wait_result. destruct (law_read w) as (w1 & Hr & _). rewrite (run_ret _ _ _ _ _ Hr).
  apply wait_loop_ends. unfold rounds in *. by replace (clock w1 + timeout - clock w1) with (timeout - 0) by lia.
Qed.
End burst.

(** A backend that only ever answers with protocol errors, on a clock that only
    sleeping moves. *)
#[local] Instance broken_backend : BurstApi Z () := {
  uuid4_hex := mret "0123456789abcdef";
  read_time := gets id;
  sleep d := modify (λ t, t + Z.max 0 d);
  send_task _ _ _ := mret ();
  get_result _ _ := raise (OtherError "InvalidResponse" "Protocol Error: x");
  fresh_handle _ := raise (OtherError "OperationalError" "") }.

#[local] Instance broken_laws : BurstLaws (λ t, t).
Proof.
  split.
  - intros t. exists t. split; [done|lia].
  - intros d t. exists (t + Z.max 0 d). split; [done|lia].
  - intros. simpl. lia.
  - intros. simpl. lia.
Qed.

Lemma wait_result_ends_witness :
  (wait_result 4 () 150000 7).1 ≠ Ret None ∧
  wait_result 4 () 150000 7 = (Ret (Some (error_reply "Protocol Error: x")), 150007).
Proof. split; [apply (wait_result_ends (λ t, t)); by vm_compute|by vm_compute]. Defined.
